(* ===== verification/_CoqProject ===== *)
-Q . S2P
Prelude.v
Words.v
Mask.v
Errors.v
Header.v
Encoder.v
Decoder.v
Utf8.v
Utf8Simd.v
Close.v
Receiver.v
Stream.v
Refine.v
Pump.v
Wire.v
Traffic.v
Sender.v
Bufpool.v
Strings.v
Sha1.v
Handshake.v
Negotiation.v
Window.v
Compressor.v
Decompressor.v
Stored.v
Inflating.v
Inflation.v
Queue.v
ConnCompress.v
SendFlow.v
ConnWrite.v
WriteSpec.v
Delivery.v
Calls.v
Conversation.v
StreamWrite.v
Sending.v
ConnRead.v
Reading.v
Assembling.v
Upgrade.v
Dial.v
Bounded.v
NetConn.v
Messages.v
Exchange.v
Streaming.v
Copying.v
Tunnel.v
Serving.v
Dialing.v
Events.v
Listen.v
Session.v
Echo.v
EchoEvents.v
EchoStream.v
Hub.v
Decimal.v
Regexp.v
Results.v
Charts.v
Families.v
Report.v
Reporting.v
