(* ===== verification/Prelude.v ===== *)
(** * ews, a WebSocket library: verification development

    ews is a Go implementation of RFC 6455 and of permessage-deflate (RFC
    7692).  Its packages, from the wire up: [codec] (frame headers, masking, an
    encoder and an incremental decoder), [internal/utf8], [internal/bufpool],
    [deflate] (history windows, a compressor and a streaming decompressor over
    a third-party DEFLATE), [handshake] (the header fields of the upgrade),
    [ws] (the connection: a receiver and a sender of frames, messages,
    fragments, prepared messages, a send queue, compression, control frames,
    a [net.Conn] adapter), [transport] (the upgrade over TCP or net/http, for
    servers and clients) and [events] (a handler interface over the rest).

    ** Files, in the order they build on each other

    Ground: this file (slices as lists, lengths, the automation); [Words]
    (encoding/binary); [Strings] and [Sha1] (what the handshake uses of the
    standard library, executable); [Errors] (the sentinel errors of every
    package, [result]).

    Frames: [Header], [Mask] (the three builds of codec/mask*.go, behind the
    class [Masker]), [Encoder] ([Enc], codec/encoder.go), [Decoder] ([Dec],
    codec/decoder.go), [Utf8] and [Utf8Simd] (internal/utf8, the portable and
    the SIMD build), [Close] (ws/close.go).

    The receiving machine: [Receiver] ([Rx], ws/receiver.go); [Stream] is its
    specification, a machine that takes the input byte by byte and emits
    events; [Refine] and [Pump] prove that the receiver implements it whatever
    way the input is cut.  [Wire] and [Traffic] say what the machine makes of
    encoded frames and of legal sequences of them.

    The sending machine: [Sender] ([Tx], ws/sender.go).

    Compression: [Window] ([Win]), [Compressor] ([Cmp]), [Decompressor] ([Dz])
    (package deflate); the DEFLATE encoder and inflater are the classes [Flate]
    and [Inflater], what their documentation promises [FlateOk], [InflaterOk]
    and [InflaterSpec], and [Stored] is an implementation of both, so that
    every property has a run.  [Inflating] and [Inflation] hold the
    decompressor's properties.  [ConnCompress] ([Cc]) is a connection's send
    side of it (ws/conn_compress.go), [SendFlow] the two ends' windows.

    The connection: [Queue] ([Qu], ws/queue.go: each critical section and each
    transport write a step, interleaved in any order), [ConnWrite] ([Cw],
    ws/conn_write.go and prepared.go), [ConnRead] ([Cr], ws/conn_read.go,
    control.go, [NewConn]), [NetConn] ([Nc], ws/netconn.go and serve.go),
    [Bufpool] ([Bp]).  [WriteSpec], [Delivery], [Calls], [Conversation],
    [StreamWrite] and [Sending] prove the write side; [Reading], [Assembling],
    [Messages] and [Bounded] the read side; [Exchange] two connections
    together, [Streaming] a message read in pieces, [Copying] one copied to a
    writer and [Tunnel] the stream of bytes a [netConn] makes of them.

    The handshake: [Handshake] ([Hs], package handshake), [Upgrade] ([Up],
    transport/upgrade.go and the request parser and replies of serve.go),
    [Listen] ([Ln], the accept loops of serve.go), [Dial] ([Dl],
    transport/dial.go); [Negotiation] says what a server makes of a request,
    [Serving] and [Dialing] follow one over the wire
    to the two connections that come of it, and [Session] on to the messages
    they carry.  [Echo] is examples/echo and its client,
    [EchoEvents] ([Ee]) examples/echo-events, [EchoStream]
    examples/echo-stream and the -file mode of its client, [Hub]
    examples/broadcast.  [Events] ([Ev]) is package events.

    The benchmarks' report (bench/cmd/results): [Decimal] and [Regexp] (what
    it uses of strconv, fmt and regexp, over the Standard Library's
    [spec_float]), [Results] ([Rs], reading benchmark output, tables, the
    comparison with the committed run), [Charts] ([Ch], the SVG text),
    [Families] and [Report] ([Fam], [Rp]: the program around them), and
    [Reporting], its properties.  On the committed raw.txt files [Rp.main]
    gives the committed RESULTS.md and SVG files byte for byte.

    ** How the code is modelled

    Definitions keep the source's names, a Module per component standing for
    the receiver of its methods.  A byte is a [Z] in [0, 256); a machine word
    a [Z] with its wrap-around written out ([u8], [u16], [u64]); a slice its
    contents, with the capacity beside it where the code looks at it; a slice
    handed out borrowed its contents, since every borrower uses it before the
    next call.  Pointers that matter are addresses in a store ([windows]) or
    carried identities.  A Go error is an [option error], or an [Err] where
    the other results mean nothing.  Methods are functions from state to
    state; the read side, which stops at the first error, is a state and error
    monad ([Cr.io]).  Goroutines are steps of a relation ([Queue], [Listen],
    [Hub], the watcher of [Dial]); elsewhere a definition is what a method does
    between taking and releasing its lock.

    What is not under the repository is an argument: the transport's writes
    ([Transport], with [perfect] and [Reliable] ones), the results of its
    reads to come (a [script]), random bytes and what pools hand out ([World],
    [ReadWorld], a pick), [append]'s growth ([Grow]), and for [Dial] what
    net/url, net/http and crypto/tls return ([Dl.network]).

    Loops over input of known length take their length as fuel.  Loops that
    wait for a transport or a peer take [fuel] and return [None] when it is
    used up; their theorems give a bound in the bytes to come that is enough,
    and conclude that the call returns.

    ** What is proved

    On the wire: the encoder emits exactly the frames the RFC allows; masking
    builds agree, and so do chunk-wise and whole masking; both UTF-8 builds
    decide exactly the encodings of scalar values; close payloads are accepted
    and round-trip as section 7.4 says.  The receiver refines the byte machine
    (events, independence of the cutting, an invariant of its buffers, failure
    terminal), the sender emits legal traces.

    Compression: the window holds the last bytes; both ends' windows agree
    under takeover whatever is interleaved; the decompressor always returns,
    within its limit, with the message when there is one, streamed or whole.

    A connection: any sequence of calls is understood by the peer as exactly
    the messages sent, and every call succeeds as its contract says
    ([Sending]); frames reach the transport in queue order, waiting means
    written, and a failed write is reported ever after ([Queue]); [ReadMessage] does what the events call for
    ([Messages]); a message read in pieces, compressed or not, is the same
    message, wherever the reading stops ([Streaming]), and so is one copied to a
    writer, which is given what came before its own error ([Copying]); a tunnel
    is a byte stream ([Tunnel]); any run over any transport leaves a well-formed
    connection ([Bounded]); what one end sends the other reads ([Exchange]),
    and an echo comes back as it was sent, from a server that holds the message
    ([Echo]), from one made of callbacks ([EchoEvents]) and from one that does
    not hold it, as does a file sent without being held ([EchoStream]); a hub's
    clients are given every message relayed while they are there, or are closed ([Hub]).

    Around it: client and server negotiate mirrored parameters ([Handshake]),
    and the server refuses and settles exactly what it should ([Negotiation]),
    over the wire too ([Serving], [Dialing]), and what is then sent over the two
    connections is read ([Session]); [Close] stops every accept loop whose
    listener is its own ([Listen]); a handler is told of exactly what the peer's
    bytes call for ([Events]).  The report of a benchmark run is its families'
    tables, cell by cell, and a printed line is read as what it says
    ([Reporting]);
    the charts' bars lie inside their panels ([Charts]).  A few theorems show
    behaviour the source does not intend:
    [Sending.WriteFrom_hides_truncation], [Sending.sendClose_overtakes],
    [Listen.Close_misses_shared], [Dial.Dial_returns_expired],
    [Reporting.checkBaseline_silent] and the examples at the end of [Dialing]
    and [Results].

    ** What is not modelled

    Deadlines and addresses (the transport's; only the race of [Dial]'s last
    deadline is), the back-off's sleeping, the text of error messages other
    than those sent to a client, and the allocations and pooling the code does
    for speed beyond what decides a capacity or a reuse.  The Go memory model:
    a critical section is atomic.  [Dial] starts from a parsed URL; the
    request's writing and the response's reading are net/http's, stated as
    hypotheses where a theorem needs them.  bench/internal/harness and
    bench/cmd/goversion, which set up servers of other libraries for
    measurement, and the other examples, command lines around calls modelled
    here.  Of the report, what goes to the standard error; sort.SliceStable is
    an insertion sort, which gives its result for every order. *)

From stdpp Require Import prelude.

#[global] Open Scope Z_scope.

(** ** Go slices as lists

    A Go [[]byte] is a [list Z] whose elements are bytes; an index and a
    length is a [Z].  [len] is Go's [len], [slice l i j] is [l[i:j]],
    [from l i] is [l[i:]], [idx l i] is [l[i]].  Out of range these return
    what is there; the components prove the ranges the code relies on. *)

Definition len {A} (l : list A) : Z := Z.of_nat (length l).
Definition from {A} (l : list A) (i : Z) : list A := drop (Z.to_nat i) l.
Definition upto {A} (l : list A) (j : Z) : list A := take (Z.to_nat j) l.
Definition slice {A} (l : list A) (i j : Z) : list A := upto (from l i) (j - i).
Definition idx (l : list Z) (i : Z) : Z := default 0 (l !! Z.to_nat i).

(** [splice l i bs] overwrites [l[i:i+len(bs)]] with [bs]: what [copy(l[i:], bs)]
    and the [binary.PutUint] family do when [bs] fits. *)
Definition splice {A} (l : list A) (i : Z) (bs : list A) : list A :=
  upto l i ++ bs ++ from l (i + len bs).

Definition zeros (n : Z) : list Z := replicate (Z.to_nat n) 0.

(** ** Machine integers *)

Definition u8 (z : Z) : Z := z mod 2 ^ 8.
Definition u16 (z : Z) : Z := z mod 2 ^ 16.
Definition u64 (z : Z) : Z := z mod 2 ^ 64.

Definition is_byte (b : Z) : Prop := 0 <= b < 256.
Definition bytes_ok (l : list Z) : Prop := Forall is_byte l.

#[export] Instance is_byte_dec b : Decision (is_byte b).
Proof. unfold is_byte. apply _. Defined.

#[export] Instance bytes_ok_dec l : Decision (bytes_ok l).
Proof. unfold bytes_ok. apply _. Defined.

(** ** Length automation *)

Lemma len_nonneg {A} (l : list A) : 0 <= len l.
Proof. unfold len. lia. Qed.

Lemma len_nil {A} : len (@nil A) = 0.
Proof. done. Qed.

Lemma len_cons {A} (x : A) l : len (x :: l) = 1 + len l.
Proof. unfold len. cbn [length]. lia. Qed.

Lemma len_app {A} (l k : list A) : len (l ++ k) = len l + len k.
Proof. unfold len. rewrite length_app. lia. Qed.

Lemma len_from {A} (l : list A) i : len (from l i) = Z.max 0 (len l - Z.max 0 i).
Proof. unfold len, from. rewrite length_drop. lia. Qed.

Lemma len_upto {A} (l : list A) j : len (upto l j) = Z.min (Z.max 0 j) (len l).
Proof. unfold len, upto. rewrite length_take. lia. Qed.

Lemma len_slice {A} (l : list A) i j :
  len (slice l i j) = Z.min (Z.max 0 (j - i)) (Z.max 0 (len l - Z.max 0 i)).
Proof. unfold slice. by rewrite len_upto, len_from. Qed.

Lemma len_splice {A} (l bs : list A) i :
  0 <= i -> i + len bs <= len l -> len (splice l i bs) = len l.
Proof.
  intros. unfold splice. rewrite !len_app, len_upto, len_from.
  pose proof (len_nonneg bs). lia.
Qed.

Lemma len_zeros n : len (zeros n) = Z.max 0 n.
Proof. unfold len, zeros. rewrite length_replicate. lia. Qed.

Lemma len_map {A B} (f : A -> B) l : len (f <$> l) = len l.
Proof. unfold len. by rewrite length_fmap. Qed.

Lemma len_0_nil {A} (l : list A) : len l = 0 <-> l = [].
Proof. unfold len. destruct l; cbn [length]; split; intros; try done; lia. Qed.

Create Rewrite HintDb golen.
#[export] Hint Rewrite @len_nil @len_cons @len_app @len_from @len_upto
  @len_slice @len_zeros @len_map : golen.

(** Saturates the context with [0 <= len l] for every length in sight and
    closes the arithmetic. *)
Ltac len_sat :=
  repeat match goal with
  | |- context [len ?l] =>
      lazymatch goal with H : 0 <= len l |- _ => fail | _ => pose proof (len_nonneg l) end
  | _ : context [len ?l] |- _ =>
      lazymatch goal with H : 0 <= len l |- _ => fail | _ => pose proof (len_nonneg l) end
  end.

Ltac len_simp := autorewrite with golen in *.
Ltac len_lia := len_simp; len_sat; lia.

(** ** Slicing lemmas *)

Section slices.
Context {A : Type}.
Implicit Types l k : list A.

Lemma from_0 l i : i <= 0 -> from l i = l.
Proof. intros. unfold from. by replace (Z.to_nat i) with 0%nat by lia. Qed.

Lemma upto_0 l i : i <= 0 -> upto l i = [].
Proof. intros. unfold upto. by replace (Z.to_nat i) with 0%nat by lia. Qed.

Lemma from_all l i : len l <= i -> from l i = [].
Proof. intros. unfold from, len in *. apply drop_ge. lia. Qed.

Lemma upto_all l i : len l <= i -> upto l i = l.
Proof. intros. unfold upto, len in *. apply take_ge. lia. Qed.

Lemma upto_from l i : upto l i ++ from l i = l.
Proof. apply take_drop. Qed.

Lemma from_from l i j : 0 <= i -> 0 <= j -> from (from l i) j = from l (i + j).
Proof. intros. unfold from. rewrite drop_drop. f_equal. lia. Qed.

Lemma upto_upto l i j : upto (upto l i) j = upto l (Z.min i j).
Proof. unfold upto. rewrite take_take. f_equal. lia. Qed.

Lemma from_app_ge l k i : len l <= i -> from (l ++ k) i = from k (i - len l).
Proof. intros. unfold from, len in *. rewrite drop_app_ge by lia. f_equal. lia. Qed.

Lemma from_app_le l k i : i <= len l -> from (l ++ k) i = from l i ++ k.
Proof. intros. unfold from, len in *. by rewrite drop_app_le by lia. Qed.

Lemma upto_app_le l k i : i <= len l -> upto (l ++ k) i = upto l i.
Proof. intros. unfold upto, len in *. by rewrite take_app_le by lia. Qed.

Lemma upto_app_ge l k i : len l <= i -> upto (l ++ k) i = l ++ upto k (i - len l).
Proof. intros. unfold upto, len in *. rewrite take_app_ge by lia. do 2 f_equal. lia. Qed.

Lemma from_app_len l k : from (l ++ k) (len l) = k.
Proof. rewrite from_app_ge by lia. apply from_0. lia. Qed.

Lemma upto_app_len l k : upto (l ++ k) (len l) = l.
Proof. rewrite upto_app_le by lia. by apply upto_all. Qed.

Lemma upto_split l i j : 0 <= i <= j -> upto l j = upto l i ++ slice l i j.
Proof.
  intros. unfold slice, upto, from.
  replace (Z.to_nat j) with (Z.to_nat i + Z.to_nat (j - i))%nat by lia.
  by rewrite take_take_drop.
Qed.

Lemma slice_from l i j : 0 <= i <= j -> slice l i j ++ from l j = from l i.
Proof.
  intros. unfold slice. rewrite <- (upto_from (from l i) (j - i)) at 2.
  rewrite from_from by lia. by replace (i + (j - i)) with j by lia.
Qed.

Lemma slice_app_l l k i j : j <= len l -> 0 <= i -> slice (l ++ k) i j = slice l i j.
Proof.
  intros. unfold slice. destruct (decide (i <= len l)).
  - rewrite from_app_le by lia. apply upto_app_le. rewrite len_from. lia.
  - rewrite !upto_0 by lia. done.
Qed.

Lemma slice_app_r l k i j : len l <= i -> slice (l ++ k) i j = slice k (i - len l) (j - len l).
Proof.
  intros. unfold slice. rewrite from_app_ge by lia. f_equal. lia.
Qed.

Lemma slice_all l n : n = len l -> slice l 0 n = l.
Proof. intros ->. unfold slice. rewrite from_0 by lia. apply upto_all. lia. Qed.
End slices.

Lemma slice_1 (l : list Z) i : 0 <= i < len l -> slice l i (i + 1) = [idx l i].
Proof.
  intros [Hi Hl]. unfold slice, upto, from, idx, len in *. replace (i + 1 - i) with 1 by lia.
  destruct (lookup_lt_is_Some_2 l (Z.to_nat i)) as [x Hx]; [lia |].
  by rewrite (drop_S _ _ _ Hx), Hx.
Qed.

Lemma bytes_ok_app l k : bytes_ok (l ++ k) <-> bytes_ok l /\ bytes_ok k.
Proof. apply Forall_app. Qed.

Lemma bytes_ok_from l i : bytes_ok l -> bytes_ok (from l i).
Proof. apply Forall_drop. Qed.

Lemma bytes_ok_upto l i : bytes_ok l -> bytes_ok (upto l i).
Proof. apply Forall_take. Qed.

Lemma bytes_ok_slice l i j : bytes_ok l -> bytes_ok (slice l i j).
Proof. intros. by apply bytes_ok_upto, bytes_ok_from. Qed.

Lemma bytes_ok_splice l i k : bytes_ok l -> bytes_ok k -> bytes_ok (splice l i k).
Proof.
  intros. unfold splice. rewrite !bytes_ok_app.
  split; [by apply bytes_ok_upto | split; [done | by apply bytes_ok_from]].
Qed.

Lemma bytes_ok_zeros n : bytes_ok (zeros n).
Proof. apply Forall_replicate. unfold is_byte. lia. Qed.

Lemma bytes_ok_idx l i : bytes_ok l -> is_byte (idx l i).
Proof.
  intros H. unfold idx. destruct (l !! Z.to_nat i) eqn:E; cbn.
  - by eapply Forall_lookup_1.
  - unfold is_byte. lia.
Qed.

Lemma splice_nil (l : list Z) i : splice l i [] = l.
Proof. unfold splice. rewrite len_nil, Z.add_0_r. apply upto_from. Qed.

Lemma upto_splice (l bs : list Z) i :
  0 <= i <= len l -> upto (splice l i bs) (i + len bs) = upto l i ++ bs.
Proof.
  intros. unfold splice. rewrite app_assoc, upto_app_le by (len_lia).
  apply upto_all. len_lia.
Qed.

Lemma splice_splice (l bs cs : list Z) i :
  0 <= i -> i + len bs <= len l -> len bs = len cs -> splice (splice l i bs) i cs = splice l i cs.
Proof.
  intros Hi Hl E. unfold splice at 1 3. f_equal; [| f_equal].
  - unfold splice. rewrite upto_app_le by len_lia. apply upto_all. len_lia.
  - unfold splice. rewrite app_assoc, from_app_ge by len_lia.
    rewrite from_0 by len_lia. by rewrite E.
Qed.

Create HintDb ews.
#[export] Hint Resolve bytes_ok_from bytes_ok_upto bytes_ok_slice bytes_ok_splice
  bytes_ok_zeros bytes_ok_idx len_nonneg : ews.
