(* ===== verification/Words.v ===== *)
(** * Words: the [encoding/binary] accessors the code uses

    [le_get]/[le_put] are [binary.LittleEndian.Uint32/64] and [PutUint32/64]
    at the width of the list, [be_get]/[be_put] the big-endian ones.  The
    unsafe word loads of the mask routines are little-endian too, since every
    architecture they are built for is. *)

From stdpp Require Import prelude.
From S2P Require Import Prelude.

Fixpoint le_get (l : list Z) : Z :=
  match l with
  | [] => 0
  | b :: l => Z.lor b (Z.shiftl (le_get l) 8)
  end.

Fixpoint le_put (n : nat) (v : Z) : list Z :=
  match n with
  | O => []
  | S n => Z.land v 255 :: le_put n (Z.shiftr v 8)
  end.

Definition be_get (l : list Z) : Z := le_get (reverse l).
Definition be_put (n : nat) (v : Z) : list Z := reverse (le_put n v).

(** ** Bits of bytes *)

Lemma land_255 v : Z.land v 255 = v mod 256.
Proof. change 255 with (Z.ones 8). rewrite Z.land_ones by lia. done. Qed.

Lemma is_byte_land v : is_byte (Z.land v 255).
Proof. rewrite land_255. unfold is_byte. pose proof (Z.mod_pos_bound v 256). lia. Qed.

Lemma byte_testbit_high b i : is_byte b -> 8 <= i -> Z.testbit b i = false.
Proof.
  intros [H1 H2] Hi. destruct (decide (b = 0)) as [-> | Hb]; [apply Z.bits_0 |].
  apply Z.bits_above_log2; [done |].
  assert (Z.log2 b < 8); [| lia]. apply Z.log2_lt_pow2; [lia | done].
Qed.

Lemma high_bits_byte v : 0 <= v -> (forall i, 8 <= i -> Z.testbit v i = false) -> is_byte v.
Proof.
  intros Hv H. split; [done |]. rewrite <- (Z.mod_small v 256); [apply Z.mod_pos_bound; lia |].
  assert (Z.land v 255 = v) as E.
  { apply Z.bits_inj'. intros i Hi. rewrite Z.land_spec. change 255 with (Z.ones 8).
    destruct (decide (i < 8)).
    - rewrite Z.ones_spec_low by lia. apply andb_true_r.
    - rewrite H by lia. done. }
  rewrite land_255 in E. rewrite <- E. apply Z.mod_pos_bound. lia.
Qed.

Lemma is_byte_lxor a b : is_byte a -> is_byte b -> is_byte (Z.lxor a b).
Proof.
  intros Ha Hb. apply high_bits_byte.
  - apply Z.lxor_nonneg. destruct Ha, Hb. tauto.
  - intros i Hi. by rewrite Z.lxor_spec, !byte_testbit_high.
Qed.

Lemma is_byte_land_l a b : is_byte a -> 0 <= b -> is_byte (Z.land a b).
Proof.
  intros Ha Hb. apply high_bits_byte.
  - apply Z.land_nonneg. lia.
  - intros i Hi. by rewrite Z.land_spec, byte_testbit_high.
Qed.

Lemma is_byte_lor a b : is_byte a -> is_byte b -> is_byte (Z.lor a b).
Proof.
  intros Ha Hb. apply high_bits_byte.
  - apply Z.lor_nonneg. destruct Ha, Hb. tauto.
  - intros i Hi. by rewrite Z.lor_spec, !byte_testbit_high.
Qed.

Lemma lor_shift_low b v : is_byte b -> Z.land (Z.lor b (Z.shiftl v 8)) 255 = b.
Proof.
  intros Hb. apply Z.bits_inj'. intros i Hi. change 255 with (Z.ones 8).
  rewrite Z.land_spec, Z.lor_spec. destruct (decide (i < 8)).
  - rewrite Z.shiftl_spec_low, Z.ones_spec_low by lia. by rewrite orb_false_r, andb_true_r.
  - rewrite Z.ones_spec_high, byte_testbit_high by (done || lia). by rewrite andb_false_r.
Qed.

Lemma lor_shift_high b v : is_byte b -> Z.shiftr (Z.lor b (Z.shiftl v 8)) 8 = v.
Proof.
  intros Hb. apply Z.bits_inj'. intros i Hi.
  rewrite Z.shiftr_spec, Z.lor_spec, byte_testbit_high, Z.shiftl_spec by (done || lia).
  cbn. f_equal. lia.
Qed.

(** ** Little endian *)

Lemma length_le_put n v : length (le_put n v) = n.
Proof. revert v. induction n; intros; cbn; [done |]. by rewrite IHn. Qed.

Lemma length_be_put n v : length (be_put n v) = n.
Proof. unfold be_put. by rewrite length_reverse, length_le_put. Qed.

Lemma len_le_put n v : len (le_put n v) = Z.of_nat n.
Proof. unfold len. by rewrite length_le_put. Qed.

Lemma len_be_put n v : len (be_put n v) = Z.of_nat n.
Proof. unfold len. by rewrite length_be_put. Qed.

#[export] Hint Rewrite len_le_put len_be_put : golen.

Lemma bytes_ok_le_put n v : bytes_ok (le_put n v).
Proof.
  revert v. induction n; intros; cbn; constructor; [apply is_byte_land | apply IHn].
Qed.

Lemma bytes_ok_reverse l : bytes_ok l -> bytes_ok (reverse l).
Proof. intros. by apply Forall_reverse. Qed.

Lemma bytes_ok_be_put n v : bytes_ok (be_put n v).
Proof. apply bytes_ok_reverse, bytes_ok_le_put. Qed.

#[export] Hint Resolve bytes_ok_le_put bytes_ok_be_put bytes_ok_reverse : ews.

Lemma le_put_get l : bytes_ok l -> le_put (length l) (le_get l) = l.
Proof.
  induction 1 as [| b l Hb Hl IH]; cbn; [done |].
  by rewrite lor_shift_low, lor_shift_high, IH.
Qed.

Lemma le_get_put n v : le_get (le_put n v) = v mod 2 ^ (8 * Z.of_nat n).
Proof.
  rewrite <- Z.land_ones by lia. revert v.
  induction n as [| n IH]; intros v; [cbn; by rewrite Z.land_0_r |].
  cbn [le_put le_get]. rewrite IH. apply Z.bits_inj'. intros i Hi. change 255 with (Z.ones 8).
  rewrite Z.lor_spec, !Z.land_spec. destruct (decide (i < 8)).
  - rewrite Z.shiftl_spec_low, !Z.ones_spec_low by lia. by rewrite orb_false_r.
  - rewrite Z.ones_spec_high, Z.shiftl_spec, Z.land_spec, Z.shiftr_spec by lia.
    rewrite andb_false_r. cbn [orb]. replace (i - 8 + 8) with i by lia. f_equal.
    destruct (decide (i < 8 * Z.of_nat (S n))).
    + by rewrite !Z.ones_spec_low by lia.
    + by rewrite !Z.ones_spec_high by lia.
Qed.

Lemma le_get_nonneg l : bytes_ok l -> 0 <= le_get l.
Proof.
  induction 1 as [| b l [] Hl IH]; cbn; [done |].
  apply Z.lor_nonneg. split; [done |]. by apply Z.shiftl_nonneg.
Qed.

Lemma le_get_bound l : bytes_ok l -> 0 <= le_get l < 2 ^ (8 * len l).
Proof.
  intros H. split; [by apply le_get_nonneg |].
  rewrite <- (le_put_get l H) at 1. rewrite le_get_put. apply Z.mod_pos_bound.
  apply Z.pow_pos_nonneg; len_lia.
Qed.

Lemma le_get_app l k :
  bytes_ok l -> le_get (l ++ k) = Z.lor (le_get l) (Z.shiftl (le_get k) (8 * len l)).
Proof.
  induction 1 as [| b l Hb Hl IH]; [cbn; by rewrite Z.shiftl_0_r |].
  cbn [app le_get]. rewrite IH, Z.shiftl_lor, Z.lor_assoc, Z.shiftl_shiftl by len_lia.
  do 2 f_equal. rewrite len_cons. lia.
Qed.

(** The word-at-a-time xor is the byte-at-a-time xor. *)
Lemma le_put_lxor l k :
  bytes_ok l -> bytes_ok k -> length l = length k ->
  le_put (length l) (Z.lxor (le_get l) (le_get k)) = zip_with Z.lxor l k.
Proof.
  intros Hl. revert k. induction Hl as [| b l Hb Hl IH]; intros [| c k] Hk E; try done.
  inversion Hk as [| ?? Hc Hk']; subst. cbn [length le_get le_put zip_with]. f_equal.
  - change 255 with (Z.ones 8).
    replace (Z.land _ (Z.ones 8)) with
      (Z.lxor (Z.land (Z.lor b (Z.shiftl (le_get l) 8)) 255)
              (Z.land (Z.lor c (Z.shiftl (le_get k) 8)) 255)).
    + by rewrite !lor_shift_low.
    + apply Z.bits_inj'. intros i Hi. rewrite Z.lxor_spec, !Z.land_spec, Z.lxor_spec.
      change 255 with (Z.ones 8). destruct (Z.testbit (Z.ones 8) i);
        by rewrite ?andb_true_r, ?andb_false_r.
  - rewrite Z.shiftr_lxor, !lor_shift_high by done. apply IH; [done |]. cbn in E. lia.
Qed.

(** ** Big endian *)

Lemma be_get_put n v : be_get (be_put n v) = v mod 2 ^ (8 * Z.of_nat n).
Proof. unfold be_get, be_put. rewrite reverse_involutive. apply le_get_put. Qed.

Lemma be_put_get l : bytes_ok l -> be_put (length l) (be_get l) = l.
Proof.
  intros H. unfold be_get, be_put. rewrite <- (length_reverse l), le_put_get by eauto with ews.
  apply reverse_involutive.
Qed.

Lemma be_get_bound l : bytes_ok l -> 0 <= be_get l < 2 ^ (8 * len l).
Proof.
  intros H. unfold be_get. replace (len l) with (len (reverse l)).
  - apply le_get_bound. eauto with ews.
  - unfold len. by rewrite length_reverse.
Qed.
