(* ===== verification/Mask.v ===== *)
(** * Payload masking (codec/mask.go, mask_swar_generic.go, mask_swar.go, mask_simd.go)

    Three builds of the unexported [mask] exist; the rest of the library is
    proved against the interface [Masker]/[MaskerOk], which each of the three
    discharges.  [mask dst src] writes [len src] bytes; the routines are run
    both with [dst] and [src] disjoint (the encoder's scratch) and with
    [dst] the same slice as [src] ([Mask]), so the model keeps the two buffers
    and a flag that says a write to one is a write to the other. *)

From stdpp Require Import prelude.
From S2P Require Import Prelude Words.

(** ** Reference definition: byte [i] is xored with key byte [(offset+i) mod 4]. *)

Definition mask_ref (key : list Z) (offset : Z) (src : list Z) : list Z :=
  imap (fun i b => Z.lxor b (idx key (Z.land (offset + Z.of_nat i) 3))) src.

(** ** The two buffers *)

Record views := Views { vsrc : list Z; vdst : list Z }.

(** A store of [bs] at [dst[i:]]; [al] says [dst] is [src]. *)
Definition put (al : bool) (m : views) (i : Z) (bs : list Z) : views :=
  let d := splice (vdst m) i bs in
  {| vsrc := if al then d else vsrc m; vdst := d |}.

(** [dst[i:i+w] = src[i:i+w] ^ k] for a [w]-byte little-endian word [k]. *)
Definition xor_word (al : bool) (w : nat) (k : Z) (m : views) (i : Z) : views :=
  put al m i (le_put w (Z.lxor (le_get (slice (vsrc m) i (i + Z.of_nat w))) k)).

(** [dst[i] = src[i] ^ b]. *)
Definition xor_byte (al : bool) (b : Z) (m : views) (i : Z) : views :=
  put al m i [Z.lxor (idx (vsrc m) i) b].

Definition xor_words (al : bool) (w : nat) (k : Z) (i : Z) (offs : list Z) (m : views) : views :=
  fold_left (fun m o => xor_word al w k m (i + o)) offs m.

Definition rotateMaskKey (key : list Z) (offset : Z) : list Z :=
  let offset := Z.land offset 3 in
  if negb (offset =? 0) then
    [idx key offset; idx key (Z.land (u8 (offset + 1)) 3);
     idx key (Z.land (u8 (offset + 2)) 3); idx key (Z.land (u8 (offset + 3)) 3)]
  else key.

(** ** mask_swar_generic.go

    [src] and [dst] are resliced in lockstep, so both slices are the arrays
    from one running offset [o]; [n] is the length of the original [src]. *)

Module generic.

Fixpoint loop64 (fuel : nat) (al : bool) (k64 n : Z) (st : Z * views) : Z * views :=
  match fuel with
  | O => st
  | S fuel =>
      let '(o, m) := st in
      if 64 <=? n - o then
        loop64 fuel al k64 n
          (o + 64, xor_words al 8 k64 o [0; 8; 16; 24; 32; 40; 48; 56] m)
      else st
  end.

Fixpoint tail (cnt : nat) (al : bool) (key : list Z) (o i : Z) (m : views) : views :=
  match cnt with
  | O => m
  | S cnt => tail cnt al key o (i + 1) (xor_byte al (idx key i) m (o + i))
  end.

Definition mask (al : bool) (dst src key : list Z) (offset : Z) : list Z :=
  let key := rotateMaskKey key offset in
  let n := len src in
  let k32 := le_get key in
  let k64 := Z.lor k32 (Z.shiftl k32 32) in
  let '(o, m) := loop64 (S (length src)) al k64 n (0, Views src dst) in
  let '(o, m) := if 32 <=? n - o
    then (o + 32, xor_words al 8 k64 o [0; 8; 16; 24] m) else (o, m) in
  let '(o, m) := if 16 <=? n - o
    then (o + 16, xor_words al 8 k64 o [0; 8] m) else (o, m) in
  let '(o, m) := if 8 <=? n - o
    then (o + 8, xor_word al 8 k64 m o) else (o, m) in
  let '(o, m) := if 4 <=? n - o
    then (o + 4, xor_word al 4 k32 m o) else (o, m) in
  vdst (tail (Z.to_nat (n - o)) al key o 0 m).

End generic.

(** ** mask_swar.go: one index [i] into both buffers *)

Module swar.

Fixpoint loop64 (fuel : nat) (al : bool) (k64 n i : Z) (m : views) : Z * views :=
  match fuel with
  | O => (i, m)
  | S fuel =>
      if 64 <=? n - i then
        loop64 fuel al k64 n (i + 64)
          (xor_words al 8 k64 i [0; 8; 16; 24; 32; 40; 48; 56] m)
      else (i, m)
  end.

Fixpoint tail (fuel : nat) (al : bool) (key : list Z) (n i : Z) (m : views) : views :=
  match fuel with
  | O => m
  | S fuel =>
      if i <? n then tail fuel al key n (i + 1) (xor_byte al (idx key (Z.land i 3)) m i)
      else m
  end.

(** Everything after the 64-byte loop, shared with mask_simd.go. *)
Definition rest (al : bool) (key : list Z) (k32 k64 n i : Z) (m : views) : views :=
  let '(i, m) := if 32 <=? n - i
    then (i + 32, xor_words al 8 k64 i [0; 8; 16; 24] m) else (i, m) in
  let '(i, m) := if 16 <=? n - i
    then (i + 16, xor_words al 8 k64 i [0; 8] m) else (i, m) in
  let '(i, m) := if 8 <=? n - i
    then (i + 8, xor_words al 8 k64 i [0] m) else (i, m) in
  let '(i, m) := if 4 <=? n - i
    then (i + 4, xor_word al 4 k32 m i) else (i, m) in
  tail (Z.to_nat (n - i)) al key n i m.

Definition mask (al : bool) (dst src key : list Z) (offset : Z) : list Z :=
  let key := rotateMaskKey key offset in
  let n := len src in
  let k32 := le_get key in
  let k64 := Z.lor k32 (Z.shiftl k32 32) in
  let '(i, m) := loop64 (S (length src)) al k64 n 0 (Views src dst) in
  vdst (rest al key k32 k64 n i m).

End swar.

(** ** mask_simd.go: 16-byte vectors from [simdMin] up, then the SWAR loop

    [LoadUint8x16Array], [Xor] and [StoreArray] move 16 bytes; the vector
    xor is the xor of the 128-bit little-endian words. *)

Module simd.

Definition simdMin : Z := 1024.

Fixpoint vloop (fuel : nat) (al : bool) (vkey n i : Z) (m : views) : Z * views :=
  match fuel with
  | O => (i, m)
  | S fuel =>
      if 64 <=? n - i then
        vloop fuel al vkey n (i + 64) (xor_words al 16 vkey i [0; 16; 32; 48] m)
      else (i, m)
  end.

Definition mask (al : bool) (dst src key : list Z) (offset : Z) : list Z :=
  let key := rotateMaskKey key offset in
  let n := len src in
  let k32 := le_get key in
  let k64 := Z.lor k32 (Z.shiftl k32 32) in
  let '(i, m) :=
    if simdMin <=? n then
      let vkey := Z.lor k64 (Z.shiftl k64 64) in
      vloop (S (length src)) al vkey n 0 (Views src dst)
    else (0, Views src dst) in
  let '(i, m) := swar.loop64 (S (length src)) al k64 n i m in
  vdst (swar.rest al key k32 k64 n i m).

End simd.

(** ** The interface the rest of the library uses *)

Class Masker := mask : bool -> list Z -> list Z -> list Z -> Z -> list Z.

Class MaskerOk (M : Masker) : Prop := mask_ok : forall al dst src key offset,
  bytes_ok src -> bytes_ok key -> len key = 4 -> len src <= len dst ->
  0 <= offset < 256 -> (al = true -> dst = src) ->
  mask al dst src key offset = mask_ref key offset src ++ from dst (len src).

(** mask.go: [Mask] works in place and returns the next offset. *)
Definition Mask {M : Masker} (payload key : list Z) (offset : Z) : list Z * Z :=
  (mask true payload payload key offset,
   Z.land (u8 (offset + u8 (Z.land (len payload) 3))) 3).

(** ** Lemmas on the reference *)

Lemma length_mask_ref key o l : length (mask_ref key o l) = length l.
Proof. apply length_imap. Qed.

Lemma len_mask_ref key o l : len (mask_ref key o l) = len l.
Proof. unfold len. by rewrite length_mask_ref. Qed.

#[export] Hint Rewrite len_mask_ref : golen.

Lemma mask_ref_nil key o : mask_ref key o [] = [].
Proof. done. Qed.

Lemma mask_ref_cons key o b l :
  mask_ref key o (b :: l) = Z.lxor b (idx key (Z.land o 3)) :: mask_ref key (o + 1) l.
Proof.
  unfold mask_ref. cbn [imap]. rewrite Z.add_0_r. f_equal.
  apply imap_ext. intros i x _. cbn. do 3 f_equal. lia.
Qed.

Lemma mask_ref_app key o l k :
  mask_ref key o (l ++ k) = mask_ref key o l ++ mask_ref key (o + len l) k.
Proof.
  revert o. induction l as [| b l IH]; intros o.
  - cbn. by rewrite Z.add_0_r.
  - cbn [app]. rewrite !mask_ref_cons, IH. cbn [app]. do 3 f_equal. rewrite len_cons. lia.
Qed.

Lemma land3 x : Z.land x 3 = x mod 4.
Proof. change 3 with (Z.ones 2). rewrite Z.land_ones by lia. done. Qed.

Lemma land3_range x : 0 <= Z.land x 3 < 4.
Proof. rewrite land3. apply Z.mod_pos_bound. lia. Qed.

Lemma mask_ref_mod key o o' l : o mod 4 = o' mod 4 -> mask_ref key o l = mask_ref key o' l.
Proof.
  intros E. apply imap_ext. intros i x _. do 2 f_equal. rewrite !land3.
  rewrite (Z.add_mod o), (Z.add_mod o'), E by lia. done.
Qed.

Lemma mask_ref_bytes key o l : bytes_ok key -> bytes_ok l -> bytes_ok (mask_ref key o l).
Proof.
  intros Hk H. revert o. induction H as [| b l Hb Hl IH]; intros o; [constructor |].
  rewrite mask_ref_cons. constructor; [| apply IH]. apply is_byte_lxor; eauto with ews.
Qed.

#[export] Hint Resolve mask_ref_bytes : ews.

Lemma mask_ref_involutive key o l : mask_ref key o (mask_ref key o l) = l.
Proof.
  revert o. induction l as [| b l IH]; intros o; [done |].
  rewrite !mask_ref_cons, IH. f_equal. rewrite Z.lxor_assoc, Z.lxor_nilpotent. apply Z.lxor_0_r.
Qed.

Lemma key_shape (key : list Z) : len key = 4 -> exists a b c d, key = [a; b; c; d].
Proof.
  intros H. destruct key as [| a [| b [| c [| d [|]]]]]; unfold len in H; cbn in H; try lia.
  eauto.
Qed.

(** Rotating the key by the offset lets the loops index it from zero. *)
Lemma rotate_ref key o l :
  len key = 4 -> 0 <= o < 256 -> mask_ref (rotateMaskKey key o) 0 l = mask_ref key o l.
Proof.
  intros H Ho. destruct (key_shape key H) as (a & b & c & d & ->).
  apply imap_ext. intros i x _. f_equal. unfold rotateMaskKey.
  rewrite !land3. cbn [Z.add]. rewrite (Z.add_mod o), <- (Z.mod_mod (Z.of_nat i)) by lia.
  pose proof (Z.mod_pos_bound o 4 eq_refl). pose proof (Z.mod_pos_bound (Z.of_nat i) 4 eq_refl).
  generalize dependent (Z.of_nat i mod 4). generalize dependent (o mod 4). intros r Hr s Hs.
  assert (r = 0 \/ r = 1 \/ r = 2 \/ r = 3) as [-> | [-> | [-> | ->]]] by lia;
  assert (s = 0 \/ s = 1 \/ s = 2 \/ s = 3) as [-> | [-> | [-> | ->]]] by lia; done.
Qed.

Lemma rotate_len (key : list Z) o : len key = 4 -> len (rotateMaskKey key o) = 4.
Proof. intros H. unfold rotateMaskKey. by destruct (negb _). Qed.

Lemma rotate_bytes key o : bytes_ok key -> bytes_ok (rotateMaskKey key o).
Proof.
  intros H. unfold rotateMaskKey. destruct (negb _); [| done].
  repeat constructor; apply bytes_ok_idx; done.
Qed.

(** ** One store extends the masked prefix *)

Definition mask_inv (al : bool) (key src dst : list Z) (i : Z) (m : views) : Prop :=
  0 <= i <= len src /\
  vdst m = mask_ref key 0 (upto src i) ++ from dst i /\
  vsrc m = if al then vdst m else src.

Section steps.
Context (al : bool) (key src dst : list Z).
Context (Hsrc : bytes_ok src) (Hkey : bytes_ok key) (Hlen : len src <= len dst)
        (Hal : al = true -> dst = src).

#[local] Abbreviation inv := (mask_inv al key src dst).

Lemma inv_src_slice i j m : inv i m -> i <= j -> slice (vsrc m) i j = slice src i j.
Proof.
  intros (Hi & Hd & ->) Hj. destruct al; [| done].
  rewrite Hd, Hal by done. rewrite slice_app_r by len_lia.
  rewrite len_mask_ref, len_upto. replace (Z.min _ _) with i by lia.
  unfold slice. rewrite from_from by lia. f_equal; [f_equal |]; lia.
Qed.

Lemma put_inv i w m bs :
  inv i m -> 0 <= w -> i + w <= len src -> len bs = w ->
  bs = mask_ref key i (slice src i (i + w)) -> inv (i + w) (put al m i bs).
Proof.
  intros (Hi & Hd & Hs) Hw Hn Hb ->. split; [lia | split; [| by destruct al]].
  cbn. rewrite Hd. unfold splice.
  replace (upto (mask_ref _ _ _ ++ _) i) with (mask_ref key 0 (upto src i)).
  2:{ rewrite upto_app_le by len_lia. symmetry. apply upto_all. len_lia. }
  rewrite from_app_ge by (rewrite Hb; len_lia). rewrite Hb.
  rewrite from_from by len_lia. rewrite app_assoc. f_equal.
  - rewrite (upto_split src i (i + w)) by lia. rewrite mask_ref_app. f_equal.
    apply mask_ref_mod. f_equal. len_lia.
  - f_equal. len_lia.
Qed.

(** [w]-byte words, for a key word that repeats the key. *)
Definition key_word (w : nat) (k : Z) : Prop :=
  forall i l, i mod 4 = 0 -> bytes_ok l -> length l = w ->
    le_put w (Z.lxor (le_get l) k) = mask_ref key i l.

Lemma xor_word_inv i w k m :
  key_word w k -> inv i m -> i mod 4 = 0 -> i + Z.of_nat w <= len src ->
  inv (i + Z.of_nat w) (xor_word al w k m i).
Proof.
  intros Hk Hinv Hi Hn. unfold xor_word. rewrite (inv_src_slice i) by (done || lia).
  assert (Hi0 := proj1 Hinv). apply put_inv; try done; try lia.
  - by rewrite len_le_put.
  - apply Hk; [done | by apply bytes_ok_slice |].
    apply Nat2Z.inj. change (len (slice src i (i + Z.of_nat w)) = Z.of_nat w). len_lia.
Qed.

Lemma xor_byte_inv i b m :
  inv i m -> i < len src -> b = idx key (Z.land i 3) -> inv (i + 1) (xor_byte al b m i).
Proof.
  intros Hinv Hn ->. unfold xor_byte. assert (Hi0 := proj1 Hinv).
  pose proof (inv_src_slice i (i + 1) m Hinv) as E.
  assert (i < len (vsrc m)).
  { destruct Hinv as (_ & Hd & ->). destruct al; [| done]. rewrite Hd. len_lia. }
  rewrite !slice_1 in E by lia. specialize (E ltac:(lia)). injection E as E. rewrite E.
  apply put_inv; try done; try lia. by rewrite slice_1, mask_ref_cons by lia.
Qed.

(** A run of equal-width words at consecutive offsets. *)
Lemma xor_words_inv w k i offs m cnt :
  key_word w k -> (Z.of_nat w) mod 4 = 0 -> i mod 4 = 0 ->
  offs = (fun j => Z.of_nat j * Z.of_nat w) <$> seq 0 cnt ->
  inv i m -> i + Z.of_nat cnt * Z.of_nat w <= len src ->
  inv (i + Z.of_nat cnt * Z.of_nat w) (xor_words al w k i offs m).
Proof.
  intros Hk Hw Hi -> Hinv. unfold xor_words.
  induction cnt as [| cnt IH]; intros Hn.
  - cbn. by rewrite Z.add_0_r.
  - rewrite seq_S, fmap_app, fold_left_app. cbn [fmap list_fmap fold_left Nat.add].
    replace (i + Z.of_nat (S cnt) * Z.of_nat w)
      with (i + Z.of_nat cnt * Z.of_nat w + Z.of_nat w) by lia.
    apply xor_word_inv; [done | apply IH; lia | | lia].
    rewrite Z.add_mod, Z.mul_mod, Hi, Hw by lia. by rewrite Z.mul_0_r.
Qed.
End steps.

(** ** The 4-, 8- and 16-byte key words *)

Lemma zip_key a b c d i l :
  i mod 4 = 0 -> length l = 4%nat ->
  zip_with Z.lxor l [a; b; c; d] = mask_ref [a; b; c; d] i l.
Proof.
  intros Hi Hl. destruct l as [| x [| y [| z [| t [|]]]]]; try done.
  rewrite (mask_ref_mod _ i 0) by done. done.
Qed.

Lemma zip_app i key k l k1 k2 w1 w2 :
  key = k -> length k1 = w1 -> length k2 = w2 -> (Z.of_nat w1) mod 4 = 0 -> i mod 4 = 0 ->
  (forall i l, i mod 4 = 0 -> length l = w1 -> zip_with Z.lxor l k1 = mask_ref key i l) ->
  (forall i l, i mod 4 = 0 -> length l = w2 -> zip_with Z.lxor l k2 = mask_ref key i l) ->
  length l = (w1 + w2)%nat -> zip_with Z.lxor l (k1 ++ k2) = mask_ref key i l.
Proof.
  intros -> H1 H2 Hw Hi Z1 Z2 Hl. rewrite <- (take_drop w1 l).
  rewrite zip_with_app by (rewrite length_take; lia).
  rewrite mask_ref_app. f_equal.
  - apply Z1; [done |]. rewrite length_take. lia.
  - apply Z2; [| rewrite length_drop; lia].
    unfold len. rewrite length_take, Nat.min_l by lia. by rewrite Z.add_mod, Hi, Hw by lia.
Qed.

Section key_words.
Context (key : list Z) (Hkey : bytes_ok key) (Hlen : len key = 4).

Lemma zip_key4 i l : i mod 4 = 0 -> length l = 4%nat -> zip_with Z.lxor l key = mask_ref key i l.
Proof. destruct (key_shape key Hlen) as (a & b & c & d & ->). apply zip_key. Qed.

Lemma length_key : length key = 4%nat.
Proof. unfold len in Hlen. lia. Qed.

Lemma zip_key8 i l : i mod 4 = 0 -> length l = 8%nat ->
  zip_with Z.lxor l (key ++ key) = mask_ref key i l.
Proof.
  intros Hi Hl. pose proof length_key.
  apply (zip_app i key key l key key 4 4); try done; intros; by apply zip_key4.
Qed.

Lemma zip_key16 i l : i mod 4 = 0 -> length l = 16%nat ->
  zip_with Z.lxor l ((key ++ key) ++ key ++ key) = mask_ref key i l.
Proof.
  intros Hi Hl. pose proof length_key.
  apply (zip_app i key key l _ _ 8 8); try done; try (rewrite length_app; lia);
    intros; by apply zip_key8.
Qed.

Lemma key_word_of w k kk :
  k = le_get kk -> bytes_ok kk -> length kk = w ->
  (forall i l, i mod 4 = 0 -> length l = w -> zip_with Z.lxor l kk = mask_ref key i l) ->
  key_word key w k.
Proof.
  intros -> Hk Hl Hz i l Hi Hb El. rewrite <- El, le_put_lxor by (done || lia). apply Hz; lia.
Qed.

Lemma key_word4 : key_word key 4 (le_get key).
Proof. apply (key_word_of _ _ key); try done; [apply length_key | apply zip_key4]. Qed.

Lemma bytes_ok_key8 : bytes_ok (key ++ key).
Proof. by apply bytes_ok_app. Qed.

Lemma k64_eq : Z.lor (le_get key) (Z.shiftl (le_get key) 32) = le_get (key ++ key).
Proof. rewrite le_get_app by done. by rewrite Hlen. Qed.

Lemma key_word8 : key_word key 8 (Z.lor (le_get key) (Z.shiftl (le_get key) 32)).
Proof.
  apply (key_word_of _ _ (key ++ key)); [apply k64_eq | apply bytes_ok_key8 | | apply zip_key8].
  rewrite length_app, length_key. done.
Qed.

Lemma key_word16 :
  key_word key 16 (let k64 := Z.lor (le_get key) (Z.shiftl (le_get key) 32) in
                   Z.lor k64 (Z.shiftl k64 64)).
Proof.
  apply (key_word_of _ _ ((key ++ key) ++ key ++ key)); [| | | apply zip_key16].
  - cbv zeta. rewrite k64_eq, (le_get_app (key ++ key)) by apply bytes_ok_key8.
    rewrite len_app, Hlen. done.
  - apply bytes_ok_app. split; apply bytes_ok_key8.
  - rewrite !length_app, length_key. done.
Qed.
End key_words.

(** ** The loops *)

Section loops.
Context (al : bool) (key src dst : list Z).
Context (Hsrc : bytes_ok src) (Hkey : bytes_ok key) (Hkl : len key = 4)
        (Hlen : len src <= len dst) (Hal : al = true -> dst = src).

Definition good (st : Z * views) : Prop :=
  mask_inv al key src dst st.1 st.2 /\ st.1 mod 4 = 0.

#[local] Abbreviation n := (len src).
#[local] Abbreviation k32 := (le_get key).
#[local] Abbreviation k64 := (Z.lor (le_get key) (Z.shiftl (le_get key) 32)).

Lemma good_start : good (0, Views src dst).
Proof.
  split; [| done]. split; [cbn; len_lia | split; cbn].
  - by rewrite upto_0, from_0 by lia.
  - destruct al; [by rewrite Hal | done].
Qed.

Lemma words_good w cnt k offs i m :
  key_word key w k -> (Z.of_nat w) mod 4 = 0 ->
  offs = (fun j => Z.of_nat j * Z.of_nat w) <$> seq 0 cnt ->
  good (i, m) -> i + Z.of_nat cnt * Z.of_nat w <= n ->
  good (i + Z.of_nat cnt * Z.of_nat w, xor_words al w k i offs m).
Proof.
  intros Hk Hw Ho [Hi Hm] Hn. cbn in *. split; cbn.
  - by apply xor_words_inv with (cnt := cnt).
  - by rewrite Z.add_mod, Z.mul_mod, Hm, Hw, Z.mul_0_r by lia.
Qed.

Lemma word_good w k i m :
  key_word key w k -> (Z.of_nat w) mod 4 = 0 ->
  good (i, m) -> i + Z.of_nat w <= n -> good (i + Z.of_nat w, xor_word al w k m i).
Proof.
  intros Hk Hw [Hi Hm] Hn. cbn in *. split; cbn.
  - by apply xor_word_inv.
  - by rewrite Z.add_mod, Hm, Hw by lia.
Qed.

(** The 64-byte loop of either build and the vector loop. *)
Lemma swar_loop64_good fuel i m :
  good (i, m) -> n - i < 64 * Z.of_nat fuel ->
  let st := swar.loop64 fuel al k64 n i m in good st /\ n - st.1 < 64.
Proof using Hsrc Hkey Hkl Hlen Hal.
  revert i m. induction fuel as [| f IH]; intros i m Hg Hf; cbn [swar.loop64].
  - cbn. split; [done | lia].
  - destruct (Z.leb_spec 64 (n - i)); [| cbn; split; [done | lia]].
    apply IH; [| lia]. apply (words_good 8 8); try done; [by apply key_word8 | lia].
Qed.

Lemma generic_loop64_eq fuel i m :
  generic.loop64 fuel al k64 n (i, m) = swar.loop64 fuel al k64 n i m.
Proof.
  revert i m. induction fuel as [| f IH]; intros i m; cbn; [done |].
  destruct (64 <=? n - i); [apply IH | done].
Qed.

Lemma simd_vloop_good fuel i m :
  good (i, m) ->
  good (simd.vloop fuel al (Z.lor k64 (Z.shiftl k64 64)) n i m).
Proof.
  revert i m. induction fuel as [| f IH]; intros i m Hg; cbn [simd.vloop]; [done |].
  destruct (Z.leb_spec 64 (n - i)); [| done].
  apply IH. apply (words_good 16 4); try done; [by apply key_word16 | lia].
Qed.

Lemma swar_tail_inv fuel i m :
  mask_inv al key src dst i m -> n - i <= Z.of_nat fuel ->
  mask_inv al key src dst n (swar.tail fuel al key n i m).
Proof.
  revert i m. induction fuel as [| f IH]; intros i m Hg Hf; cbn [swar.tail].
  - assert (i = n) as <- by (destruct Hg; lia). done.
  - destruct (Z.ltb_spec i n).
    + apply IH; [| lia]. by apply xor_byte_inv.
    + assert (i = n) as <- by (destruct Hg; lia). done.
Qed.

Lemma generic_tail_inv cnt o i m :
  mask_inv al key src dst (o + i) m -> o mod 4 = 0 -> 0 <= i -> i + Z.of_nat cnt <= 4 ->
  o + i + Z.of_nat cnt = n ->
  mask_inv al key src dst n (generic.tail cnt al key o i m).
Proof.
  revert i m. induction cnt as [| c IH]; intros i m Hg Ho Hi H4 Hn; cbn [generic.tail].
  - replace n with (o + i) by lia. done.
  - apply IH; try done; try lia. rewrite Z.add_assoc. apply xor_byte_inv; try done; [lia |].
    f_equal. rewrite land3, Z.add_mod, Ho, Z.add_0_l, Z.mod_mod, Z.mod_small by lia. done.
Qed.

Lemma inv_done m : mask_inv al key src dst n m -> vdst m = mask_ref key 0 src ++ from dst n.
Proof. intros (_ & -> & _). by rewrite upto_all by lia. Qed.

(** A conditional block: the guard is exactly the room the block needs. *)
Lemma words_block w cnt k offs i m (sz : Z) :
  key_word key w k -> (Z.of_nat w) mod 4 = 0 ->
  offs = (fun j => Z.of_nat j * Z.of_nat w) <$> seq 0 cnt ->
  sz = Z.of_nat cnt * Z.of_nat w -> good (i, m) ->
  let st := if sz <=? n - i then (i + sz, xor_words al w k i offs m) else (i, m) in
  good st /\ i <= st.1 <= i + sz /\ (n - i < 2 * sz -> n - st.1 < sz).
Proof.
  intros Hk Hw Ho -> Hg. destruct (Z.leb_spec (Z.of_nat cnt * Z.of_nat w) (n - i)); cbn.
  - split; [apply words_good; done || lia | lia].
  - split; [done | lia].
Qed.

Lemma word_block w k i m (sz : Z) :
  key_word key w k -> (Z.of_nat w) mod 4 = 0 -> sz = Z.of_nat w -> good (i, m) ->
  let st := if sz <=? n - i then (i + sz, xor_word al w k m i) else (i, m) in
  good st /\ i <= st.1 <= i + sz /\ (n - i < 2 * sz -> n - st.1 < sz).
Proof.
  intros Hk Hw -> Hg. destruct (Z.leb_spec (Z.of_nat w) (n - i)); cbn.
  - split; [apply word_good; done || lia | lia].
  - split; [done | lia].
Qed.

Lemma swar_rest_ok i m :
  good (i, m) -> vdst (swar.rest al key k32 k64 n i m) = mask_ref key 0 src ++ from dst n.
Proof.
  intros Hg. unfold swar.rest. apply inv_done.
  pose proof (words_block 8 4 k64 _ i m 32 (key_word8 key Hkey Hkl) eq_refl eq_refl eq_refl Hg) as H1.
  cbn in H1. destruct (if 32 <=? n - i then _ else _) as [i1 m1]. destruct H1 as [H1 _].
  pose proof (words_block 8 2 k64 _ i1 m1 16 (key_word8 key Hkey Hkl) eq_refl eq_refl eq_refl H1) as H2.
  cbn in H2. destruct (if 16 <=? n - i1 then _ else _) as [i2 m2]. destruct H2 as [H2 _].
  pose proof (words_block 8 1 k64 _ i2 m2 8 (key_word8 key Hkey Hkl) eq_refl eq_refl eq_refl H2) as H3.
  cbn in H3. destruct (if 8 <=? n - i2 then _ else _) as [i3 m3]. destruct H3 as [H3 _].
  pose proof (word_block 4 k32 i3 m3 4 (key_word4 key Hkey Hkl) eq_refl eq_refl H3) as H4.
  cbn in H4. destruct (if 4 <=? n - i3 then _ else _) as [i4 m4]. destruct H4 as [[H4 _] _].
  apply swar_tail_inv; [done | lia].
Qed.

Lemma generic_rest_ok i m :
  good (i, m) -> n - i < 64 ->
  (let '(o, m) := if 32 <=? n - i
     then (i + 32, xor_words al 8 k64 i [0; 8; 16; 24] m) else (i, m) in
   let '(o, m) := if 16 <=? n - o
     then (o + 16, xor_words al 8 k64 o [0; 8] m) else (o, m) in
   let '(o, m) := if 8 <=? n - o
     then (o + 8, xor_word al 8 k64 m o) else (o, m) in
   let '(o, m) := if 4 <=? n - o
     then (o + 4, xor_word al 4 k32 m o) else (o, m) in
   vdst (generic.tail (Z.to_nat (n - o)) al key o 0 m)) = mask_ref key 0 src ++ from dst n.
Proof.
  intros Hg Hn.
  pose proof (words_block 8 4 k64 _ i m 32 (key_word8 key Hkey Hkl) eq_refl eq_refl eq_refl Hg) as H1.
  cbn in H1. destruct (if 32 <=? n - i then _ else _) as [i1 m1]. destruct H1 as [H1 [_ L1]].
  pose proof (words_block 8 2 k64 _ i1 m1 16 (key_word8 key Hkey Hkl) eq_refl eq_refl eq_refl H1) as H2.
  cbn in H2. destruct (if 16 <=? n - i1 then _ else _) as [i2 m2]. destruct H2 as [H2 [_ L2]].
  pose proof (word_block 8 k64 i2 m2 8 (key_word8 key Hkey Hkl) eq_refl eq_refl H2) as H3.
  cbn in H3. destruct (if 8 <=? n - i2 then _ else _) as [i3 m3]. destruct H3 as [H3 [_ L3]].
  pose proof (word_block 4 k32 i3 m3 4 (key_word4 key Hkey Hkl) eq_refl eq_refl H3) as H4.
  cbn in H4. destruct (if 4 <=? n - i3 then _ else _) as [i4 m4]. destruct H4 as [[H4 H4'] [_ L4]].
  cbn in *. apply inv_done. destruct H4 as [Hi Hr].
  apply generic_tail_inv; try lia. rewrite Z.add_0_r. by split.
Qed.
End loops.

(** ** The three implementations discharge the interface *)

Lemma generic_mask_ok al dst src key o :
  bytes_ok src -> bytes_ok key -> len key = 4 -> len src <= len dst ->
  0 <= o < 256 -> (al = true -> dst = src) ->
  generic.mask al dst src key o = mask_ref key o src ++ from dst (len src).
Proof.
  intros Hs Hk Hkl Hl Ho Hal. rewrite <- rotate_ref by done.
  unfold generic.mask. cbv zeta. rewrite generic_loop64_eq.
  pose proof (swar_loop64_good al (rotateMaskKey key o) src dst Hs (rotate_bytes _ _ Hk)
    (rotate_len _ _ Hkl) Hl Hal (S (length src)) 0 (Views src dst)) as H.
  destruct (swar.loop64 _ _ _ _ _ _) as [i m].
  destruct H as [Hg Hn]; [by apply good_start | unfold len; lia |].
  apply generic_rest_ok; auto using rotate_bytes, rotate_len.
Qed.

Lemma swar_mask_ok al dst src key o :
  bytes_ok src -> bytes_ok key -> len key = 4 -> len src <= len dst ->
  0 <= o < 256 -> (al = true -> dst = src) ->
  swar.mask al dst src key o = mask_ref key o src ++ from dst (len src).
Proof.
  intros Hs Hk Hkl Hl Ho Hal. rewrite <- rotate_ref by done. unfold swar.mask. cbv zeta.
  pose proof (swar_loop64_good al (rotateMaskKey key o) src dst Hs (rotate_bytes _ _ Hk)
    (rotate_len _ _ Hkl) Hl Hal (S (length src)) 0 (Views src dst)) as H.
  destruct (swar.loop64 _ _ _ _ _ _) as [i m].
  destruct H as [Hg Hn]; [by apply good_start | unfold len; lia |].
  apply swar_rest_ok; auto using rotate_bytes, rotate_len.
Qed.

Lemma simd_mask_ok al dst src key o :
  bytes_ok src -> bytes_ok key -> len key = 4 -> len src <= len dst ->
  0 <= o < 256 -> (al = true -> dst = src) ->
  simd.mask al dst src key o = mask_ref key o src ++ from dst (len src).
Proof.
  intros Hs Hk Hkl Hl Ho Hal. rewrite <- rotate_ref by done. unfold simd.mask. cbv zeta.
  set (st := if simd.simdMin <=? len src then _ else _).
  assert (good al (rotateMaskKey key o) src dst st) as Hg.
  { subst st. destruct (_ <=? _); [apply simd_vloop_good |];
      auto using good_start, rotate_bytes, rotate_len. }
  destruct st as [i m].
  pose proof (swar_loop64_good al (rotateMaskKey key o) src dst Hs (rotate_bytes _ _ Hk)
    (rotate_len _ _ Hkl) Hl Hal (S (length src)) i m Hg) as H.
  destruct (swar.loop64 _ _ _ _ _ _) as [i' m'].
  destruct H as [Hg' _]; [destruct Hg as [[]]; cbn in *; unfold len in *; lia |].
  apply swar_rest_ok; auto using rotate_bytes, rotate_len.
Qed.

Definition generic_masker : Masker := generic.mask.
Definition swar_masker : Masker := swar.mask.
Definition simd_masker : Masker := simd.mask.

#[export] Instance generic_masker_ok : MaskerOk generic_masker.
Proof. exact generic_mask_ok. Qed.

#[export] Instance swar_masker_ok : MaskerOk swar_masker.
Proof. exact swar_mask_ok. Qed.

#[export] Instance simd_masker_ok : MaskerOk simd_masker.
Proof. exact simd_mask_ok. Qed.

(** ** Facts about [Mask] for the callers *)

Section masker.
Context {M : Masker} `{!MaskerOk M}.

Lemma Mask_eq payload key o :
  bytes_ok payload -> bytes_ok key -> len key = 4 -> 0 <= o < 256 ->
  Mask payload key o = (mask_ref key o payload, (o + len payload) mod 4).
Proof.
  intros Hp Hk Hl Ho. unfold Mask. f_equal.
  - rewrite mask_ok by (done || lia). rewrite from_all by lia. apply app_nil_r.
  - unfold u8. rewrite !land3. change (2 ^ 8) with (64 * 4).
    rewrite (Z.mod_small (len payload mod 4)) by (pose proof (Z.mod_pos_bound (len payload) 4); lia).
    rewrite (Z.mul_comm 64 4), Z.rem_mul_r, Z.mul_comm, Z.mod_add, Z.mod_mod by lia.
    by rewrite Z.add_mod_idemp_r by lia.
Qed.
End masker.

(** ** Properties *)

(** C34. All three builds of [mask] (the portable word loop, the unsafe word
    loop, the vector loop) compute the byte-wise xor with the rotated key over
    exactly [len src] bytes and leave the rest of [dst] alone, both when [dst]
    is a separate buffer and when it is [src] itself. *)
Theorem mask_builds_agree al dst src key offset :
  bytes_ok src -> bytes_ok key -> len key = 4 -> len src <= len dst ->
  0 <= offset < 256 -> (al = true -> dst = src) ->
  let want := mask_ref key offset src ++ from dst (len src) in
  generic.mask al dst src key offset = want /\
  swar.mask al dst src key offset = want /\
  simd.mask al dst src key offset = want.
Proof.
  intros. split; [| split].
  - by apply generic_mask_ok.
  - by apply swar_mask_ok.
  - by apply simd_mask_ok.
Qed.

Lemma mask_builds_agree_witness :
  let src := Z.of_nat <$> seq 0 107 in
  generic.mask true src src [55; 250; 33; 61] 2 = simd.mask true src src [55; 250; 33; 61] 2.
Proof.
  cbv zeta.
  destruct (mask_builds_agree true (Z.of_nat <$> seq 0 107) (Z.of_nat <$> seq 0 107)
    [55; 250; 33; 61] 2) as (-> & _ & ->); [| | | | | | reflexivity].
  - apply (bool_decide_unpack _). vm_compute. exact I.
  - apply (bool_decide_unpack _). vm_compute. exact I.
  - reflexivity.
  - reflexivity.
  - lia.
  - reflexivity.
Defined.

(** Masking a payload chunk by chunk, carrying the returned offset, is
    masking it whole: the result does not depend on where the chunks split. *)
Theorem Mask_chunks {M : Masker} `{!MaskerOk M} p q key offset :
  bytes_ok p -> bytes_ok q -> bytes_ok key -> len key = 4 -> 0 <= offset < 256 ->
  let '(p', o) := Mask p key offset in
  let '(q', o') := Mask q key o in
  Mask (p ++ q) key offset = (p' ++ q', o').
Proof.
  intros Hp Hq Hk Hl Ho.
  assert (0 <= (offset + len p) mod 4 < 4) by (apply Z.mod_pos_bound; lia).
  rewrite (Mask_eq (p ++ q)) by (try apply bytes_ok_app; done || lia).
  rewrite (Mask_eq p), (Mask_eq q) by (done || lia).
  rewrite mask_ref_app. f_equal; [f_equal |].
  - apply mask_ref_mod. by rewrite Z.mod_mod.
  - rewrite Z.add_mod_idemp_l by lia. f_equal. len_lia.
Qed.

Lemma Mask_chunks_witness :
  (let '(p', o) := Mask (M := swar_masker) [1; 2; 3] [9; 8; 7; 6] 0 in
   let '(q', o') := Mask (M := swar_masker) [4; 5] [9; 8; 7; 6] o in
   Mask (M := swar_masker) [1; 2; 3; 4; 5] [9; 8; 7; 6] 0 = (p' ++ q', o')).
Proof.
  apply (Mask_chunks (M := swar_masker) [1; 2; 3] [4; 5] [9; 8; 7; 6] 0);
    try (repeat constructor; unfold is_byte; lia); reflexivity.
Defined.

(** Unmasking is masking: applying [Mask] twice with the same key and
    offset restores the payload, so a receiver recovers what a sender masked. *)
Theorem Mask_unmask {M : Masker} `{!MaskerOk M} p key offset :
  bytes_ok p -> bytes_ok key -> len key = 4 -> 0 <= offset < 256 ->
  (Mask (Mask p key offset).1 key offset).1 = p.
Proof.
  intros Hp Hk Hl Ho. rewrite (Mask_eq p) by done. cbn [fst].
  rewrite Mask_eq by eauto with ews. cbn. apply mask_ref_involutive.
Qed.

Lemma Mask_unmask_witness :
  (Mask (M := generic_masker) (Mask (M := generic_masker) [200; 0; 17] [1; 2; 3; 4] 3).1 [1; 2; 3; 4] 3).1
  = [200; 0; 17].
Proof.
  apply (Mask_unmask (M := generic_masker) [200; 0; 17] [1; 2; 3; 4] 3);
    try (repeat constructor; unfold is_byte; lia); reflexivity.
Defined.
