(* ===== verification/Errors.v ===== *)
(** * Errors: the sentinel errors of every package and the error values built
    from them

    A Go [error] is a value of the sum [error]; a nil error is [None] of an
    [option error], or [Ok] of a [result] where the other results only mean
    something on success. *)

From stdpp Require Import prelude.
From S2P Require Import Prelude.

(** codec/encoder.go and codec/decoder.go *)
Inductive codec_error :=
  | ErrInvalidOpcode
  | ErrInvalidControlFrame
  | ErrInvalidCompressedFrame
  | ErrPayloadPending
  | ErrInvalidPayloadLength.

(** deflate/decompressor.go; primed where ws has an error of the same name *)
Inductive deflate_error :=
  | ErrMessageTooLarge'
  | ErrInvalidLimit
  | ErrNoMessage'
  | ErrInvalidWindow.

(** ws/errors.go *)
Inductive ws_error :=
  | ErrClosing
  | ErrProtocol
  | ErrInvalidUTF8
  | ErrMessageTooLarge
  | ErrInvalidData
  | ErrInvalidConfig
  | ErrMessageOpen
  | ErrNoMessage
  | ErrQueueFull
  | ErrUnexpectedType.

(** handshake/handshake.go *)
Inductive handshake_error :=
  | ErrNotWebSocket
  | ErrBadVersion
  | ErrBadKey
  | ErrBadExtension
  | ErrBadAccept
  | ErrBadStatus
  | ErrBadProtocol
  | ErrInvalidOptions.

(** the [io] errors the code returns or compares with *)
Inductive io_error := EOF | ErrUnexpectedEOF | ErrNoProgress | ErrShortWrite.

(** [WsError] is [ws.Error] (a terminal failure with its close code),
    [CloseError] is [ws.CloseError], [PanicError] is [events.PanicError] with
    the value recovered, [Other] an error of a transport, a reader or a
    handler, told apart only by identity. *)
Inductive error :=
  | Codec (e : codec_error)
  | Deflate (e : deflate_error)
  | Ws (e : ws_error)
  | Handshake (e : handshake_error)
  | Io (e : io_error)
  | WsError (Code : Z) (Err : error)
  | CloseError (Code : Z) (Reason : list Z)
  | PanicError (Value : Z)
  | Other (n : Z).

#[export] Instance codec_error_eq_dec : EqDecision codec_error.
Proof. solve_decision. Defined.
#[export] Instance deflate_error_eq_dec : EqDecision deflate_error.
Proof. solve_decision. Defined.
#[export] Instance ws_error_eq_dec : EqDecision ws_error.
Proof. solve_decision. Defined.
#[export] Instance handshake_error_eq_dec : EqDecision handshake_error.
Proof. solve_decision. Defined.
#[export] Instance io_error_eq_dec : EqDecision io_error.
Proof. solve_decision. Defined.
#[export] Instance error_eq_dec : EqDecision error.
Proof.
  refine (fix go (a b : error) : Decision (a = b) :=
    match a, b with
    | Codec x, Codec y => cast_if (decide (x = y))
    | Deflate x, Deflate y => cast_if (decide (x = y))
    | Ws x, Ws y => cast_if (decide (x = y))
    | Handshake x, Handshake y => cast_if (decide (x = y))
    | Io x, Io y => cast_if (decide (x = y))
    | WsError c x, WsError d y => cast_if_and (decide (c = d)) (go x y)
    | CloseError c x, CloseError d y => cast_if_and (decide (c = d)) (decide (x = y))
    | PanicError x, PanicError y => cast_if (decide (x = y))
    | Other x, Other y => cast_if (decide (x = y))
    | _, _ => right _
    end); congruence.
Defined.

(** A Go [(T, error)] pair whose first half means nothing when the error is set. *)
Inductive result (A : Type) := Ok (a : A) | Err (e : error).
Arguments Ok {A} a.
Arguments Err {A} e.

#[export] Instance result_eq_dec {A} `{EqDecision A} : EqDecision (result A).
Proof. solve_decision. Defined.
