(* ===== verification/Header.v ===== *)
(** * Frame headers (codec/opcode.go, codec/header.go) *)

From stdpp Require Import prelude.
From S2P Require Import Prelude Words.

(** An [Opcode] is any uint8. *)
Module Opcode.
Definition Continuation : Z := 0x0.
Definition Text : Z := 0x1.
Definition Binary : Z := 0x2.
Definition Close : Z := 0x8.
Definition Ping : Z := 0x9.
Definition Pong : Z := 0xA.
End Opcode.

Definition MaxHeaderSize : Z := 14.

Record Header := mkHeader {
  raw : list Z;  (* [MaxHeaderSize]byte *)
  hlen : Z       (* len uint8 *)
}.

#[export] Instance Header_eq_dec : EqDecision Header.
Proof. solve_decision. Defined.

(** [Header{}] *)
Definition Header_zero : Header := {| raw := zeros MaxHeaderSize; hlen := 0 |}.

Module Hdr.

Definition Bytes (h : Header) : list Z := upto (raw h) (hlen h).

Definition Len (h : Header) : Z := hlen h.

Definition PayloadLen (h : Header) : Z :=
  let n := Z.land (idx (raw h) 1) 0x7f in
  if n =? 126 then be_get (slice (raw h) 2 4)
  else if n =? 127 then be_get (slice (raw h) 2 10)
  else n.

Definition Final (h : Header) : bool := negb (Z.land (idx (raw h) 0) 0x80 =? 0).
Definition RSV1 (h : Header) : bool := negb (Z.land (idx (raw h) 0) 0x40 =? 0).
Definition RSV2 (h : Header) : bool := negb (Z.land (idx (raw h) 0) 0x20 =? 0).
Definition RSV3 (h : Header) : bool := negb (Z.land (idx (raw h) 0) 0x10 =? 0).
Definition Opcode (h : Header) : Z := Z.land (idx (raw h) 0) 0x0f.
Definition Masked (h : Header) : bool := negb (Z.land (idx (raw h) 1) 0x80 =? 0).

(** nil is [None]. *)
Definition MaskKey (h : Header) : option (list Z) :=
  if negb (Masked h) then None
  else Some (slice (raw h) (u8 (hlen h - 4)) (hlen h)).

End Hdr.

(** ** Finite checks over all bytes *)

Lemma forall_byte (P : Z -> Prop) `{HP : forall x, Decision (P x)} :
  forallb (fun x => bool_decide (P x)) (Z.of_nat <$> seq 0 256) = true ->
  forall b, is_byte b -> P b.
Proof.
  intros H b [Hb1 Hb2]. rewrite forallb_forall in H.
  apply (bool_decide_eq_true_1 (P b)), H.
  apply list_elem_of_In, list_elem_of_fmap. exists (Z.to_nat b). split; [lia |].
  apply elem_of_seq. lia.
Qed.

(** Decides a goal about one byte by 256 evaluations. *)
Ltac by_bytes b :=
  match goal with H : is_byte b |- _ => revert b H end;
  match goal with |- forall x, is_byte x -> @?P x =>
    refine (@forall_byte P ltac:(intros ?; cbv beta; apply _) _); vm_compute; reflexivity
  end.

(** ** Reading fields out of bytes *)

Lemma land_7f_range b : is_byte b -> 0 <= Z.land b 0x7f < 128.
Proof. intros H. by_bytes b. Qed.

Lemma land_7f_or_80 n : 0 <= n < 128 -> Z.land (Z.lor n 0x80) 0x7f = n.
Proof.
  intros H. assert (is_byte n) as Hb by (unfold is_byte; lia).
  revert H. by_bytes n.
Qed.

Lemma land_7f_small n : 0 <= n < 128 -> Z.land n 0x7f = n.
Proof.
  intros H. assert (is_byte n) as Hb by (unfold is_byte; lia).
  revert H. by_bytes n.
Qed.

Lemma land_80_or_80 n : 0 <= n < 128 -> Z.land (Z.lor n 0x80) 0x80 = 0x80.
Proof.
  intros H. assert (is_byte n) as Hb by (unfold is_byte; lia).
  revert H. by_bytes n.
Qed.

Lemma land_80_small n : 0 <= n < 128 -> Z.land n 0x80 = 0.
Proof.
  intros H. assert (is_byte n) as Hb by (unfold is_byte; lia).
  revert H. by_bytes n.
Qed.
