(* ===== verification/Encoder.v ===== *)
(** * The frame encoder (codec/encoder.go) *)

From stdpp Require Import prelude.
From S2P Require Import Prelude Words Mask Errors Header.

(** The capacity [append] gives a slice that must grow is the Go runtime's
    choice: a parameter, of which only [growcap_ge] is assumed. *)
Class Grow := growcap : Z -> Z -> Z.  (* old capacity, needed length *)
Class GrowOk (G : Grow) : Prop := growcap_ge : forall c n, n <= growcap c n.

(** A reusable slice: its whole backing array ([cap] is the array's length)
    and its length. *)
Record store := Store { arr : list Z; vis : Z }.

Definition cap (s : store) : Z := len (arr s).
Definition nil_store : store := {| arr := []; vis := 0 |}.
Definition contents (s : store) : list Z := upto (arr s) (vis s).

(** [slices.Grow(s[:0], n)[:n]] *)
Definition grow_to `{Grow} (s : store) (n : Z) : store :=
  if cap s <? n then
    {| arr := arr s ++ zeros (growcap (cap s) n - cap s); vis := n |}
  else {| arr := arr s; vis := n |}.

Record Encoder := mkEncoder {
  ScratchKeep : Z;
  eh : Header;
  epayload : list Z;
  escratch : store
}.

Definition Encoder_zero : Encoder :=
  {| ScratchKeep := 0; eh := Header_zero; epayload := []; escratch := nil_store |}.

Module Enc.

Definition Reset (e : Encoder) : Encoder :=
  {| e with eh := Header_zero; epayload := [];
     escratch := {| arr := arr (escratch e); vis := 0 |} |}.

Definition HeaderBytes (e : Encoder) : list Z := Hdr.Bytes (eh e).
Definition PayloadBytes (e : Encoder) : list Z := epayload e.

(** The guard at the top of [Encode]. *)
Definition check (final : bool) (opcode : Z) (payload : list Z) : option error :=
  if (opcode =? Opcode.Continuation) || (opcode =? Opcode.Text) || (opcode =? Opcode.Binary)
  then None
  else if (opcode =? Opcode.Close) || (opcode =? Opcode.Ping) || (opcode =? Opcode.Pong)
  then
    if negb final || (125 <? len payload) || ((opcode =? Opcode.Close) && (len payload =? 1))
    then Some (Codec ErrInvalidControlFrame) else None
  else Some (Codec ErrInvalidOpcode).

(** The header [Encode] builds for [n] payload bytes. *)
Definition header (final : bool) (opcode n : Z) (key : option (list Z)) : Header :=
  let r := splice (zeros MaxHeaderSize) 0 [opcode] in
  let r := if final then splice r 0 [Z.lor (idx r 0) 0x80] else r in
  let '(r, l) :=
    if n <=? 125 then (splice r 1 [u8 n], 2)
    else if n <=? 65535 then (splice (splice r 1 [126]) 2 (be_put 2 (u16 n)), 4)
    else (splice (splice r 1 [127]) 2 (be_put 8 (u64 n)), 10) in
  match key with
  | None => {| raw := r; hlen := l |}
  | Some maskKey =>
      let r := splice r l maskKey in
      {| raw := splice r 1 [Z.lor (idx r 1) 0x80]; hlen := u8 (l + 4) |}
  end.

Section ops.
Context `{Masker} `{Grow}.

(** nil [key] is [None]; a [*[4]byte] is the list of its four bytes.
    [mask(e.scratch, payload, ...)] is given the whole backing array: the
    bytes past [len payload] are left as they were. *)
Definition Encode (e : Encoder) (final : bool) (opcode : Z) (payload : list Z)
    (key : option (list Z)) : Encoder * option error :=
  match check final opcode payload with
  | Some err => (e, Some err)
  | None =>
      let hd := header final opcode (len payload) key in
      match key with
      | None => ({| e with eh := hd; epayload := payload |}, None)
      | Some maskKey =>
          let keep := ScratchKeep e in
          let s := if negb (keep =? 0) && (keep <? cap (escratch e)) && (len payload <=? keep)
                   then nil_store else escratch e in
          let s := grow_to s (len payload) in
          let s := {| arr := mask false (arr s) payload maskKey 0; vis := vis s |} in
          ({| e with eh := hd; epayload := contents s; escratch := s |}, None)
      end
  end.

Definition EncodeCompressed (e : Encoder) (final : bool) (opcode : Z) (payload : list Z)
    (key : option (list Z)) : Encoder * option error :=
  if negb (opcode =? Opcode.Text) && negb (opcode =? Opcode.Binary)
     && negb (opcode =? Opcode.Continuation)
  then (e, Some (Codec ErrInvalidCompressedFrame))
  else
    match Encode e final opcode payload key with
    | (e, Some err) => (e, Some err)
    | (e, None) =>
        if negb (opcode =? Opcode.Continuation) then
          let hd := eh e in
          ({| e with eh := {| hd with raw := splice (raw hd) 0 [Z.lor (idx (raw hd) 0) 0x40] |} |},
           None)
        else (e, None)
    end.

End ops.
End Enc.

(** ** The wire format *)

(** What one data or control frame carries, and its encoding as RFC 6455 lays
    it out: the specification the encoder is compared with. *)
Record frame := Frame {
  f_final : bool;
  f_rsv1 : bool;
  f_op : Z;
  f_key : option (list Z);
  f_data : list Z   (* unmasked *)
}.

Definition flag (b : bool) (v : Z) : Z := if b then v else 0.

Definition length_code (n : Z) : Z := if n <=? 125 then n else if n <=? 65535 then 126 else 127.

Definition length_ext (n : Z) : list Z :=
  if n <=? 125 then [] else if n <=? 65535 then be_put 2 n else be_put 8 n.

Definition key_bytes (key : option (list Z)) : list Z := default [] key.

Definition masked_data (f : frame) : list Z :=
  match f_key f with Some k => mask_ref k 0 (f_data f) | None => f_data f end.

Definition wire_header (f : frame) : list Z :=
  [flag (f_final f) 0x80 + flag (f_rsv1 f) 0x40 + f_op f;
   flag (bool_decide (is_Some (f_key f))) 0x80 + length_code (len (f_data f))]
  ++ length_ext (len (f_data f)) ++ key_bytes (f_key f).

Definition wire (f : frame) : list Z := wire_header f ++ masked_data f.

Definition key_ok (key : option (list Z)) : Prop :=
  match key with Some k => bytes_ok k /\ len k = 4 | None => True end.

(** A payload [Encode] can be given: bytes, shorter than a Go slice can be. *)
Definition payload_ok (p : list Z) : Prop := bytes_ok p /\ len p < 2 ^ 63.

Definition frame_ok (f : frame) : Prop :=
  0 <= f_op f < 16 /\ key_ok (f_key f) /\ payload_ok (f_data f).

(** ** Lemmas on the wire format *)

Lemma len_length_ext n : 0 <= len (length_ext n) <= 8.
Proof. unfold length_ext. repeat case_match; len_lia. Qed.

Lemma len_key_bytes key : key_ok key -> len (key_bytes key) = if key is Some _ then 4 else 0.
Proof. destruct key; cbn; [tauto | done]. Qed.

Lemma len_wire_header f :
  key_ok (f_key f) ->
  len (wire_header f) = 2 + len (length_ext (len (f_data f))) + if f_key f is Some _ then 4 else 0.
Proof.
  intros Hk. unfold wire_header. rewrite !len_app, (len_key_bytes _ Hk).
  change (len [_; _]) with 2. lia.
Qed.

Lemma len_wire_header_range f : key_ok (f_key f) -> 2 <= len (wire_header f) <= 14.
Proof.
  intros Hk. rewrite len_wire_header by done.
  pose proof (len_length_ext (len (f_data f))). case_match; lia.
Qed.

Lemma idx_cons_0 b l : idx (b :: l) 0 = b.
Proof. done. Qed.

Lemma idx_cons_1 a b l : idx (a :: b :: l) 1 = b.
Proof. done. Qed.

Lemma slice_cons2 (a b : Z) l i j : 2 <= i -> slice (a :: b :: l) i j = slice l (i - 2) (j - 2).
Proof. intros. change (a :: b :: l) with ([a; b] ++ l). apply slice_app_r. done. Qed.

Lemma slice_prefix (l k : list Z) i j : i = 0 -> j = len l -> slice (l ++ k) i j = l.
Proof. intros -> ->. rewrite slice_app_l by len_lia. by apply slice_all. Qed.

Ltac by_small n :=
  assert (is_byte n) by (unfold is_byte; lia);
  match goal with H : 0 <= n < _ |- _ => revert H end; by_bytes n.

Lemma first_byte_bits (fin rsv : bool) op :
  0 <= op < 16 ->
  let b := flag fin 0x80 + flag rsv 0x40 + op in
  Z.land b 0x80 = flag fin 0x80 /\ Z.land b 0x40 = flag rsv 0x40 /\
  Z.land b 0x20 = 0 /\ Z.land b 0x10 = 0 /\ Z.land b 0x0f = op.
Proof. intros H. cbv zeta. destruct fin, rsv; unfold flag; by_small op. Qed.

Lemma length_code_range n : 0 <= n -> 0 <= length_code n < 128.
Proof. intros. unfold length_code. repeat case_match; lia. Qed.

Lemma second_byte_bits (m : bool) c :
  0 <= c < 128 ->
  let b := flag m 0x80 + c in Z.land b 0x80 = flag m 0x80 /\ Z.land b 0x7f = c.
Proof. intros H. cbv zeta. destruct m; unfold flag; by_small c. Qed.

(** The accessors read back the frame a header was written for. *)
Section accessors.
Context (f : frame) (hd : Header) (rest : list Z).
Context (Hf : frame_ok f).
Context (Hraw : raw hd = wire_header f ++ rest).

#[local] Abbreviation is_masked := (bool_decide (is_Some (f_key f))).

Lemma acc_byte0 : idx (raw hd) 0 = flag (f_final f) 0x80 + flag (f_rsv1 f) 0x40 + f_op f.
Proof. by rewrite Hraw. Qed.

Lemma acc_byte1 : idx (raw hd) 1 = flag is_masked 0x80 + length_code (len (f_data f)).
Proof. by rewrite Hraw. Qed.

Lemma acc_flags :
  Hdr.Final hd = f_final f /\ Hdr.RSV1 hd = f_rsv1 f /\ Hdr.RSV2 hd = false /\
  Hdr.RSV3 hd = false /\ Hdr.Opcode hd = f_op f.
Proof.
  unfold Hdr.Final, Hdr.RSV1, Hdr.RSV2, Hdr.RSV3, Hdr.Opcode. rewrite acc_byte0.
  destruct (first_byte_bits (f_final f) (f_rsv1 f) (f_op f)) as (-> & -> & -> & -> & ->);
    [apply Hf |]. by destruct (f_final f), (f_rsv1 f).
Qed.

Lemma acc_masked : Hdr.Masked hd = is_masked.
Proof.
  unfold Hdr.Masked. rewrite acc_byte1.
  destruct (second_byte_bits is_masked (length_code (len (f_data f)))) as [-> _];
    [apply length_code_range; len_lia |]. by destruct is_masked.
Qed.

Lemma acc_code : Z.land (idx (raw hd) 1) 0x7f = length_code (len (f_data f)).
Proof.
  rewrite acc_byte1. apply second_byte_bits, length_code_range. len_lia.
Qed.

Lemma acc_payload_len : Hdr.PayloadLen hd = len (f_data f).
Proof.
  unfold Hdr.PayloadLen. rewrite acc_code. rewrite Hraw. unfold wire_header, length_code, length_ext.
  pose proof (len_nonneg (f_data f)). destruct Hf as (_ & _ & _ & Hb).
  destruct (Z.leb_spec (len (f_data f)) 125).
  - destruct (Z.eqb_spec (len (f_data f)) 126); [lia |].
    destruct (Z.eqb_spec (len (f_data f)) 127); [lia | done].
  - destruct (Z.leb_spec (len (f_data f)) 65535); cbn [Z.eqb Pos.eqb app].
    + rewrite slice_cons2, <- app_assoc, slice_prefix, be_get_put by (done || len_lia).
      apply Z.mod_small. lia.
    + rewrite slice_cons2, <- app_assoc, slice_prefix, be_get_put by (done || len_lia).
      apply Z.mod_small. lia.
Qed.

Lemma acc_mask_key : hlen hd = len (wire_header f) -> Hdr.MaskKey hd = f_key f.
Proof.
  intros Hl. unfold Hdr.MaskKey. rewrite acc_masked, Hl, Hraw.
  destruct Hf as (_ & Hk & _).
  pose proof (len_wire_header_range f Hk). pose proof (len_wire_header f Hk) as E.
  destruct (f_key f) as [k |] eqn:Ek; [| done].
  rewrite bool_decide_eq_true_2 by eauto. cbn [negb]. f_equal. destruct Hk as [_ Hk].
  pose proof (len_length_ext (len (f_data f))).
  cbn match in E. unfold u8. rewrite Z.mod_small by lia.
  set (pre := [flag (f_final f) 0x80 + flag (f_rsv1 f) 0x40 + f_op f;
               flag is_masked 0x80 + length_code (len (f_data f))]
              ++ length_ext (len (f_data f))).
  assert (wire_header f = pre ++ k) as Ew.
  { unfold wire_header, pre. rewrite Ek. by rewrite app_assoc. }
  assert (len (wire_header f) = len pre + 4) as El by (rewrite Ew, len_app; lia).
  rewrite El, Ew, <- app_assoc, slice_app_r by lia. apply slice_prefix; lia.
Qed.

Lemma acc_bytes : hlen hd = len (wire_header f) -> Hdr.Bytes hd = wire_header f.
Proof. intros Hl. unfold Hdr.Bytes. rewrite Hl, Hraw. apply upto_app_len. Qed.
End accessors.

(** ** The encoder writes the wire format *)

Lemma check_op final op p :
  Enc.check final op p = None ->
  op = Opcode.Continuation \/ op = Opcode.Text \/ op = Opcode.Binary \/
  ((op = Opcode.Close \/ op = Opcode.Ping \/ op = Opcode.Pong) /\ final = true /\ len p <= 125).
Proof.
  unfold Enc.check.
  destruct (Z.eqb_spec op Opcode.Continuation), (Z.eqb_spec op Opcode.Text),
    (Z.eqb_spec op Opcode.Binary), (Z.eqb_spec op Opcode.Close),
    (Z.eqb_spec op Opcode.Ping), (Z.eqb_spec op Opcode.Pong); cbn; try tauto; try done;
  destruct final, (Z.ltb_spec 125 (len p)); cbn; try done; intros _; auto 10.
Qed.

Lemma check_op_range final op p : Enc.check final op p = None -> 0 <= op < 16.
Proof. intros H. destruct (check_op _ _ _ H) as [-> | [-> | [-> | [[-> | [-> | ->]] _]]]]; done. Qed.

Lemma lor_80_op op : 0 <= op < 16 -> Z.lor op 0x80 = 0x80 + op.
Proof. intros. by_small op. Qed.

Lemma lor_40_byte0 (fin : bool) op :
  0 <= op < 16 -> Z.lor (flag fin 0x80 + op) 0x40 = flag fin 0x80 + 0x40 + op.
Proof. intros. destruct fin; unfold flag; by_small op. Qed.

Lemma lor_80_code c : 0 <= c < 128 -> Z.lor c 0x80 = 0x80 + c.
Proof. intros. by_small c. Qed.

Lemma bytes2 l : length l = 2%nat -> exists a b : Z, l = [a; b].
Proof. destruct l as [| ? [| ? [|]]]; cbn; try lia. eauto. Qed.

Lemma bytes8 l : length l = 8%nat -> exists a b c d e f g i : Z, l = [a; b; c; d; e; f; g; i].
Proof.
  destruct l as [| ? [| ? [| ? [| ? [| ? [| ? [| ? [| ? [|]]]]]]]]]; cbn; try lia. eauto 10.
Qed.

Lemma header_hlen final op n key :
  0 <= n -> hlen (Enc.header final op n key)
  = 2 + len (length_ext n) + if key is Some _ then 4 else 0.
Proof.
  intros Hn. unfold Enc.header, length_ext.
  destruct (n <=? 125), (n <=? 65535), key; reflexivity.
Qed.

Lemma byte0_lor (fin : bool) op :
  0 <= op < 16 -> flag fin 0x80 + op = if fin then Z.lor op 0x80 else op.
Proof. intros. destruct fin; [by rewrite lor_80_op | done]. Qed.

Lemma byte1_lor (key : option (list Z)) c :
  0 <= c < 128 ->
  flag (bool_decide (is_Some key)) 0x80 + c = if key is Some _ then Z.lor c 0x80 else c.
Proof.
  intros. destruct key.
  - rewrite bool_decide_eq_true_2 by eauto. by rewrite lor_80_code.
  - done.
Qed.

(** The header has the frame's bytes, then zeros up to [MaxHeaderSize]. *)
Lemma header_raw final op n key (d : list Z) :
  0 <= op < 16 -> n = len d -> n < 2 ^ 63 -> key_ok key ->
  let f := Frame final false op key d in
  raw (Enc.header final op n key) = wire_header f ++ zeros (MaxHeaderSize - len (wire_header f)).
Proof.
  intros Hop -> Hn Hk f. pose proof (len_nonneg d) as Hd.
  assert (wire_header f = (flag final 0x80 + op)
    :: (flag (bool_decide (is_Some key)) 0x80 + length_code (len d))
    :: length_ext (len d) ++ key_bytes key) as ->.
  { unfold wire_header. cbn [f_final f_rsv1 f_op f_key f_data f flag app]. by rewrite Z.add_0_r. }
  rewrite byte0_lor, byte1_lor by (done || by apply length_code_range).
  clear f. unfold Enc.header, length_code, length_ext, key_ok in *. generalize dependent (len d).
  intros n Hn Hd. destruct (Z.leb_spec n 125) as [H1 | H1]; [| destruct (Z.leb_spec n 65535) as [H2 | H2]].
  - assert (u8 n = n) as -> by (apply Z.mod_small; lia).
    destruct final, key as [k |]; [destruct (key_shape k) as (? & ? & ? & ? & ->); [tauto |] | |
      destruct (key_shape k) as (? & ? & ? & ? & ->); [tauto |] |]; reflexivity.
  - assert (u16 n = n) as -> by (apply Z.mod_small; lia).
    destruct (bytes2 (be_put 2 n) (length_be_put _ _)) as (a & b & ->).
    destruct final, key as [k |]; [destruct (key_shape k) as (? & ? & ? & ? & ->); [tauto |] | |
      destruct (key_shape k) as (? & ? & ? & ? & ->); [tauto |] |]; reflexivity.
  - assert (u64 n = n) as -> by (apply Z.mod_small; lia).
    destruct (bytes8 (be_put 8 n) (length_be_put _ _)) as (? & ? & ? & ? & ? & ? & ? & ? & ->).
    destruct final, key as [k |]; [destruct (key_shape k) as (? & ? & ? & ? & ->); [tauto |] | |
      destruct (key_shape k) as (? & ? & ? & ? & ->); [tauto |] |]; reflexivity.
Qed.

Section encode.
Context {M : Masker} `{!MaskerOk M} {G : Grow} `{!GrowOk G}.

Lemma grow_to_cap s n : n <= cap (grow_to s n).
Proof.
  unfold grow_to, cap. destruct (Z.ltb_spec (len (arr s)) n); cbn; [| lia].
  rewrite len_app, len_zeros. pose proof (growcap_ge (len (arr s)) n). lia.
Qed.

Lemma grow_to_vis s n : vis (grow_to s n) = n.
Proof. unfold grow_to. by case_match. Qed.

Lemma Encode_ok e final op p key :
  payload_ok p -> key_ok key -> Enc.check final op p = None ->
  let f := Frame final false op key p in
  let '(e', err) := Enc.Encode e final op p key in
  err = None /\ ScratchKeep e' = ScratchKeep e /\
  raw (eh e') = wire_header f ++ zeros (MaxHeaderSize - len (wire_header f)) /\
  hlen (eh e') = len (wire_header f) /\
  Enc.PayloadBytes e' = masked_data f.
Proof.
  intros [Hp Hn] Hk Hc f. unfold Enc.Encode. rewrite Hc.
  pose proof (check_op_range _ _ _ Hc) as Hop.
  pose proof (header_raw final op (len p) key p Hop eq_refl Hn Hk) as Hr.
  pose proof (header_hlen final op (len p) key (len_nonneg p)) as Hl.
  assert (hlen (Enc.header final op (len p) key) = len (wire_header f)) as Hl2
    by (rewrite Hl; symmetry; apply (len_wire_header f Hk)).
  clear Hl; rename Hl2 into Hl.
  destruct key as [k |]; cbn; [| done].
  do 4 (split; [done |]). unfold contents, masked_data. cbn.
  set (s := if _ && _ && _ then _ else _). rewrite grow_to_vis.
  pose proof (grow_to_cap s (len p)). unfold cap in *. destruct Hk.
  rewrite mask_ok by (done || lia). rewrite upto_app_le by (rewrite len_mask_ref; lia).
  by rewrite upto_all by (rewrite len_mask_ref; lia).
Qed.

Lemma Encode_err e final op p key err :
  Enc.check final op p = Some err -> Enc.Encode e final op p key = (e, Some err).
Proof. unfold Enc.Encode. by intros ->. Qed.

Lemma EncodeCompressed_ok e final op p key :
  payload_ok p -> key_ok key ->
  op = Opcode.Text \/ op = Opcode.Binary \/ op = Opcode.Continuation ->
  let f := Frame final (negb (op =? Opcode.Continuation)) op key p in
  let '(e', err) := Enc.EncodeCompressed e final op p key in
  err = None /\ ScratchKeep e' = ScratchKeep e /\
  raw (eh e') = wire_header f ++ zeros (MaxHeaderSize - len (wire_header f)) /\
  hlen (eh e') = len (wire_header f) /\
  Enc.PayloadBytes e' = masked_data f.
Proof.
  intros Hp Hk Ho f. unfold Enc.EncodeCompressed.
  assert (Enc.check final op p = None) as Hc by (by destruct Ho as [-> | [-> | ->]]).
  pose proof (Encode_ok e final op p key Hp Hk Hc) as H.
  destruct (Enc.Encode e final op p key) as [e' err]. destruct H as (-> & Hs & Hr & Hl & Hb).
  assert (0 <= op < 16) as Hop by (by eapply check_op_range).
  subst f. destruct Ho as [-> | [-> | ->]]; cbn [Z.eqb negb andb Pos.eqb Opcode.Text Opcode.Binary Opcode.Continuation]; try done;
    split_and!; try done; cbn [raw eh hlen]; rewrite Hr; by destruct final.
Qed.
End encode.

(** ** Properties *)

(** C21. [Encode] accepts exactly the frames RFC 6455 allows it to build (data
    opcodes; control opcodes when final, at most 125 bytes, and a close payload
    not of one byte), leaves the encoder unchanged on error, and otherwise
    holds exactly the wire bytes of the frame: flags, minimal length, key, and
    the payload masked with the key or borrowed as it is. *)
Theorem Encode_functional {M : Masker} `{!MaskerOk M} {G : Grow} `{!GrowOk G} e final op p key :
  payload_ok p -> key_ok key ->
  let legal := op = Opcode.Continuation \/ op = Opcode.Text \/ op = Opcode.Binary \/
    (op = Opcode.Close \/ op = Opcode.Ping \/ op = Opcode.Pong) /\
    final = true /\ len p <= 125 /\ ~ (op = Opcode.Close /\ len p = 1) in
  let '(e', err) := Enc.Encode e final op p key in
  (err = None <-> legal) /\
  (err <> None -> e' = e) /\
  (err = None -> Enc.HeaderBytes e' ++ Enc.PayloadBytes e' = wire (Frame final false op key p)).
Proof.
  intros Hp Hk legal. destruct (Enc.check final op p) as [x |] eqn:Hc.
  - rewrite (Encode_err _ _ _ _ _ _ Hc). split; [| done]. split; [done |].
    intros Hl. exfalso. revert Hc. unfold Enc.check.
    destruct Hl as [-> | [-> | [-> | ([-> | [-> | ->]] & -> & Hn & Hx)]]]; cbn; try done;
      destruct (Z.ltb_spec 125 (len p)); cbn; try lia; try done.
    destruct (Z.eqb_spec (len p) 1); [tauto | done].
  - pose proof (Encode_ok e final op p key Hp Hk Hc) as H.
    destruct (Enc.Encode e final op p key) as [e' err]. destruct H as (-> & _ & Hr & Hl & Hb).
    split; [| split; [done |]].
    + split; [intros _ | done]. subst legal.
      destruct (check_op _ _ _ Hc) as [| [| [| (Ho & Hf & Hn)]]]; auto.
      do 3 right. split_and!; try done. intros [-> E1]. revert Hc. unfold Enc.check.
      rewrite Hf, E1. done.
    + intros _. unfold Enc.HeaderBytes, wire. rewrite Hb. f_equal. by eapply acc_bytes.
Qed.

(** A concrete growth rule, for the witnesses. *)
Definition double_growth : Grow := fun c n => Z.max n (2 * c).

Lemma double_growth_ok : GrowOk double_growth.
Proof. intros c n. unfold growcap, double_growth. lia. Qed.

#[local] Existing Instance double_growth.
#[local] Existing Instance double_growth_ok.

Lemma Encode_functional_witness :
  let '(e', err) := Enc.Encode (H := swar_masker) Encoder_zero true Opcode.Text [72; 105]
    (Some [1; 2; 3; 4]) in
  err = None /\
  Enc.HeaderBytes e' ++ Enc.PayloadBytes e' = [129; 130; 1; 2; 3; 4; 73; 107].
Proof.
  pose proof (Encode_functional (M := swar_masker) Encoder_zero true Opcode.Text [72; 105]
    (Some [1; 2; 3; 4])) as W.
  destruct (Enc.Encode _ _ _ _ _) as [e' err].
  destruct W as (H1 & _ & H2).
  - split; [repeat constructor; unfold is_byte; lia | reflexivity].
  - split; [repeat constructor; unfold is_byte; lia | reflexivity].
  - assert (err = None) as E by (apply H1; right; left; reflexivity).
    split; [exact E | exact (H2 E)].
Defined.

(** [ScratchKeep] bounds what one huge masked frame can pin: after masking
    a payload that fits the bound, the scratch kept is within the bound or is
    the storage just grown for this payload from a smaller one, never the old
    oversized buffer. *)
Theorem Encode_scratch_released {M : Masker} `{!MaskerOk M} {G : Grow} `{!GrowOk G} e final op p k :
  payload_ok p -> key_ok (Some k) -> Enc.check final op p = None ->
  ScratchKeep e <> 0 -> len p <= ScratchKeep e ->
  let e' := (Enc.Encode e final op p (Some k)).1 in
  cap (escratch e') <= ScratchKeep e \/
  exists c, c < len p /\ cap (escratch e') <= Z.max c (growcap c (len p)).
Proof.
  intros [Hp Hn] [Hk Hkl] Hc Hz Hle. unfold Enc.Encode. rewrite Hc. cbn [fst escratch].
  set (s := if _ && _ && _ then _ else _).
  pose proof (grow_to_cap s (len p)) as Hg. unfold cap in Hg.
  assert (cap {| arr := mask false (arr (grow_to s (len p))) p k 0; vis := vis (grow_to s (len p)) |}
    = cap (grow_to s (len p))) as ->.
  { unfold cap. cbn [arr]. rewrite mask_ok by (done || lia). len_lia. }
  unfold grow_to. destruct (Z.ltb_spec (cap s) (len p)) as [Hlt | Hge].
  - right. exists (cap s). split; [done |]. unfold cap in *. cbn [arr].
    rewrite len_app, len_zeros. pose proof (len_nonneg (arr s)). lia.
  - left. unfold cap at 1. cbn [arr]. fold (cap s). subst s.
    destruct (Z.eqb_spec (ScratchKeep e) 0); [done |].
    destruct (Z.ltb_spec (ScratchKeep e) (cap (escratch e))); cbn; [| lia].
    destruct (Z.leb_spec (len p) (ScratchKeep e)); [cbn | lia]. unfold cap, nil_store. cbn. len_lia.
Qed.

Lemma Encode_scratch_released_witness :
  let e := {| Encoder_zero with ScratchKeep := 4; escratch := Store (zeros 1000) 1000 |} in
  let e' := (Enc.Encode (H := swar_masker) e true Opcode.Binary [1; 2; 3] (Some [9; 9; 9; 9])).1 in
  cap (escratch e') <= 4 \/ exists c, c < 3 /\ cap (escratch e') <= Z.max c (growcap c 3).
Proof.
  cbv zeta.
  apply (Encode_scratch_released (M := swar_masker)
    {| Encoder_zero with ScratchKeep := 4; escratch := Store (zeros 1000) 1000 |}
    true Opcode.Binary [1; 2; 3] [9; 9; 9; 9]).
  - split; [repeat constructor; unfold is_byte; lia | reflexivity].
  - split; [repeat constructor; unfold is_byte; lia | reflexivity].
  - reflexivity.
  - cbn. lia.
  - cbn. unfold len. cbn. lia.
Defined.
