(* ===== verification/Decoder.v ===== *)
(** * The incremental frame decoder (codec/decoder.go)

    Slices are modelled by their contents.  [pending] is what was fed and not
    yet consumed; a chunk handed out is no longer part of it, so unmasking the
    chunk in place cannot disturb what is still pending. *)

From stdpp Require Import prelude.
From S2P Require Import Prelude Words Mask Errors Header Encoder.

Record Decoder := mkDecoder {
  pending : list Z;
  dscratch : list Z;
  remaining : Z
}.

Definition Decoder_zero : Decoder := {| pending := []; dscratch := []; remaining := 0 |}.

Module Dec.

Definition Reset (d : Decoder) : Decoder :=
  {| pending := []; dscratch := []; remaining := 0 |}.

Definition Buffered (d : Decoder) : Z := len (pending d).

Definition Feed (d : Decoder) (b : list Z) : Decoder :=
  if len b =? 0 then d
  else if len (pending d) =? 0 then {| d with pending := b |}
  else
    let s := pending d in
    let s := s ++ b in
    {| d with dscratch := s; pending := s |}.

Definition Preserve (d : Decoder) : Decoder :=
  if len (pending d) =? 0 then d
  else {| d with dscratch := pending d; pending := pending d |}.

(** The header and the decoder are both updated; the boolean is [ok]. *)
Definition NextHeaderInto (d : Decoder) (h : Header) : Decoder * Header * (bool * option error) :=
  if negb (remaining d =? 0) then (d, h, (false, Some (Codec ErrPayloadPending)))
  else if len (pending d) <? 2 then (d, h, (false, None))
  else
    let lengthCode := Z.land (idx (pending d) 1) 0x7f in
    let n := if lengthCode =? 126 then 2 + 2 else if lengthCode =? 127 then 2 + 8 else 2 in
    let n := if negb (Z.land (idx (pending d) 1) 0x80 =? 0) then n + 4 else n in
    if len (pending d) <? n then (d, h, (false, None))
    else
      let h := {| raw := splice (raw h) 0 (upto (pending d) n); hlen := u8 n |} in
      let rem := Hdr.PayloadLen h in
      if ((lengthCode =? 126) && (rem <? 126))
         || ((lengthCode =? 127) && ((rem <? 65536) || negb (Z.shiftr rem 63 =? 0)))
      then (d, Header_zero, (false, Some (Codec ErrInvalidPayloadLength)))
      else ({| d with pending := from (pending d) n; remaining := rem |}, h, (true, None)).

Definition NextHeader (d : Decoder) : Decoder * (Header * bool * option error) :=
  let '(d, h, (ok, err)) := NextHeaderInto d Header_zero in (d, (h, ok, err)).

Definition PayloadN (d : Decoder) (n : Z) : Decoder * (list Z * bool) :=
  if remaining d =? 0 then (d, ([], true))
  else if (n <=? 0) || (len (pending d) =? 0) then (d, ([], false))
  else
    let n := Z.min (Z.min n (len (pending d))) (remaining d) in
    let chunk := upto (pending d) n in
    let d := {| d with pending := from (pending d) n; remaining := u64 (remaining d - n) |} in
    (d, (chunk, remaining d =? 0)).

Definition Payload (d : Decoder) : Decoder * (list Z * bool) := PayloadN d (len (pending d)).

End Dec.

(** ** Specification: how long the header at the head of the input is *)

Definition need (p : list Z) : Z :=
  let c := Z.land (idx p 1) 0x7f in
  2 + (if c =? 126 then 2 else if c =? 127 then 8 else 0)
    + (if Z.land (idx p 1) 0x80 =? 0 then 0 else 4).

(** The payload length it announces, and whether the code is minimal. *)
Definition wire_plen (p : list Z) : Z :=
  let c := Z.land (idx p 1) 0x7f in
  if c =? 126 then be_get (slice p 2 4) else if c =? 127 then be_get (slice p 2 10) else c.

Definition bad_length (p : list Z) : bool :=
  let c := Z.land (idx p 1) 0x7f in
  ((c =? 126) && (wire_plen p <? 126))
  || ((c =? 127) && ((wire_plen p <? 65536) || (2 ^ 63 <=? wire_plen p))).

Definition header_complete (p : list Z) : bool := (2 <=? len p) && (need p <=? len p).

(** Invariant: bytes pending, a 63-bit number of payload bytes to come. *)
Definition decoder_ok (d : Decoder) : Prop :=
  bytes_ok (pending d) /\ 0 <= remaining d < 2 ^ 63.

Definition header_ok (h : Header) : Prop :=
  len (raw h) = MaxHeaderSize /\ bytes_ok (raw h) /\ 0 <= hlen h <= MaxHeaderSize.

(** ** Lemmas *)

Lemma need_range p : 2 <= need p <= 14.
Proof. unfold need. repeat case_match; lia. Qed.

Lemma idx_upto l n i : 0 <= i < n -> idx (upto l n) i = idx l i.
Proof. intros. unfold idx, upto. rewrite lookup_take_lt by lia. done. Qed.

Lemma idx_app_l l k i : 0 <= i < len l -> idx (l ++ k) i = idx l i.
Proof. intros. unfold idx, len in *. rewrite lookup_app_l by lia. done. Qed.

Lemma idx_splice_0 (l bs : list Z) i : 0 <= i < len bs -> idx (splice l 0 bs) i = idx bs i.
Proof. intros. unfold splice. rewrite upto_0 by lia. cbn [app]. by apply idx_app_l. Qed.

Lemma slice_splice_0 (l bs : list Z) i j :
  0 <= i -> j <= len bs -> slice (splice l 0 bs) i j = slice bs i j.
Proof. intros. unfold splice. rewrite upto_0 by lia. cbn [app]. by apply slice_app_l. Qed.

Lemma slice_upto (l : list Z) n i j : 0 <= i -> j <= n -> slice (upto l n) i j = slice l i j.
Proof.
  intros. unfold slice, upto, from. rewrite skipn_firstn_comm, take_take. f_equal. lia.
Qed.

(** The fields of [need] and [wire_plen] depend on the header's bytes only. *)
Lemma need_app p q : 2 <= len p -> need (p ++ q) = need p.
Proof. intros. unfold need. by rewrite idx_app_l by lia. Qed.

Lemma wire_plen_app p q : 2 <= len p -> need p <= len p -> wire_plen (p ++ q) = wire_plen p.
Proof.
  intros H2 Hn. unfold wire_plen. rewrite idx_app_l by lia. unfold need in Hn.
  destruct (Z.eqb_spec (Z.land (idx p 1) 0x7f) 126).
  - rewrite slice_app_l by (repeat case_match; lia). done.
  - destruct (Z.eqb_spec (Z.land (idx p 1) 0x7f) 127); [| done].
    rewrite slice_app_l by (repeat case_match; lia). done.
Qed.

Lemma header_complete_app p q :
  header_complete p = true -> header_complete (p ++ q) = true /\ need (p ++ q) = need p.
Proof.
  unfold header_complete. intros [H1 H2]%andb_prop. apply Z.leb_le in H1, H2.
  rewrite need_app by done. split; [| done]. apply andb_true_intro.
  split; apply Z.leb_le; rewrite len_app; pose proof (len_nonneg q); lia.
Qed.

Lemma wire_plen_range p : bytes_ok p -> 0 <= wire_plen p < 2 ^ 64.
Proof.
  intros Hp. unfold wire_plen.
  assert (forall i j, bytes_ok (slice p i j)) as Hs by eauto with ews.
  repeat case_match.
  - pose proof (be_get_bound _ (Hs 2 4)). assert (2 ^ (8 * len (slice p 2 4)) <= 2 ^ 64); [| lia].
    apply Z.pow_le_mono_r; [lia |]. rewrite len_slice. lia.
  - pose proof (be_get_bound _ (Hs 2 10)). assert (2 ^ (8 * len (slice p 2 10)) <= 2 ^ 64); [| lia].
    apply Z.pow_le_mono_r; [lia |]. rewrite len_slice. lia.
  - pose proof (land_7f_range _ (bytes_ok_idx p 1 Hp)). lia.
Qed.

Lemma shiftr_63 v : 0 <= v < 2 ^ 64 -> negb (Z.shiftr v 63 =? 0) = (2 ^ 63 <=? v).
Proof.
  intros Hv. rewrite Z.shiftr_div_pow2 by lia. destruct (Z.leb_spec (2 ^ 63) v).
  - assert (1 <= v / 2 ^ 63) by (apply Z.div_le_lower_bound; lia).
    destruct (Z.eqb_spec (v / 2 ^ 63) 0); [lia | done].
  - by rewrite Z.div_small by lia.
Qed.

(** A header whose bytes are a complete header prefix reads it back. *)
Lemma PayloadLen_plen p q n :
  n = need p -> n <= len p -> Hdr.PayloadLen (mkHeader (splice q 0 (upto p n)) (u8 n)) = wire_plen p.
Proof.
  intros -> Hn. pose proof (need_range p). unfold Hdr.PayloadLen, wire_plen. cbn [raw].
  assert (len (upto p (need p)) = need p) as Hl by len_lia.
  rewrite idx_splice_0, idx_upto by lia. unfold need in *.
  destruct (Z.eqb_spec (Z.land (idx p 1) 0x7f) 126).
  - rewrite slice_splice_0, slice_upto by (repeat case_match; lia). done.
  - destruct (Z.eqb_spec (Z.land (idx p 1) 0x7f) 127); [| done].
    rewrite slice_splice_0, slice_upto by (repeat case_match; lia). done.
Qed.

(** [NextHeaderInto] by cases: pending payload, incomplete, bad, decoded. *)
Definition header_of (p : list Z) (h : Header) : Header :=
  {| raw := splice (raw h) 0 (upto p (need p)); hlen := need p |}.

Lemma NextHeaderInto_cases d h :
  decoder_ok d ->
  Dec.NextHeaderInto d h =
    if negb (remaining d =? 0) then (d, h, (false, Some (Codec ErrPayloadPending)))
    else if negb (header_complete (pending d)) then (d, h, (false, None))
    else if bad_length (pending d) then (d, Header_zero, (false, Some (Codec ErrInvalidPayloadLength)))
    else ({| d with pending := from (pending d) (need (pending d));
                    remaining := wire_plen (pending d) |},
          header_of (pending d) h, (true, None)).
Proof.
  intros [Hp Hr]. unfold Dec.NextHeaderInto. destruct (negb (remaining d =? 0)); [done |].
  unfold header_complete. destruct (Z.ltb_spec (len (pending d)) 2) as [H2 | H2].
  { destruct (Z.leb_spec 2 (len (pending d))); [lia | done]. }
  destruct (Z.leb_spec 2 (len (pending d))); [| lia]. cbn [andb].
  set (n := if negb _ then _ else _).
  assert (n = need (pending d)) as ->.
  { subst n. unfold need. repeat case_match; cbn in *; try discriminate; lia. }
  destruct (Z.ltb_spec (len (pending d)) (need (pending d))) as [Hn | Hn].
  { destruct (Z.leb_spec (need (pending d)) (len (pending d))); [lia | done]. }
  destruct (Z.leb_spec (need (pending d)) (len (pending d))); [cbn [negb] | lia].
  rewrite PayloadLen_plen by done.
  pose proof (need_range (pending d)).
  assert (u8 (need (pending d)) = need (pending d)) as -> by (apply Z.mod_small; lia).
  rewrite shiftr_63 by (by apply wire_plen_range). done.
Qed.

Lemma bad_length_plen p : bytes_ok p -> bad_length p = false -> 0 <= wire_plen p < 2 ^ 63.
Proof.
  intros Hp. pose proof (wire_plen_range p Hp). unfold bad_length.
  destruct (Z.eqb_spec (Z.land (idx p 1) 0x7f) 127) as [E | E].
  - destruct (Z.leb_spec (2 ^ 63) (wire_plen p)); [| lia].
    rewrite orb_true_r. cbn. by rewrite orb_true_r.
  - intros _. split; [lia |]. unfold wire_plen in *.
    destruct (Z.eqb_spec (Z.land (idx p 1) 0x7f) 126).
    + pose proof (be_get_bound (slice p 2 4) ltac:(eauto with ews)).
      assert (2 ^ (8 * len (slice p 2 4)) <= 2 ^ 16); [| lia].
      apply Z.pow_le_mono_r; [lia |]. rewrite len_slice. lia.
    + destruct (Z.eqb_spec (Z.land (idx p 1) 0x7f) 127); [done |].
      pose proof (land_7f_range _ (bytes_ok_idx p 1 Hp)). lia.
Qed.

Lemma header_of_ok p h :
  header_ok h -> bytes_ok p -> need p <= len p -> header_ok (header_of p h).
Proof.
  intros (Hl & Hb & _) Hp Hn. pose proof (need_range p). unfold header_ok, header_of. cbn [raw hlen].
  unfold MaxHeaderSize in *. split_and!; try lia.
  - rewrite len_splice; [done | lia | rewrite len_upto; lia].
  - eauto with ews.
Qed.
