(* ===== verification/Utf8.v ===== *)
(** * UTF-8 validation (internal/utf8/ascii.go, valid_swar.go)

    [std_Valid] is the standard library's [unicode/utf8.Valid], which the
    package falls back to on short inputs and which close-frame validation
    uses.  [Valid] is the build without SIMD. *)

From stdpp Require Import prelude.
From S2P Require Import Prelude Words Header.

(** ** The standard library's validator *)

Definition between (lo hi b : Z) : bool := (lo <=? b) && (b <=? hi).
Definition is_cont (b : Z) : bool := between 0x80 0xbf b.

Fixpoint std_Valid (l : list Z) : bool :=
  match l with
  | [] => true
  | b0 :: t0 =>
      if b0 <? 0x80 then std_Valid t0
      else if between 0xc2 0xdf b0 then
        match t0 with b1 :: t1 => is_cont b1 && std_Valid t1 | _ => false end
      else if between 0xe0 0xef b0 then
        let lo := if b0 =? 0xe0 then 0xa0 else 0x80 in
        let hi := if b0 =? 0xed then 0x9f else 0xbf in
        match t0 with
        | b1 :: b2 :: t2 => between lo hi b1 && is_cont b2 && std_Valid t2
        | _ => false
        end
      else if between 0xf0 0xf4 b0 then
        let lo := if b0 =? 0xf0 then 0x90 else 0x80 in
        let hi := if b0 =? 0xf4 then 0x8f else 0xbf in
        match t0 with
        | b1 :: b2 :: b3 :: t3 => between lo hi b1 && is_cont b2 && is_cont b3 && std_Valid t3
        | _ => false
        end
      else false
  end.

(** ** ascii.go *)

Definition high : Z := 0x8080808080808080.

(** [word] and [binary.LittleEndian.Uint64]: the first eight bytes. *)
Definition word (b : list Z) : Z := le_get (upto b 8).

Fixpoint ascii32 (fuel : nat) (src : list Z) (i : Z) : Z :=
  match fuel with
  | O => i
  | S fuel =>
      if i + 32 <=? len src then
        let s := slice src i (i + 32) in
        let words := Z.lor (Z.lor (Z.lor (word s) (word (from s 8))) (word (from s 16)))
                           (word (from s 24)) in
        if negb (Z.land words high =? 0) then i else ascii32 fuel src (i + 32)
      else i
  end.

Fixpoint ascii1 (fuel : nat) (src : list Z) (i : Z) : Z :=
  match fuel with
  | O => i
  | S fuel => if (i <? len src) && (idx src i <? 0x80) then ascii1 fuel src (i + 1) else i
  end.

Definition asciiPrefix (src : list Z) : Z :=
  let i := ascii32 (S (length src)) src 0 in
  let i := if i + 16 <=? len src then
             let s := slice src i (i + 16) in
             if Z.land (Z.lor (word s) (word (from s 8))) high =? 0 then i + 16 else i
           else i in
  let i := if (i + 8 <=? len src) && (Z.land (word (slice src i (i + 8))) high =? 0)
           then i + 8 else i in
  ascii1 (S (length src)) src i.

(** ** valid_swar.go: the shift-based DFA *)

Definition accept : Z := 0.
Definition cont1 : Z := 6.
Definition cont2 : Z := 12.
Definition afterE0 : Z := 18.
Definition afterED : Z := 24.
Definition afterF0 : Z := 30.
Definition afterF1 : Z := 36.
Definition afterF4 : Z := 42.
Definition reject : Z := 48.

Definition transition (state b : Z) : Z :=
  let in_ lo hi := (lo <=? b) && (b <=? hi) in
  if state =? accept then
    if b <? 0x80 then accept
    else if in_ 0xc2 0xdf then cont1
    else if b =? 0xe0 then afterE0
    else if b =? 0xed then afterED
    else if in_ 0xe1 0xef then cont2
    else if b =? 0xf0 then afterF0
    else if in_ 0xf1 0xf3 then afterF1
    else if b =? 0xf4 then afterF4
    else reject
  else if state =? cont1 then if in_ 0x80 0xbf then accept else reject
  else if state =? cont2 then if in_ 0x80 0xbf then cont1 else reject
  else if state =? afterE0 then if in_ 0xa0 0xbf then cont1 else reject
  else if state =? afterED then if in_ 0x80 0x9f then cont1 else reject
  else if state =? afterF0 then if in_ 0x90 0xbf then cont2 else reject
  else if state =? afterF1 then if in_ 0x80 0xbf then cont2 else reject
  else if state =? afterF4 then if in_ 0x80 0x8f then cont2 else reject
  else reject.

Definition dfa_states : list Z :=
  [accept; cont1; cont2; afterE0; afterED; afterF0; afterF1; afterF4; reject].

(** One entry of the table the package initialiser builds. *)
Definition dfa_entry (b : Z) : Z :=
  fold_left (fun t s => Z.lor t (u64 (Z.shiftl (transition s b) s))) dfa_states 0.

Definition dfa : list Z := dfa_entry <$> (Z.of_nat <$> seq 0 256).

(** [state = dfa[b] >> (state & 63)] *)
Definition dfa_step (state b : Z) : Z := Z.shiftr (idx dfa b) (Z.land state 63).

Fixpoint dfa_tail (fuel : nat) (src : list Z) (i state : Z) : Z :=
  match fuel with
  | O => state
  | S fuel => if i <? len src then dfa_tail fuel src (i + 1) (dfa_step state (idx src i)) else state
  end.

(** The eight-byte loop, then the tail: the final verdict. *)
Fixpoint dfa_loop (fuel : nat) (src : list Z) (i state : Z) : bool :=
  match fuel with
  | O => false
  | S fuel =>
      if i + 8 <=? len src then
        if (Z.land state 63 =? accept) && (Z.land (word (slice src i (i + 8))) high =? 0)
        then dfa_loop fuel src (i + 8) state
        else
          let s := slice src i (i + 8) in
          let state := fold_left dfa_step
            [idx s 0; idx s 1; idx s 2; idx s 3; idx s 4; idx s 5; idx s 6; idx s 7] state in
          if Z.land state 63 =? reject then false else dfa_loop fuel src (i + 8) state
      else
        let state := dfa_tail (length src) src i state in
        Z.land state 63 =? accept
  end.

Definition Valid (src : list Z) : bool :=
  let i := asciiPrefix src in
  if i =? len src then true
  else if len src - i <? 16 then std_Valid (from src i)
  else dfa_loop (S (length src)) src i 0.

(** ** Specification: sequences of encoded scalar values *)

Definition scalar (r : Z) : Prop := 0 <= r < 0xD800 \/ 0xE000 <= r <= 0x10FFFF.

Definition encode_rune (r : Z) : list Z :=
  if r <? 0x80 then [r]
  else if r <? 0x800 then [0xC0 + r / 64; 0x80 + r mod 64]
  else if r <? 0x10000 then [0xE0 + r / 4096; 0x80 + r / 64 mod 64; 0x80 + r mod 64]
  else [0xF0 + r / 262144; 0x80 + r / 4096 mod 64; 0x80 + r / 64 mod 64; 0x80 + r mod 64].

Definition utf8 (l : list Z) : Prop :=
  exists rs, Forall scalar rs /\ l = mjoin (encode_rune <$> rs).

(** ** Word tests *)

Definition ascii (b : Z) : Prop := b < 128.

Lemma land_high l :
  bytes_ok l -> Z.land (le_get l) (le_get (replicate (length l) 0x80)) = 0 <-> Forall ascii l.
Proof.
  induction 1 as [| b l Hb Hl IH]; [done |]. cbn [length replicate le_get].
  assert (Z.land (Z.lor b (Z.shiftl (le_get l) 8))
            (Z.lor 128 (Z.shiftl (le_get (replicate (length l) 128)) 8))
          = Z.lor (Z.land b 128)
              (Z.shiftl (Z.land (le_get l) (le_get (replicate (length l) 128))) 8)) as ->.
  { apply Z.bits_inj'. intros i Hi. rewrite Z.land_spec, !Z.lor_spec, Z.land_spec.
    destruct (decide (i < 8)).
    - rewrite !Z.shiftl_spec_low by lia. by rewrite !orb_false_r.
    - rewrite !Z.shiftl_spec, Z.land_spec, (byte_testbit_high b), (byte_testbit_high 128)
        by (done || lia). done. }
  rewrite Z.lor_eq_0_iff, Forall_cons, <- IH. rewrite Z.shiftl_eq_0_iff by lia.
  assert (Z.land b 128 = 0 <-> ascii b) as ->; [| tauto].
  clear -Hb. unfold ascii. by_bytes b.
Qed.

Lemma word_high l : bytes_ok l -> length l = 8%nat -> Z.land (le_get l) high = 0 <-> Forall ascii l.
Proof. intros Hl E. rewrite <- land_high by done. by rewrite E. Qed.

Lemma lor_land_0 a b c : Z.land (Z.lor a b) c = 0 <-> Z.land a c = 0 /\ Z.land b c = 0.
Proof. rewrite Z.land_lor_distr_l. apply Z.lor_eq_0_iff. Qed.

Lemma len_length {A} (l : list A) n : 0 <= n -> len l = n -> length l = Z.to_nat n.
Proof. unfold len. lia. Qed.

(** Eight bytes loaded at [i] are all ASCII exactly when the test is zero. *)
Lemma word_at src i :
  bytes_ok src -> 0 <= i -> i + 8 <= len src ->
  Z.land (word (slice src i (i + 8))) high = 0 <-> Forall ascii (slice src i (i + 8)).
Proof.
  intros Hs Hi Hl. unfold word. rewrite upto_all by len_lia.
  apply word_high; [by apply bytes_ok_slice | apply (len_length _ 8); [lia | len_lia]].
Qed.

Lemma word_from src i j k :
  0 <= i -> 0 <= k -> i + k + 8 <= j -> word (from (slice src i j) k) = word (slice src (i + k) (i + k + 8)).
Proof.
  intros. unfold word. f_equal. unfold slice, upto, from.
  rewrite skipn_firstn_comm, drop_drop, !take_take. f_equal; [lia | f_equal; lia].
Qed.

Lemma word_slice src i j :
  0 <= i -> i + 8 <= j -> word (slice src i j) = word (slice src i (i + 8)).
Proof.
  intros. rewrite <- (from_0 (slice src i j) 0) by lia.
  rewrite word_from by lia. by rewrite Z.add_0_r.
Qed.

Lemma ascii_extend src i j :
  0 <= i <= j -> Forall ascii (upto src i) -> Forall ascii (slice src i j) -> Forall ascii (upto src j).
Proof. intros. rewrite (upto_split src i j) by lia. by apply Forall_app. Qed.

Lemma slice_join (src : list Z) i j k :
  0 <= i <= j -> j <= k -> slice src i k = slice src i j ++ slice src j k.
Proof.
  intros. unfold slice at 1 3. rewrite (upto_split (from src i) (j - i) (k - i)) by lia.
  f_equal. unfold slice. rewrite from_from by lia. f_equal; [f_equal |]; lia.
Qed.

(** [i] is inside the leading ASCII run. *)
Definition ascii_upto (src : list Z) (i : Z) : Prop := 0 <= i <= len src /\ Forall ascii (upto src i).

Lemma ascii32_ok fuel src i :
  bytes_ok src -> ascii_upto src i -> ascii_upto src (ascii32 fuel src i).
Proof.
  intros Hs. revert i. induction fuel as [| f IH]; intros i Hi; cbn [ascii32]; [done |].
  destruct (Z.leb_spec (i + 32) (len src)); [| done]. cbv zeta.
  case_match eqn:E; [done |]. apply IH.
  apply negb_false_iff, Z.eqb_eq in E. rewrite !lor_land_0 in E.
  destruct Hi as [Hi Ha]. rewrite word_slice, !word_from, !word_at in E by (done || lia).
  split; [lia |]. apply (ascii_extend src i); [lia | done |].
  rewrite (slice_join src i (i + 8)), (slice_join src (i + 8) (i + 8 + 8)),
    (slice_join src (i + 8 + 8) (i + 16 + 8)) by lia.
  replace (i + 8 + 8) with (i + 16) in * by lia. replace (i + 16 + 8) with (i + 24) in * by lia.
  replace (i + 24 + 8) with (i + 32) in * by lia. rewrite !Forall_app. tauto.
Qed.

Lemma ascii1_ok fuel src i :
  ascii_upto src i -> len src - i < Z.of_nat fuel ->
  let j := ascii1 fuel src i in
  ascii_upto src j /\ (j = len src \/ (j < len src /\ 0x80 <= idx src j)).
Proof.
  revert i. induction fuel as [| f IH]; intros i [Hi Ha] Hf; cbn [ascii1]; [lia |].
  destruct (Z.ltb_spec i (len src)); cbn [andb]; [| split; [done | lia]].
  destruct (Z.ltb_spec (idx src i) 0x80); [| split; [done | lia]].
  apply IH; [| lia]. split; [lia |]. apply (ascii_extend src i); [lia | done |].
  rewrite slice_1 by lia. repeat constructor. done.
Qed.

(** [asciiPrefix] is exactly the length of the leading ASCII run. *)
Lemma asciiPrefix_ok src :
  bytes_ok src ->
  let j := asciiPrefix src in
  ascii_upto src j /\ (j = len src \/ (j < len src /\ 0x80 <= idx src j)).
Proof.
  intros Hs. unfold asciiPrefix.
  assert (ascii_upto src 0) as H0 by (split; [len_lia | by rewrite upto_0 by lia]).
  pose proof (ascii32_ok (S (length src)) src 0 Hs H0) as H1.
  set (i1 := ascii32 _ _ _) in *. clearbody i1.
  set (i2 := if _ <=? _ then _ else _).
  assert (ascii_upto src i2) as H2.
  { subst i2. destruct (Z.leb_spec (i1 + 16) (len src)); [| done]. cbv zeta.
    case_match eqn:E; [| done]. apply Z.eqb_eq in E. rewrite lor_land_0 in E.
    destruct H1 as [Hi Ha]. rewrite word_slice, word_from, !word_at in E by (done || lia).
    split; [lia |]. apply (ascii_extend src i1); [lia | done |].
    rewrite (slice_join src i1 (i1 + 8)) by lia.
    replace (i1 + 8 + 8) with (i1 + 16) in * by lia. rewrite Forall_app. tauto. }
  clearbody i2. set (i3 := if _ && _ then _ else _).
  assert (ascii_upto src i3) as H3.
  { subst i3. destruct (Z.leb_spec (i2 + 8) (len src)); [| done]. cbn [andb].
    case_match eqn:E; [| done]. apply Z.eqb_eq in E. destruct H2 as [Hi Ha].
    rewrite word_at in E by (done || lia).
    split; [lia |]. by apply (ascii_extend src i2); [lia | |]. }
  clearbody i3. apply ascii1_ok; [done |]. destruct H3. unfold len in *. lia.
Qed.

(** ** The table computes the transition function *)

Lemma length_dfa : length dfa = 256%nat.
Proof. vm_compute. reflexivity. Qed.

Lemma dfa_at b : is_byte b -> idx dfa b = dfa_entry b.
Proof.
  intros [H1 H2]. unfold idx, dfa. rewrite !list_lookup_fmap, lookup_seq_lt by lia.
  change (dfa_entry (Z.of_nat (0 + Z.to_nat b)) = dfa_entry b). f_equal. lia.
Qed.

Definition is_state (s : Z) : Prop := s ∈ dfa_states.

Lemma dfa_entry_check :
  forallb (fun b => forallb (fun s =>
      (Z.land (Z.shiftr (dfa_entry b) s) 63 =? transition s b)
      && bool_decide (transition s b ∈ dfa_states)) dfa_states)
    (Z.of_nat <$> seq 0 256) = true.
Proof. vm_compute. reflexivity. Qed.

Lemma dfa_entry_ok s b :
  is_state s -> is_byte b ->
  Z.land (Z.shiftr (dfa_entry b) s) 63 = transition s b /\ is_state (transition s b).
Proof.
  intros Hs [H1 H2]. pose proof dfa_entry_check as H. rewrite forallb_forall in H.
  assert (In b (Z.of_nat <$> seq 0 256)) as Hin.
  { apply list_elem_of_In, list_elem_of_fmap. exists (Z.to_nat b). split; [lia |].
    apply elem_of_seq. lia. }
  specialize (H b Hin). cbv beta in H.
  rewrite forallb_forall in H. specialize (H s (proj1 (list_elem_of_In _ _) Hs)).
  apply andb_prop in H as [E1 E2]. apply Z.eqb_eq in E1. by apply bool_decide_eq_true in E2.
Qed.

Lemma dfa_step_ok st b :
  is_state (Z.land st 63) -> is_byte b ->
  Z.land (dfa_step st b) 63 = transition (Z.land st 63) b /\
  is_state (transition (Z.land st 63) b).
Proof. intros Hs Hb. unfold dfa_step. rewrite dfa_at by done. by apply dfa_entry_ok. Qed.

(** The run of the abstract automaton. *)
Definition run_dfa (s : Z) (l : list Z) : Z := fold_left transition l s.

Lemma dfa_fold l st :
  bytes_ok l -> is_state (Z.land st 63) ->
  Z.land (fold_left dfa_step l st) 63 = run_dfa (Z.land st 63) l /\
  is_state (run_dfa (Z.land st 63) l).
Proof.
  intros Hl. revert st. induction Hl as [| b l Hb Hl IH]; intros st Hs; cbn; [done |].
  destruct (dfa_step_ok st b Hs Hb) as [E Hs']. rewrite <- E in Hs' |- *. by apply IH.
Qed.

Lemma run_reject l : run_dfa reject l = reject.
Proof. induction l; cbn; done. Qed.

Lemma run_ascii l : bytes_ok l -> Forall ascii l -> run_dfa accept l = accept.
Proof.
  intros _. induction 1 as [| b l Hb Hl IH]; cbn; [done |].
  unfold transition, ascii in *. cbn. destruct (Z.ltb_spec b 0x80); [done | lia].
Qed.

Lemma run_dfa_app s l k : run_dfa s (l ++ k) = run_dfa (run_dfa s l) k.
Proof. apply fold_left_app. Qed.

(** ** The automaton accepts what the standard validator accepts *)

Definition first_state (b : Z) : Z :=
  if b <? 0x80 then accept
  else if between 0xc2 0xdf b then cont1
  else if between 0xe0 0xef b then
    if b =? 0xe0 then afterE0 else if b =? 0xed then afterED else cont2
  else if between 0xf0 0xf4 b then
    if b =? 0xf0 then afterF0 else if b =? 0xf4 then afterF4 else afterF1
  else reject.

Lemma transition_accept b : is_byte b -> transition accept b = first_state b.
Proof. intros H. by_bytes b. Qed.

Definition accepts (s : Z) (l : list Z) : bool := run_dfa s l =? accept.

Lemma accepts_reject l : accepts reject l = false.
Proof. unfold accepts. by rewrite run_reject. Qed.

Lemma accepts_step s b l : accepts s (b :: l) = accepts (transition s b) l.
Proof. done. Qed.

Lemma accepts_cont1 b l : accepts cont1 (b :: l) = is_cont b && accepts accept l.
Proof.
  rewrite accepts_step. unfold transition, is_cont, between. cbn.
  destruct ((128 <=? b) && (b <=? 191)); [done | apply accepts_reject].
Qed.

(** A lead byte that wants one of a range, then one continuation. *)
Lemma accepts_two s lo hi b c l :
  transition s b = (if between lo hi b then cont1 else reject) ->
  accepts s (b :: c :: l) = between lo hi b && is_cont c && accepts accept l.
Proof.
  intros E. rewrite accepts_step, E. destruct (between lo hi b); cbn [andb].
  - apply accepts_cont1.
  - apply accepts_reject.
Qed.

Lemma accepts_three s lo hi b c d l :
  transition s b = (if between lo hi b then cont2 else reject) ->
  accepts s (b :: c :: d :: l) = between lo hi b && is_cont c && is_cont d && accepts accept l.
Proof.
  intros E. rewrite accepts_step, E. destruct (between lo hi b); cbn [andb].
  - by apply accepts_two.
  - apply accepts_reject.
Qed.

Lemma accepts_short s l :
  s ∈ [cont1; cont2; afterE0; afterED; afterF0; afterF1; afterF4] -> l = [] -> accepts s l = false.
Proof. intros Hs ->. repeat (apply elem_of_cons in Hs as [-> | Hs]; [done |]). by apply elem_of_nil in Hs. Qed.

(** One byte is not enough after a lead byte that wants two more. *)
Lemma accepts_short1 s b :
  s ∈ [cont2; afterE0; afterED; afterF0; afterF1; afterF4] -> accepts s [b] = false.
Proof.
  intros Hs. rewrite accepts_step.
  repeat (apply elem_of_cons in Hs as [-> | Hs];
    [unfold transition; cbn; by case_match |]). by apply elem_of_nil in Hs.
Qed.

Lemma accepts_short2 s b c :
  s ∈ [afterF0; afterF1; afterF4] -> accepts s [b; c] = false.
Proof.
  intros Hs. rewrite accepts_step.
  repeat (apply elem_of_cons in Hs as [-> | Hs];
    [unfold transition; cbn; case_match; [by rewrite accepts_short1 by set_solver | apply accepts_reject] |]).
  by apply elem_of_nil in Hs.
Qed.

Lemma std_Valid_dfa l : bytes_ok l -> std_Valid l = accepts accept l.
Proof.
  remember (length l) as n eqn:En. revert l En.
  induction n as [n IH] using lt_wf_ind. intros l En Hl.
  destruct l as [| b0 t0]; [done |]. inversion Hl as [| ?? H0 Ht0]; subst.
  rewrite accepts_step, transition_accept by done. cbn [std_Valid]. unfold first_state.
  assert (forall k, bytes_ok k -> (length k < length (b0 :: t0))%nat -> std_Valid k = accepts accept k) as R
    by (intros; by eapply IH).
  clear IH. destruct (b0 <? 0x80). { apply R; [done | cbn; lia]. }
  destruct (between 0xc2 0xdf b0).
  { destruct t0 as [| b1 t1]; [by rewrite accepts_short by set_solver |].
    inversion Ht0; subst. rewrite accepts_cont1, R; [done | done | cbn; lia]. }
  destruct (between 0xe0 0xef b0).
  { destruct t0 as [| b1 [| b2 t2]].
    1: by repeat case_match; rewrite accepts_short by set_solver.
    1: by repeat case_match; rewrite accepts_short1 by set_solver.
    inversion Ht0 as [| ?? ? Ht1]; inversion Ht1; subst. rewrite R by (done || (cbn; lia)).
    destruct (Z.eqb_spec b0 0xe0) as [-> | ]; [by rewrite (accepts_two _ 0xa0 0xbf) |].
    destruct (Z.eqb_spec b0 0xed) as [-> | ]; [by rewrite (accepts_two _ 0x80 0x9f) |].
    by rewrite (accepts_two _ 0x80 0xbf). }
  destruct (between 0xf0 0xf4 b0); [| by rewrite accepts_reject].
  destruct t0 as [| b1 [| b2 [| b3 t3]]].
  1: by repeat case_match; rewrite accepts_short by set_solver.
  1: by repeat case_match; rewrite accepts_short1 by set_solver.
  1: by repeat case_match; rewrite accepts_short2 by set_solver.
  inversion Ht0 as [| ?? ? Ht1]; inversion Ht1 as [| ?? ? Ht2]; inversion Ht2; subst.
  rewrite R by (done || (cbn; lia)).
  destruct (Z.eqb_spec b0 0xf0) as [-> | ]; [by rewrite (accepts_three _ 0x90 0xbf) |].
  destruct (Z.eqb_spec b0 0xf4) as [-> | ]; [by rewrite (accepts_three _ 0x80 0x8f) |].
  by rewrite (accepts_three _ 0x80 0xbf).
Qed.

(** ** The loops *)

Lemma from_cons (src : list Z) i : 0 <= i < len src -> from src i = idx src i :: from src (i + 1).
Proof.
  intros H. rewrite <- (slice_from src i (i + 1)) by lia. by rewrite slice_1.
Qed.

Lemma dfa_tail_eq fuel src i st :
  0 <= i <= len src -> len src - i <= Z.of_nat fuel ->
  dfa_tail fuel src i st = fold_left dfa_step (from src i) st.
Proof.
  revert i st. induction fuel as [| f IH]; intros i st Hi Hf; cbn [dfa_tail].
  - by rewrite from_all by lia.
  - destruct (Z.ltb_spec i (len src)).
    + rewrite (from_cons src i) by lia. cbn [fold_left]. apply IH; lia.
    + by rewrite from_all by lia.
Qed.

Lemma list8 (s : list Z) :
  length s = 8%nat ->
  s = [idx s 0; idx s 1; idx s 2; idx s 3; idx s 4; idx s 5; idx s 6; idx s 7].
Proof.
  destruct s as [| ? [| ? [| ? [| ? [| ? [| ? [| ? [| ? [|]]]]]]]]]; try done.
Qed.

Lemma dfa_loop_ok fuel src i st :
  bytes_ok src -> 0 <= i <= len src -> len src - i < 8 * Z.of_nat fuel ->
  is_state (Z.land st 63) ->
  dfa_loop fuel src i st = accepts (Z.land st 63) (from src i).
Proof.
  intros Hs. revert i st. induction fuel as [| f IH]; intros i st Hi Hf Hst; [lia |].
  cbn [dfa_loop]. destruct (Z.leb_spec (i + 8) (len src)) as [H8 | H8].
  - assert (bytes_ok (slice src i (i + 8))) as Hb by eauto with ews.
    assert (length (slice src i (i + 8)) = 8%nat) as Hl by (apply (len_length _ 8); [lia | len_lia]).
    rewrite <- (slice_from src i (i + 8)) by lia. unfold accepts. rewrite run_dfa_app.
    case_match eqn:Ec.
    + apply andb_prop in Ec as [E1 E2]. apply Z.eqb_eq in E1, E2.
      rewrite word_at in E2 by (done || lia). rewrite IH by (done || lia).
      unfold accepts. by rewrite E1, (run_ascii (slice src i (i + 8))).
    + clear Ec. cbv zeta. rewrite <- list8 by done.
      destruct (dfa_fold _ st Hb Hst) as [E Hst']. rewrite E.
      destruct (Z.eqb_spec (run_dfa (Z.land st 63) (slice src i (i + 8))) reject) as [-> | ].
      * by rewrite run_reject.
      * rewrite IH; try lia; rewrite E; done.
  - cbv zeta. rewrite dfa_tail_eq by (unfold len in *; lia).
    destruct (dfa_fold (from src i) st ltac:(eauto with ews) Hst) as [-> _]. done.
Qed.

Lemma std_Valid_ascii l k : Forall ascii l -> std_Valid (l ++ k) = std_Valid k.
Proof.
  induction 1 as [| b l Hb Hl IH]; [done |]. cbn [app std_Valid]. unfold ascii in Hb.
  destruct (Z.ltb_spec b 0x80); [done | lia].
Qed.

Lemma Valid_std src : bytes_ok src -> Valid src = std_Valid src.
Proof.
  intros Hs. unfold Valid. destruct (asciiPrefix_ok src Hs) as [[Hi Ha] _].
  set (i := asciiPrefix src) in *. clearbody i. cbv zeta.
  assert (std_Valid src = std_Valid (from src i)) as ->.
  { rewrite <- (upto_from src i) at 1. by rewrite std_Valid_ascii. }
  destruct (Z.eqb_spec i (len src)) as [-> | Hne]; [by rewrite from_all |].
  destruct (_ <? 16); [done |]. rewrite std_Valid_dfa by eauto with ews.
  apply dfa_loop_ok; [done | lia | unfold len in *; lia |]. by apply elem_of_cons; left.
Qed.

(** ** The validator accepts exactly the encodings of scalar values *)

Lemma between_true lo hi b : between lo hi b = true <-> lo <= b <= hi.
Proof. unfold between. rewrite andb_true_iff, !Z.leb_le. done. Qed.

Lemma between_false lo hi b : between lo hi b = false <-> ~ lo <= b <= hi.
Proof. rewrite <- between_true. by destruct (between lo hi b). Qed.

Lemma div_small_range r k lo hi : 0 < k -> lo * k <= r < (hi + 1) * k -> lo <= r / k <= hi.
Proof.
  intros Hk H. split; [apply Z.div_le_lower_bound; lia |].
  assert (r / k < hi + 1); [| lia]. apply Z.div_lt_upper_bound; lia.
Qed.

Lemma is_cont_mod r : is_cont (0x80 + r mod 64) = true.
Proof. apply between_true. pose proof (Z.mod_pos_bound r 64). lia. Qed.

Lemma ltb_ge_false a b : b <= a -> (a <? b) = false.
Proof. apply Z.ltb_ge. Qed.

(** Facts that settle every comparison in [std_Valid] on an encoded rune. *)
Ltac utf8_cmp :=
  repeat match goal with
  | |- context [?a <? ?b] => destruct (Z.ltb_spec a b); try lia
  | |- context [?a =? ?b] => destruct (Z.eqb_spec a b); try lia
  | |- context [between ?lo ?hi ?b] =>
      let E := fresh "E" in destruct (between lo hi b) eqn:E;
      [apply between_true in E | apply between_false in E]; try lia
  end; cbn [andb].

Lemma std_Valid_rune r k : scalar r -> std_Valid (encode_rune r ++ k) = std_Valid k.
Proof.
  intros Hr. unfold scalar in Hr. unfold encode_rune.
  destruct (Z.ltb_spec r 0x80); [| destruct (Z.ltb_spec r 0x800);
    [| destruct (Z.ltb_spec r 0x10000)]]; cbn [app std_Valid].
  - utf8_cmp. done.
  - pose proof (div_small_range r 64 2 31 ltac:(lia) ltac:(lia)).
    rewrite is_cont_mod. utf8_cmp. done.
  - pose proof (div_small_range r 4096 0 15 ltac:(lia) ltac:(lia)).
    pose proof (Z.mod_pos_bound (r / 64) 64 eq_refl).
    assert (r / 64 = 64 * (r / 4096) + r / 64 mod 64) as Hq.
    { change 4096 with (64 * 64). rewrite <- Z.div_div by lia. apply Z.div_mod. lia. }
    pose proof (div_small_range r 64 (r / 64) (r / 64) ltac:(lia)
      ltac:(pose proof (Z.div_mod r 64); pose proof (Z.mod_pos_bound r 64); lia)).
    assert (64 * (r / 64) <= r < 64 * (r / 64) + 64)
      by (pose proof (Z.div_mod r 64); pose proof (Z.mod_pos_bound r 64); lia).
    rewrite !is_cont_mod. utf8_cmp; done.
  - pose proof (div_small_range r 262144 0 4 ltac:(lia) ltac:(lia)).
    pose proof (Z.mod_pos_bound (r / 4096) 64 eq_refl).
    assert (r / 4096 = 64 * (r / 262144) + r / 4096 mod 64) as Hq.
    { change 262144 with (4096 * 64). rewrite <- Z.div_div by lia. apply Z.div_mod. lia. }
    assert (4096 * (r / 4096) <= r < 4096 * (r / 4096) + 4096)
      by (pose proof (Z.div_mod r 4096); pose proof (Z.mod_pos_bound r 4096); lia).
    rewrite !is_cont_mod. utf8_cmp; done.
Qed.

Lemma encode2 a b :
  0xc2 <= a <= 0xdf -> 0x80 <= b <= 0xbf ->
  exists r, scalar r /\ encode_rune r = [a; b].
Proof.
  intros Ha Hb. exists ((a - 0xc0) * 64 + (b - 0x80)). unfold scalar, encode_rune.
  split; [lia |]. set (r := _ + (b - 128)).
  assert (r / 64 = a - 0xc0) as E1.
  { subst r. rewrite Z.div_add_l, (Z.div_small (b - 128)) by lia. lia. }
  assert (r mod 64 = b - 128) as E2.
  { subst r. rewrite Z.add_comm, Z.mod_add, Z.mod_small by lia. lia. }
  rewrite E1, E2. assert (0x80 <= r < 0x800) by lia. clearbody r.
  utf8_cmp. repeat f_equal; lia.
Qed.

Lemma encode3 a b c :
  0xe0 <= a <= 0xef -> 0x80 <= b <= 0xbf -> 0x80 <= c <= 0xbf ->
  (a = 0xe0 -> 0xa0 <= b) -> (a = 0xed -> b <= 0x9f) ->
  exists r, scalar r /\ encode_rune r = [a; b; c].
Proof.
  intros Ha Hb Hc H1 H2. exists (((a - 0xe0) * 64 + (b - 0x80)) * 64 + (c - 0x80)).
  unfold scalar, encode_rune.
  assert (a = 0xe0 \/ a = 0xed \/ (a <> 0xe0 /\ a <> 0xed)) as Hc0 by lia.
  split; [destruct (decide (a <= 0xed)); [left | right]; lia |].
  set (r := ((a - 224) * 64 + (b - 128)) * 64 + (c - 128)).
  assert (r / 64 = (a - 224) * 64 + (b - 128)) as E1.
  { subst r. rewrite Z.div_add_l, (Z.div_small (c - 128)) by lia. lia. }
  assert (r mod 64 = c - 128) as E2.
  { subst r. rewrite Z.add_comm, Z.mod_add, Z.mod_small by lia. lia. }
  assert (r / 4096 = a - 224) as E3.
  { change 4096 with (64 * 64). rewrite <- Z.div_div, E1, Z.div_add_l, (Z.div_small (b - 128)) by lia. lia. }
  assert ((r / 64) mod 64 = b - 128) as E4.
  { rewrite E1, Z.add_comm, Z.mod_add, Z.mod_small by lia. lia. }
  rewrite E4, E3, E2. assert (r < 0x10000) by lia. assert (0x800 <= r) by lia. clearbody r.
  utf8_cmp. repeat f_equal; lia.
Qed.

Lemma encode4 a b c d :
  0xf0 <= a <= 0xf4 -> 0x80 <= b <= 0xbf -> 0x80 <= c <= 0xbf -> 0x80 <= d <= 0xbf ->
  (a = 0xf0 -> 0x90 <= b) -> (a = 0xf4 -> b <= 0x8f) ->
  exists r, scalar r /\ encode_rune r = [a; b; c; d].
Proof.
  intros Ha Hb Hc Hd H1 H2.
  exists ((((a - 0xf0) * 64 + (b - 0x80)) * 64 + (c - 0x80)) * 64 + (d - 0x80)).
  unfold scalar, encode_rune.
  assert (a = 0xf0 \/ a = 0xf4 \/ (a <> 0xf0 /\ a <> 0xf4)) as Hc0 by lia.
  split; [right; lia |].
  set (r := _ + (d - 128)).
  assert (r / 64 = ((a - 240) * 64 + (b - 128)) * 64 + (c - 128)) as E1.
  { subst r. rewrite Z.div_add_l, (Z.div_small (d - 128)) by lia. lia. }
  assert (r mod 64 = d - 128) as E2.
  { subst r. rewrite Z.add_comm, Z.mod_add, Z.mod_small by lia. lia. }
  assert (r / 4096 = (a - 240) * 64 + (b - 128)) as E3.
  { change 4096 with (64 * 64). rewrite <- Z.div_div, E1, Z.div_add_l, (Z.div_small (c - 128)) by lia. lia. }
  assert (r / 262144 = a - 240) as E4.
  { change 262144 with (4096 * 64). rewrite <- Z.div_div, E3, Z.div_add_l, (Z.div_small (b - 128)) by lia. lia. }
  assert ((r / 64) mod 64 = c - 128) as E5.
  { rewrite E1, Z.add_comm, Z.mod_add, Z.mod_small by lia. lia. }
  assert ((r / 4096) mod 64 = b - 128) as E6.
  { rewrite E3, Z.add_comm, Z.mod_add, Z.mod_small by lia. lia. }
  rewrite E6, E5, E4, E2. assert (0x10000 <= r) by lia. clearbody r.
  utf8_cmp. repeat f_equal; lia.
Qed.

Lemma utf8_cons r l : scalar r -> utf8 l -> utf8 (encode_rune r ++ l).
Proof. intros Hr (rs & H & ->). exists (r :: rs). by split; [constructor |]. Qed.

Lemma std_Valid_utf8_r l : utf8 l -> std_Valid l = true.
Proof.
  intros (rs & H & ->). induction H as [| r rs Hr H IH]; [done |].
  cbn. by rewrite std_Valid_rune.
Qed.

Ltac split_bools := repeat match goal with
  | H : _ && _ = true |- _ => apply andb_prop in H as [? ?]
  | H : is_cont _ = true |- _ => apply between_true in H
  | H : between _ _ _ = true |- _ => apply between_true in H
  end.

Lemma std_Valid_utf8_l l : bytes_ok l -> std_Valid l = true -> utf8 l.
Proof.
  remember (length l) as n eqn:En. revert l En.
  induction n as [n IH] using lt_wf_ind. intros l En Hl H.
  destruct l as [| b0 t0]; [by exists [] |]. inversion Hl as [| ?? [H0 _] Ht0]; subst.
  assert (forall k, bytes_ok k -> (length k < length (b0 :: t0))%nat -> std_Valid k = true -> utf8 k) as R
    by (intros; by eapply IH).
  clear IH. cbn [std_Valid] in H. destruct (Z.ltb_spec b0 0x80).
  { change (b0 :: t0) with ([b0] ++ t0).
    replace [b0] with (encode_rune b0) by (unfold encode_rune; by utf8_cmp).
    apply utf8_cons; [unfold scalar; lia | apply R; auto; cbn; lia]. }
  destruct (between 0xc2 0xdf b0) eqn:E.
  { destruct t0 as [| b1 t1]; [done |]. inversion Ht0; subst. split_bools.
    destruct (encode2 b0 b1) as (r & Hr & Er); [lia.. |].
    change (b0 :: b1 :: t1) with ([b0; b1] ++ t1). rewrite <- Er.
    apply utf8_cons; [done | apply R; auto; cbn; lia]. }
  clear E. destruct (between 0xe0 0xef b0) eqn:E.
  { destruct t0 as [| b1 [| b2 t2]]; [done.. |].
    inversion Ht0 as [| ?? ? Ht1]; inversion Ht1; subst. split_bools.
    destruct (encode3 b0 b1 b2) as (r & Hr & Er); [repeat case_match; lia.. |].
    change (b0 :: b1 :: b2 :: t2) with ([b0; b1; b2] ++ t2). rewrite <- Er.
    apply utf8_cons; [done | apply R; auto; cbn; lia]. }
  clear E. destruct (between 0xf0 0xf4 b0) eqn:E; [| done].
  destruct t0 as [| b1 [| b2 [| b3 t3]]]; [done.. |].
  inversion Ht0 as [| ?? ? Ht1]; inversion Ht1 as [| ?? ? Ht2]; inversion Ht2; subst. split_bools.
  destruct (encode4 b0 b1 b2 b3) as (r & Hr & Er); [repeat case_match; lia.. |].
  change (b0 :: b1 :: b2 :: b3 :: t3) with ([b0; b1; b2; b3] ++ t3). rewrite <- Er.
  apply utf8_cons; [done | apply R; auto; cbn; lia].
Qed.

Lemma std_Valid_utf8 l : bytes_ok l -> std_Valid l = true <-> utf8 l.
Proof. intros. split; [by apply std_Valid_utf8_l | apply std_Valid_utf8_r]. Qed.

(** ** Properties *)

(** C32. [Valid], with its word-wise ASCII skipping and the 64-bit shift table,
    decides exactly whether the bytes are the UTF-8 encoding of a sequence of
    Unicode scalar values (no overlong forms, no surrogates, nothing above
    U+10FFFF, no truncated sequence). *)
Theorem Valid_decides_utf8 src : bytes_ok src -> Valid src = true <-> utf8 src.
Proof. intros H. rewrite Valid_std by done. by apply std_Valid_utf8. Qed.

Lemma Valid_decides_utf8_witness :
  utf8 (replicate 33 0x61 ++ [0xe2; 0x82; 0xac] ++ replicate 20 0x62) /\
  ~ utf8 (replicate 33 0x61 ++ [0xed; 0xa0; 0x80] ++ replicate 20 0x62).
Proof.
  split.
  - apply (Valid_decides_utf8 (replicate 33 0x61 ++ [0xe2; 0x82; 0xac] ++ replicate 20 0x62)).
    + apply (bool_decide_unpack _). vm_compute. exact I.
    + vm_compute. reflexivity.
  - intros H.
    apply (Valid_decides_utf8 (replicate 33 0x61 ++ [0xed; 0xa0; 0x80] ++ replicate 20 0x62)) in H.
    + vm_compute in H. discriminate H.
    + apply (bool_decide_unpack _). vm_compute. exact I.
Defined.

(** [asciiPrefix] returns the exact length of the leading run of ASCII
    bytes: everything before it is ASCII and the byte at it, if any, is not. *)
Theorem asciiPrefix_exact src :
  bytes_ok src ->
  let j := asciiPrefix src in
  0 <= j <= len src /\ Forall (fun b => b < 0x80) (upto src j) /\
  (j < len src -> 0x80 <= idx src j).
Proof.
  intros H. destruct (asciiPrefix_ok src H) as [[Hi Ha] He]. cbv zeta.
  split; [done | split; [done | lia]].
Qed.

Lemma asciiPrefix_exact_witness :
  let src := replicate 45 0x20 ++ [0xc3; 0xa9] in
  Forall (fun b => b < 0x80) (upto src (asciiPrefix src)).
Proof.
  cbv zeta. apply (asciiPrefix_exact (replicate 45 0x20 ++ [0xc3; 0xa9])).
  apply (bool_decide_unpack _). vm_compute. exact I.
Defined.
