(* ===== verification/Utf8Simd.v ===== *)
(** * UTF-8 validation, the SIMD build (internal/utf8/valid_simd.go)

    A vector of [archsimd] is the list of its bytes; its operations are those
    of the instructions they stand for, lane by lane.  Whether the processor
    has AVX2 is the argument [avx2].  The kernels compare each byte with the
    three before it; the proof runs the portable build's automaton beside
    them. *)

From stdpp Require Import prelude.
From S2P Require Import Prelude Words Header Utf8.

Module Simd.

(** ** [simd/archsimd] *)

Definition Broadcast (n : nat) (b : Z) : list Z := replicate n b.
Definition And : list Z -> list Z -> list Z := zip_with Z.land.
Definition Or : list Z -> list Z -> list Z := zip_with Z.lor.
Definition Xor : list Z -> list Z -> list Z := zip_with Z.lxor.
Definition SubSaturated : list Z -> list Z -> list Z := zip_with (fun x y => Z.max 0 (x - y)).
Definition Greater : list Z -> list Z -> list bool := zip_with (fun x y => y <? x).
Definition Masked : list Z -> list bool -> list Z := zip_with (fun x (m : bool) => if m then x else 0).
Definition IsZero (v : list Z) : bool := forallb (fun x => x =? 0) v.

(** [AsUint16x8().ShiftAllRight(k).AsUint8x16()], and its wide form: shifts of
    the little-endian pairs. *)
Fixpoint ShiftAllRight (v : list Z) (k : Z) : list Z :=
  match v with
  | x :: y :: v => let w := Z.shiftr (x + 256 * y) k in w mod 256 :: w / 256 :: ShiftAllRight v k
  | _ => []
  end.

(** [x.ConcatShiftBytesRight(y, k)] of 16-byte vectors: [x] above [y], shifted
    right by [k] bytes. *)
Definition ConcatShiftBytesRight (x y : list Z) (k : Z) : list Z := slice (y ++ x) k (k + 16).

(** Indices are signed bytes: a negative one gives zero. *)
Definition PermuteOrZero (table indices : list Z) : list Z :=
  (fun i => if 128 <=? i then 0 else idx table (i mod 16)) <$> indices.

Definition LoadPart (src : list Z) : list Z := upto src 16 ++ zeros (16 - len src).

(** The 32-byte forms work on each 16-byte half. *)
Definition GetLo (v : list Z) : list Z := upto v 16.
Definition GetHi (v : list Z) : list Z := from v 16.
Definition SetLo (v lo : list Z) : list Z := lo ++ from v 16.
Definition SetHi (v hi : list Z) : list Z := upto v 16 ++ hi.

Definition ConcatShiftBytesRightGrouped (x y : list Z) (k : Z) : list Z :=
  ConcatShiftBytesRight (GetLo x) (GetLo y) k ++ ConcatShiftBytesRight (GetHi x) (GetHi y) k.
Definition PermuteOrZeroGrouped (table indices : list Z) : list Z :=
  PermuteOrZero (GetLo table) (GetLo indices) ++ PermuteOrZero (GetHi table) (GetHi indices).

(** ** The tables *)

Definition utf8FirstHigh : list Z :=
  [0x02; 0x02; 0x02; 0x02; 0x02; 0x02; 0x02; 0x02; 0x80; 0x80; 0x80; 0x80; 0x21; 0x01; 0x15; 0x49].
Definition utf8FirstLow : list Z :=
  [0xe7; 0xa3; 0x83; 0x83; 0x8b; 0xcb; 0xcb; 0xcb; 0xcb; 0xcb; 0xcb; 0xcb; 0xcb; 0xdb; 0xcb; 0xcb].
Definition utf8SecondHigh : list Z :=
  [0x01; 0x01; 0x01; 0x01; 0x01; 0x01; 0x01; 0x01; 0xe6; 0xae; 0xba; 0xba; 0x01; 0x01; 0x01; 0x01].
Definition utf8FirstHighAVX2 : list Z :=
  [0x02; 0x02; 0x02; 0x02; 0x02; 0x02; 0x02; 0x02; 0x80; 0x80; 0x80; 0x80; 0x21; 0x01; 0x15; 0x49;
   0x02; 0x02; 0x02; 0x02; 0x02; 0x02; 0x02; 0x02; 0x80; 0x80; 0x80; 0x80; 0x21; 0x01; 0x15; 0x49].
Definition utf8FirstLowAVX2 : list Z :=
  [0xe7; 0xa3; 0x83; 0x83; 0x8b; 0xcb; 0xcb; 0xcb; 0xcb; 0xcb; 0xcb; 0xcb; 0xcb; 0xdb; 0xcb; 0xcb;
   0xe7; 0xa3; 0x83; 0x83; 0x8b; 0xcb; 0xcb; 0xcb; 0xcb; 0xcb; 0xcb; 0xcb; 0xcb; 0xdb; 0xcb; 0xcb].
Definition utf8SecondHighAVX2 : list Z :=
  [0x01; 0x01; 0x01; 0x01; 0x01; 0x01; 0x01; 0x01; 0xe6; 0xae; 0xba; 0xba; 0x01; 0x01; 0x01; 0x01;
   0x01; 0x01; 0x01; 0x01; 0x01; 0x01; 0x01; 0x01; 0xe6; 0xae; 0xba; 0xba; 0x01; 0x01; 0x01; 0x01].

(** ** The 128-bit kernel *)

(** One block's check, which the source has in line four times: [false] is its
    [return false]. *)
Definition block (previous input : list Z) : bool :=
  let lowNibble := Broadcast 16 0x0f in
  let previous1 := ConcatShiftBytesRight input previous 15 in
  let previous2 := ConcatShiftBytesRight input previous 14 in
  let previous3 := ConcatShiftBytesRight input previous 13 in
  let previous1High := And (ShiftAllRight previous1 4) lowNibble in
  let inputHigh := And (ShiftAllRight input 4) lowNibble in
  let special := And (And (PermuteOrZero utf8FirstHigh previous1High)
                          (PermuteOrZero utf8FirstLow (And previous1 lowNibble)))
                     (PermuteOrZero utf8SecondHigh inputHigh) in
  let mustContinue := Greater (Or (SubSaturated previous2 (Broadcast 16 0xdf))
                                  (SubSaturated previous3 (Broadcast 16 0xef)))
                              (Broadcast 16 0) in
  let required := Masked (Broadcast 16 0x80) mustContinue in
  IsZero (Xor required special).

(** Back from [last] to a byte that is no continuation. *)
Fixpoint back (original : list Z) (last : nat) : nat :=
  match last with
  | O => O
  | S n => if Z.land (idx original (Z.of_nat last)) 0xc0 =? 0x80 then back original n else last
  end.

Definition finish (original : list Z) (last : Z) : bool :=
  std_Valid (from original (Z.of_nat (back original (Z.to_nat last)))).

(** The last block and the last rune. *)
Definition narrow_tail (original src previous : list Z) : bool :=
  if negb (len src =? 0) && negb (block previous (LoadPart src)) then false
  else finish original (len original - 1).

Fixpoint narrow_single (fuel : nat) (original src previous : list Z) : bool :=
  match fuel with
  | O => false
  | S fuel =>
      if 16 <=? len src then
        let input := upto src 16 in
        if negb (block previous input) then false else narrow_single fuel original (from src 16) input
      else narrow_tail original src previous
  end.

Fixpoint narrow_double (fuel : nat) (original src previous : list Z) : bool :=
  match fuel with
  | O => false
  | S fuel =>
      if 2 * 16 <=? len src then
        let input0 := upto src 16 in
        if negb (block previous input0) then false
        else
          let input1 := upto (from src 16) 16 in
          if negb (block input0 input1) then false
          else narrow_double fuel original (from src (2 * 16)) input1
      else narrow_single (S (length src)) original src previous
  end.

Definition validNarrow (original src : list Z) : bool :=
  narrow_double (S (length src)) original src (zeros 16).

(** ** The 256-bit kernel *)

Definition wide_block (previous input : list Z) : bool :=
  let lowNibble := Broadcast 32 0x0f in
  let prior := SetHi (SetLo input (GetHi previous)) (GetLo input) in
  let previous1 := ConcatShiftBytesRightGrouped input prior 15 in
  let previous2 := ConcatShiftBytesRightGrouped input prior 14 in
  let previous3 := ConcatShiftBytesRightGrouped input prior 13 in
  let previous1High := And (ShiftAllRight previous1 4) lowNibble in
  let inputHigh := And (ShiftAllRight input 4) lowNibble in
  let special := And (And (PermuteOrZeroGrouped utf8FirstHighAVX2 previous1High)
                          (PermuteOrZeroGrouped utf8FirstLowAVX2 (And previous1 lowNibble)))
                     (PermuteOrZeroGrouped utf8SecondHighAVX2 inputHigh) in
  let mustContinue := Greater (Or (SubSaturated previous2 (Broadcast 32 0xdf))
                                  (SubSaturated previous3 (Broadcast 32 0xef)))
                              (Broadcast 32 0) in
  let required := Masked (Broadcast 32 0x80) mustContinue in
  IsZero (Xor required special).

Fixpoint wide_loop (fuel : nat) (original src previous : list Z) (processed : Z) : bool :=
  match fuel with
  | O => false
  | S fuel =>
      if 32 <=? len src then
        let input := upto src 32 in
        if negb (wide_block previous input) then false
        else wide_loop fuel original (from src 32) input (processed + 32)
      else finish original (processed - 1)
  end.

Definition validWide (original src : list Z) (processed : Z) : bool :=
  wide_loop (S (length src)) original src (zeros 32) processed.

(** ** [Valid] *)

Definition wideThreshold : Z := 384.

(** The size [utf8.DecodeRune] gives; [None] is [RuneError, 1]. *)
Definition DecodeRune (l : list Z) : option Z :=
  match l with
  | [] => None
  | b0 :: t =>
      if b0 <? 0x80 then Some 1
      else if between 0xc2 0xdf b0 then
        match t with b1 :: _ => if is_cont b1 then Some 2 else None | _ => None end
      else if between 0xe0 0xef b0 then
        let lo := if b0 =? 0xe0 then 0xa0 else 0x80 in
        let hi := if b0 =? 0xed then 0x9f else 0xbf in
        match t with b1 :: b2 :: _ => if between lo hi b1 && is_cont b2 then Some 3 else None | _ => None end
      else if between 0xf0 0xf4 b0 then
        let lo := if b0 =? 0xf0 then 0x90 else 0x80 in
        let hi := if b0 =? 0xf4 then 0x8f else 0xbf in
        match t with
        | b1 :: b2 :: b3 :: _ => if between lo hi b1 && is_cont b2 && is_cont b3 then Some 4 else None
        | _ => None
        end
      else None
  end.

Definition Valid (avx2 : bool) (src : list Z) : bool :=
  let i := asciiPrefix src in
  if i =? len src then true
  else
    let src := from src i in
    if len src <? 32 then std_Valid src
    else
      match DecodeRune src with
      | None => false
      | Some size =>
          let rest := from src size in
          if (wideThreshold <=? len src) && avx2 then validWide src rest size else validNarrow src rest
      end.

End Simd.

Import Simd.

(** ** One lane

    The kernels' comparison at one byte [c] preceded by [p1], [p2], [p3], and
    the comparisons of a run of bytes. *)

Definition special (p c : Z) : Z :=
  Z.land (Z.land (idx utf8FirstHigh (Z.shiftr p 4)) (idx utf8FirstLow (Z.land p 15)))
         (idx utf8SecondHigh (Z.shiftr c 4)).

Definition required (p3 p2 : Z) : Z := if (0xdf <? p2) || (0xef <? p3) then 0x80 else 0.

Definition lane (p3 p2 p1 c : Z) : bool := Z.lxor (required p3 p2) (special p1 c) =? 0.

Fixpoint scan (p3 p2 p1 : Z) (l : list Z) : bool :=
  match l with
  | [] => true
  | c :: l => lane p3 p2 p1 c && scan p2 p1 c l
  end.

(** The same over four aligned vectors. *)
Fixpoint lanes (v3 v2 v1 v : list Z) : bool :=
  match v3, v2, v1, v with
  | p3 :: v3, p2 :: v2, p1 :: v1, c :: v => lane p3 p2 p1 c && lanes v3 v2 v1 v
  | _, _, _, _ => true
  end.

(** A byte no encoding has. *)
Definition bad (c : Z) : bool := between 0xc0 0xc1 c || (0xf4 <? c).

(** What the last three bytes say about the automaton's state, while it has
    rejected nothing. *)
Inductive sees : Z -> Z -> Z -> Z -> Prop :=
| sees_accept p3 p2 p1 : p1 < 0xc0 -> p2 <= 0xdf -> p3 <= 0xef -> sees accept p3 p2 p1
| sees_lead p3 p2 p1 :
    0xc2 <= p1 <= 0xf4 -> p2 < 0xc0 -> p3 <= 0xdf -> sees (first_state p1) p3 p2 p1
| sees_second3 p3 p2 p1 : is_cont p1 = true -> 0xe0 <= p2 <= 0xef -> sees cont1 p3 p2 p1
| sees_second4 p3 p2 p1 : is_cont p1 = true -> 0xf0 <= p2 <= 0xf4 -> sees cont2 p3 p2 p1
| sees_third4 p3 p2 p1 :
    is_cont p1 = true -> is_cont p2 = true -> 0xf0 <= p3 <= 0xf4 -> sees cont1 p3 p2 p1.

(** Both kernels see an ASCII start, a bad one, and every rune length. *)
Example simd_runs :
  let euro := concat (replicate 12 [0xe2; 0x82; 0xac]) in
  Valid false euro = true /\ Valid false (euro ++ [0xe2]) = false /\
  Valid true (concat (replicate 12 euro)) = true /\ Valid true (concat (replicate 12 euro) ++ [0xc0; 0x80]) = false.
Proof. vm_compute. done. Qed.

(** ** The vector operations, lane by lane *)

Lemma shift_pair x y :
  is_byte x -> is_byte y ->
  Z.land (Z.shiftr (x + 256 * y) 4 mod 256) 0x0f = Z.shiftr x 4 /\
  Z.land (Z.shiftr (x + 256 * y) 4 / 256) 0x0f = Z.shiftr y 4.
Proof.
  unfold is_byte. intros Hx Hy. change 0x0f with (Z.ones 4).
  rewrite !Z.land_ones, !Z.shiftr_div_pow2 by lia. change (2 ^ 4) with 16.
  Z.to_euclidean_division_equations. lia.
Qed.

Lemma high_nibbles n v :
  bytes_ok v -> length v = (2 * n)%nat ->
  And (ShiftAllRight v 4) (Broadcast (2 * n) 0x0f) = (fun x => Z.shiftr x 4) <$> v.
Proof.
  revert v. induction n as [| n IH]; intros v Hv Hl; [by destruct v |].
  destruct v as [| x [| y v]]; [done | cbn in Hl; lia |].
  inversion Hv as [| ?? Hx Hv']; subst. inversion Hv' as [| ?? Hy Hv'']; subst.
  replace (2 * S n)%nat with (S (S (2 * n))) by lia.
  cbn [ShiftAllRight]. cbv zeta. unfold Broadcast, And. cbn [replicate zip_with].
  destruct (shift_pair x y Hx Hy) as [-> ->]. cbn [fmap list_fmap]. f_equal. f_equal.
  apply IH; [done | cbn in Hl; lia].
Qed.

Lemma nibble_range x : is_byte x -> 0 <= Z.shiftr x 4 < 16 /\ 0 <= Z.land x 15 < 16.
Proof.
  unfold is_byte. intros Hx. change 15 with (Z.ones 4).
  rewrite Z.land_ones, Z.shiftr_div_pow2 by lia. change (2 ^ 4) with 16.
  Z.to_euclidean_division_equations. lia.
Qed.

Lemma permute_nibbles table (f : Z -> Z) v :
  Forall (fun x => 0 <= f x < 16) v ->
  PermuteOrZero table (f <$> v) = (fun x => idx table (f x)) <$> v.
Proof.
  induction 1 as [| x v Hx Hv IH]; [done |]. cbn. f_equal; [| apply IH].
  destruct (Z.leb_spec 128 (f x)); [lia |]. by rewrite Z.mod_small.
Qed.

Lemma low_nibbles n v : length v = n -> And v (Broadcast n 0x0f) = (fun x => Z.land x 15) <$> v.
Proof. intros <-. unfold Broadcast, And. induction v as [| x v IH]; [done |]. cbn. by f_equal. Qed.

(** The vector expression both kernels compute. *)
Definition kernel (n : nat) (v3 v2 v1 v : list Z) : bool :=
  IsZero (Xor
    (Masked (Broadcast n 0x80)
       (Greater (Or (SubSaturated v2 (Broadcast n 0xdf)) (SubSaturated v3 (Broadcast n 0xef)))
                (Broadcast n 0)))
    (And (And ((fun x => idx utf8FirstHigh (Z.shiftr x 4)) <$> v1)
              ((fun x => idx utf8FirstLow (Z.land x 15)) <$> v1))
         ((fun x => idx utf8SecondHigh (Z.shiftr x 4)) <$> v))).

Lemma required_lane p3 p2 :
  (if 0 <? Z.lor (Z.max 0 (p2 - 0xdf)) (Z.max 0 (p3 - 0xef)) then 0x80 else 0) = required p3 p2.
Proof.
  unfold required.
  assert (Z.lor (Z.max 0 (p2 - 223)) (Z.max 0 (p3 - 239)) = 0 <-> p2 <= 223 /\ p3 <= 239)
    as H by (rewrite Z.lor_eq_0_iff; lia).
  assert (0 <= Z.lor (Z.max 0 (p2 - 223)) (Z.max 0 (p3 - 239))) by (apply Z.lor_nonneg; lia).
  destruct (Z.ltb_spec 0 (Z.lor (Z.max 0 (p2 - 223)) (Z.max 0 (p3 - 239)))),
    (Z.ltb_spec 223 p2), (Z.ltb_spec 239 p3); cbn [orb]; try done; lia.
Qed.

Lemma kernel_lanes n v3 v2 v1 v :
  length v3 = n -> length v2 = n -> length v1 = n -> length v = n ->
  kernel n v3 v2 v1 v = lanes v3 v2 v1 v.
Proof.
  revert v3 v2 v1 v. induction n as [| n IH]; intros v3 v2 v1 v H3 H2 H1 H.
  { apply nil_length_inv in H3 as ->. apply nil_length_inv in H. by subst. }
  destruct v3 as [| p3 v3], v2 as [| p2 v2], v1 as [| p1 v1], v as [| c v]; try done.
  cbn [lanes]. unfold lane. rewrite <- IH by (cbn in *; lia). rewrite <- (required_lane p3 p2). reflexivity.
Qed.

Lemma lanes_scan p3 p2 p1 l :
  lanes (take (length l) (p3 :: p2 :: p1 :: l)) (take (length l) (p2 :: p1 :: l))
        (take (length l) (p1 :: l)) l = scan p3 p2 p1 l.
Proof.
  revert p3 p2 p1. induction l as [| c l IH]; intros; [done |].
  cbn [length take lanes scan]. f_equal. apply IH.
Qed.

Lemma concat_shift x y k :
  length y = 16%nat -> 0 <= k <= 16 -> ConcatShiftBytesRight x y k = take 16 (from y k ++ x).
Proof.
  intros Hy Hk. unfold ConcatShiftBytesRight, slice, upto, from.
  rewrite drop_app_le by lia. f_equal. lia.
Qed.

Lemma last_three y n :
  length y = n -> (3 <= n)%nat ->
  let z := Z.of_nat n in
  from y (z - 1) = [idx y (z - 1)] /\
  from y (z - 2) = [idx y (z - 2); idx y (z - 1)] /\
  from y (z - 3) = [idx y (z - 3); idx y (z - 2); idx y (z - 1)].
Proof.
  intros Hy Hn z. assert (len y = z) as Hz by (unfold len; lia).
  assert (from y (z - 1) = [idx y (z - 1)]) as E1.
  { rewrite from_cons by lia. f_equal. apply from_all. lia. }
  assert (from y (z - 2) = [idx y (z - 2); idx y (z - 1)]) as E2.
  { rewrite from_cons by lia. replace (z - 2 + 1) with (z - 1) by lia. by rewrite E1. }
  split; [done | split; [done |]].
  rewrite from_cons by lia. replace (z - 3 + 1) with (z - 2) by lia. by rewrite E2.
Qed.

(** Both kernels, from aligned predecessors and looked-up nibbles, to [scan]. *)
Lemma kernel_scan n input p3 p2 p1 v3 v2 v1 :
  length input = n ->
  v3 = take n (p3 :: p2 :: p1 :: input) -> v2 = take n (p2 :: p1 :: input) -> v1 = take n (p1 :: input) ->
  kernel n v3 v2 v1 input = scan p3 p2 p1 input.
Proof.
  intros <- -> -> ->. rewrite kernel_lanes; [apply lanes_scan | ..]; try done;
    rewrite length_take; cbn [length]; lia.
Qed.

Lemma looked_up t1 t2 t3 n v1 v :
  bytes_ok v1 -> bytes_ok v -> length v1 = (2 * n)%nat -> length v = (2 * n)%nat ->
  And (And (PermuteOrZero t1 (And (ShiftAllRight v1 4) (Broadcast (2 * n) 0x0f)))
           (PermuteOrZero t2 (And v1 (Broadcast (2 * n) 0x0f))))
      (PermuteOrZero t3 (And (ShiftAllRight v 4) (Broadcast (2 * n) 0x0f)))
  = And (And ((fun x => idx t1 (Z.shiftr x 4)) <$> v1) ((fun x => idx t2 (Z.land x 15)) <$> v1))
        ((fun x => idx t3 (Z.shiftr x 4)) <$> v).
Proof.
  intros H1 H E1 E. rewrite !high_nibbles, low_nibbles by done.
  rewrite !permute_nibbles; [done | ..];
    (eapply Forall_impl; [eassumption |]; intros x Hx; apply (nibble_range x Hx)).
Qed.

Lemma block_scan previous input :
  bytes_ok previous -> bytes_ok input -> length previous = 16%nat -> length input = 16%nat ->
  block previous input = scan (idx previous 13) (idx previous 14) (idx previous 15) input.
Proof.
  intros Hp Hi Ep Ei. unfold block. cbv zeta. rewrite !concat_shift by (done || lia).
  destruct (last_three previous 16 Ep ltac:(lia)) as (E1 & E2 & E3). cbv zeta in E1, E2, E3.
  change (Z.of_nat 16 - 1) with 15 in *. change (Z.of_nat 16 - 2) with 14 in *.
  change (Z.of_nat 16 - 3) with 13 in *. rewrite E1, E2, E3. cbn [app].
  rewrite (looked_up _ _ _ 8); try done.
  - by apply kernel_scan.
  - apply Forall_take, Forall_cons. split; [| done]. by apply bytes_ok_idx.
  - rewrite length_take. cbn [length]. lia.
Qed.

(** The 32-byte forms, half by half, are the 16-byte ones on the whole. *)
Lemma shift_grouped (p a b : list Z) k :
  length p = 16%nat -> length a = 16%nat -> 13 <= k <= 15 ->
  take 16 (from p k ++ a) ++ take 16 (from a k ++ b) = take 32 (from p k ++ a ++ b).
Proof.
  intros Hp Ha Hk. unfold from. set (m := Z.to_nat k). assert (13 <= m <= 15)%nat by lia. clearbody m.
  rewrite !take_app, !length_drop, Hp, Ha, !(take_ge (drop m _)) by (rewrite length_drop; lia).
  rewrite (take_ge a (32 - (16 - m))) by lia.
  rewrite <- app_assoc. f_equal. rewrite app_assoc.
  replace (16 - (16 - m))%nat with m by lia. rewrite take_drop. do 2 f_equal. lia.
Qed.

Lemma permute_grouped tw t v :
  GetLo tw = t -> GetHi tw = t -> PermuteOrZeroGrouped tw v = PermuteOrZero t v.
Proof.
  intros E1 E2. unfold PermuteOrZeroGrouped. rewrite E1, E2. unfold PermuteOrZero.
  rewrite <- fmap_app. f_equal. apply upto_from.
Qed.

Lemma wide_block_scan previous input :
  bytes_ok previous -> bytes_ok input -> length previous = 32%nat -> length input = 32%nat ->
  wide_block previous input = scan (idx previous 29) (idx previous 30) (idx previous 31) input.
Proof.
  intros Hp Hi Ep Ei. unfold wide_block. cbv zeta.
  rewrite !(permute_grouped _ utf8FirstHigh), !(permute_grouped _ utf8FirstLow),
    !(permute_grouped _ utf8SecondHigh) by done.
  set (prior := SetHi _ _). set (p := GetHi previous). set (a := GetLo input). set (b := GetHi input).
  assert (length p = 16%nat /\ length a = 16%nat /\ length b = 16%nat) as (Lp & La & Lb).
  { unfold p, a, b, GetHi, GetLo, from, upto. rewrite !length_drop, length_take. lia. }
  assert (input = a ++ b) as Eab by (symmetry; apply upto_from).
  assert (prior = p ++ a) as Epr.
  { subst prior. unfold SetHi, SetLo. fold p a. rewrite upto_app_le, upto_all by (unfold len; lia). done. }
  assert (forall k, 13 <= k <= 15 ->
    ConcatShiftBytesRightGrouped input prior k = take 32 (from p k ++ input)) as Hg.
  { intros k Hk. unfold ConcatShiftBytesRightGrouped. rewrite Epr. fold a b.
    replace (GetLo (p ++ a)) with p by (unfold GetLo; rewrite upto_app_le, upto_all by (unfold len; lia); done).
    replace (GetHi (p ++ a)) with a
      by (unfold GetHi; rewrite from_app_ge, from_0 by (unfold len; lia); done).
    rewrite !concat_shift by (done || lia). rewrite shift_grouped, Eab by (done || lia). done. }
  rewrite !Hg by lia.
  assert (forall k, 0 <= k -> from p k = from previous (16 + k)) as Hf.
  { intros k Hk. unfold p, GetHi. by rewrite from_from by lia. }
  rewrite !Hf by lia.
  destruct (last_three previous 32 Ep ltac:(lia)) as (E1 & E2 & E3). cbv zeta in E1, E2, E3.
  change (16 + 15) with (Z.of_nat 32 - 1). change (16 + 14) with (Z.of_nat 32 - 2).
  change (16 + 13) with (Z.of_nat 32 - 3). rewrite E1, E2, E3. cbn [app].
  rewrite (looked_up _ _ _ 16); try done.
  - by apply kernel_scan.
  - apply Forall_take, Forall_cons. split; [| done]. by apply bytes_ok_idx.
  - rewrite length_take. cbn [length]. lia.
Qed.

(** ** What the tables say of a pair of bytes *)

(** The state after a lead's first continuation byte. *)
Definition second_state (p : Z) : Z :=
  if p <=? 0xdf then accept else if p <=? 0xef then cont1 else cont2.

Definition pair_fact (p c : Z) : bool :=
  let s := special p c in
  if p <? 0x80 then s =? (if is_cont c then 2 else 0)
  else if is_cont p then s =? (if is_cont c then 0x80 else 0)
  else if bad p then negb (s =? 0) && negb (s =? 0x80)
  else
    let st := transition (first_state p) c in
    if s =? 0 then is_cont c && (st =? second_state p) else st =? reject.

Definition all_bytes : list Z := Z.of_nat <$> seq 0 256.

Lemma pair_facts_check : forallb (fun p => forallb (pair_fact p) all_bytes) all_bytes = true.
Proof. vm_compute. reflexivity. Qed.

Lemma all_bytes_in b : is_byte b -> In b all_bytes.
Proof.
  intros [H1 H2]. apply list_elem_of_In, list_elem_of_fmap. exists (Z.to_nat b).
  split; [lia |]. apply elem_of_seq. lia.
Qed.

Lemma pair_facts p c : is_byte p -> is_byte c -> pair_fact p c = true.
Proof.
  intros Hp Hc. pose proof pair_facts_check as H. rewrite forallb_forall in H.
  specialize (H p (all_bytes_in p Hp)). rewrite forallb_forall in H. exact (H c (all_bytes_in c Hc)).
Qed.

Lemma cont_range c : is_cont c = true <-> 0x80 <= c <= 0xbf.
Proof. apply between_true. Qed.

Lemma cont_false c : is_cont c = false <-> ~ 0x80 <= c <= 0xbf.
Proof. apply between_false. Qed.

Lemma bad_range c : bad c = true <-> 0xc0 <= c <= 0xc1 \/ 0xf4 < c.
Proof. unfold bad. rewrite orb_true_iff, between_true, Z.ltb_lt. done. Qed.

Lemma special_ascii p c :
  is_byte p -> is_byte c -> p < 0x80 -> special p c = if is_cont c then 2 else 0.
Proof.
  intros Hp Hc H. pose proof (pair_facts p c Hp Hc) as F. unfold pair_fact in F. cbv zeta in F.
  destruct (Z.ltb_spec p 0x80); [| lia]. by apply Z.eqb_eq.
Qed.

Lemma special_cont p c :
  is_byte p -> is_byte c -> is_cont p = true -> special p c = if is_cont c then 0x80 else 0.
Proof.
  intros Hp Hc H. pose proof (pair_facts p c Hp Hc) as F. unfold pair_fact in F. cbv zeta in F.
  rewrite H in F. apply cont_range in H.
  destruct (Z.ltb_spec p 0x80); [lia |]. by apply Z.eqb_eq.
Qed.

Lemma special_bad p c :
  is_byte p -> is_byte c -> bad p = true -> special p c <> 0 /\ special p c <> 0x80.
Proof.
  intros Hp Hc H. pose proof (pair_facts p c Hp Hc) as F. unfold pair_fact in F. cbv zeta in F.
  rewrite H in F. apply bad_range in H.
  destruct (Z.ltb_spec p 0x80); [lia |].
  destruct (is_cont p) eqn:E; [apply cont_range in E; lia |].
  apply andb_prop in F as [F1 F2]. apply negb_true_iff, Z.eqb_neq in F1, F2. done.
Qed.

Lemma special_lead p c :
  is_byte p -> is_byte c -> 0xc2 <= p <= 0xf4 ->
  if special p c =? 0 then is_cont c = true /\ transition (first_state p) c = second_state p
  else transition (first_state p) c = reject.
Proof.
  intros Hp Hc H. pose proof (pair_facts p c Hp Hc) as F. unfold pair_fact in F. cbv zeta in F.
  destruct (Z.ltb_spec p 0x80); [lia |].
  destruct (is_cont p) eqn:E; [apply cont_range in E; lia |].
  destruct (bad p) eqn:E2; [apply bad_range in E2; lia |].
  destruct (special p c =? 0).
  - apply andb_prop in F as [? F]. by apply Z.eqb_eq in F.
  - by apply Z.eqb_eq.
Qed.

(** ** The lanes run the automaton *)

Lemma lane_iff p3 p2 p1 c : lane p3 p2 p1 c = true <-> special p1 c = required p3 p2.
Proof. unfold lane. rewrite Z.eqb_eq, Z.lxor_eq_0_iff. done. Qed.

Lemma required_0 p3 p2 : p2 <= 0xdf -> p3 <= 0xef -> required p3 p2 = 0.
Proof. intros. unfold required. destruct (Z.ltb_spec 0xdf p2), (Z.ltb_spec 0xef p3); done || lia. Qed.

Lemma required_80 p3 p2 : 0xdf < p2 \/ 0xef < p3 -> required p3 p2 = 0x80.
Proof. intros. unfold required. destruct (Z.ltb_spec 0xdf p2), (Z.ltb_spec 0xef p3); done || lia. Qed.

Lemma lane_bad p3 p2 p1 c : is_byte p1 -> is_byte c -> bad p1 = true -> lane p3 p2 p1 c = false.
Proof.
  intros Hp Hc Hb. destruct (special_bad p1 c Hp Hc Hb). apply not_true_iff_false.
  rewrite lane_iff. unfold required. case_match; lia.
Qed.

(** Inside a rune, where the tables only ask for a continuation byte. *)
Lemma lane_continues p3 p2 p1 c :
  is_byte p1 -> is_byte c -> is_cont p1 = true -> required p3 p2 = 0x80 ->
  lane p3 p2 p1 c = is_cont c.
Proof.
  intros Hp Hc H1 Hr. apply eq_true_iff_eq. rewrite lane_iff, special_cont, Hr by done.
  by destruct (is_cont c).
Qed.

(** Where a rune has ended, it asks for none. *)
Lemma lane_starts p3 p2 p1 c :
  is_byte p1 -> is_byte c -> p1 < 0xc0 -> required p3 p2 = 0 ->
  lane p3 p2 p1 c = negb (is_cont c).
Proof.
  intros Hp Hc H1 Hr. apply eq_true_iff_eq. rewrite lane_iff, Hr.
  destruct (is_cont p1) eqn:E.
  - rewrite special_cont by done. by destruct (is_cont c).
  - apply cont_false in E. unfold is_byte in Hp. rewrite special_ascii by (done || lia).
    by destruct (is_cont c).
Qed.

Lemma transition_cont st c :
  st = cont1 \/ st = cont2 -> is_byte c ->
  transition st c = if is_cont c then (if st =? cont1 then accept else cont1) else reject.
Proof. intros [-> | ->] Hc; reflexivity. Qed.

Lemma accept_start c :
  is_byte c -> is_cont c = false -> bad c = false ->
  transition accept c <> reject /\ (c < 0x80 -> transition accept c = accept) /\
  (0x80 <= c -> transition accept c = first_state c /\ 0xc2 <= c <= 0xf4).
Proof. intros Hc. by_bytes c. Qed.

(** One byte on: an accepted lane and an accepted transition go together, but
    for a byte no encoding has, which the next lane sees. *)
Lemma sees_step st p3 p2 p1 c :
  sees st p3 p2 p1 -> is_byte p1 -> is_byte c ->
  if lane p3 p2 p1 c
  then (transition st c <> reject /\ sees (transition st c) p2 p1 c) \/ (st = accept /\ bad c = true)
  else transition st c = reject.
Proof.
  intros H H1 Hc. inversion H; subst; clear H.
  - rewrite lane_starts by (done || by apply required_0).
    destruct (is_cont c) eqn:E; cbn [negb].
    { apply cont_range in E. revert E. clear -Hc. by_bytes c. }
    destruct (bad c) eqn:Eb; [by right | left].
    destruct (accept_start c Hc E Eb) as (Hr & Ha & Hl). split; [done |].
    destruct (Z.ltb_spec c 0x80).
    + rewrite Ha by done. constructor; lia.
    + destruct Hl as [-> ?]; [done |]. constructor; lia.
  - pose proof (special_lead p1 c H1 Hc ltac:(done)) as Hs.
    assert (lane p3 p2 p1 c = (special p1 c =? 0)) as ->.
    { apply eq_true_iff_eq. rewrite lane_iff, Z.eqb_eq, required_0 by lia. done. }
    destruct (special p1 c =? 0); [left | done]. destruct Hs as [Ec ->].
    unfold second_state. apply cont_range in Ec as Ec'.
    destruct (Z.leb_spec p1 0xdf); [split; [done | constructor; lia] |].
    destruct (Z.leb_spec p1 0xef); split; try done.
    + by apply sees_second3; [| lia].
    + by apply sees_second4; [| lia].
  - rewrite lane_continues, transition_cont by (done || auto || (apply required_80; lia)).
    destruct (is_cont c) eqn:E; [left | done]. apply cont_range in E, H0.
    split; [done | constructor; lia].
  - rewrite lane_continues, transition_cont by (done || auto || (apply required_80; lia)).
    destruct (is_cont c) eqn:E; [left | done].
    split; [done | by apply sees_third4].
  - rewrite lane_continues, transition_cont by (done || auto || (apply required_80; lia)).
    destruct (is_cont c) eqn:E; [left | done]. apply cont_range in E, H0, H2.
    split; [done | constructor; lia].
Qed.

Lemma scan_false l st p3 p2 p1 :
  sees st p3 p2 p1 -> is_byte p1 -> bytes_ok l -> scan p3 p2 p1 l = false -> run_dfa st l = reject.
Proof.
  intros H H1 Hl. revert st p3 p2 p1 H H1. induction Hl as [| c l Hc Hl IH]; intros; [done |].
  cbn [scan] in *. change (run_dfa st (c :: l)) with (run_dfa (transition st c) l).
  pose proof (sees_step _ _ _ _ c H H1 Hc) as Hs. destruct (lane p3 p2 p1 c); cbn [andb] in *.
  - destruct Hs as [[_ Hs] | [-> Hb]]; [by eapply IH |].
    replace (transition accept c) with reject; [apply run_reject |].
    apply bad_range in Hb. revert Hb. clear -Hc. by_bytes c.
  - rewrite Hs. apply run_reject.
Qed.

(** A run the lanes pass: the automaton has rejected nothing, or only its last
    byte. *)
Lemma scan_true l st p3 p2 p1 :
  sees st p3 p2 p1 -> st <> reject -> is_byte p1 -> bytes_ok l -> scan p3 p2 p1 l = true ->
  run_dfa st l <> reject \/ exists k c, l = k ++ [c] /\ run_dfa st k = accept /\ bad c = true.
Proof.
  intros H Hn H1 Hl. revert st p3 p2 p1 H Hn H1. induction Hl as [| c l Hc Hl IH]; intros; [by left |].
  cbn [scan] in *. apply andb_prop in H0 as [E E'].
  pose proof (sees_step _ _ _ _ c H H1 Hc) as Hs. rewrite E in Hs.
  destruct Hs as [[Hr Hs] | [-> Hb]].
  - destruct (IH _ _ _ _ Hs Hr Hc E') as [? | (k & d & -> & Ek & Hd)]; [by left | right].
    by exists (c :: k), d.
  - right. destruct l as [| d l]; [by exists [], c |]. inversion Hl; subst.
    cbn [scan] in E'. by rewrite lane_bad in E'.
Qed.

(** ** The last rune *)

Lemma run_state l : bytes_ok l -> is_state (run_dfa accept l).
Proof. intros Hl. apply (dfa_fold l 0 Hl). by apply elem_of_cons; left. Qed.

(** Only a finished rune is followed by a byte that is no continuation. *)
Lemma starts_at_accept st c :
  is_state st -> is_byte c -> Z.land c 0xc0 <> 0x80 -> transition st c <> reject -> st = accept.
Proof.
  intros Hs Hc. unfold is_state, dfa_states in Hs.
  repeat (apply elem_of_cons in Hs as [-> | Hs]; [by_bytes c |]). by apply not_elem_of_nil in Hs.
Qed.

Lemma back_spec o n :
  let j := back o n in (j <= n)%nat /\ ((j = 0)%nat \/ Z.land (idx o (Z.of_nat j)) 0xc0 <> 0x80).
Proof.
  induction n as [| n IH]; [by split; [| left] |]. cbn [back]. cbv zeta in *.
  destruct (Z.eqb_spec (Z.land (idx o (Z.of_nat (S n))) 192) 128); [| by split; [| right]].
  destruct IH. split; [lia | done].
Qed.

Lemma back_stays o n : Z.land (idx o (Z.of_nat n)) 0xc0 <> 0x80 -> back o n = n.
Proof. destruct n as [| n]; [done |]. cbn [back]. intros H. by apply Z.eqb_neq in H as ->. Qed.

Lemma run_prefix s l k : run_dfa s (l ++ k) <> reject -> run_dfa s l <> reject.
Proof. intros H E. by rewrite run_dfa_app, E, run_reject in H. Qed.

Lemma upto_S (o : list Z) j : 0 <= j < len o -> upto o (j + 1) = upto o j ++ [idx o j].
Proof. intros. rewrite (upto_split o j (j + 1)) by lia. by rewrite slice_1 by lia. Qed.

(** Where the walk back stops, every rune before is finished. *)
Lemma back_accept o e :
  bytes_ok o -> 0 < e <= len o -> run_dfa accept (upto o e) <> reject ->
  run_dfa accept (upto o (Z.of_nat (back o (Z.to_nat (e - 1))))) = accept.
Proof.
  intros Ho He Hr. destruct (back_spec o (Z.to_nat (e - 1))) as [Hj Hn]. cbv zeta in Hj, Hn.
  set (j := back _ _) in *. clearbody j. destruct Hn as [-> | Hn]; [by rewrite upto_0 |].
  apply (starts_at_accept _ (idx o (Z.of_nat j))); [by apply run_state, bytes_ok_upto | by apply bytes_ok_idx | done |].
  rewrite (upto_split o (Z.of_nat j + 1) e) in Hr by lia. apply run_prefix in Hr.
  rewrite upto_S, run_dfa_app in Hr by lia. done.
Qed.

Lemma finish_accept o last :
  bytes_ok o -> run_dfa accept (upto o (Z.of_nat (back o (Z.to_nat last)))) = accept ->
  finish o last = std_Valid o.
Proof.
  intros Ho H. unfold finish. set (j := Z.of_nat _) in *.
  rewrite !std_Valid_dfa by (done || by apply bytes_ok_from).
  unfold accepts. rewrite <- (upto_from o j) at 2. by rewrite run_dfa_app, H.
Qed.

Lemma scan_app_true p3 p2 p1 l k : scan p3 p2 p1 (l ++ k) = true -> scan p3 p2 p1 l = true.
Proof.
  revert p3 p2 p1. induction l as [| c l IH]; intros p3 p2 p1 H; [done |].
  cbn [app scan] in *. apply andb_prop in H as [-> H]. by eapply IH.
Qed.

Lemma sees_start : sees accept 0 0 0.
Proof. constructor; lia. Qed.

(** The lanes over the middle of a text and the last rune, against the whole:
    [size] bytes of finished runes, a scan to [e], and zeros after the end. *)
Lemma verdict o size e pad :
  bytes_ok o -> 0 <= size <= e -> 0 < e <= len o -> run_dfa accept (upto o size) = accept ->
  pad = 0 \/ e = len o ->
  scan 0 0 0 (slice o size e ++ zeros pad) && finish o (e - 1) = std_Valid o.
Proof.
  intros Ho Hs He Hp Hpad. set (q := slice o size e).
  assert (bytes_ok q) as Hq by (by apply bytes_ok_slice).
  assert (upto o e = upto o size ++ q) as Eq by (by apply upto_split).
  assert (run_dfa accept (upto o e) = run_dfa accept q) as Er by (by rewrite Eq, run_dfa_app, Hp).
  destruct (scan 0 0 0 (q ++ zeros pad)) eqn:E; cbn [andb].
  - apply scan_app_true in E. apply finish_accept; [done |].
    destruct (scan_true q _ _ _ _ sees_start ltac:(done) ltac:(done) Hq E) as [Hr | (k & c & Ek & Hk & Hb)].
    { apply back_accept; [done | done |]. by rewrite Er. }
    assert (upto o (e - 1) ++ [idx o (e - 1)] = (upto o size ++ k) ++ [c]) as Et.
    { rewrite <- upto_S by lia. rewrite <- app_assoc, <- Ek, <- Eq. f_equal. lia. }
    apply app_inj_tail in Et as [Et Ec].
    rewrite back_stays, Z2Nat.id by (try lia; rewrite Z2Nat.id, Ec by lia;
      assert (is_byte c) as Hc by (rewrite <- Ec; by apply bytes_ok_idx); revert Hb; clear -Hc; by_bytes c).
    by rewrite Et, run_dfa_app, Hp.
  - symmetry. rewrite std_Valid_dfa by done. unfold accepts. apply Z.eqb_neq.
    pose proof (scan_false _ _ _ _ _ sees_start ltac:(done)
      (proj2 (bytes_ok_app _ _) (conj Hq (bytes_ok_zeros pad))) E) as Hr.
    rewrite run_dfa_app in Hr. destruct Hpad as [-> | ->].
    + rewrite <- (upto_from o e), run_dfa_app, Er.
      change (run_dfa accept q = reject) in Hr. by rewrite Hr, run_reject.
    + rewrite <- (upto_all o (len o)), Er by lia. intros Ha. rewrite Ha, run_ascii in Hr; [done | ..].
      * apply bytes_ok_zeros.
      * by apply Forall_replicate.
Qed.

(** ** The loops *)

(** A block of [n] bytes leaves its last three for the next. *)
Lemma scan_block p3 p2 p1 l k n :
  length l = n -> (3 <= n)%nat ->
  scan p3 p2 p1 (l ++ k) = scan p3 p2 p1 l &&
    scan (idx l (Z.of_nat n - 3)) (idx l (Z.of_nat n - 2)) (idx l (Z.of_nat n - 1)) k.
Proof.
  intros Hl Hn. destruct (last_three l n Hl Hn) as (_ & _ & E). cbv zeta in E.
  pose proof (upto_from l (Z.of_nat n - 3)) as Es. rewrite E in Es.
  set (a := idx l (Z.of_nat n - 3)) in *. set (b := idx l (Z.of_nat n - 2)) in *.
  set (c := idx l (Z.of_nat n - 1)) in *. set (h := upto l _) in Es. clearbody a b c h.
  subst l. clear. revert p3 p2 p1. induction h as [| d h IH]; intros.
  - cbn [app scan]. by rewrite !andb_true_r, !andb_assoc.
  - change ((d :: h) ++ [a; b; c]) with (d :: (h ++ [a; b; c])).
    cbn [app scan]. by rewrite IH, andb_assoc.
Qed.

Lemma upto_length (l : list Z) n : Z.of_nat n <= len l -> length (upto l (Z.of_nat n)) = n.
Proof. intros. unfold upto. rewrite length_take. unfold len in *. lia. Qed.

Lemma wide_loop_scan fuel o src previous processed :
  bytes_ok src -> bytes_ok previous -> length previous = 32%nat -> len src < 32 * Z.of_nat fuel ->
  let n := 32 * (len src / 32) in
  wide_loop fuel o src previous processed =
  scan (idx previous 29) (idx previous 30) (idx previous 31) (upto src n) && finish o (processed + n - 1).
Proof.
  intros Hs Hp Hl Hf. revert src previous processed Hs Hp Hl Hf.
  induction fuel as [| f IH]; intros; [unfold len in *; lia |]. cbn [wide_loop].
  destruct (Z.leb_spec 32 (len src)).
  - cbv zeta. assert (length (upto src 32) = 32%nat) as Hu by (by apply (upto_length src 32)).
    assert (n = 32 + 32 * (len (from src 32) / 32)) as En.
    { subst n. replace (len (from src 32)) with (len src + (-1) * 32) by len_lia.
      rewrite Z.div_add by lia. lia. }
    assert (0 <= len (from src 32) / 32) by (apply Z.div_pos; len_lia).
    rewrite wide_block_scan, IH by (done || eauto with ews || len_lia). cbv zeta.
    rewrite (upto_split src 32 n) by lia. rewrite (scan_block _ _ _ _ _ 32) by (done || lia).
    unfold slice. replace (n - 32) with (32 * (len (from src 32) / 32)) by lia.
    replace (processed + n - 1) with (processed + 32 + 32 * (len (from src 32) / 32) - 1) by lia.
    change (Z.of_nat 32 - 3) with 29. change (Z.of_nat 32 - 2) with 30. change (Z.of_nat 32 - 1) with 31.
    rewrite <- andb_assoc. by destruct (scan _ _ _ (upto src 32)).
  - assert (n = 0) as -> by (subst n; rewrite Z.div_small by (unfold len in *; lia); lia).
    rewrite upto_0 by lia. cbn [scan andb]. by rewrite Z.add_0_r.
Qed.

(** The zeros [LoadPart] adds. *)
Definition padding (src : list Z) : Z := (- len src) mod 16.

Lemma padding_from src n k : n = 16 * k -> 0 <= n <= len src -> padding (from src n) = padding src.
Proof.
  intros -> H. unfold padding. replace (len (from src (16 * k))) with (len src - 16 * k) by len_lia.
  replace (- (len src - 16 * k)) with (- len src + k * 16) by lia. by rewrite Z.mod_add.
Qed.

Lemma narrow_tail_scan o src previous :
  bytes_ok src -> bytes_ok previous -> length previous = 16%nat -> len src < 16 ->
  narrow_tail o src previous =
  scan (idx previous 13) (idx previous 14) (idx previous 15) (src ++ zeros (padding src)) && finish o (len o - 1).
Proof.
  intros Hs Hp Hl Hf. unfold narrow_tail. destruct (Z.eqb_spec (len src) 0) as [E | E]; cbn [negb andb].
  - apply len_0_nil in E as ->. done.
  - assert (padding src = 16 - len src) as ->.
    { unfold padding. rewrite <- (Z.mod_add _ 1), Z.mod_small by (unfold len in *; lia). lia. }
    unfold LoadPart. rewrite upto_all by lia. rewrite block_scan; try done.
    + by destruct (scan _ _ _ _).
    + apply bytes_ok_app. split; [done | apply bytes_ok_zeros].
    + unfold zeros. rewrite length_app, length_replicate. unfold len in *. lia.
Qed.

(** One block passed and the rest scanned are the whole scanned. *)
Lemma scan_first p3 p2 p1 src k rest :
  16 <= len src -> k = from src 16 ++ rest ->
  scan p3 p2 p1 (src ++ rest) =
  scan p3 p2 p1 (upto src 16) && scan (idx (upto src 16) 13) (idx (upto src 16) 14) (idx (upto src 16) 15) k.
Proof.
  intros H ->. rewrite <- (upto_from src 16) at 1. rewrite <- app_assoc.
  rewrite (scan_block _ _ _ _ _ 16); [done | by apply (upto_length src 16) | lia].
Qed.

Lemma narrow_single_scan fuel o src previous :
  bytes_ok src -> bytes_ok previous -> length previous = 16%nat -> len src < 16 * Z.of_nat fuel ->
  narrow_single fuel o src previous =
  scan (idx previous 13) (idx previous 14) (idx previous 15) (src ++ zeros (padding src)) && finish o (len o - 1).
Proof.
  intros Hs Hp Hl Hf. revert src previous Hs Hp Hl Hf.
  induction fuel as [| f IH]; intros; [unfold len in *; lia |]. cbn [narrow_single].
  destruct (Z.leb_spec 16 (len src)); [| by apply narrow_tail_scan].
  cbv zeta. assert (length (upto src 16) = 16%nat) as Hu by (by apply (upto_length src 16)).
  rewrite block_scan, IH by (done || eauto with ews || len_lia).
  rewrite (padding_from src 16 1) by lia.
  rewrite (scan_first _ _ _ src _ (zeros (padding src))) by done.
  rewrite <- andb_assoc. by destruct (scan _ _ _ (upto src 16)).
Qed.

Lemma narrow_double_scan fuel o src previous :
  bytes_ok src -> bytes_ok previous -> length previous = 16%nat -> len src < 32 * Z.of_nat fuel ->
  narrow_double fuel o src previous =
  scan (idx previous 13) (idx previous 14) (idx previous 15) (src ++ zeros (padding src)) && finish o (len o - 1).
Proof.
  intros Hs Hp Hl Hf. revert src previous Hs Hp Hl Hf.
  induction fuel as [| f IH]; intros; [unfold len in *; lia |]. cbn [narrow_double].
  change (2 * 16) with 32. destruct (Z.leb_spec 32 (len src)).
  - cbv zeta. assert (length (upto src 16) = 16%nat) as H0 by (apply (upto_length src 16); lia).
    assert (length (upto (from src 16) 16) = 16%nat) as H1 by (apply (upto_length _ 16); len_lia).
    rewrite !block_scan, IH by (done || eauto with ews || len_lia).
    rewrite (padding_from src 32 2) by lia.
    rewrite (scan_first _ _ _ src _ (zeros (padding src))) by (done || lia).
    rewrite (scan_first _ _ _ (from src 16) _ (zeros (padding src))) by (done || len_lia).
    rewrite from_from by lia. change (16 + 16) with 32.
    destruct (scan _ _ _ (upto src 16)); [| done].
    by destruct (scan _ _ _ (upto (from src 16) 16)).
  - apply narrow_single_scan; [done.. |]. unfold len in *. lia.
Qed.

(** ** The first rune, and the whole *)

Lemma DecodeRune_some l size :
  DecodeRune l = Some size -> 0 < size <= 4 /\ size <= len l /\ std_Valid (upto l size) = true.
Proof.
  destruct l as [| b0 t]; [done |]. cbn [DecodeRune]. intros H.
  assert (exists k, size = 1 + Z.of_nat k /\ (k <= 3)%nat /\ (k <= length t)%nat /\
    std_Valid (b0 :: take k t) = true) as (k & -> & Hk & Hl & Hv).
  { destruct (b0 <? 0x80) eqn:E1; [simplify_eq; exists 0%nat; cbn [take std_Valid length]; rewrite E1;
      split_and!; done || lia |].
    destruct (between 0xc2 0xdf b0) eqn:E2; [| destruct (between 0xe0 0xef b0) eqn:E3;
      [| destruct (between 0xf0 0xf4 b0) eqn:E4; [| done]]]; cbv zeta in H.
    - destruct t as [| b1 t]; [done |]. destruct (is_cont b1) eqn:C1; simplify_eq.
      exists 1%nat. cbn [take std_Valid length]. rewrite E1, E2, C1. split_and!; done || lia.
    - destruct t as [| b1 [| b2 t]]; try done. case_match eqn:C; simplify_eq.
      exists 2%nat. cbn [take std_Valid length]. rewrite E1, E2, E3. cbv zeta. rewrite C.
      split_and!; done || lia.
    - destruct t as [| b1 [| b2 [| b3 t]]]; try done. case_match eqn:C; simplify_eq.
      exists 3%nat. cbn [take std_Valid length]. rewrite E1, E2, E3, E4. cbv zeta. rewrite C.
      split_and!; done || lia. }
  unfold upto, len. replace (Z.to_nat (1 + Z.of_nat k)) with (S k) by lia. cbn [take length].
  split; [lia | split; [lia | done]].
Qed.

Lemma DecodeRune_none l : DecodeRune l = None -> l <> [] -> std_Valid l = false.
Proof.
  destruct l as [| b0 t]; [done |]. cbn [DecodeRune std_Valid]. intros H _.
  destruct (b0 <? 0x80); [done |].
  destruct (between 0xc2 0xdf b0).
  { destruct t as [| b1 t]; [done |]. by destruct (is_cont b1). }
  destruct (between 0xe0 0xef b0).
  { destruct t as [| b1 [| b2 t]]; try done. cbv zeta in *. by case_match. }
  destruct (between 0xf0 0xf4 b0); [| done].
  destruct t as [| b1 [| b2 [| b3 t]]]; try done. cbv zeta in *. by case_match.
Qed.

(** After the first rune, either kernel gives the whole text's verdict. *)
Lemma kernels_std o size :
  bytes_ok o -> 0 < size <= 4 -> 32 <= len o -> std_Valid (upto o size) = true ->
  validNarrow o (from o size) = std_Valid o /\
  (36 <= len o -> validWide o (from o size) size = std_Valid o).
Proof.
  intros Ho Hs Hl Hv.
  assert (run_dfa accept (upto o size) = accept) as Hr.
  { rewrite std_Valid_dfa in Hv by eauto with ews. by apply Z.eqb_eq in Hv. }
  split; [| intros Hw].
  - unfold validNarrow. rewrite narrow_double_scan by (done || eauto with ews || (unfold len in *; lia)). cbv zeta.
    change (idx (zeros 16) 13) with 0. change (idx (zeros 16) 14) with 0. change (idx (zeros 16) 15) with 0.
    rewrite <- (verdict o size (len o) (padding (from o size))) by (done || lia || auto).
    unfold slice. by rewrite (upto_all (from o size)) by len_lia.
  - unfold validWide. rewrite wide_loop_scan by (done || eauto with ews || (unfold len in *; lia)). cbv zeta.
    change (idx (zeros 32) 29) with 0. change (idx (zeros 32) 30) with 0. change (idx (zeros 32) 31) with 0.
    set (n := 32 * (len (from o size) / 32)).
    assert (0 <= n <= len o - size /\ 0 < n) as Hn.
    { replace (len o - size) with (len (from o size)) by len_lia.
      pose proof (Z.div_mod (len (from o size)) 32). pose proof (Z.mod_pos_bound (len (from o size)) 32).
      assert (32 <= len (from o size)) by len_lia.
      assert (1 <= len (from o size) / 32) by (apply Z.div_le_lower_bound; lia). lia. }
    rewrite <- (verdict o size (size + n) 0) by (done || lia || auto).
    unfold slice. replace (size + n - size) with n by lia. change (zeros 0) with (@nil Z).
    by rewrite app_nil_r.
Qed.

Lemma Simd_Valid_std avx2 src : bytes_ok src -> Simd.Valid avx2 src = std_Valid src.
Proof.
  intros Hs. unfold Valid. destruct (asciiPrefix_ok src Hs) as [[Hi Ha] _].
  set (i := asciiPrefix src) in *. clearbody i. cbv zeta.
  assert (std_Valid src = std_Valid (from src i)) as ->.
  { rewrite <- (upto_from src i) at 1. by rewrite std_Valid_ascii. }
  destruct (Z.eqb_spec i (len src)) as [-> | Hne]; [by rewrite from_all |].
  destruct (Z.ltb_spec (len (from src i)) 32); [done |].
  destruct (DecodeRune (from src i)) as [size |] eqn:E.
  - apply DecodeRune_some in E as (H1 & H2 & Hv).
    destruct (kernels_std (from src i) size) as [Hn Hw]; eauto with ews.
    destruct (Z.leb_spec wideThreshold (len (from src i))); cbn [andb]; [| done].
    destruct avx2; [| done]. apply Hw. unfold wideThreshold in *. lia.
  - symmetry. apply DecodeRune_none; [done |]. intros Hnil.
    assert (len (from src i) = 0) by (by rewrite Hnil). lia.
Qed.

(** ** Properties *)

(** C33. The SIMD build's [Valid] gives the verdict of the portable build's on
    every input, with AVX2 and without: the three table look-ups of each byte
    pair, the saturating comparisons of the two bytes before, the zero padding
    of the last block and the walk back to the last rune reject exactly what
    the shift-based automaton rejects. *)
Theorem builds_agree avx2 src : bytes_ok src -> Simd.Valid avx2 src = Utf8.Valid src.
Proof. intros Hs. by rewrite Simd_Valid_std, Valid_std. Qed.

(** The wide kernel on a text past its threshold, the narrow one on the same
    text cut inside a rune. *)
Lemma builds_agree_witness :
  let euro := concat (replicate 140 [0xe2; 0x82; 0xac]) in
  Simd.Valid true euro = true /\ Simd.Valid false (upto euro 400) = false.
Proof.
  cbv zeta. split.
  - rewrite (builds_agree true); [vm_compute; reflexivity |].
    apply (bool_decide_unpack _). vm_compute. exact I.
  - rewrite (builds_agree false); [vm_compute; reflexivity |].
    apply (bool_decide_unpack _). vm_compute. exact I.
Defined.
