(* ===== verification/Close.v ===== *)
(** * Close codes and close payloads (ws/close.go) *)

From stdpp Require Import prelude.
From S2P Require Import Prelude Words Errors Utf8.

Definition NoStatus : Z := 1005.

Definition validCloseCode (code : Z) : bool :=
  if (1000 <=? code) && (code <=? 1003) || (1007 <=? code) && (code <=? 1014) then true
  else (3000 <=? code) && (code <=? 4999).

Definition validateClose (payload : list Z) : option error :=
  if len payload =? 0 then None
  else if (len payload <? 2) || (125 <? len payload)
          || negb (validCloseCode (be_get (slice payload 0 2)))
  then Some (Ws ErrProtocol)
  else if negb (std_Valid (from payload 2)) then Some (Ws ErrInvalidUTF8)
  else None.

(** Code and reason; a nil reason is empty. *)
Definition parseClose (payload : list Z) : Z * list Z :=
  if len payload <? 2 then (NoStatus, [])
  else (be_get (slice payload 0 2), from payload 2).

(** ** Lemmas *)

(** The close payload for a code and a reason. *)
Definition close_payload (code : Z) (reason : list Z) : list Z := be_put 2 code ++ reason.

Lemma close_payload_len code reason : len (close_payload code reason) = 2 + len reason.
Proof. unfold close_payload. len_lia. Qed.

Lemma close_payload_code code reason :
  0 <= code < 2 ^ 16 -> be_get (slice (close_payload code reason) 0 2) = code.
Proof.
  intros H. unfold close_payload. rewrite slice_app_l by len_lia.
  rewrite slice_all by len_lia. rewrite be_get_put.
  apply Z.mod_small. done.
Qed.

Lemma close_payload_reason code reason : from (close_payload code reason) 2 = reason.
Proof.
  unfold close_payload. rewrite from_app_ge by len_lia. apply from_0. len_lia.
Qed.

(** What a control frame may carry. *)
Definition control_ok (p : list Z) : Prop := bytes_ok p /\ len p <= 125.

Lemma parseClose_range p :
  bytes_ok p -> let '(code, reason) := parseClose p in 0 <= code < 2 ^ 16 /\ bytes_ok reason.
Proof.
  intros Hp. unfold parseClose. destruct (Z.ltb_spec (len p) 2) as [H | H]; [by split; [| apply Forall_nil_2] |].
  split; [| eauto with ews]. pose proof (be_get_bound (slice p 0 2) (bytes_ok_slice _ _ _ Hp)) as Hb.
  replace (len (slice p 0 2)) with 2 in Hb by len_lia. exact Hb.
Qed.

(** ** Properties *)

(** Close payloads round-trip: the payload built from a valid close code
    and a UTF-8 reason of at most 123 bytes passes [validateClose] and
    [parseClose] gives the code and the reason back. *)
Theorem parseClose_roundtrip code reason :
  validCloseCode code = true -> bytes_ok reason -> utf8 reason -> len reason <= 123 ->
  validateClose (close_payload code reason) = None /\
  parseClose (close_payload code reason) = (code, reason).
Proof.
  intros Hc Hb Hu Hl. assert (0 <= code < 2 ^ 16) as Hr.
  { revert Hc. unfold validCloseCode.
    destruct (Z.leb_spec 1000 code), (Z.leb_spec code 1003), (Z.leb_spec 1007 code),
      (Z.leb_spec code 1014), (Z.leb_spec 3000 code), (Z.leb_spec code 4999); cbn; intros; done || lia. }
  unfold validateClose, parseClose. rewrite close_payload_len, close_payload_code,
    close_payload_reason, Hc by done. rewrite (proj2 (std_Valid_utf8 _ Hb) Hu).
  len_sat. destruct (Z.eqb_spec (2 + len reason) 0); [lia |].
  destruct (Z.ltb_spec (2 + len reason) 2); [lia |].
  destruct (Z.ltb_spec 125 (2 + len reason)); [lia | done].
Qed.

Lemma parseClose_roundtrip_witness :
  parseClose (close_payload 1000 [98; 121; 101]) = (1000, [98; 121; 101]).
Proof.
  apply (parseClose_roundtrip 1000 [98; 121; 101]).
  - reflexivity.
  - repeat constructor; unfold is_byte; lia.
  - apply std_Valid_utf8; [repeat constructor; unfold is_byte; lia | reflexivity].
  - unfold len. cbn. lia.
Defined.

(** [validateClose] accepts a payload exactly when RFC 6455 allows it:
    empty, or 2 to 125 bytes whose code is one a peer may send (1000-1003,
    1007-1014, 3000-4999; so not 1004, 1005, 1006 or 1015) and whose reason is
    UTF-8; a bad reason, and only that, is reported as invalid UTF-8. *)
Theorem validateClose_exact payload :
  bytes_ok payload ->
  let code := be_get (slice payload 0 2) in
  let code_ok := 1000 <= code <= 1003 \/ 1007 <= code <= 1014 \/ 3000 <= code <= 4999 in
  let frame_ok := 2 <= len payload <= 125 /\ code_ok in
  (validateClose payload = None <-> payload = [] \/ frame_ok /\ utf8 (from payload 2)) /\
  (validateClose payload = Some (Ws ErrInvalidUTF8) <-> frame_ok /\ ~ utf8 (from payload 2)).
Proof.
  intros Hb code code_ok frame_ok.
  assert (validCloseCode code = true <-> code_ok) as Hcode.
  { unfold validCloseCode, code_ok.
    destruct (Z.leb_spec 1000 code), (Z.leb_spec code 1003), (Z.leb_spec 1007 code),
      (Z.leb_spec code 1014), (Z.leb_spec 3000 code), (Z.leb_spec code 4999); cbn;
      (split; [intros; try done; lia | intros; try done; lia]). }
  assert (bytes_ok (from payload 2)) as Hb2 by eauto with ews.
  pose proof (std_Valid_utf8 _ Hb2) as Hu. fold code in Hcode.
  unfold validateClose. fold code.
  destruct (Z.eqb_spec (len payload) 0) as [E0 | N0].
  { apply len_0_nil in E0. subst frame_ok. split; [tauto |].
    split; [done | intros [[? _] _]]. rewrite E0 in *. unfold len in *. cbn in *. lia. }
  assert (payload <> []) as Hne by (rewrite <- len_0_nil; done).
  destruct (Z.ltb_spec (len payload) 2); cbn [orb].
  { subst frame_ok. split; split; try done; intros; exfalso; intuition (done || lia). }
  destruct (Z.ltb_spec 125 (len payload)); cbn [orb].
  { subst frame_ok. split; split; try done; intros; exfalso; intuition (done || lia). }
  destruct (validCloseCode code); cbn [negb].
  - assert code_ok by tauto. destruct (std_Valid (from payload 2)); cbn [negb].
    + split; split; try done; [intros _; right | intros [_ []]; tauto]. split; [by split | tauto].
    + split; split; try done; [intros [| [_ Hx]]; [done |] | intros _].
      * exfalso. by apply Hu in Hx.
      * split; [by split |]. intros Hx. by apply Hu in Hx.
  - subst frame_ok. split; split; try done; intros; exfalso; intuition done.
Qed.

Lemma validateClose_exact_witness :
  validateClose (close_payload 1000 [0xff]) = Some (Ws ErrInvalidUTF8).
Proof.
  apply (validateClose_exact (close_payload 1000 [0xff])).
  - apply (bool_decide_unpack _). vm_compute. exact I.
  - split.
    + split; [vm_compute; split; discriminate | left; vm_compute; split; discriminate].
    + intros H. apply std_Valid_utf8 in H.
      * discriminate H.
      * apply (bool_decide_unpack _). vm_compute. exact I.
Defined.
