(* ===== verification/Receiver.v ===== *)
(** * The frame receiver (ws/receiver.go)

    Validates incoming frames and tracks the open message.  Every method of
    the Go type is a definition of [Module Rx]; a chunk or a control payload
    that Go hands out borrowed is its contents here. *)

From stdpp Require Import prelude.
From S2P Require Import Prelude Words Mask Errors Header Encoder Decoder Close.

Inductive Role := Server | Client.

#[export] Instance Role_eq_dec : EqDecision Role.
Proof. solve_decision. Defined.

Inductive frameKind := needInput | dataFrame | controlFrame.

#[export] Instance frameKind_eq_dec : EqDecision frameKind.
Proof. solve_decision. Defined.

Module Rx.

Record receiver := mkReceiver {
  role : Role;
  compression : bool;
  dec : Decoder;
  header : Header;
  remaining : Z;
  masked : bool;
  maskKey : list Z;
  maskOffset : Z;
  messageOpcode : Z;
  compressed : bool;
  control : list Z;
  controlLen : Z;
  controlOpcode : Z;
  controlOpen : bool;
  closeReceived : bool;
  failed : option error
}.

(** The zero [receiver]. *)
Definition zero : receiver :=
  {| role := Server; compression := false; dec := Decoder_zero; header := Header_zero;
     remaining := 0; masked := false; maskKey := zeros 4; maskOffset := 0;
     messageOpcode := 0; compressed := false; control := zeros 125; controlLen := 0;
     controlOpcode := 0; controlOpen := false; closeReceived := false; failed := None |}.

Definition Init (r : receiver) (role' : Role) (compression' : bool) : receiver :=
  let d := dec r in
  let r := {| zero with role := role'; compression := compression'; dec := d |} in
  {| r with dec := Dec.Reset (dec r) |}.

Definition Feed (r : receiver) (b : list Z) : receiver :=
  if bool_decide (failed r = None) && negb (closeReceived r)
  then {| r with dec := Dec.Feed (dec r) b |} else r.

Definition Preserve (r : receiver) : receiver := {| r with dec := Dec.Preserve (dec r) |}.

Definition Idle (r : receiver) : bool :=
  (remaining r =? 0) && negb (controlOpen r) && (messageOpcode r =? 0)
  && (Dec.Buffered (dec r) =? 0).

Definition MessageOpen (r : receiver) : bool := negb (messageOpcode r =? 0).
Definition MessageCompressed (r : receiver) : bool := compressed r.
Definition ControlOpcode (r : receiver) : Z := controlOpcode r.
Definition ControlPayload (r : receiver) : list Z := upto (control r) (controlLen r).
Definition CloseReceived (r : receiver) : bool := closeReceived r.

(** Ends the receiver: every later [Next] and [Payload] returns this error. *)
Definition fail (r : receiver) (code : Z) (err : error) : receiver * error :=
  let e := WsError code err in
  ({| r with failed := Some e; remaining := 0; controlOpen := false; messageOpcode := 0;
             dec := Dec.Reset (dec r) |}, e).

Definition accept (r : receiver) (h : Header) (length : Z) : receiver * option error :=
  if negb (Bool.eqb (Hdr.Masked h) (bool_decide (role r = Server))) || Hdr.RSV2 h || Hdr.RSV3 h
  then (r, Some (Ws ErrProtocol))
  else
    let op := Hdr.Opcode h in
    if (op =? Opcode.Text) || (op =? Opcode.Binary) then
      if negb (messageOpcode r =? 0) || (Hdr.RSV1 h && negb (compression r))
      then (r, Some (Ws ErrProtocol))
      else ({| r with messageOpcode := op; compressed := Hdr.RSV1 h |}, None)
    else if op =? Opcode.Continuation then
      if (messageOpcode r =? 0) || Hdr.RSV1 h then (r, Some (Ws ErrProtocol)) else (r, None)
    else if (op =? Opcode.Close) || (op =? Opcode.Ping) || (op =? Opcode.Pong) then
      if negb (Hdr.Final h) || Hdr.RSV1 h || (125 <? length)
      then (r, Some (Ws ErrProtocol)) else (r, None)
    else (r, Some (Ws ErrProtocol)).

Definition finishFrame (r : receiver) : receiver :=
  if Hdr.Final (header r) then {| r with messageOpcode := 0 |} else r.

Definition finishControl (r : receiver) : receiver * (frameKind * option error) :=
  if controlOpcode r =? Opcode.Close then
    match validateClose (upto (control r) (controlLen r)) with
    | Some err =>
        let code := if decide (err = Ws ErrInvalidUTF8) then 1007 else 1002 in
        let '(r, e) := fail r code err in (r, (needInput, Some e))
    | None =>
        ({| r with closeReceived := true; dec := Dec.Reset (dec r) |}, (controlFrame, None))
    end
  else (r, (controlFrame, None)).

Section ops.
Context `{M : Masker}.

(** The control branch of the loop of [Next]: gather payload, unmask what
    arrived, and either wait or finish. *)
Definition gather (r : receiver) : receiver * (frameKind * option error) :=
  let '(d, (chunk, done)) := Dec.Payload (dec r) in
  let chunk := upto chunk (125 - controlLen r) in
  let n := len chunk in
  let r := {| r with dec := d; control := splice (control r) (controlLen r) chunk;
                     controlLen := u8 (controlLen r + u8 n) |} in
  let r :=
    if masked r then
      let at_ := controlLen r - n in
      let '(p, o) := Mask (slice (control r) at_ (controlLen r)) (maskKey r) (maskOffset r) in
      {| r with control := splice (control r) at_ p; maskOffset := o |}
    else r in
  if negb done then (r, (needInput, None))
  else finishControl {| r with controlOpen := false |}.

(** One turn of the loop of [Next]: [inr] is a return, [inl] a [continue]. *)
Definition turn (r : receiver) : receiver + receiver * (frameKind * option error) :=
  if controlOpen r then inr (gather r)
  else
    let '(d, h, (ok, err)) := Dec.NextHeaderInto (dec r) (header r) in
    let r := {| r with dec := d; header := h |} in
    match err with
    | Some err => let '(r, e) := fail r 1002 err in inr (r, (needInput, Some e))
    | None =>
        if negb ok then inr (r, (needInput, None))
        else
          let length := Hdr.PayloadLen h in
          match accept r h length with
          | (r, Some err) => let '(r, e) := fail r 1002 err in inr (r, (needInput, Some e))
          | (r, None) =>
              let r := {| r with masked := Hdr.Masked h; maskOffset := 0;
                                 maskKey := match Hdr.MaskKey h with
                                            | Some k => k | None => maskKey r end |} in
              if Opcode.Close <=? Hdr.Opcode h then
                let r := {| r with controlOpcode := Hdr.Opcode h; controlLen := 0 |} in
                if length =? 0 then inr (finishControl r)
                else inl {| r with controlOpen := true |}
              else
                let r := {| r with remaining := length |} in
                inr (if remaining r =? 0 then finishFrame r else r, (dataFrame, None))
          end
    end.

Fixpoint Next_loop (fuel : nat) (r : receiver) : option (receiver * (frameKind * option error)) :=
  match fuel with
  | O => None
  | S fuel => match turn r with inr res => Some res | inl r => Next_loop fuel r end
  end.

(** A second turn always returns ([Next_total]): two suffice. *)
Definition Next (r : receiver) : receiver * (frameKind * option error) :=
  match failed r with
  | Some e => (r, (needInput, Some e))
  | None =>
      if negb (remaining r =? 0) then (r, (needInput, Some (Codec ErrPayloadPending)))
      else if closeReceived r then (r, (needInput, None))
      else default (r, (needInput, None)) (Next_loop 2 r)
  end.

Definition consumed (r : receiver) (chunk : list Z) (done : bool)
    : receiver * (list Z * bool * option error) :=
  let '(r, chunk) :=
    if negb (len chunk =? 0) then
      let '(r, chunk) :=
        if masked r then
          let '(c, o) := Mask chunk (maskKey r) (maskOffset r) in
          ({| r with maskOffset := o |}, c)
        else (r, chunk) in
      ({| r with remaining := u64 (remaining r - len chunk) |}, chunk)
    else (r, chunk) in
  let r := if done then finishFrame r else r in
  (r, (chunk, done, None)).

Definition PayloadN (r : receiver) (n : Z) : receiver * (list Z * bool * option error) :=
  match failed r with
  | Some e => (r, ([], false, Some e))
  | None =>
      if remaining r =? 0 then (r, ([], true, None))
      else
        let '(d, (chunk, done)) := Dec.PayloadN (dec r) n in
        consumed {| r with dec := d |} chunk done
  end.

Definition Payload (r : receiver) : receiver * (list Z * bool * option error) :=
  PayloadN r (Dec.Buffered (dec r)).

End ops.
End Rx.
