(* ===== verification/Stream.v ===== *)
(** * Specification of the receiving side: a byte-at-a-time machine

    What RFC 6455 says a byte stream means to an endpoint, with no buffering:
    each byte moves one state and may emit events.  [Receiver] is proved to
    produce these events whatever way the stream is cut into reads. *)

From stdpp Require Import prelude.
From S2P Require Import Prelude Words Mask Errors Header Encoder Decoder Close Receiver.

(** A data frame header, one unmasked payload byte, a complete control frame,
    the terminal failure. *)
Inductive event :=
  | EvFrame (fin : bool) (op : Z) (rsv1 : bool) (length : Z)
  | EvData (b : Z)
  | EvControl (op : Z) (payload : list Z)
  | EvFail (e : error).

#[export] Instance event_eq_dec : EqDecision event.
Proof. solve_decision. Defined.

Inductive mode :=
  | MHead (acc : list Z)
  | MData (fin : bool) (rem : Z) (key : option (list Z)) (off : Z)
  | MCtl (op : Z) (rem : Z) (buf : list Z) (key : option (list Z)) (off : Z)
  | MClosed
  | MFailed (e : error).

(** [s_msg] is the opcode of the open message, or zero; [s_comp] whether the
    latest message is compressed. *)
Record spec := Spec { s_mode : mode; s_msg : Z; s_comp : bool }.

Definition spec_init : spec := {| s_mode := MHead []; s_msg := 0; s_comp := false |}.

Definition unmask1 (key : option (list Z)) (off b : Z) : Z :=
  match key with Some k => Z.lxor b (idx k (Z.land off 3)) | None => b end.

Definition unmask (key : option (list Z)) (off : Z) (l : list Z) : list Z :=
  match key with Some k => mask_ref k off l | None => l end.

(** The offset only advances when there is a key. *)
Definition advance (key : option (list Z)) (off n : Z) : Z :=
  match key with Some _ => (off + n) mod 4 | None => off end.

Definition spec_fail (s : spec) (e : error) : spec * list event :=
  ({| s with s_mode := MFailed e; s_msg := 0 |}, [EvFail e]).

Definition end_data (s : spec) (fin : bool) : spec :=
  {| s with s_mode := MHead []; s_msg := if fin then 0 else s_msg s |}.

Definition end_control (s : spec) (op : Z) (buf : list Z) : spec * list event :=
  if op =? Opcode.Close then
    match validateClose buf with
    | Some err => spec_fail s (WsError (if decide (err = Ws ErrInvalidUTF8) then 1007 else 1002) err)
    | None => ({| s with s_mode := MClosed |}, [EvControl op buf])
    end
  else ({| s with s_mode := MHead [] |}, [EvControl op buf]).

Section machine.
Context (role : Role) (compression : bool).

(** Which headers may come next: section 5 of the RFC, and RFC 7692 for RSV1. *)
Definition legal (s : spec) (fin rsv1 rsv2 rsv3 masked : bool) (op n : Z) : bool :=
  Bool.eqb masked (bool_decide (role = Server)) && negb rsv2 && negb rsv3 &&
  (if (op =? Opcode.Text) || (op =? Opcode.Binary) then
     (s_msg s =? 0) && (negb rsv1 || compression)
   else if op =? Opcode.Continuation then negb (s_msg s =? 0) && negb rsv1
   else if (op =? Opcode.Close) || (op =? Opcode.Ping) || (op =? Opcode.Pong) then
     fin && negb rsv1 && (n <=? 125)
   else false).

Definition starts (op : Z) : bool := (op =? Opcode.Text) || (op =? Opcode.Binary).

Definition on_header (s : spec) (acc : list Z) : spec * list event :=
  if bad_length acc then spec_fail s (WsError 1002 (Codec ErrInvalidPayloadLength))
  else
    let h := {| raw := acc; hlen := len acc |} in
    let op := Hdr.Opcode h in
    let n := wire_plen acc in
    let key := Hdr.MaskKey h in
    if negb (legal s (Hdr.Final h) (Hdr.RSV1 h) (Hdr.RSV2 h) (Hdr.RSV3 h) (Hdr.Masked h) op n)
    then spec_fail s (WsError 1002 (Ws ErrProtocol))
    else if Opcode.Close <=? op then
      if n =? 0 then end_control s op []
      else ({| s with s_mode := MCtl op n [] key 0 |}, [])
    else
      let s := if starts op then {| s with s_msg := op; s_comp := Hdr.RSV1 h |} else s in
      let ev := [EvFrame (Hdr.Final h) op (Hdr.RSV1 h) n] in
      if n =? 0 then (end_data s (Hdr.Final h), ev)
      else ({| s with s_mode := MData (Hdr.Final h) n key 0 |}, ev).

Definition spec_byte (s : spec) (b : Z) : spec * list event :=
  match s_mode s with
  | MHead acc =>
      let acc := acc ++ [b] in
      if header_complete acc then on_header s acc else ({| s with s_mode := MHead acc |}, [])
  | MData fin rem key off =>
      let ev := [EvData (unmask1 key off b)] in
      if rem =? 1 then (end_data s fin, ev)
      else ({| s with s_mode := MData fin (rem - 1) key (advance key off 1) |}, ev)
  | MCtl op rem buf key off =>
      let buf := buf ++ [unmask1 key off b] in
      if rem =? 1 then end_control s op buf
      else ({| s with s_mode := MCtl op (rem - 1) buf key (advance key off 1) |}, [])
  | MClosed | MFailed _ => (s, [])
  end.

Fixpoint run (s : spec) (l : list Z) : spec * list event :=
  match l with
  | [] => (s, [])
  | b :: l => let '(s, ev) := spec_byte s b in let '(s, evs) := run s l in (s, ev ++ evs)
  end.

(** ** Running pieces *)

(** Running after some events have been emitted. *)
Definition after (p : spec * list event) (l : list Z) : spec * list event :=
  let '(s, ev) := p in let '(s', evs) := run s l in (s', ev ++ evs).

Lemma run_cons s b l : run s (b :: l) = after (spec_byte s b) l.
Proof. done. Qed.

Lemma after_nil s l : after (s, []) l = run s l.
Proof. unfold after. by destruct (run s l). Qed.

Lemma after_nil_r p : after p [] = p.
Proof. destruct p. cbn. by rewrite app_nil_r. Qed.

Lemma run_app s l k : run s (l ++ k) = after (run s l) k.
Proof.
  revert s. induction l as [| b l IH]; intros s; cbn [app run].
  - by rewrite after_nil.
  - destruct (spec_byte s b) as [s1 e1]. rewrite IH. unfold after.
    destruct (run s1 l) as [s2 e2]. destruct (run s2 k). by rewrite app_assoc.
Qed.

Lemma after_after p l k : after (after p l) k = after p (l ++ k).
Proof.
  destruct p as [s ev]. unfold after. rewrite run_app. unfold after.
  destruct (run s l) as [s1 e1]. destruct (run s1 k). by rewrite app_assoc.
Qed.

Lemma after_prefix s ev evs l : after (s, ev ++ evs) l =
  (let '(s', es) := after (s, evs) l in (s', ev ++ es)).
Proof. unfold after. destruct (run s l). by rewrite app_assoc. Qed.

Lemma run_dead s l :
  match s_mode s with MClosed | MFailed _ => True | _ => False end -> run s l = (s, []).
Proof.
  intros H. induction l as [| b l IH]; [done |]. cbn. unfold spec_byte.
  destruct (s_mode s); try done; by rewrite IH.
Qed.

(** ** A header gathered byte by byte *)

Lemma on_header_mode s m acc : on_header {| s with s_mode := m |} acc = on_header s acc.
Proof.
  unfold on_header. destruct (bad_length acc); [done |].
  change (legal {| s with s_mode := m |}) with (legal s). cbv zeta.
  destruct (negb _); [done |]. destruct (Opcode.Close <=? _).
  - destruct (_ =? 0); [| done]. unfold end_control. destruct (_ =? _); [| done].
    by destruct (validateClose []).
  - destruct (starts _), (_ =? 0); done.
Qed.

Lemma header_complete_prefix p q : header_complete (p ++ q) = false -> header_complete p = false.
Proof.
  intros H. destruct (header_complete p) eqn:E; [| done].
  apply (header_complete_app p q) in E as [E _]. congruence.
Qed.

Lemma run_head_incomplete s acc p :
  s_mode s = MHead acc -> header_complete (acc ++ p) = false ->
  run s p = ({| s with s_mode := MHead (acc ++ p) |}, []).
Proof.
  revert s acc. induction p as [| b p IH]; intros s acc Hm Hc.
  - rewrite app_nil_r in *. cbn. f_equal. destruct s. cbn in *. by subst.
  - rewrite run_cons. unfold spec_byte. rewrite Hm.
    replace (acc ++ b :: p) with ((acc ++ [b]) ++ p) in * by (by rewrite <- app_assoc).
    rewrite (header_complete_prefix _ _ Hc). rewrite after_nil. by erewrite IH.
Qed.

Lemma header_complete_short p n :
  header_complete p = true -> n < need p -> header_complete (upto p n) = false.
Proof.
  intros [H2 Hn]%andb_prop Hlt. apply Z.leb_le in H2, Hn.
  pose proof (need_range p). unfold header_complete.
  destruct (Z.leb_spec 2 (len (upto p n))) as [Hl | Hl]; [cbn [andb] | done].
  rewrite len_upto in *. rewrite <- (need_app (upto p n) (from p n)) by len_lia.
  rewrite upto_from. destruct (Z.leb_spec (need p) (Z.min (Z.max 0 n) (len p))); [lia | done].
Qed.

Lemma run_head_complete s p :
  s_mode s = MHead [] -> header_complete p = true ->
  run s p = after (on_header s (upto p (need p))) (from p (need p)).
Proof.
  intros Hm Hc. set (n := need p). pose proof (need_range p).
  assert (n <= len p) as Hn by (apply andb_prop in Hc as [_ H2]; apply Z.leb_le in H2; done).
  rewrite <- (upto_from p n) at 1. rewrite run_app. f_equal.
  assert (upto p n = upto p (n - 1) ++ [idx p (n - 1)]) as E.
  { rewrite (upto_split p (n - 1) n) by lia. f_equal.
    replace n with (n - 1 + 1) at 2 by lia. apply slice_1. lia. }
  rewrite E, run_app.
  rewrite (run_head_incomplete s [] (upto p (n - 1)) Hm)
    by (apply header_complete_short; [done | lia]).
  rewrite after_nil, run_cons. unfold spec_byte. cbn [s_mode app]. rewrite <- E.
  assert (header_complete (upto p n) = true) as ->.
  { unfold header_complete. rewrite len_upto.
    rewrite <- (need_app (upto p n) (from p n)) by len_lia. rewrite upto_from.
    apply andb_true_intro. split; apply Z.leb_le; lia. }
  rewrite after_nil_r. apply on_header_mode.
Qed.

(** ** Payload bytes *)

Lemma unmask_cons key off b l :
  unmask key off (b :: l) = unmask1 key off b :: unmask key (off + 1) l.
Proof. destruct key; cbn; [apply mask_ref_cons | done]. Qed.

Lemma unmask_advance key off n l : unmask key (advance key off n) l = unmask key (off + n) l.
Proof. destruct key; cbn; [| done]. apply mask_ref_mod. by rewrite Z.mod_mod. Qed.

Lemma advance_advance key off n m : advance key (advance key off n) m = advance key off (n + m).
Proof.
  destruct key; cbn; [| done]. rewrite Z.add_mod_idemp_l by lia. f_equal. lia.
Qed.

Lemma run_data s fin rem key off c :
  s_mode s = MData fin rem key off -> 0 < len c <= rem ->
  run s c = ((if len c =? rem then end_data s fin
              else {| s with s_mode := MData fin (rem - len c) key (advance key off (len c)) |}),
             EvData <$> unmask key off c).
Proof.
  revert s rem off. induction c as [| b c IH]; intros s rem off Hm Hr; [len_lia |].
  rewrite run_cons. unfold spec_byte. rewrite Hm, len_cons in *. pose proof (len_nonneg c).
  destruct (decide (len c = 0)) as [E0 | N0].
  - apply len_0_nil in E0. subst c. rewrite after_nil_r, len_nil.
    rewrite unmask_cons. replace (unmask key (off + 1) []) with (@nil Z) by (by destruct key).
    cbn [fmap list_fmap]. rewrite Z.add_0_r, Z.eqb_sym. by destruct (1 =? rem).
  - destruct (Z.eqb_spec rem 1); [lia |]. unfold after.
    rewrite (IH _ (rem - 1) (advance key off 1)) by (done || lia).
    rewrite unmask_advance, advance_advance, unmask_cons. cbn [app fmap list_fmap].
    replace (len c =? rem - 1) with (1 + len c =? rem)
      by (destruct (Z.eqb_spec (1 + len c) rem), (Z.eqb_spec (len c) (rem - 1)); lia || done).
    destruct (1 + len c =? rem); [done |]. do 3 f_equal. lia.
Qed.

Lemma run_ctl s op rem buf key off c :
  s_mode s = MCtl op rem buf key off -> 0 < len c <= rem ->
  run s c = if len c =? rem then end_control s op (buf ++ unmask key off c)
            else ({| s with s_mode := MCtl op (rem - len c) (buf ++ unmask key off c)
                                        key (advance key off (len c)) |}, []).
Proof.
  revert s rem buf off. induction c as [| b c IH]; intros s rem buf off Hm Hr; [len_lia |].
  rewrite run_cons. unfold spec_byte. rewrite Hm, len_cons in *. pose proof (len_nonneg c).
  rewrite unmask_cons. destruct (decide (len c = 0)) as [E0 | N0].
  - apply len_0_nil in E0. subst c. rewrite after_nil_r, len_nil.
    replace (unmask key (off + 1) []) with (@nil Z) by (by destruct key).
    rewrite Z.add_0_r, Z.eqb_sym. done.
  - destruct (Z.eqb_spec rem 1); [lia |]. rewrite after_nil.
    rewrite (IH _ (rem - 1) (buf ++ [unmask1 key off b]) (advance key off 1)) by (done || lia).
    rewrite unmask_advance, advance_advance, <- app_assoc. cbn [app].
    replace (len c =? rem - 1) with (1 + len c =? rem)
      by (destruct (Z.eqb_spec (1 + len c) rem), (Z.eqb_spec (len c) (rem - 1)); lia || done).
    destruct (1 + len c =? rem); [| do 3 f_equal; lia].
    unfold end_control, spec_fail. cbn. done.
Qed.
End machine.
