(* ===== verification/Refine.v ===== *)
(** * The receiver refines the byte-at-a-time specification

    [abs] maps a receiver to the specification state it stands for, not
    counting its pending input; each operation moves both sides alike. *)

From stdpp Require Import prelude.
From S2P Require Import Prelude Words Mask Errors Header Encoder Decoder Close Receiver Stream.

Import Rx.

#[local] Abbreviation pend r := (Decoder.pending (dec r)).
#[local] Abbreviation decrem r := (Decoder.remaining (dec r)).

Definition rx_key (r : receiver) : option (list Z) := if masked r then Some (maskKey r) else None.

Definition abs_mode (r : receiver) : mode :=
  match failed r with
  | Some e => MFailed e
  | None =>
      if closeReceived r then MClosed
      else if negb (remaining r =? 0) then
        MData (Hdr.Final (header r)) (remaining r) (rx_key r) (maskOffset r)
      else if controlOpen r then
        MCtl (controlOpcode r) (decrem r) (ControlPayload r) (rx_key r) (maskOffset r)
      else MHead []
  end.

Definition abs (r : receiver) : spec :=
  {| s_mode := abs_mode r; s_msg := messageOpcode r; s_comp := compressed r |}.

(** The representation invariant. *)
Record rx_ok (r : receiver) : Prop := {
  ok_dec : decoder_ok (dec r);
  ok_header : header_ok (header r);
  ok_key : bytes_ok (maskKey r) /\ len (maskKey r) = 4;
  ok_off : 0 <= maskOffset r < 4;
  ok_ctl : bytes_ok (control r) /\ len (control r) = 125 /\ 0 <= controlLen r <= 125;
  ok_msg : messageOpcode r = 0 \/ messageOpcode r = Opcode.Text \/ messageOpcode r = Opcode.Binary;
  ok_phase :
    match failed r with
    | Some _ => remaining r = 0 /\ controlOpen r = false /\ pend r = [] /\ decrem r = 0
                /\ messageOpcode r = 0
    | None =>
        if closeReceived r then
          remaining r = 0 /\ controlOpen r = false /\ pend r = [] /\ decrem r = 0
        else if negb (remaining r =? 0) then
          decrem r = remaining r /\ controlOpen r = false /\ messageOpcode r <> 0
        else if controlOpen r then
          0 < decrem r /\ controlLen r + decrem r <= 125
        else decrem r = 0
    end
}.

Definition frame_event (r : receiver) : event :=
  EvFrame (Hdr.Final (header r)) (Hdr.Opcode (header r)) (Hdr.RSV1 (header r))
    (Hdr.PayloadLen (header r)).

(** What a call that returned [k, e] and left [r'] must have meant, when the
    specification's run over the pending input is [X]. *)
Definition next_post (X : spec * list event) (r r' : receiver) (k : frameKind) (e : option error)
    : Prop :=
  rx_ok r' /\ role r' = role r /\ compression r' = compression r /\
  let run := run (role r) (compression r) in
  let after := after (role r) (compression r) in
  match k, e with
  | needInput, Some e => X = (abs r', [EvFail e]) /\ failed r' = Some e
  | needInput, None => X = run (abs r') (pend r') /\ (run (abs r') (pend r')).2 = []
                       /\ failed r' = failed r
  | dataFrame, None => X = after (abs r', [frame_event r']) (pend r')
                       /\ failed r' = None /\ closeReceived r' = false
  | controlFrame, None =>
      X = after (abs r', [EvControl (controlOpcode r') (ControlPayload r')]) (pend r')
      /\ failed r' = None
  | _, Some _ => False
  end.

Lemma slice_splice (l bs : list Z) i :
  0 <= i <= len l -> slice (splice l i bs) i (i + len bs) = bs.
Proof.
  intros. unfold splice. rewrite slice_app_r by len_lia. apply slice_prefix; len_lia.
Qed.

(** The header decoded into [r.header] and the specification's header agree. *)
Section header.
Context (p : list Z) (h0 : Header).
Context (Hp : bytes_ok p) (Hn : need p <= len p) (H0 : header_ok h0).

Definition spec_header : Header :=
  {| raw := upto p (need p); hlen := len (upto p (need p)) |}.

Lemma len_head : len (upto p (need p)) = need p.
Proof. pose proof (need_range p). len_lia. Qed.

Lemma head_idx i : 0 <= i < 2 -> idx (raw (header_of p h0)) i = idx (raw spec_header) i.
Proof.
  intros. unfold header_of, spec_header. cbn [raw]. apply idx_splice_0.
  rewrite len_head. pose proof (need_range p). lia.
Qed.

Lemma head_flags :
  Hdr.Final (header_of p h0) = Hdr.Final spec_header /\
  Hdr.RSV1 (header_of p h0) = Hdr.RSV1 spec_header /\
  Hdr.RSV2 (header_of p h0) = Hdr.RSV2 spec_header /\
  Hdr.RSV3 (header_of p h0) = Hdr.RSV3 spec_header /\
  Hdr.Opcode (header_of p h0) = Hdr.Opcode spec_header /\
  Hdr.Masked (header_of p h0) = Hdr.Masked spec_header.
Proof.
  unfold Hdr.Final, Hdr.RSV1, Hdr.RSV2, Hdr.RSV3, Hdr.Opcode, Hdr.Masked.
  rewrite !head_idx by lia. done.
Qed.

Lemma head_mask_key : Hdr.MaskKey (header_of p h0) = Hdr.MaskKey spec_header.
Proof.
  unfold Hdr.MaskKey. destruct head_flags as (_ & _ & _ & _ & _ & ->).
  destruct (negb _); [done |]. f_equal. unfold header_of, spec_header. cbn [raw hlen].
  rewrite len_head. pose proof (need_range p). apply slice_splice_0; [| rewrite len_head; lia].
  unfold u8. apply Z.mod_pos_bound. lia.
Qed.

Lemma head_plen : Hdr.PayloadLen (header_of p h0) = wire_plen p.
Proof.
  unfold header_of. rewrite <- (PayloadLen_plen p (raw h0) (need p)) by done.
  pose proof (need_range p). unfold u8. by rewrite Z.mod_small by lia.
Qed.

Lemma spec_plen : wire_plen (upto p (need p)) = wire_plen p.
Proof.
  pose proof (need_range p). rewrite <- (upto_from p (need p)) at 3.
  rewrite wire_plen_app; [done | rewrite len_head; lia |].
  rewrite len_head. rewrite <- (need_app _ (from p (need p))) by (rewrite len_head; lia).
  by rewrite upto_from.
Qed.

Lemma spec_bad : bad_length (upto p (need p)) = bad_length p.
Proof.
  unfold bad_length. rewrite spec_plen. pose proof (need_range p).
  by rewrite idx_upto by lia.
Qed.

Lemma head_key_some k :
  Hdr.MaskKey spec_header = Some k -> bytes_ok k /\ len k = 4.
Proof.
  unfold Hdr.MaskKey. destruct (Hdr.Masked spec_header) eqn:Em; [| done].
  cbn [negb]. intros [= <-]. split; [apply bytes_ok_slice, bytes_ok_upto, Hp |].
  unfold spec_header in *. cbn [raw hlen] in *. rewrite len_head in *.
  unfold Hdr.Masked in Em. cbn [raw] in Em.
  pose proof (need_range p). rewrite idx_upto in Em by lia.
  assert (6 <= need p).
  { unfold need. apply negb_true_iff in Em. rewrite Em. repeat case_match; lia. }
  unfold u8. rewrite Z.mod_small by lia. rewrite len_slice, len_head. lia.
Qed.

Lemma head_key_none : Hdr.Masked spec_header = false -> Hdr.MaskKey spec_header = None.
Proof. unfold Hdr.MaskKey. by intros ->. Qed.
End header.

Lemma byte_op_range b : is_byte b -> 0 <= Z.land b 0x0f < 16.
Proof. intros H. by_bytes b. Qed.

(** ** Ending a control frame *)

Lemma rx_ok_fail r code err : rx_ok r -> rx_ok (fail r code err).1.
Proof.
  intros [Hd Hh Hk Ho Hc Hm Hp]. unfold fail. constructor; cbn; try done.
  - split; [constructor | cbn; lia].
  - auto.
Qed.

Lemma fail_post X r code err :
  rx_ok r -> X = spec_fail (abs r) (WsError code err) ->
  let '(r', e) := fail r code err in next_post X r r' needInput (Some e).
Proof.
  intros Hr ->. pose proof (rx_ok_fail r code err Hr) as Hf. unfold fail in *. cbn in Hf.
  split; [done | split; [done | split; [done |]]]. done.
Qed.

(** [abs] with the mode left open: what [end_control] starts from. *)
Lemma end_control_mode s m op buf :
  end_control {| s with s_mode := m |} op buf = end_control s op buf.
Proof.
  unfold end_control, spec_fail. destruct (_ =? _); [| done]. by destruct (validateClose buf).
Qed.

Lemma finishControl_post r s :
  rx_ok r -> failed r = None -> closeReceived r = false -> remaining r = 0 ->
  controlOpen r = false -> decrem r = 0 ->
  s_msg s = messageOpcode r -> s_comp s = compressed r ->
  let '(r', (k, e)) := finishControl r in
  next_post (after (role r) (compression r)
               (end_control s (controlOpcode r) (ControlPayload r)) (pend r)) r r' k e.
Proof.
  intros Hr Hf Hc Hrem Hco Hd Hm Hcm. unfold finishControl, end_control.
  change (upto (control r) (controlLen r)) with (ControlPayload r).
  destruct (controlOpcode r =? Opcode.Close) eqn:Eop.
  - destruct (validateClose (ControlPayload r)) as [err |] eqn:Ev.
    + pose proof (fail_post (spec_fail (abs r)
        (WsError (if decide (err = Ws ErrInvalidUTF8) then 1007 else 1002) err)) r
        (if decide (err = Ws ErrInvalidUTF8) then 1007 else 1002) err Hr eq_refl) as Hp.
      destruct (fail _ _ _) as [r' e]. unfold next_post in *. unfold after, spec_fail in *.
      rewrite run_dead by done. rewrite app_nil_r. cbn [s_msg] in *.
      destruct Hp as (? & ? & ? & Hx & ?). split_and!; try done.
      rewrite <- Hx. unfold abs. cbn. by rewrite Hcm.
    + destruct Hr as [Hd' Hh Hk Ho Hct Hms Hph].
      split; [| split; [done | split; [done |]]].
      * constructor; cbn; try done; [split; [constructor | cbn; lia] |]. rewrite Hf. auto.
      * cbn. split; [| done]. unfold after. rewrite run_dead by done.
        unfold abs, abs_mode. cbn. rewrite Hf. rewrite Hm, Hcm. done.
  - split; [done | split; [done | split; [done |]]]. split; [| done].
    unfold abs, abs_mode. rewrite Hf, Hc, Hrem, Hco. cbn. by rewrite Hm, Hcm.
Qed.

(** ** Gathering control payload *)

(** The decoder once [m] payload bytes have been handed out. *)
Definition took (d : Decoder) (m : Z) : Decoder :=
  mkDecoder (from (Decoder.pending d) m) (dscratch d) (Decoder.remaining d - m).

Section gather.
Context {M : Masker} `{!MaskerOk M}.

Lemma PayloadN_cases d n :
  decoder_ok d -> 0 <= n ->
  Dec.PayloadN d n =
    if Decoder.remaining d =? 0 then (d, ([], true))
    else
      let m := Z.min (Z.min n (len (Decoder.pending d))) (Decoder.remaining d) in
      (took d m,
       (upto (Decoder.pending d) m, Decoder.remaining d - m =? 0)).
Proof.
  intros [Hb Hr] Hn. unfold Dec.PayloadN.
  destruct (Z.eqb_spec (Decoder.remaining d) 0) as [| Hne]; [done |].
  pose proof (len_nonneg (Decoder.pending d)).
  destruct ((n <=? 0) || (len (Decoder.pending d) =? 0)) eqn:E.
  - assert (Z.min (Z.min n (len (Decoder.pending d))) (Decoder.remaining d) = 0) as ->.
    { destruct (Z.leb_spec n 0), (Z.eqb_spec (len (Decoder.pending d)) 0); cbn in E; try done; lia. }
    cbv zeta. unfold took. rewrite Z.sub_0_r, upto_0, from_0 by lia.
    destruct (Z.eqb_spec (Decoder.remaining d) 0); [done |]. by destruct d.
  - cbv zeta. cbn [Decoder.remaining]. unfold u64. by rewrite Z.mod_small by lia.
Qed.

(** The state after gathering [c], before the frame is finished. *)
Definition gathered (r : receiver) (d : Decoder) (c : list Z) : receiver :=
  {| r with dec := d;
     control := splice (control r) (controlLen r) (unmask (rx_key r) (maskOffset r) c);
     controlLen := controlLen r + len c;
     maskOffset := advance (rx_key r) (maskOffset r) (len c) |}.

Lemma gather_eq r :
  rx_ok r -> failed r = None -> closeReceived r = false -> remaining r = 0 ->
  controlOpen r = true ->
  let m := Z.min (len (pend r)) (decrem r) in
  let c := upto (pend r) m in
  let r1 := gathered r (took (dec r) m) c in
  gather r = if negb (decrem r - m =? 0) then (r1, (needInput, None))
             else finishControl {| r1 with controlOpen := false |}.
Proof.
  intros [Hd Hh [Hk1 Hk2] Ho (Hc1 & Hc2 & Hc3) Hm Hp] Hf Hcl Hrem Hco m c r1.
  rewrite Hf, Hcl, Hrem, Hco in Hp. cbn in Hp.
  pose proof Hd as [Hb Hr]. pose proof (len_nonneg (pend r)).
  assert (len c = m) as Hlc by (subst c m; len_lia).
  assert (bytes_ok c) as Hbc by (subst c; eauto with ews).
  unfold gather, Dec.Payload. rewrite PayloadN_cases by done.
  destruct (Z.eqb_spec (decrem r) 0); [lia |]. cbv zeta.
  replace (Z.min (Z.min (len (pend r)) (len (pend r))) (decrem r)) with m by (subst m; lia).
  fold c. rewrite (upto_all c) by lia. rewrite Hlc.
  assert (u8 (controlLen r + u8 m) = controlLen r + m) as E8.
  { unfold u8. rewrite (Z.mod_small m) by lia. apply Z.mod_small. lia. }
  rewrite E8. cbn [masked controlLen control maskKey maskOffset].
  replace (controlLen r + m - m) with (controlLen r) by lia.
  subst r1. unfold gathered, rx_key. destruct (masked r); cbn [unmask advance].
  - assert (slice (splice (control r) (controlLen r) c) (controlLen r) (controlLen r + m) = c) as ->.
    { rewrite <- Hlc. apply slice_splice. lia. }
    rewrite Mask_eq by (done || lia). rewrite splice_splice by (rewrite ?len_mask_ref; lia).
    by rewrite Hlc.
  - by rewrite Hlc.
Qed.

Lemma gathered_ok r :
  rx_ok r -> failed r = None -> closeReceived r = false -> remaining r = 0 ->
  controlOpen r = true ->
  let m := Z.min (len (pend r)) (decrem r) in
  let c := upto (pend r) m in
  let r1 := gathered r (took (dec r) m) c in
  len c = m /\ ControlPayload r1 = ControlPayload r ++ unmask (rx_key r) (maskOffset r) c /\
  (decrem r - m <> 0 -> rx_ok r1) /\
  (decrem r - m = 0 -> rx_ok {| r1 with controlOpen := false |}).
Proof.
  intros [Hd Hh [Hk1 Hk2] Ho (Hc1 & Hc2 & Hc3) Hm Hp] Hf Hcl Hrem Hco m c r1.
  rewrite Hf, Hcl, Hrem, Hco in Hp. cbn in Hp.
  pose proof Hd as [Hb Hr]. pose proof (len_nonneg (pend r)).
  assert (len c = m) as Hlc by (subst c m; len_lia).
  assert (bytes_ok c) as Hbc by (subst c; eauto with ews).
  assert (len (unmask (rx_key r) (maskOffset r) c) = m) as Hlu.
  { unfold rx_key. destruct (masked r); cbn; [by rewrite len_mask_ref | done]. }
  assert (bytes_ok (unmask (rx_key r) (maskOffset r) c)) as Hbu.
  { unfold rx_key. destruct (masked r); cbn; [by apply mask_ref_bytes | done]. }
  assert (0 <= advance (rx_key r) (maskOffset r) (len c) < 4) as Hoff.
  { unfold rx_key. destruct (masked r); cbn; [apply Z.mod_pos_bound; lia | done]. }
  split; [done |]. split.
  { unfold ControlPayload, r1, gathered. cbn [control controlLen].
    rewrite <- (upto_splice (control r)) by lia. by rewrite Hlu, Hlc. }
  assert (decoder_ok (took (dec r) m)) as Hd1.
  { split; cbn; [eauto with ews | lia]. }
  assert (bytes_ok (splice (control r) (controlLen r) (unmask (rx_key r) (maskOffset r) c)) /\
    len (splice (control r) (controlLen r) (unmask (rx_key r) (maskOffset r) c)) = 125 /\
    0 <= controlLen r + len c <= 125) as Hct.
  { split; [eauto with ews |]. split; [rewrite len_splice; lia | lia]. }
  split; intros Hz; constructor; cbn; try done; rewrite Hf, Hcl, Hrem; cbn; try rewrite Hco; lia.
Qed.

Lemma gather_post r :
  rx_ok r -> failed r = None -> closeReceived r = false -> remaining r = 0 ->
  controlOpen r = true ->
  let '(r', (k, e)) := gather r in
  next_post (run (role r) (compression r) (abs r) (pend r)) r r' k e.
Proof.
  intros Hr Hf Hcl Hrem Hco. rewrite gather_eq by done.
  pose proof (gathered_ok r Hr Hf Hcl Hrem Hco) as (Hlc & Hpay & Hok1 & Hok2).
  set (m := Z.min _ _) in *. set (c := upto _ m) in *. set (r1 := gathered _ _ _) in *.
  assert (0 < decrem r) as Hpos.
  { pose proof (ok_phase r Hr) as Hp. rewrite Hf, Hcl, Hrem, Hco in Hp. cbn in Hp. lia. }
  pose proof (len_nonneg (pend r)).
  assert (abs_mode r = MCtl (controlOpcode r) (decrem r) (ControlPayload r) (rx_key r) (maskOffset r)) as Em.
  { unfold abs_mode. by rewrite Hf, Hcl, Hrem, Hco. }
  assert (run (role r) (compression r) (abs r) (pend r) =
          after (role r) (compression r) (run (role r) (compression r) (abs r) c)
            (from (pend r) m)) as -> by (rewrite <- run_app; unfold c; by rewrite upto_from).
  destruct (decide (m = 0)) as [E0 | N0].
  { (* nothing buffered *)
    assert (pend r = []) as Hnil by (apply len_0_nil; lia).
    assert (c = []) as Hcn by (apply len_0_nil; lia). 
    destruct (Z.eqb_spec (decrem r - m) 0); [lia |]. cbn [negb].
    assert (abs r1 = abs r) as Ea.
    { unfold abs, abs_mode, r1, gathered. rewrite Hcn, E0. cbn.
      rewrite Hf, Hcl, Hrem, Hco. cbn. rewrite Z.sub_0_r.
      unfold ControlPayload, rx_key. cbn. 
      destruct (masked r); cbn; rewrite ?splice_nil, ?Z.add_0_r; [| done].
      rewrite Z.mod_small by apply Hr. done. }
    split; [by apply Hok1 | split; [done | split; [done |]]].
    cbn. rewrite Ea. rewrite Hnil. unfold m. rewrite Hnil. cbn.
    rewrite from_all by len_lia. rewrite Hcn. cbn. done. }
  rewrite (run_ctl _ _ (abs r) _ _ _ _ _ c Em) by lia. rewrite Hlc, <- Hpay.
  destruct (Z.eqb_spec m (decrem r)) as [E1 | N1].
  - destruct (Z.eqb_spec (decrem r - m) 0); [cbn [negb] | lia].
    set (r2 := {| r1 with controlOpen := false |}).
    pose proof (finishControl_post r2 (abs r)) as Hfin.
    change (ControlPayload r2) with (ControlPayload r1) in Hfin.
    destruct (finishControl r2) as [r' [k e1]]. apply Hfin; try done.
    by apply Hok2.
  - destruct (Z.eqb_spec (decrem r - m) 0); [lia | cbn [negb]].
    assert (from (pend r) m = []) as Hfr by (apply from_all; lia).
    split; [by apply Hok1 | split; [done | split; [done |]]]. cbn [run].
    assert (abs r1 = (let a := abs r in {| a with s_mode := MCtl (controlOpcode r) (decrem r - m)
      (ControlPayload r1) (rx_key r) (advance (rx_key r) (maskOffset r) m) |})) as ->.
    { unfold abs, abs_mode. change (failed r1) with (failed r). change (closeReceived r1) with (closeReceived r).
      change (remaining r1) with (remaining r). change (controlOpen r1) with (controlOpen r).
      rewrite Hf, Hcl, Hrem, Hco. cbn. by rewrite Hlc. }
    change (pend r1) with (from (pend r) m). rewrite Hfr. done.
Qed.
End gather.

(** ** The header branch of [turn] *)

Definition opened (r : receiver) (h : Header) : receiver :=
  if starts (Hdr.Opcode h) then {| r with messageOpcode := Hdr.Opcode h; compressed := Hdr.RSV1 h |}
  else r.

Definition legal_header (r : receiver) (h : Header) (n : Z) : bool :=
  legal (role r) (compression r) (abs r) (Hdr.Final h) (Hdr.RSV1 h) (Hdr.RSV2 h) (Hdr.RSV3 h)
    (Hdr.Masked h) (Hdr.Opcode h) n.

Lemma accept_legal r h n :
  accept r h n = if legal_header r h n then (opened r h, None) else (r, Some (Ws ErrProtocol)).
Proof.
  unfold accept, legal_header, legal, opened, starts. cbn [s_msg abs].
  destruct (Bool.eqb _ _), (Hdr.RSV2 h), (Hdr.RSV3 h); cbn; try done.
  destruct (Hdr.Opcode h =? Opcode.Text), (Hdr.Opcode h =? Opcode.Binary); cbn.
  1-3: by destruct (messageOpcode r =? 0), (Hdr.RSV1 h), (compression r).
  destruct (Hdr.Opcode h =? Opcode.Continuation).
  { by destruct (messageOpcode r =? 0), (Hdr.RSV1 h). }
  destruct (_ || _ || _); [| done]. rewrite Z.ltb_antisym.
  by destruct (Hdr.Final h), (Hdr.RSV1 h), (n <=? 125).
Qed.

(** What a legal header's opcode can be. *)
Lemma legal_op role compression s fin r1 r2 r3 m op n :
  legal role compression s fin r1 r2 r3 m op n = true ->
  (starts op = true /\ (op = Opcode.Text \/ op = Opcode.Binary) /\ (Opcode.Close <=? op) = false)
  \/ (starts op = false /\ op = Opcode.Continuation /\ s_msg s <> 0 /\ (Opcode.Close <=? op) = false)
  \/ (starts op = false /\ (Opcode.Close <=? op) = true /\ n <= 125).
Proof.
  unfold legal, starts. intros [_ H]%andb_prop.
  destruct (Z.eqb_spec op Opcode.Text) as [-> |]; [left; auto |].
  destruct (Z.eqb_spec op Opcode.Binary) as [-> |]; [left; auto |]. right. cbn [orb] in *.
  destruct (Z.eqb_spec op Opcode.Continuation) as [-> |].
  { left. apply andb_prop in H as [H _]. apply negb_true_iff, Z.eqb_neq in H. auto. }
  right. destruct (_ || _ || _) eqn:E in H; [| done]. apply andb_prop in H as [_ H%Z.leb_le].
  split; [done |]. split; [| done].
  rewrite !orb_true_iff, !Z.eqb_eq in E. by destruct E as [[-> | ->] | ->].
Qed.

Lemma on_header_at role compression s p h0 :
  bytes_ok p -> need p <= len p -> header_ok h0 ->
  let h := header_of p h0 in
  on_header role compression s (upto p (need p)) =
  if bad_length p then spec_fail s (WsError 1002 (Codec ErrInvalidPayloadLength))
  else
    let op := Hdr.Opcode h in
    let n := wire_plen p in
    if negb (legal role compression s (Hdr.Final h) (Hdr.RSV1 h) (Hdr.RSV2 h) (Hdr.RSV3 h)
               (Hdr.Masked h) op n)
    then spec_fail s (WsError 1002 (Ws ErrProtocol))
    else if Opcode.Close <=? op then
      if n =? 0 then end_control s op []
      else ({| s with s_mode := MCtl op n [] (Hdr.MaskKey h) 0 |}, [])
    else
      let s := if starts op then {| s with s_msg := op; s_comp := Hdr.RSV1 h |} else s in
      let ev := [EvFrame (Hdr.Final h) op (Hdr.RSV1 h) n] in
      if n =? 0 then (end_data s (Hdr.Final h), ev)
      else ({| s with s_mode := MData (Hdr.Final h) n (Hdr.MaskKey h) 0 |}, ev).
Proof.
  intros Hp Hn H0 h. unfold on_header. rewrite spec_bad, spec_plen by done.
  fold (spec_header p). pose proof (head_flags p h0 Hn) as (E1 & E2 & E3 & E4 & E5 & E6).
  fold h in E1, E2, E3, E4, E5, E6. rewrite <- E1, <- E2, <- E3, <- E4, <- E5, <- E6.
  subst h. by rewrite (head_mask_key p h0 Hn).
Qed.

Definition keyed (r : receiver) (h : Header) : receiver :=
  {| r with masked := Hdr.Masked h; maskOffset := 0;
            maskKey := match Hdr.MaskKey h with Some k => k | None => maskKey r end |}.

Definition headed (r : receiver) : receiver :=
  {| r with dec := mkDecoder (from (pend r) (need (pend r))) (dscratch (dec r)) (wire_plen (pend r));
            header := header_of (pend r) (header r) |}.

(** The state in which an accepted header has been recorded. *)
Definition started (r : receiver) : receiver :=
  let h := header_of (pend r) (header r) in keyed (opened (headed r) h) h.

Definition idle (r : receiver) : Prop :=
  failed r = None /\ closeReceived r = false /\ remaining r = 0 /\ controlOpen r = false.

Lemma idle_abs r : idle r -> abs_mode r = MHead [].
Proof. intros (Hf & Hc & Hr & Ho). unfold abs_mode. by rewrite Hf, Hc, Hr, Ho. Qed.

Lemma idle_decrem r : rx_ok r -> idle r -> decrem r = 0.
Proof.
  intros Hok (Hf & Hc & Hr & Ho). pose proof (ok_phase r Hok) as Hp.
  by rewrite Hf, Hc, Hr, Ho in Hp.
Qed.

Lemma started_fields r :
  let h := header_of (pend r) (header r) in
  dec (started r) = dec (headed r) /\ header (started r) = h /\
  failed (started r) = failed r /\ closeReceived (started r) = closeReceived r /\
  remaining (started r) = remaining r /\ controlOpen (started r) = controlOpen r /\
  rx_key (started r) = Hdr.MaskKey h /\ maskOffset (started r) = 0 /\
  role (started r) = role r /\ compression (started r) = compression r /\
  messageOpcode (started r) = (if starts (Hdr.Opcode h) then Hdr.Opcode h else messageOpcode r) /\
  compressed (started r) = (if starts (Hdr.Opcode h) then Hdr.RSV1 h else compressed r) /\
  control (started r) = control r /\ controlLen (started r) = controlLen r.
Proof.
  unfold started, keyed, opened, headed, rx_key, Hdr.MaskKey. cbn.
  destruct (starts _); cbn; split_and!; try done; destruct (Hdr.Masked _); done.
Qed.

Section turn.
Context {M : Masker} `{!MaskerOk M}.

Lemma turn_eq r :
  rx_ok r -> idle r ->
  let h := header_of (pend r) (header r) in
  let n := wire_plen (pend r) in
  turn r =
  if negb (header_complete (pend r)) then inr (r, (needInput, None))
  else if bad_length (pend r) then
    let '(r', e) := fail {| r with header := Header_zero |} 1002 (Codec ErrInvalidPayloadLength) in
    inr (r', (needInput, Some e))
  else if negb (legal_header (headed r) h n) then
    let '(r', e) := fail (headed r) 1002 (Ws ErrProtocol) in inr (r', (needInput, Some e))
  else
    let s := started r in
    if Opcode.Close <=? Hdr.Opcode h then
      let s := {| s with controlOpcode := Hdr.Opcode h; controlLen := 0 |} in
      if n =? 0 then inr (finishControl s) else inl {| s with controlOpen := true |}
    else
      let s := {| s with remaining := n |} in
      inr (if remaining s =? 0 then finishFrame s else s, (dataFrame, None)).
Proof.
  intros Hok Hi h n. pose proof (idle_decrem r Hok Hi) as Hd. destruct Hi as (Hf & Hc & Hr & Ho).
  unfold turn. rewrite Ho at 1. rewrite NextHeaderInto_cases by apply Hok. rewrite Hd. cbn [negb Z.eqb].
  destruct (header_complete (pend r)) eqn:Ec; cbn [negb]; [| by destruct r].
  destruct (bad_length (pend r)) eqn:Eb; [by destruct r |].
  assert (need (pend r) <= len (pend r)) as Hn
    by (apply andb_prop in Ec as [_ Ec%Z.leb_le]; done).
  rewrite head_plen by done. cbv zeta. fold h n.
  rewrite accept_legal. fold h. fold (headed r).
  change (legal_header _ h _) with (legal_header (headed r) h n).
  destruct (legal_header (headed r) h n); done.
Qed.

Section started.
Context (r : receiver) (Hok : rx_ok r) (Hi : idle r).
Context (Hc : header_complete (pend r) = true) (Hb : bad_length (pend r) = false).
#[local] Abbreviation h := (header_of (pend r) (header r)).
#[local] Abbreviation n := (wire_plen (pend r)).
Context (Hl : legal_header (headed r) h n = true).

Lemma started_need : need (pend r) <= len (pend r).
Proof. by apply andb_prop in Hc as [_ ?%Z.leb_le]. Qed.

Lemma started_key : bytes_ok (maskKey (started r)) /\ len (maskKey (started r)) = 4.
Proof.
  pose proof (ok_key r Hok) as Hk. pose proof (head_mask_key (pend r) (header r) started_need) as E.
  assert (maskKey (started r) = default (maskKey r) (Hdr.MaskKey h)) as ->.
  { unfold started, keyed, opened, headed. cbn. by destruct (starts (Hdr.Opcode h)). }
  destruct (Hdr.MaskKey h) as [k |] eqn:Ek; [| done]. cbn.
  apply (head_key_some (pend r) (proj1 (ok_dec r Hok)) started_need); by symmetry.
Qed.

Lemma started_n : 0 <= n < 2 ^ 63.
Proof. apply bad_length_plen; [apply Hok | done]. Qed.

Lemma started_dec : decoder_ok (dec (started r)).
Proof.
  destruct (started_fields r) as (-> & _). unfold headed. split; cbn; [| apply started_n].
  apply bytes_ok_from, Hok.
Qed.

Lemma started_msg : messageOpcode (started r) = 0 \/ messageOpcode (started r) = Opcode.Text
                    \/ messageOpcode (started r) = Opcode.Binary.
Proof.
  destruct (started_fields r) as (_ & _ & _ & _ & _ & _ & _ & _ & _ & _ & -> & _).
  pose proof (ok_msg r Hok) as Hm. destruct (legal_op _ _ _ _ _ _ _ _ _ _ Hl)
    as [(-> & H & _) | [(-> & _) | (-> & _)]]; tauto.
Qed.

(** A control frame: complete at once when it has no payload. *)
Lemma turn_control_post :
  (Opcode.Close <=? Hdr.Opcode h) = true ->
  let s := started r in
  let s := {| s with controlOpcode := Hdr.Opcode h; controlLen := 0 |} in
  let X := after (role r) (compression r)
    (if n =? 0 then end_control (abs r) (Hdr.Opcode h) []
     else (let a := abs r in {| a with s_mode := MCtl (Hdr.Opcode h) n [] (Hdr.MaskKey h) 0 |}, []))
    (from (pend r) (need (pend r))) in
  if n =? 0 then let '(r', (k, e)) := finishControl s in next_post X r r' k e
  else
    let s := {| s with controlOpen := true |} in
    rx_ok s /\ X = run (role r) (compression r) (abs s) (pend s).
Proof.
  intros Hop s0 s X. pose proof started_key as [Hk1 Hk2]. pose proof started_n as Hn.
  destruct (started_fields r) as (E1 & E2 & E3 & E4 & E5 & E6 & E7 & E8 & E9 & E10 & E11 & E12 & E13 & E14).
  destruct Hi as (Hf & Hcl & Hrm & Ho). fold s0 in E1, E2, E3, E4, E5, E6, E7, E8, E9, E10, E11, E12, E13, E14, Hk1, Hk2.
  pose proof started_dec as Hd. pose proof started_msg as Hms. fold s0 in Hd, Hms. clearbody s0.
  assert (starts (Hdr.Opcode h) = false /\ n <= 125) as [Hst H125].
  { destruct (legal_op _ _ _ _ _ _ _ _ _ _ Hl) as [(? & ? & ?) | [(? & ? & ? & ?) | (? & ? & ?)]];
      [congruence | congruence | done]. }
  rewrite Hst in E11, E12.
  assert (header_ok (header s0)) as Hh.
  { rewrite E2. apply header_of_ok; [apply Hok | apply Hok | apply started_need]. }
  pose proof (ok_ctl r Hok) as (Hc1 & Hc2 & Hc3).
  destruct (Z.eqb_spec n 0) as [E0 | N0].
  - assert (rx_ok s) as Hs.
    { constructor; cbn; rewrite ?E8, ?E13; try done.
      rewrite E3, Hf, E4, Hcl, E5, Hrm, E6, Ho. cbn. by rewrite E1. }
    pose proof (finishControl_post s (abs r) Hs) as Hfin. cbn -[finishControl next_post end_control] in Hfin.
    rewrite E3, E4, E5, E6, E1, E11, E12, E9, E10 in Hfin.
    specialize (Hfin Hf Hcl Hrm Ho E0 eq_refl eq_refl).
    assert (ControlPayload s = []) as Ec by (unfold ControlPayload; by rewrite upto_0 by done).
    rewrite Ec in Hfin. destruct (finishControl s) as [r' [k e]].
    unfold next_post in *. cbn -[abs run after end_control frame_event] in Hfin.
    rewrite E3, E9, E10, Hf in Hfin. rewrite Hf. exact Hfin.
  - split.
    + constructor; cbn; rewrite ?E8, ?E13; try done.
      rewrite E3, Hf, E4, Hcl, E5, Hrm. cbn. rewrite E1. cbn. lia.
    + subst X. rewrite after_nil. f_equal; [| cbn; by rewrite E1].
      unfold abs, abs_mode, rx_key, ControlPayload in *. cbn. rewrite E3, Hf, E4, Hcl, E5, Hrm. cbn.
      rewrite E1, E7, E8, E11, E12. cbn. by rewrite upto_0 by done.
Qed.

(** A data frame: its header is the event; an empty one ends at once. *)
Lemma turn_data_post :
  (Opcode.Close <=? Hdr.Opcode h) = false ->
  let s := started r in
  let s := {| s with remaining := n |} in
  let X := after (role r) (compression r)
    (let a := abs r in
     let a := if starts (Hdr.Opcode h)
              then {| a with s_msg := Hdr.Opcode h; s_comp := Hdr.RSV1 h |} else a in
     let ev := [EvFrame (Hdr.Final h) (Hdr.Opcode h) (Hdr.RSV1 h) n] in
     if n =? 0 then (end_data a (Hdr.Final h), ev)
     else ({| a with s_mode := MData (Hdr.Final h) n (Hdr.MaskKey h) 0 |}, ev))
    (from (pend r) (need (pend r))) in
  next_post X r (if remaining s =? 0 then finishFrame s else s) dataFrame None.
Proof.
  intros Hop s0 s X. pose proof started_key as [Hk1 Hk2]. pose proof started_n as Hn.
  destruct (started_fields r) as (E1 & E2 & E3 & E4 & E5 & E6 & E7 & E8 & E9 & E10 & E11 & E12 & E13 & E14).
  destruct Hi as (Hf & Hcl & Hrm & Ho). fold s0 in E1, E2, E3, E4, E5, E6, E7, E8, E9, E10, E11, E12, E13, E14, Hk1, Hk2.
  pose proof started_dec as Hd. pose proof started_msg as Hms. fold s0 in Hd, Hms.
  assert (messageOpcode s0 <> 0) as Hnz.
  { rewrite E11. destruct (legal_op _ _ _ _ _ _ _ _ _ _ Hl) as [(-> & [-> | ->] & _) | [(-> & _ & H & _) | (_ & H & _)]];
      [done | done | exact H | congruence]. }
  clearbody s0. change (remaining s) with n. pose proof head_plen as Hpl.
  assert (header_ok (header s0)) as Hh.
  { rewrite E2. apply header_of_ok; [apply Hok | apply Hok | apply started_need]. }
  pose proof (ok_ctl r Hok) as Hct. rewrite <- E13 in Hct.
  rewrite <- E14 in Hct. assert (0 <= maskOffset s0 < 4) as Hoff by lia.
  subst X. cbv zeta. destruct (Z.eqb_spec n 0) as [E0 | N0].
  - assert (rx_ok (finishFrame s)) as Hs.
    { unfold finishFrame. destruct (Hdr.Final (header s)); constructor; cbn; try done; try tauto;
        rewrite E3, Hf, E4, Hcl, E6, Ho, E1; cbn; rewrite E0; done. }
    split; [done |]. unfold finishFrame in *. change (header s) with (header s0) in *. rewrite E2 in *.
    split; [by destruct (Hdr.Final h) |]. split; [by destruct (Hdr.Final h) |].
    split; [| split; destruct (Hdr.Final h); cbn; congruence].
    replace (pend (if Hdr.Final h then _ else _)) with (pend s0) by (by destruct (Hdr.Final h)).
    rewrite E1. f_equal. unfold end_data, frame_event, abs, abs_mode, rx_key in *.
    replace (header (if Hdr.Final h then _ else _)) with h by (by destruct (Hdr.Final h)).
    rewrite head_plen by apply started_need.
    destruct (Hdr.Final h) eqn:Ef; cbn; rewrite E3, Hf, E4, Hcl, E6, Ho, E12, ?E11, E0;
      cbn; by destruct (starts (Hdr.Opcode h)).
  - assert (rx_ok s) as Hs.
    { constructor; cbn; try done. rewrite E3, Hf, E4, Hcl, E6, Ho, E1. cbn. 
      destruct (Z.eqb_spec n 0); done. }
    split; [done | split; [done | split; [done |]]]. split; [| split; cbn; congruence].
    change (pend s) with (pend s0). rewrite E1. cbn [headed dec Decoder.pending].
    f_equal. unfold abs, abs_mode, rx_key, frame_event in *. cbn.
    rewrite E3, Hf, E4, Hcl, E7, E8, E11, E12, E2, head_plen by apply started_need. cbn.
    destruct (Z.eqb_spec n 0); [done |]. cbn. by destruct (starts (Hdr.Opcode h)).
Qed.
End started.
End turn.
