(* ===== verification/Pump.v ===== *)
(** * Reading a whole stream through the receiver

    [Next] and [Payload] each refine the specification; the driver
    [receive_all] is the loop every caller of the receiver runs, and its
    events are those of the specification whatever the chunks are. *)

From stdpp Require Import prelude.
From S2P Require Import Prelude Words Mask Errors Header Encoder Decoder Close Receiver Stream Refine.

Import Rx.

#[local] Abbreviation pend r := (Decoder.pending (dec r)).

Section next.
Context {M : Masker} `{!MaskerOk M}.

(** Failing on a header just read. *)
Lemma fail_header_post r d h code err l :
  rx_ok r -> header_ok h ->
  let X := after (role r) (compression r) (spec_fail (abs r) (WsError code err)) l in
  let '(r', e) := fail {| r with dec := d; header := h |} code err in
  next_post X r r' needInput (Some e).
Proof.
  intros [Hd Hh Hk Ho Hc Hm Hp] Hh' X. subst X. unfold fail. split; [| split; [done | split; [done |]]].
  - constructor; cbn; auto. split; [constructor | cbn; lia].
  - unfold after, spec_fail. by rewrite run_dead by done.
Qed.

Definition turn_goal (r : receiver) (t : receiver + receiver * (frameKind * option error)) : Prop :=
  let X := run (role r) (compression r) (abs r) (pend r) in
  match t with
  | inr (r', (k, e)) => next_post X r r' k e
  | inl r' => rx_ok r' /\ role r' = role r /\ compression r' = compression r /\
              failed r' = None /\ closeReceived r' = false /\ remaining r' = 0 /\
              controlOpen r' = true /\ X = run (role r) (compression r) (abs r') (pend r')
  end.

Lemma turn_post r : rx_ok r -> idle r -> turn_goal r (turn r).
Proof.
  intros Hok Hi. rewrite turn_eq by done. unfold turn_goal.
  pose proof (idle_abs r Hi) as Ha. destruct (header_complete (pend r)) eqn:Ec; cbn [negb].
  2: { rewrite (run_head_incomplete _ _ (abs r) [] (pend r)) by done.
    repeat (split; [done |]). split; [| split; [| done]];
      by rewrite (run_head_incomplete _ _ (abs r) [] (pend r)) by done. }
  pose proof (started_need r Ec) as Hn. pose proof (ok_dec r Hok) as [Hb _].
  rewrite (run_head_complete _ _ (abs r) (pend r)), (on_header_at _ _ _ _ (header r)) by (done || apply Hok).
  destruct (bad_length (pend r)) eqn:Eb.
  { apply (fail_header_post r (dec r)); [done |]. split; [done |]. split; [| done].
    apply bytes_ok_zeros. }
  cbv zeta.
  change (legal (role r) (compression r) (abs r) _ _ _ _ _ _ _)
    with (legal_header (headed r) (header_of (pend r) (header r)) (wire_plen (pend r))).
  destruct (legal_header _ _ _) eqn:El; cbn [negb].
  2: { apply fail_header_post; [done |]. by apply header_of_ok; [apply Hok | |]. }
  destruct (Opcode.Close <=? _) eqn:Eop.
  - pose proof (turn_control_post r Hok Hi Ec Eb El Eop) as Hp. cbv zeta in Hp.
    destruct (wire_plen (pend r) =? 0); [exact Hp |].
    destruct Hp as [Hs HX]. destruct (started_fields r) as (_ & _ & E3 & E4 & E5 & _ & _ & _ & E9 & E10 & _).
    destruct Hi as (Hf & Hcl & Hr & _). split; [exact Hs |].
    split_and!; [exact E9 | exact E10 | exact (eq_trans E3 Hf) | exact (eq_trans E4 Hcl)
                | exact (eq_trans E5 Hr) | done | exact HX].
  - exact (turn_data_post r Hok Hi Ec Eb El Eop).
Qed.

(** The second turn, if there is one, gathers a control frame and returns:
    the two turns [Next] is given are enough. *)
Lemma Next_loop_total r : rx_ok r -> idle r \/ controlOpen r = true -> is_Some (Next_loop 2 r).
Proof.
  intros Hok Hi. cbn [Next_loop]. destruct (turn r) as [r1 | res] eqn:E; [| done].
  assert (controlOpen r1 = true) as Hc.
  { destruct Hi as [Hi | Hi].
    - pose proof (turn_post r Hok Hi) as Hp. rewrite E in Hp. apply Hp.
    - unfold turn in E. by rewrite Hi in E. }
  unfold turn. by rewrite Hc.
Qed.

Lemma Next_post r :
  rx_ok r -> failed r = None -> closeReceived r = false -> remaining r = 0 ->
  let '(r', (k, e)) := Next r in
  next_post (run (role r) (compression r) (abs r) (pend r)) r r' k e.
Proof.
  intros Hok Hf Hcl Hr. unfold Next. rewrite Hf, Hr, Hcl. cbn [negb Z.eqb Next_loop].
  destruct (controlOpen r) eqn:Ho.
  - unfold turn at 1. rewrite Ho. cbn [default]. by apply gather_post.
  - pose proof (turn_post r Hok ltac:(done)) as Hp. unfold turn_goal in Hp.
    destruct (turn r) as [r1 | [r' [k e]]]; [| exact Hp]. cbn [default].
    destruct Hp as (Hok1 & Hro & Hco & Hf1 & Hc1 & Hr1 & Ho1 & ->).
    unfold turn. rewrite Ho1. cbn [default].
    pose proof (gather_post r1 Hok1 Hf1 Hc1 Hr1 Ho1) as Hg. rewrite Hro, Hco in Hg.
    destruct (gather r1) as [r' [k e]]. unfold next_post in *.
    rewrite Hro, Hco, Hf1 in Hg. by rewrite Hf.
Qed.

Lemma len_unmask key off l : len (unmask key off l) = len l.
Proof. destruct key; cbn; [by rewrite len_mask_ref | done]. Qed.

Lemma advance_range key off n : 0 <= off < 4 -> 0 <= advance key off n < 4.
Proof. destruct key; cbn; [| done]. intros. apply Z.mod_pos_bound. lia. Qed.

Lemma consumed_eq r c fin :
  bytes_ok (maskKey r) -> len (maskKey r) = 4 -> 0 <= maskOffset r < 4 -> bytes_ok c ->
  len c <= remaining r < 2 ^ 63 ->
  consumed r c fin =
    let r1 := {| r with maskOffset := advance (rx_key r) (maskOffset r) (len c);
                        remaining := remaining r - len c |} in
    (if fin then finishFrame r1 else r1, (unmask (rx_key r) (maskOffset r) c, fin, None)).
Proof.
  intros Hk1 Hk2 Ho Hc Hr. unfold consumed, rx_key. pose proof (len_nonneg c).
  destruct (Z.eqb_spec (len c) 0) as [E | N]; cbn [negb].
  - assert (c = []) as -> by (by apply len_0_nil). rewrite len_nil, Z.sub_0_r.
    destruct (masked r) eqn:Em; cbn [unmask advance].
    + rewrite Z.add_0_r, Z.mod_small by done. destruct r, fin; cbn in *; subst; done.
    + destruct r, fin; cbn in *; subst; done.
  - destruct (masked r) eqn:Em; cbn [unmask advance].
    + rewrite Mask_eq by (done || lia). cbn [remaining]. rewrite len_mask_ref. unfold u64.
      rewrite (Z.mod_small (remaining r - len c)) by lia. by rewrite ?Em.
    + unfold u64. rewrite (Z.mod_small (remaining r - len c)) by lia. by rewrite Em.
Qed.

Lemma PayloadN_live r n :
  failed r = None -> remaining r <> 0 ->
  PayloadN r n = let '(d, (chunk, done)) := Dec.PayloadN (dec r) n in
                 consumed {| r with dec := d |} chunk done.
Proof.
  intros Hf Hr. unfold PayloadN. destruct (Z.eqb_spec (remaining r) 0); [done |].
  destruct r. cbn in *. by subst.
Qed.

(** A chunk of the open data frame, unmasked. *)
Definition payload_post (r r' : receiver) (n : Z) (chunk : list Z) (fin : bool) : Prop :=
  rx_ok r' /\ role r' = role r /\ compression r' = compression r /\
  failed r' = None /\ closeReceived r' = false /\
  len chunk = Z.min (Z.min n (len (pend r))) (remaining r) /\
  remaining r' = remaining r - len chunk /\ fin = (remaining r' =? 0) /\
  pend r' = from (pend r) (len chunk) /\
  run (role r) (compression r) (abs r) (pend r) =
    after (role r) (compression r) (abs r', EvData <$> chunk) (pend r').

Lemma PayloadN_post r n :
  rx_ok r -> failed r = None -> closeReceived r = false -> remaining r <> 0 -> 0 <= n ->
  let '(r', (chunk, fin, e)) := PayloadN r n in e = None /\ payload_post r r' n chunk fin.
Proof.
  intros Hok Hf Hcl Hr Hn. pose proof (ok_phase r Hok) as Hp.
  pose proof (ok_dec r Hok) as [Hb Hd]. pose proof (ok_key r Hok) as [Hk1 Hk2].
  pose proof (ok_off r Hok) as Ho. pose proof (len_nonneg (pend r)).
  destruct (Z.eqb_spec (remaining r) 0) as [| _]; [done |].
  rewrite Hf, Hcl in Hp. destruct (Z.eqb_spec (remaining r) 0) as [| _] in Hp; [done |].
  cbn [negb] in Hp. destruct Hp as (Hdr & Hco & Hmsg).
  rewrite PayloadN_live by done. rewrite PayloadN_cases by (done || apply Hok). rewrite Hdr.
  destruct (Z.eqb_spec (remaining r) 0) as [| _]; [done |]. cbv zeta.
  set (m := Z.min _ _). set (c := upto (pend r) m).
  assert (len c = m) as Hlc by (subst c m; len_lia).
  assert (bytes_ok c) as Hbc by (subst c; eauto with ews).
  cbv beta iota. rewrite consumed_eq by (cbn; done || lia). cbv zeta.
  cbn [maskOffset remaining]. rewrite Hlc.
  change (rx_key {| r with dec := took (dec r) m |}) with (rx_key r).
  split; [done |]. set (off := advance _ _ m).
  assert (0 <= off < 4) as Hoff by (by apply advance_range).
  set (r2 := {| r with dec := took (dec r) m; maskOffset := off; remaining := remaining r - m |}).
  change (payload_post r (if remaining r - m =? 0 then finishFrame r2 else r2) n
    (unmask (rx_key r) (maskOffset r) c) (remaining r - m =? 0)).
  assert (0 <= m <= remaining r) as Hm by lia.
  assert (decoder_ok (took (dec r) m)) as Hdec by (split; cbn; [eauto with ews | lia]).
  set (r3 := if remaining r - m =? 0 then finishFrame r2 else r2).
  assert (rx_ok r3) as Hok3.
  { destruct Hok. subst r3. destruct (Z.eqb_spec (remaining r - m) 0) as [E | N].
    - unfold finishFrame. destruct (Hdr.Final (header r2)); constructor; cbn; try tauto;
        rewrite Hf, Hcl, Hco, E; cbn; lia.
    - constructor; cbn; try done. rewrite Hf, Hcl. destruct (Z.eqb_spec (remaining r - m) 0); [done |].
      cbn. split_and!; [lia | done | done]. }
  assert (failed r3 = None /\ closeReceived r3 = false /\ role r3 = role r /\
          compression r3 = compression r /\ remaining r3 = remaining r - m /\
          pend r3 = from (pend r) m) as (? & ? & ? & ? & Hr3 & Hp3).
  { subst r3. unfold finishFrame. destruct (_ =? 0), (Hdr.Final (header r2)); cbn; split_and!; done. }
  split; [done |]. rewrite len_unmask, Hlc, Hr3, Hp3. split_and!; try done.
  pose proof (run_app (role r) (compression r) (abs r) c (from (pend r) m)) as Hra.
  unfold c in Hra at 1. rewrite upto_from in Hra. rewrite Hra. f_equal.
  assert (abs_mode r = MData (Hdr.Final (header r)) (remaining r) (rx_key r) (maskOffset r)) as Em.
  { unfold abs_mode. rewrite Hf, Hcl. by destruct (Z.eqb_spec (remaining r) 0). }
  destruct (decide (m = 0)) as [E0 | N0].
  - assert (c = []) as Ec by (apply len_0_nil; lia). rewrite Ec. subst r3.
    destruct (Z.eqb_spec (remaining r - m) 0); [lia |]. cbn [run].
    replace (EvData <$> unmask (rx_key r) (maskOffset r) []) with (@nil event)
      by (by destruct (rx_key r)).
    f_equal. unfold abs. f_equal. rewrite Em. unfold abs_mode. cbn. rewrite Hf, Hcl.
    destruct (Z.eqb_spec (remaining r - m) 0); [done |]. cbn.
    assert (off = maskOffset r) as ->.
    { subst off. rewrite E0. unfold advance. destruct (rx_key r); [| done].
      rewrite Z.add_0_r. by apply Z.mod_small. }
    f_equal. lia.
  - rewrite (run_data _ _ (abs r) _ _ _ _ c Em) by lia. rewrite Hlc. f_equal. subst r3.
    replace (m =? remaining r) with (remaining r - m =? 0)
      by (destruct (Z.eqb_spec m (remaining r)), (Z.eqb_spec (remaining r - m) 0); done || lia).
    destruct (Z.eqb_spec (remaining r - m) 0) as [E | N].
    + unfold finishFrame, end_data, abs, abs_mode. change (header r2) with (header r).
      destruct (Hdr.Final (header r)); cbn; by rewrite Hf, Hcl, Hco, E.
    + unfold abs, abs_mode. cbn. rewrite Hf, Hcl. by destruct (Z.eqb_spec (remaining r - m) 0).
Qed.

(** ** The reading loop *)

(** What a caller does with buffered input: drain the open data frame, else
    ask for the next frame, until more input is needed. *)
Fixpoint pump (fuel : nat) (r : receiver) : option (receiver * list event) :=
  match fuel with
  | O => None
  | S fuel =>
      let continue '(r, ev) :=
        '(r, evs) ← pump fuel r; Some (r, ev ++ evs) in
      match failed r with
      | Some _ => Some (r, [])
      | None =>
          if negb (remaining r =? 0) then
            let '(r, (chunk, done, _)) := Payload r in
            if done : bool then continue (r, EvData <$> chunk) else Some (r, EvData <$> chunk)
          else
            match Next r with
            | (r, (needInput, None)) => Some (r, [])
            | (r, (needInput, Some e)) => Some (r, [EvFail e])
            | (r, (dataFrame, _)) => continue (r, [frame_event r])
            | (r, (controlFrame, _)) => continue (r, [EvControl (controlOpcode r) (ControlPayload r)])
            end
      end
  end.

(** One more turn than there are buffered bytes: every other turn takes one. *)
Definition read (r : receiver) (b : list Z) : option (receiver * list event) :=
  let r := Feed r b in pump (S (length (pend r))) r.

Fixpoint receive_all (r : receiver) (chunks : list (list Z)) : option (receiver * list event) :=
  match chunks with
  | [] => Some (r, [])
  | b :: chunks =>
      '(r, ev) ← read r b; '(r, evs) ← receive_all r chunks; Some (r, ev ++ evs)
  end.

(** The specification state with the buffered bytes taken into account, and
    a receiver that has nothing more to say about them. *)
Definition view (r : receiver) : spec := (run (role r) (compression r) (abs r) (pend r)).1.

Definition quiet (r : receiver) : Prop :=
  (run (role r) (compression r) (abs r) (pend r)).2 = [].

Lemma quiet_run r : quiet r -> run (role r) (compression r) (abs r) (pend r) = (view r, []).
Proof. unfold quiet, view. destruct (run _ _ _ _). cbn. by intros ->. Qed.

Lemma spec_byte_events ro co s b : (length (spec_byte ro co s b).2 <= 1)%nat.
Proof.
  unfold spec_byte, on_header, end_control, spec_fail.
  repeat (case_match; cbn; try lia).
Qed.

Lemma run_events ro co s l : (length (run ro co s l).2 <= length l)%nat.
Proof.
  revert s. induction l as [| b l IH]; intros s; [done |]. cbn [run].
  pose proof (spec_byte_events ro co s b). destruct (spec_byte ro co s b) as [s1 e1].
  specialize (IH s1). destruct (run ro co s1 l) as [s2 e2]. cbn in *. rewrite length_app. lia.
Qed.

(** What the loop owes for a run [X] of the specification. *)
Definition pump_goal (X : spec * list event) (r : receiver)
    (res : option (receiver * list event)) : Prop :=
  exists r' evs, res = Some (r', evs) /\ rx_ok r' /\ role r' = role r /\
    compression r' = compression r /\ quiet r' /\ X = (view r', evs).

Lemma pump_goal_stop X r r' evs :
  rx_ok r' -> role r' = role r -> compression r' = compression r -> quiet r' ->
  X = (view r', evs) -> pump_goal X r (Some (r', evs)).
Proof. intros. exists r', evs. by split_and!. Qed.

Lemma dead_quiet r :
  failed r <> None \/ closeReceived r = true ->
  quiet r /\ run (role r) (compression r) (abs r) (pend r) = (abs r, []).
Proof.
  intros H. assert (run (role r) (compression r) (abs r) (pend r) = (abs r, [])) as E.
  { apply run_dead. cbn. unfold abs_mode. destruct (failed r); [done |].
    destruct H as [H | ->]; [done |]. done. }
  split; [| done]. unfold quiet. by rewrite E.
Qed.

Lemma pump_post fuel r :
  rx_ok r ->
  let X := run (role r) (compression r) (abs r) (pend r) in
  (length X.2 < fuel)%nat -> pump_goal X r (pump fuel r).
Proof.
  revert r. induction fuel as [| fuel IH]; intros r Hok X Hlen; [lia |].
  assert (forall r1 ev, rx_ok r1 -> role r1 = role r -> compression r1 = compression r -> ev <> [] ->
    X = after (role r) (compression r) (abs r1, ev) (pend r1) ->
    pump_goal X r ('(r', evs) ← pump fuel r1; Some (r', ev ++ evs))) as Hcont.
  { intros r1 ev Hok1 Hro Hco Hev HX. unfold after in HX. specialize (IH r1 Hok1).
    cbv zeta in IH. rewrite Hro, Hco in IH.
    destruct (run _ _ (abs r1) (pend r1)) as [s1 e1]. rewrite HX in *. cbn [snd] in *.
    rewrite length_app in Hlen. assert (length ev <> 0%nat) by (by destruct ev).
    destruct IH as (r' & evs & -> & ? & ? & ? & ? & [= -> ->]); [lia |].
    exists r', (ev ++ evs). split_and!; try done; congruence. }
  cbn [pump]. destruct (failed r) as [err |] eqn:Hf.
  { destruct (dead_quiet r) as [Hq Hd]; [left; congruence |].
    apply pump_goal_stop; try done. by apply quiet_run. }
  destruct (closeReceived r) eqn:Hcl.
  { pose proof (ok_phase r Hok) as Hp. rewrite Hf, Hcl in Hp. destruct Hp as (Hr & _).
    unfold Next. rewrite Hf, Hr, Hcl. cbn [negb Z.eqb].
    destruct (dead_quiet r) as [Hq Hd]; [by right |].
    apply pump_goal_stop; try done. by apply quiet_run. }
  destruct (Z.eqb_spec (remaining r) 0) as [Hr | Hr]; cbn [negb].
  - pose proof (Next_post r Hok Hf Hcl Hr) as Hn. fold X in Hn.
    destruct (Next r) as [r1 [k e]]. destruct Hn as (Hok1 & Hro & Hco & Hn).
    destruct k, e as [e |]; try done; cbn [mbind option_bind].
    + destruct Hn as [HX Hf1]. destruct (dead_quiet r1) as [Hq Hd]; [left; congruence |].
      apply pump_goal_stop; try done. rewrite HX. f_equal. unfold view. by rewrite Hd.
    + destruct Hn as (HX & Hq & _). apply pump_goal_stop; try done.
      * unfold quiet. by rewrite Hro, Hco.
      * rewrite HX, <- Hro, <- Hco. apply quiet_run. unfold quiet. by rewrite Hro, Hco.
    + destruct Hn as [HX _]. by apply Hcont.
    + destruct Hn as [HX _]. by apply Hcont.
  - unfold Payload. pose proof (PayloadN_post r (Dec.Buffered (dec r)) Hok Hf Hcl Hr (len_nonneg _)) as Hn.
    destruct (PayloadN r _) as [r1 [[chunk fin] e]].
    destruct Hn as (-> & Hok1 & Hro & Hco & Hf1 & Hcl1 & Hlc & Hr1 & -> & Hp1 & HX). fold X in HX.
    destruct (Z.eqb_spec (remaining r1) 0) as [Hz | Hz].
    + apply Hcont; try done. destruct chunk; [rewrite len_nil in *; lia | done].
    + assert (pend r1 = []) as Hnil.
      { rewrite Hp1. apply from_all. unfold Dec.Buffered in Hlc. lia. }
      rewrite Hnil, after_nil_r in HX.
      apply pump_goal_stop; try done; [| rewrite HX; f_equal]; unfold quiet, view; by rewrite Hnil.
Qed.

Lemma Feed_dec d b :
  Decoder.remaining (Dec.Feed d b) = Decoder.remaining d /\
  Decoder.pending (Dec.Feed d b) = Decoder.pending d ++ b.
Proof.
  unfold Dec.Feed. destruct (Z.eqb_spec (len b) 0) as [E | N].
  - apply len_0_nil in E. subst. by rewrite app_nil_r.
  - destruct (Z.eqb_spec (len (Decoder.pending d)) 0) as [E | ?]; [| done].
    apply len_0_nil in E. by rewrite E.
Qed.

Lemma Feed_post r b :
  rx_ok r -> quiet r -> bytes_ok b ->
  rx_ok (Feed r b) /\ role (Feed r b) = role r /\ compression (Feed r b) = compression r /\
  run (role r) (compression r) (abs (Feed r b)) (pend (Feed r b))
    = run (role r) (compression r) (view r) b.
Proof.
  intros Hok Hq Hb. pose proof (quiet_run r Hq) as Hv. unfold Feed.
  destruct (bool_decide (failed r = None) && negb (closeReceived r)) eqn:Ed.
  - apply andb_prop in Ed as [Hf%bool_decide_eq_true Hc%negb_true_iff].
    destruct (Feed_dec (dec r) b) as [E1 E2]. split_and!; try done.
    + destruct Hok as [[Hp1 Hp2] Hh Hk Ho Hct Hm Hp]. constructor; cbn; try done.
      * split; [rewrite E2; by apply bytes_ok_app | by rewrite E1].
      * rewrite Hf, Hc in *. by rewrite E1.
    + cbn [dec]. rewrite E2, run_app.
      assert (abs {| r with dec := Dec.Feed (dec r) b |} = abs r) as ->.
      { unfold abs, abs_mode, rx_key, ControlPayload. cbn. by rewrite E1. }
      rewrite Hv. apply after_nil.
  - split_and!; try done. rewrite Hv. destruct (dead_quiet r) as [_ Hd].
    { destruct (failed r); [left; done | right]. by apply negb_false_iff in Ed. }
    rewrite Hd in Hv. injection Hv as <-. symmetry. apply run_dead. cbn. unfold abs_mode.
    destruct (failed r); [done |]. apply negb_false_iff in Ed. by rewrite Ed.
Qed.

Lemma read_post r b :
  rx_ok r -> quiet r -> bytes_ok b ->
  pump_goal (run (role r) (compression r) (view r) b) r (read r b).
Proof.
  intros Hok Hq Hb. pose proof (quiet_run r Hq) as Hv.
  destruct (Feed_post r b Hok Hq Hb) as (Hok' & Hro & Hco & HX).
  unfold read. pose proof (pump_post (S (length (pend (Feed r b)))) (Feed r b) Hok') as Hp.
  cbv zeta in Hp. rewrite Hro, Hco, HX in Hp. destruct Hp as (r' & evs & -> & ? & ? & ? & ? & ?).
  { pose proof (run_events (role r) (compression r) (abs (Feed r b)) (pend (Feed r b))) as He.
    rewrite HX in He. lia. }
  apply pump_goal_stop; try done; congruence.
Qed.
End next.

(** ** Every operation keeps the invariant *)

Section steps.
Context {M : Masker} `{!MaskerOk M}.

(** The calls a connection makes, in any order. *)
Inductive rx_step (r : receiver) : receiver -> Prop :=
  | step_feed b : bytes_ok b -> rx_step r (Feed r b)
  | step_preserve : rx_step r (Preserve r)
  | step_next : rx_step r (Next r).1
  | step_payload n : rx_step r (PayloadN r n).1.

Lemma Init_ok r ro comp : rx_ok (Init r ro comp) /\ quiet (Init r ro comp) /\
  view (Init r ro comp) = spec_init /\ role (Init r ro comp) = ro /\
  compression (Init r ro comp) = comp.
Proof.
  split; [| done]. constructor; cbn; try lia; auto.
  - split; [constructor | cbn; lia].
  - repeat split; try done. apply bytes_ok_zeros.
  - split; [apply bytes_ok_zeros | done].
  - split_and!; [apply bytes_ok_zeros | done | done | done].
Qed.

(** The invariant when only the decoder changes, what is still to come staying put. *)
Lemma rx_ok_dec r d :
  rx_ok r -> decoder_ok d -> Decoder.remaining d = Decoder.remaining (dec r) ->
  (pend r = [] -> failed r <> None \/ closeReceived r = true -> Decoder.pending d = []) ->
  rx_ok {| r with dec := d |}.
Proof.
  intros [Hd Hh Hk Ho Hct Hm Hp] Hd' Hrem Hpend. constructor; cbn; try done.
  rewrite Hrem. destruct (failed r); [| destruct (closeReceived r)]; [| | done].
  - destruct Hp as (? & ? & ? & ? & ?). split_and!; try done. apply Hpend; [done | left; done].
  - destruct Hp as (? & ? & ? & ?). split_and!; try done. apply Hpend; [done | right; done].
Qed.

Lemma Next_ok r : rx_ok r -> rx_ok (Next r).1.
Proof.
  intros Hok. unfold Next. destruct (failed r) eqn:Hf; [done |].
  destruct (Z.eqb_spec (remaining r) 0) as [Hr | Hr]; cbn [negb]; [| done].
  destruct (closeReceived r) eqn:Hc; [done |].
  pose proof (Next_post r Hok Hf Hc Hr) as H. unfold Next in H. rewrite Hf, Hr, Hc in H.
  cbn [negb Z.eqb] in H. destruct (default _ _) as [r' [k e]]. apply H.
Qed.

Lemma PayloadN_neg r n : n <= 0 -> PayloadN r n = PayloadN r 0.
Proof.
  intros Hn. unfold PayloadN, Dec.PayloadN. destruct (failed r); [done |].
  destruct (remaining r =? 0); [done |]. destruct (Decoder.remaining _ =? 0); [done |].
  by destruct (Z.leb_spec n 0); [| lia].
Qed.

Lemma PayloadN_ok r n : rx_ok r -> rx_ok (PayloadN r n).1.
Proof.
  intros Hok. destruct (failed r) eqn:Hf; [unfold PayloadN; by rewrite Hf |].
  destruct (decide (remaining r = 0)) as [Hr | Hr].
  { unfold PayloadN. rewrite Hf. by rewrite Hr. }
  assert (closeReceived r = false) as Hc.
  { pose proof (ok_phase r Hok) as Hp. rewrite Hf in Hp. destruct (closeReceived r); tauto. }
  destruct (decide (0 <= n)) as [Hn | Hn]; [| rewrite PayloadN_neg by lia];
    [pose proof (PayloadN_post r n Hok Hf Hc Hr Hn) as H
    |pose proof (PayloadN_post r 0 Hok Hf Hc Hr ltac:(done)) as H];
    destruct (PayloadN r _) as [r' [[c f] e]]; apply H.
Qed.

Lemma rx_step_ok r r' : rx_ok r -> rx_step r r' -> rx_ok r'.
Proof.
  intros Hok [b Hb | | | n]; [| | by apply Next_ok | by apply PayloadN_ok].
  - unfold Feed. destruct (bool_decide (failed r = None) && negb (closeReceived r)) eqn:E; [| done].
    destruct (Feed_dec (dec r) b) as [E1 E2]. apply rx_ok_dec; try done.
    + split; rewrite ?E1, ?E2; [| apply Hok]. apply bytes_ok_app. split; [apply Hok | done].
    + apply andb_prop in E as [Hf%bool_decide_eq_true Hc%negb_true_iff].
      intros _ [H | H]; congruence.
  - unfold Preserve, Dec.Preserve. destruct (len (pend r) =? 0).
    + by destruct r.
    + apply rx_ok_dec; try done. destruct Hok as [[? ?] _ _ _ _ _ _]. by split.
Qed.
End steps.

Lemma receive_all_post {M : Masker} `{!MaskerOk M} r chunks :
  rx_ok r -> quiet r -> Forall bytes_ok chunks ->
  exists r' evs,
    receive_all r chunks = Some (r', evs) /\ rx_ok r' /\ quiet r' /\
    run (role r) (compression r) (view r) (concat chunks) = (view r', evs).
Proof.
  revert r. induction chunks as [| b chunks IH]; intros r Hok Hq Hch.
  - exists r, []. by split_and!.
  - apply Forall_cons in Hch as [Hb Hch]. cbn [receive_all concat].
    destruct (read_post r b Hok Hq Hb) as (r1 & ev & -> & Hok1 & Hro & Hco & Hq1 & HX).
    cbn [mbind option_bind]. destruct (IH r1 Hok1 Hq1 Hch) as (r2 & evs & -> & Hok2 & Hq2 & HY).
    exists r2, (ev ++ evs). split_and!; try done. rewrite run_app, HX. unfold after.
    rewrite <- Hro, <- Hco, HY. done.
Qed.

(** ** Properties *)

(** C18. Reading a connection's input through [Feed], [Next] and [Payload]
    yields exactly the events the byte-at-a-time specification yields on the
    concatenated bytes, whatever the reads returned, ends in the state the
    specification ends in, and always terminates. *)
Theorem receive_all_refines {M : Masker} `{!MaskerOk M} r chunks :
  rx_ok r -> quiet r -> Forall bytes_ok chunks ->
  exists r' evs,
    receive_all r chunks = Some (r', evs) /\ rx_ok r' /\ quiet r' /\
    run (role r) (compression r) (view r) (concat chunks) = (view r', evs).
Proof. apply receive_all_post. Qed.

(** A masked text frame "Hi" and a ping, as a server receives them. *)
Definition sample : list Z := [129; 130; 1; 2; 3; 4; 73; 107; 137; 129; 0; 0; 0; 0; 7].

Definition server : receiver := Init zero Server false.

Lemma receive_all_refines_witness :
  exists r' evs,
    receive_all (M := swar_masker) server [[129; 130; 1]; [2; 3; 4; 73]; [107; 137]] = Some (r', evs)
    /\ rx_ok r' /\ quiet r' /\
    run Server false spec_init [129; 130; 1; 2; 3; 4; 73; 107; 137] = (view r', evs).
Proof.
  apply (receive_all_refines (M := swar_masker) server [[129; 130; 1]; [2; 3; 4; 73]; [107; 137]]).
  - apply Init_ok.
  - apply Init_ok.
  - repeat constructor; unfold is_byte; lia.
Defined.

(** Where the transport cuts the stream does not matter: two ways of
    cutting the same bytes into reads give the same events and leave the
    receiver in the same state as far as later input can tell. *)
Theorem receive_chunking {M : Masker} `{!MaskerOk M} r0 ro comp chunks chunks' :
  Forall bytes_ok chunks -> Forall bytes_ok chunks' -> concat chunks = concat chunks' ->
  exists r r' evs,
    receive_all (Init r0 ro comp) chunks = Some (r, evs) /\
    receive_all (Init r0 ro comp) chunks' = Some (r', evs) /\ view r = view r'.
Proof.
  intros H H' E. destruct (Init_ok r0 ro comp) as (Hok & Hq & Hv & Hro & Hco).
  destruct (receive_all_post _ _ Hok Hq H) as (r & evs & E1 & _ & _ & HX).
  destruct (receive_all_post _ _ Hok Hq H') as (r' & evs' & E2 & _ & _ & HY).
  rewrite E, HY in HX. injection HX as ? ?. exists r, r', evs. split; [done |]. by subst.
Qed.

Lemma receive_chunking_witness :
  exists r r' evs,
    receive_all (M := swar_masker) server [sample] = Some (r, evs) /\
    receive_all (M := swar_masker) server ((fun b => [b]) <$> sample) = Some (r', evs) /\
    view r = view r'.
Proof.
  apply (receive_chunking (M := swar_masker) zero Server false [sample] ((fun b => [b]) <$> sample)).
  - repeat constructor; unfold is_byte; lia.
  - repeat constructor; unfold is_byte; lia.
  - reflexivity.
Defined.

(** What those bytes mean. *)
Example sample_events :
  snd <$> receive_all (M := swar_masker) server [sample] =
  Some [EvFrame true Opcode.Text false 2; EvData 72; EvData 105; EvControl Opcode.Ping [7]].
Proof. vm_compute. reflexivity. Qed.

(** C19. Whatever sequence of calls follows [Init], the receiver stays well
    formed: the control buffer is never overrun, the decoder's and the
    receiver's counts of the bytes to come agree, an open message always has a
    data opcode, and nothing stays open or buffered after the end. *)
Theorem receiver_invariant {M : Masker} `{!MaskerOk M} r0 ro comp r :
  rtc rx_step (Init r0 ro comp) r -> rx_ok r.
Proof.
  assert (rx_ok (Init r0 ro comp)) as Hok by apply Init_ok. revert Hok.
  generalize (Init r0 ro comp). intros r1 Hok Hs. induction Hs as [| ? ? ? Hs _ IH]; [done |].
  apply IH. by eapply rx_step_ok.
Qed.

Lemma receiver_invariant_witness :
  rx_ok (Next (M := swar_masker) (Feed server sample)).1.
Proof.
  apply (receiver_invariant (M := swar_masker) zero Server false).
  apply rtc_l with (Feed server sample).
  - apply step_feed. repeat constructor; unfold is_byte; lia.
  - apply rtc_once, step_next.
Defined.

(** A protocol failure is terminal: whatever is fed or asked for
    afterwards, every call reports the first failure, no payload is handed out
    and nothing is buffered. *)
Theorem failure_terminal {M : Masker} `{!MaskerOk M} r r' e :
  rx_ok r -> failed r = Some e -> rtc rx_step r r' ->
  failed r' = Some e /\ pend r' = [] /\ Next r' = (r', (needInput, Some e)) /\
  forall n, PayloadN r' n = (r', ([], false, Some e)).
Proof.
  intros Hok Hf Hs. assert (rx_ok r' /\ failed r' = Some e) as [Hok' Hf'].
  { induction Hs as [| r r1 r2 Hs _ IH]; [done |]. apply IH; [by eapply rx_step_ok |].
    destruct Hs; cbn; unfold Feed, Next, PayloadN; rewrite Hf; done. }
  pose proof (ok_phase r' Hok') as Hp. rewrite Hf' in Hp. unfold Next, PayloadN. rewrite Hf'. tauto.
Qed.

Lemma failure_terminal_witness :
  let r := (Next (M := swar_masker) (Feed server [0xff; 0])).1 in
  let r' := Feed r sample in
  failed r = Some (WsError 1002 (Ws ErrProtocol)) /\
  Next (M := swar_masker) r' = (r', (needInput, failed r)).
Proof.
  cbv zeta. set (r := (Next _).1). split; [reflexivity |].
  assert (rx_ok r) as Hok.
  { apply (Next_ok (M := swar_masker)), (rx_step_ok (M := swar_masker) server); [apply Init_ok |]. apply step_feed.
    repeat constructor; unfold is_byte; lia. }
  apply (failure_terminal (M := swar_masker) r (Feed r sample) (WsError 1002 (Ws ErrProtocol)) Hok eq_refl).
  apply rtc_once, step_feed. repeat constructor; unfold is_byte; lia.
Defined.
