(* ===== verification/Wire.v ===== *)
(** * What the specification makes of an encoded frame

    [wire] (Encoder) lays a frame out; [run] (Stream) reads bytes.  Reading
    what was laid out gives the frame's events back. *)

From stdpp Require Import prelude.
From S2P Require Import Prelude Words Mask Errors Header Encoder Decoder Close Receiver Stream Refine.

Section frame.
Context (f : frame) (Hf : frame_ok f).

#[local] Abbreviation hd := (mkHeader (wire_header f) (len (wire_header f))).

Lemma wire_code rest :
  Z.land (idx (wire_header f ++ rest) 1) 0x7f = length_code (len (f_data f)).
Proof. apply (acc_code f (mkHeader (wire_header f ++ rest) 0) rest eq_refl). Qed.

Lemma wire_need rest : need (wire_header f ++ rest) = len (wire_header f).
Proof.
  pose proof (len_wire_header f) as El. destruct Hf as (Hop & Hk & Hd & Hn).
  rewrite need_app by (pose proof (len_wire_header_range f Hk); lia).
  rewrite El by done. unfold need. rewrite <- (app_nil_r (wire_header f)), wire_code.
  pose proof (acc_masked f (mkHeader (wire_header f ++ []) 0) [] eq_refl) as Em.
  unfold Hdr.Masked in Em. cbn [raw] in Em.
  pose proof (len_nonneg (f_data f)). unfold length_code, length_ext.
  assert ((Z.land (idx (wire_header f ++ []) 1) 0x80 =? 0) = negb (bool_decide (is_Some (f_key f)))) as ->.
  { rewrite <- Em. by rewrite negb_involutive. }
  destruct (Z.leb_spec (len (f_data f)) 125).
  - destruct (Z.eqb_spec (len (f_data f)) 126); [lia |].
    destruct (Z.eqb_spec (len (f_data f)) 127); [lia |]. destruct (f_key f); reflexivity.
  - destruct (Z.leb_spec (len (f_data f)) 65535); cbn [Z.eqb Pos.eqb]; destruct (f_key f); unfold len; rewrite length_be_put; reflexivity.
Qed.

Lemma wire_complete rest : header_complete (wire_header f ++ rest) = true.
Proof.
  unfold header_complete. rewrite wire_need, len_app. destruct Hf as (_ & Hk & _).
  pose proof (len_wire_header_range f Hk). pose proof (len_nonneg rest).
  apply andb_true_intro. split; apply Z.leb_le; lia.
Qed.

Lemma wire_plen_wire rest : wire_plen (wire_header f ++ rest) = len (f_data f).
Proof. exact (acc_payload_len f (mkHeader (wire_header f ++ rest) 0) rest Hf eq_refl). Qed.

Lemma wire_good rest : bad_length (wire_header f ++ rest) = false.
Proof.
  unfold bad_length. rewrite wire_code, wire_plen_wire. destruct Hf as (_ & _ & _ & Hn).
  pose proof (len_nonneg (f_data f)). unfold length_code.
  destruct (Z.leb_spec (len (f_data f)) 125).
  - destruct (Z.eqb_spec (len (f_data f)) 126); [lia |].
    destruct (Z.eqb_spec (len (f_data f)) 127); [lia | done].
  - destruct (Z.leb_spec (len (f_data f)) 65535); cbn [Z.eqb Pos.eqb andb orb].
    + rewrite orb_false_r. apply Z.ltb_ge. lia.
    + apply orb_false_intro; [apply Z.ltb_ge | apply Z.leb_gt]; lia.
Qed.

Lemma len_masked_data : len (masked_data f) = len (f_data f).
Proof. unfold masked_data. case_match; [apply len_mask_ref | done]. Qed.

Lemma unmask_masked_data : unmask (f_key f) 0 (masked_data f) = f_data f.
Proof. unfold unmask, masked_data. case_match; [apply mask_ref_involutive | done]. Qed.

(** Whether the frame may come next, and what it means when it may. *)
Definition frame_legal (ro : Role) (comp : bool) (s : spec) : bool :=
  legal ro comp s (f_final f) (f_rsv1 f) false false (bool_decide (is_Some (f_key f)))
    (f_op f) (len (f_data f)).

Definition frame_events (s : spec) : spec * list event :=
  if Opcode.Close <=? f_op f then end_control s (f_op f) (f_data f)
  else
    let s := if starts (f_op f) then {| s with s_msg := f_op f; s_comp := f_rsv1 f |} else s in
    (end_data s (f_final f),
     EvFrame (f_final f) (f_op f) (f_rsv1 f) (len (f_data f)) :: (EvData <$> f_data f)).

Lemma on_header_wire ro comp s :
  on_header ro comp s (wire_header f) =
  if negb (frame_legal ro comp s) then spec_fail s (WsError 1002 (Ws ErrProtocol))
  else if Opcode.Close <=? f_op f then
    if len (f_data f) =? 0 then end_control s (f_op f) []
    else ({| s with s_mode := MCtl (f_op f) (len (f_data f)) [] (f_key f) 0 |}, [])
  else
    let s := if starts (f_op f) then {| s with s_msg := f_op f; s_comp := f_rsv1 f |} else s in
    let ev := [EvFrame (f_final f) (f_op f) (f_rsv1 f) (len (f_data f))] in
    if len (f_data f) =? 0 then (end_data s (f_final f), ev)
    else ({| s with s_mode := MData (f_final f) (len (f_data f)) (f_key f) 0 |}, ev).
Proof.
  unfold on_header. pose proof (wire_good []) as Hg. pose proof (wire_plen_wire []) as Hn.
  rewrite app_nil_r in Hg, Hn. rewrite Hg, Hn.
  assert (raw hd = wire_header f ++ []) as Hraw by (by rewrite app_nil_r).
  destruct (acc_flags f hd [] Hf Hraw) as (-> & -> & -> & -> & ->).
  by rewrite (acc_masked f hd [] Hraw), (acc_mask_key f hd [] Hf Hraw eq_refl).
Qed.

(** An encoded frame, read at a frame boundary. *)
Lemma run_wire ro comp s :
  s_mode s = MHead [] ->
  run ro comp s (wire f) =
    if frame_legal ro comp s then frame_events s
    else spec_fail s (WsError 1002 (Ws ErrProtocol)).
Proof.
  intros Hm. unfold wire.
  rewrite (run_head_complete ro comp s _ Hm (wire_complete _)), wire_need, upto_app_len, from_app_len,
    on_header_wire.
  destruct (frame_legal ro comp s); cbn [negb].
  2: { unfold after, spec_fail. by rewrite run_dead by done. }
  pose proof len_masked_data as Hl. pose proof unmask_masked_data as Hu. unfold frame_events.
  destruct (Z.eqb_spec (len (f_data f)) 0) as [E0 | N0].
  - assert (masked_data f = []) as -> by (apply len_0_nil; lia).
    rewrite !after_nil_r. apply len_0_nil in E0. by rewrite E0.
  - pose proof (len_nonneg (f_data f)). destruct (Opcode.Close <=? f_op f).
    + rewrite after_nil, (run_ctl _ _ _ (f_op f) (len (f_data f)) [] (f_key f) 0) by (done || lia).
      rewrite Hl, Z.eqb_refl, Hu. apply end_control_mode.
    + cbv zeta. unfold after.
      rewrite (run_data _ _ _ (f_final f) (len (f_data f)) (f_key f) 0) by (done || lia).
      rewrite Hl, Z.eqb_refl, Hu. done.
Qed.
End frame.

(** A sequence of frames, each legal where it stands. *)
Fixpoint frames_legal (ro : Role) (comp : bool) (s : spec) (fs : list frame) : bool :=
  match fs with
  | [] => true
  | f :: fs => frame_legal f ro comp s && frames_legal ro comp (frame_events f s).1 fs
  end.

Fixpoint frames_events (s : spec) (fs : list frame) : spec * list event :=
  match fs with
  | [] => (s, [])
  | f :: fs =>
      let '(s, ev) := frame_events f s in let '(s, evs) := frames_events s fs in (s, ev ++ evs)
  end.

