(* ===== verification/Traffic.v ===== *)
(** * Sequences of frames

    Which sequences of frames one endpoint may send ([legal_run], RFC 6455
    section 5 and RFC 7692), what the other makes of them, and the messages
    they carry ([assembled]). *)

From stdpp Require Import prelude.
From S2P Require Import Prelude Words Mask Errors Header Encoder Decoder Close Receiver Stream Refine Wire.

Definition closed (sp : spec) : bool := match s_mode sp with MClosed => true | _ => false end.

(** Between frames of a stream that has not failed. *)
Definition at_frame (sp : spec) : Prop := s_mode sp = MHead [] \/ s_mode sp = MClosed.

(** ** Messages *)

(** A message as it is on the wire: opcode, whether compressed, payload. *)
Definition raw_message : Type := Z * bool * list Z.

Definition asm_step (st : list raw_message * option raw_message) (f : frame)
    : list raw_message * option raw_message :=
  if Opcode.Close <=? f_op f then st
  else
    let '(op, c, data) := if starts (f_op f) then (f_op f, f_rsv1 f, []) else default (0, false, []) st.2 in
    let m := (op, c, data ++ f_data f) in
    if f_final f then (st.1 ++ [m], None) else (st.1, Some m).

(** Complete messages, and the one still open. *)
Definition assembled (fs : list frame) : list raw_message * option raw_message :=
  foldl asm_step ([], None) fs.

Section run.
Context (ro : Role) (comp : bool).

(** ** What may follow *)

Definition may_follow (sp : spec) (f : frame) : bool :=
  if closed sp then f_op f =? Opcode.Pong
  else frame_legal f ro comp sp &&
       (negb (f_op f =? Opcode.Close) || bool_decide (validateClose (f_data f) = None)).

Definition step_spec (sp : spec) (f : frame) : spec :=
  if closed sp then sp else (frame_events f sp).1.

Fixpoint legal_run (sp : spec) (fs : list frame) : option spec :=
  match fs with
  | [] => Some sp
  | f :: fs => if may_follow sp f then legal_run (step_spec sp f) fs else None
  end.

(** The events a legal sequence is read as. *)
Fixpoint seq_events (sp : spec) (fs : list frame) : list event :=
  match fs with
  | [] => []
  | f :: fs => if closed sp then [] else (frame_events f sp).2 ++ seq_events (step_spec sp f) fs
  end.

Lemma legal_run_app sp fs gs :
  legal_run sp (fs ++ gs) = match legal_run sp fs with Some sp => legal_run sp gs | None => None end.
Proof.
  revert sp. induction fs as [| f fs IH]; intros sp; cbn; [done |]. destruct (may_follow sp f); [apply IH | done].
Qed.

Lemma legal_run_snoc sp fs f sp' :
  legal_run sp fs = Some sp' -> may_follow sp' f = true ->
  legal_run sp (fs ++ [f]) = Some (step_spec sp' f).
Proof. intros E Hf. rewrite legal_run_app, E. cbn. by rewrite Hf. Qed.

Definition is_ping (f : frame) : Prop := f_op f = Opcode.Ping \/ f_op f = Opcode.Pong.

Lemma step_ping sp f : at_frame sp -> is_ping f -> step_spec sp f = sp.
Proof.
  unfold step_spec, closed. intros [Hm | Hm] Hp; rewrite Hm; [| done]. unfold frame_events.
  destruct sp as [m a b]. cbn in *. subst m. by destruct Hp as [-> | ->].
Qed.

Lemma step_at_frame sp f : at_frame sp -> may_follow sp f = true -> at_frame (step_spec sp f).
Proof.
  unfold may_follow, step_spec. intros Ha. destruct (closed sp) eqn:Ec; [done |].
  intros [_ Hcl]%andb_prop. destruct Ha as [Hm | Hm]; [| unfold closed in Ec; by rewrite Hm in Ec].
  unfold frame_events. destruct (Opcode.Close <=? f_op f).
  - unfold end_control. destruct (f_op f =? Opcode.Close); [| by left].
    cbn in Hcl. apply bool_decide_eq_true in Hcl. rewrite Hcl. by right.
  - by left.
Qed.

Lemma legal_run_at_frame sp fs sp' : at_frame sp -> legal_run sp fs = Some sp' -> at_frame sp'.
Proof.
  revert sp. induction fs as [| f fs IH]; intros sp Ha; cbn; [by intros [= <-] |].
  destruct (may_follow sp f) eqn:E; [| done]. apply IH. by apply step_at_frame.
Qed.

(** A ping or pong may be inserted wherever it may stand. *)
Lemma legal_run_insert sp fs f gs sp1 sp' :
  at_frame sp -> legal_run sp fs = Some sp1 -> legal_run sp1 gs = Some sp' ->
  is_ping f -> may_follow sp1 f = true -> legal_run sp ((fs ++ [f]) ++ gs) = Some sp'.
Proof.
  intros Ha E1 E2 Hp Hf. rewrite legal_run_app, (legal_run_snoc _ _ _ _ E1 Hf), step_ping; [done | | done].
  by eapply legal_run_at_frame.
Qed.

Lemma asm_step_ping st f : is_ping f -> asm_step st f = st.
Proof. unfold asm_step. by intros [-> | ->]. Qed.

Lemma assembled_insert fs f gs : is_ping f -> assembled ((fs ++ [f]) ++ gs) = assembled (fs ++ gs).
Proof. intros Hp. unfold assembled. rewrite !foldl_app. cbn. by rewrite asm_step_ping. Qed.

Lemma assembled_snoc fs f : assembled (fs ++ [f]) = asm_step (assembled fs) f.
Proof. unfold assembled. by rewrite foldl_app. Qed.

(** What is legal is read back, frame by frame, and never fails the reader. *)
Lemma run_seq sp fs sp' :
  at_frame sp -> Forall frame_ok fs -> legal_run sp fs = Some sp' ->
  run ro comp sp (concat (wire <$> fs)) = (sp', seq_events sp fs).
Proof.
  intros Ha Hfs. revert sp Ha. induction Hfs as [| f fs Hf _ IH]; intros sp Ha; [by intros [= <-] |].
  cbn [fmap list_fmap concat legal_run seq_events]. destruct (may_follow sp f) eqn:Em; [| done]. intros Hrun.
  pose proof (step_at_frame sp f Ha Em) as Ha'. specialize (IH _ Ha' Hrun).
  unfold may_follow in Em. unfold step_spec in *. destruct (closed sp) eqn:Ec.
  - unfold closed in Ec. destruct (s_mode sp) eqn:Em'; try done.
    rewrite run_dead by (by rewrite Em'). rewrite run_dead in IH by (by rewrite Em').
    injection IH as <- _. done.
  - apply andb_prop in Em as [Hl _]. destruct Ha as [Hm | Hm]; [| unfold closed in Ec; by rewrite Hm in Ec].
    rewrite run_app, (run_wire f Hf ro comp sp Hm), Hl. destruct (frame_events f sp) as [s1 e1]. cbn in *.
    unfold after. by rewrite IH.
Qed.

Definition is_failure (e : event) : bool := match e with EvFail _ => true | _ => false end.

Lemma frame_events_no_failure sp f :
  at_frame sp -> closed sp = false -> may_follow sp f = true ->
  Forall (fun e => is_failure e = false) (frame_events f sp).2.
Proof.
  intros Ha Ec Hm. unfold may_follow in Hm. rewrite Ec in Hm. apply andb_prop in Hm as [_ Hcl].
  unfold frame_events. destruct (Opcode.Close <=? f_op f).
  - unfold end_control. destruct (f_op f =? Opcode.Close); [| by repeat constructor].
    apply bool_decide_eq_true in Hcl. rewrite Hcl. by repeat constructor.
  - constructor; [done |]. apply Forall_fmap, Forall_true. done.
Qed.

Lemma seq_events_no_failure sp fs sp' :
  at_frame sp -> legal_run sp fs = Some sp' -> Forall (fun e => is_failure e = false) (seq_events sp fs).
Proof.
  revert sp. induction fs as [| f fs IH]; intros sp Ha; cbn; [constructor |].
  destruct (may_follow sp f) eqn:Em; [| done]. intros Hrun. destruct (closed sp) eqn:Ec; [constructor |].
  apply Forall_app. split; [by apply frame_events_no_failure |]. apply IH; [| done]. by apply step_at_frame.
Qed.

(** Reassembling the events gives the messages of the frames. *)
Definition event_step (st : list raw_message * option (raw_message * bool * Z)) (e : event)
    : list raw_message * option (raw_message * bool * Z) :=
  let close '(ms, m, fin, n) :=
    if n =? 0 then if (fin : bool) then (ms ++ [m], None) else (ms, Some (m, false, 0))
    else (ms, Some (m, fin, n)) in
  match e with
  | EvFrame fin op rsv1 n =>
      let m := if starts op then (op, rsv1, []) else (default (0, false, [], false, 0) st.2).1.1 in
      close (st.1, m, fin, n)
  | EvData b =>
      match st.2 with
      | Some (op, c, data, fin, n) => close (st.1, (op, c, data ++ [b]), fin, n - 1)
      | None => st
      end
  | _ => st
  end.

Definition received (evs : list event) : list raw_message := (foldl event_step ([], None) evs).1.

Definition open_of (cur : option raw_message) : option (raw_message * bool * Z) :=
  (fun m => (m, false, 0)) <$> cur.

Lemma received_data ms op c data fin l :
  foldl event_step (ms, Some (op, c, data, fin, len l)) (EvData <$> l) =
  if len l =? 0 then (ms, Some (op, c, data, fin, 0))
  else if fin then (ms ++ [(op, c, data ++ l)], None) else (ms, Some (op, c, data ++ l, false, 0)).
Proof.
  revert data. induction l as [| b l IH]; intros data; [done |]. rewrite len_cons. pose proof (len_nonneg l).
  destruct (Z.eqb_spec (1 + len l) 0); [lia |]. cbn [fmap list_fmap foldl]. unfold event_step at 2.
  cbn [snd fst]. replace (1 + len l - 1) with (len l) by lia. destruct (Z.eqb_spec (len l) 0) as [E | E].
  - apply len_0_nil in E. subst l. cbn. by destruct fin.
  - rewrite IH. destruct (Z.eqb_spec (len l) 0); [done |]. by rewrite <- app_assoc.
Qed.

Lemma received_frame ms cur sp f :
  closed sp = false -> may_follow sp f = true ->
  foldl event_step (ms, open_of cur) (frame_events f sp).2 =
  ((asm_step (ms, cur) f).1, open_of (asm_step (ms, cur) f).2).
Proof.
  intros Ec Hm. unfold may_follow in Hm. rewrite Ec in Hm. apply andb_prop in Hm as [_ Hcl].
  unfold frame_events, asm_step. destruct (Opcode.Close <=? f_op f).
  { unfold end_control. destruct (f_op f =? Opcode.Close); [| done].
    apply bool_decide_eq_true in Hcl. by rewrite Hcl. }
  cbn [snd foldl fst]. unfold event_step at 2. cbn [snd fst].
  set (m := if starts (f_op f) then (f_op f, f_rsv1 f, []) else default (0, false, []) cur).
  assert ((if starts (f_op f) then (f_op f, f_rsv1 f, [])
           else (default (0, false, [], false, 0) (open_of cur)).1.1) = m) as ->.
  { subst m. destruct (starts (f_op f)); [done |]. by destruct cur. }
  destruct m as [[op c] data]. destruct (Z.eqb_spec (len (f_data f)) 0) as [E | E].
  - apply len_0_nil in E. rewrite E, app_nil_r. by destruct (f_final f).
  - rewrite received_data. destruct (Z.eqb_spec (len (f_data f)) 0); [done |]. by destruct (f_final f).
Qed.

(** Frames that may follow a close carry no message. *)
Lemma asm_closed st sp fs sp' :
  closed sp = true -> legal_run sp fs = Some sp' -> foldl asm_step st fs = st.
Proof.
  intros Ec. induction fs as [| f fs IH]; cbn; [done |]. unfold may_follow, step_spec. rewrite Ec.
  destruct (Z.eqb_spec (f_op f) Opcode.Pong) as [E | E]; [| done].
  intros H. rewrite asm_step_ping by (by right). auto.
Qed.

Lemma received_seq ms cur sp fs sp' :
  legal_run sp fs = Some sp' ->
  let '(ms', cur') := foldl asm_step (ms, cur) fs in
  foldl event_step (ms, open_of cur) (seq_events sp fs) = (ms', open_of cur').
Proof.
  revert ms cur sp. induction fs as [| f fs IH]; intros ms cur sp; [done |]. intros Hrun.
  destruct (closed sp) eqn:Ec.
  { rewrite (asm_closed (ms, cur) sp (f :: fs) sp' Ec Hrun). cbn. by rewrite Ec. }
  cbn in *. rewrite Ec. destruct (may_follow sp f) eqn:Em; [| done].
  rewrite foldl_app, (received_frame ms cur sp f Ec Em).
  destruct (asm_step (ms, cur) f) as [ms1 cur1]. by apply IH.
Qed.

Lemma received_assembled fs sp' :
  legal_run spec_init fs = Some sp' -> received (seq_events spec_init fs) = (assembled fs).1.
Proof.
  intros H. pose proof (received_seq [] None spec_init fs sp' H) as E. unfold received, assembled.
  destruct (foldl asm_step ([], None) fs) as [ms cur]. cbn in E. by rewrite E.
Qed.
End run.
