(* ===== verification/Sender.v ===== *)
(** * The frame sender (ws/sender.go)

    [rand.Read] fills the client's masking key from the operating system: the
    four bytes it delivers are the argument [rnd] of every encode. *)

From stdpp Require Import prelude.
From S2P Require Import Prelude Words Mask Errors Header Encoder Close Receiver Stream Wire.

(** ws/conn.go: the largest buffer the small pools keep. *)
Definition poolKeep : Z := Z.shiftl 1 20.

Module Tx.

Record sender := mkSender {
  role : Role;
  enc : Encoder;
  key : list Z;
  closeBuf : list Z;
  closeSent : bool
}.

Definition zero : sender :=
  {| role := Server; enc := Encoder_zero; key := zeros 4; closeBuf := zeros 125;
     closeSent := false |}.

Definition Init (s : sender) (role' : Role) : sender :=
  let s := {| s with role := role' |} in
  let s := {| s with enc := Enc.Reset (enc s) |} in
  let e := enc s in
  let s := {| s with enc := {| e with ScratchKeep := poolKeep |} |} in
  {| s with closeSent := false |}.

Definition CloseSent (s : sender) : bool := closeSent s.

Section ops.
Context `{Masker} `{Grow}.
Context (rnd : list Z).

(** The header and body to write, in wire order. *)
Definition output := result (list Z * list Z).

Definition encodeFrame (s : sender) (op : Z) (final : bool) (payload : list Z) (compressed : bool)
    : sender * output :=
  if closeSent s && negb (op =? Opcode.Pong) then (s, Err (Ws ErrClosing))
  else
    let '(s, key) :=
      if decide (role s = Client) then ({| s with key := rnd |}, Some rnd) else (s, None) in
    let '(e, err) :=
      if compressed : bool then Enc.EncodeCompressed (enc s) final op payload key
      else Enc.Encode (enc s) final op payload key in
    let s := {| s with enc := e |} in
    match err with
    | Some err => (s, Err err)
    | None =>
        let s := if op =? Opcode.Close then {| s with closeSent := true |} else s in
        (s, Ok (Enc.HeaderBytes (enc s), Enc.PayloadBytes (enc s)))
    end.

Definition encode (s : sender) (op : Z) (payload : list Z) (compressed : bool) : sender * output :=
  if closeSent s && negb (op =? Opcode.Pong) then (s, Err (Ws ErrClosing))
  else
    let err :=
      if (op =? Opcode.Text) || (op =? Opcode.Binary) then None
      else if (op =? Opcode.Ping) || (op =? Opcode.Pong) then
        if 125 <? len payload then Some (Ws ErrProtocol) else None
      else if op =? Opcode.Close then validateClose payload
      else Some (Ws ErrProtocol) in
    match err with
    | Some err => (s, Err err)
    | None => encodeFrame s op true payload compressed
    end.

Definition Encode (s : sender) (op : Z) (payload : list Z) : sender * output :=
  encode s op payload false.

Definition EncodeCompressed (s : sender) (op : Z) (payload : list Z) : sender * output :=
  if negb (op =? Opcode.Text) && negb (op =? Opcode.Binary) then (s, Err (Ws ErrProtocol))
  else encode s op payload true.

Definition EncodeFragment (s : sender) (op : Z) (final : bool) (payload : list Z) (compressed : bool)
    : sender * output :=
  if negb (op =? Opcode.Text) && negb (op =? Opcode.Binary) && negb (op =? Opcode.Continuation)
  then (s, Err (Ws ErrProtocol))
  else encodeFrame s op final payload compressed.

Definition EncodeClose (s : sender) (code : Z) (reason : list Z) : sender * output :=
  if code =? 0 then
    if negb (len reason =? 0) then (s, Err (Ws ErrProtocol)) else Encode s Opcode.Close []
  else if 123 <? len reason then (s, Err (Ws ErrProtocol))
  else
    let s := {| s with closeBuf := splice (closeBuf s) 0 (be_put 2 code) |} in
    let s := {| s with closeBuf := splice (closeBuf s) 2 reason |} in
    Encode s Opcode.Close (upto (closeBuf s) (2 + len reason)).

End ops.
End Tx.

Import Tx.

(** ** What is sent *)

(** Nothing beside [closeSent] changes what later calls send. *)
Definition tx_ok (s : sender) : Prop := len (closeBuf s) = 125 /\ bytes_ok (closeBuf s).

Definition tx_key (s : sender) (rnd : list Z) : option (list Z) :=
  if decide (role s = Client) then Some rnd else None.

Definition data_op (op : Z) : Prop :=
  op = Opcode.Text \/ op = Opcode.Binary \/ op = Opcode.Continuation.

(** The calls a connection makes. *)
Inductive call :=
  | CEncode (op : Z) (payload : list Z)
  | CCompressed (op : Z) (payload : list Z)
  | CFragment (op : Z) (final : bool) (payload : list Z) (compressed : bool)
  | CClose (code : Z) (reason : list Z).

Definition do_call `{Masker} `{Grow} (rnd : list Z) (s : sender) (c : call) : sender * output :=
  match c with
  | CEncode op p => Encode rnd s op p
  | CCompressed op p => EncodeCompressed rnd s op p
  | CFragment op final p compressed => EncodeFragment rnd s op final p compressed
  | CClose code reason => EncodeClose rnd s code reason
  end.

(** *** Specification: which calls succeed, and the frame they send *)

Definition call_ok (c : call) : Prop :=
  match c with
  | CEncode _ p | CCompressed _ p | CFragment _ _ p _ => payload_ok p
  | CClose code reason => 0 <= code < 2 ^ 16 /\ bytes_ok reason
  end.

Definition call_frame (c : call) (key : option (list Z)) : frame :=
  match c with
  | CEncode op p => Frame true false op key p
  | CCompressed op p => Frame true true op key p
  | CFragment op final p compressed =>
      Frame final (compressed && negb (op =? Opcode.Continuation)) op key p
  | CClose code reason =>
      Frame true false Opcode.Close key (if code =? 0 then [] else close_payload code reason)
  end.

Definition call_op (c : call) : Z := f_op (call_frame c None).

Definition call_allowed (closed : bool) (c : call) : bool :=
  (negb closed || (call_op c =? Opcode.Pong)) &&
  match c with
  | CEncode op p =>
      starts op || ((op =? Opcode.Ping) || (op =? Opcode.Pong)) && (len p <=? 125)
      || (op =? Opcode.Close) && bool_decide (validateClose p = None)
  | CCompressed op _ => starts op
  | CFragment op _ _ _ => starts op || (op =? Opcode.Continuation)
  | CClose code reason =>
      if code =? 0 then len reason =? 0
      else (len reason <=? 123) && bool_decide (validateClose (close_payload code reason) = None)
  end.

Section lemmas.
Context {M : Masker} `{!MaskerOk M} {G : Grow} `{!GrowOk G}.
Context (rnd : list Z) (Hrnd : bytes_ok rnd /\ len rnd = 4).

(** One frame written: [sent s s' f out]. *)
Definition sent (s s' : sender) (f : frame) (out : output) : Prop :=
  (exists h b, out = Ok (h, b) /\ h ++ b = wire f) /\ frame_ok f /\
  role s' = role s /\ (tx_ok s -> tx_ok s') /\
  closeSent s' = closeSent s || (f_op f =? Opcode.Close).

Lemma tx_key_ok s : key_ok (tx_key s rnd).
Proof. unfold tx_key. case_decide; [exact Hrnd | done]. Qed.

Lemma encodeFrame_sent s op final p (compressed : bool) :
  payload_ok p -> (closeSent s = true -> op = Opcode.Pong) ->
  (if compressed then data_op op else Enc.check final op p = None) ->
  let f := Frame final (compressed && negb (op =? Opcode.Continuation)) op (tx_key s rnd) p in
  let '(s', out) := encodeFrame rnd s op final p compressed in sent s s' f out.
Proof.
  intros Hp Hc Hop f. pose proof (tx_key_ok s) as Hk.
  assert (Enc.check final op p = None) as Hcheck.
  { destruct compressed; [| done]. by destruct Hop as [-> | [-> | ->]]. }
  assert (frame_ok f) as Hf by (split; [by eapply check_op_range | done]).
  unfold encodeFrame.
  replace (closeSent s && negb (op =? Opcode.Pong)) with false.
  2: { destruct (closeSent s); [| done]. rewrite (Hc eq_refl). done. }
  fold (tx_key s rnd).
  assert (exists s0, role s0 = role s /\ enc s0 = enc s /\ closeBuf s0 = closeBuf s /\
    closeSent s0 = closeSent s /\
    (if decide (role s = Client) then ({| s with key := rnd |}, Some rnd) else (s, None))
      = (s0, tx_key s rnd)) as (s0 & Er & Ee & Eb & Ec & ->).
  { exists (if decide (role s = Client) then {| s with key := rnd |} else s).
    unfold tx_key. case_decide; by split_and!. }
  assert (let '(e, err) := if compressed then Enc.EncodeCompressed (enc s0) final op p (tx_key s rnd)
             else Enc.Encode (enc s0) final op p (tx_key s rnd) in
          err = None /\ Enc.HeaderBytes e ++ Enc.PayloadBytes e = wire f) as He.
  { destruct compressed.
    - pose proof (EncodeCompressed_ok (enc s0) final op p (tx_key s rnd) Hp Hk) as H.
      unfold data_op in Hop.
      destruct (Enc.EncodeCompressed _ _ _ _ _) as [e err].
      destruct H as (-> & _ & Hr & Hl & Hb); [tauto |]. split; [done |].
      unfold Enc.HeaderBytes, wire. rewrite Hb. f_equal. by eapply acc_bytes.
    - pose proof (Encode_ok (enc s0) final op p (tx_key s rnd) Hp Hk Hcheck) as H.
      destruct (Enc.Encode _ _ _ _ _) as [e err]. destruct H as (-> & _ & Hr & Hl & Hb).
      split; [done |]. unfold Enc.HeaderBytes, wire. rewrite Hb. f_equal. by eapply acc_bytes. }
  destruct (if compressed then _ else _) as [e err]. destruct He as [-> He].
  split; [exists (Enc.HeaderBytes e), (Enc.PayloadBytes e); by destruct (op =? Opcode.Close) |].
  split; [done |]. change (f_op f) with op. rewrite <- Er, <- Ec.
  unfold tx_ok. rewrite <- Eb. destruct (op =? Opcode.Close); cbn; by rewrite ?orb_false_r, ?orb_true_r.
Qed.

(** A call refused: nothing sent, nothing changed that later calls see. *)
Definition refused (s s' : sender) (out : output) : Prop :=
  (exists e, out = Err e) /\ role s' = role s /\ closeSent s' = closeSent s.

Definition call_post (s s' : sender) (c : call) (out : output) : Prop :=
  tx_ok s' /\ if call_allowed (closeSent s) c then sent s s' (call_frame c (tx_key s rnd)) out
              else refused s s' out.

Lemma refused_same s e : refused s s (Err e).
Proof. split; [by exists e | done]. Qed.

Lemma validateClose_len p : validateClose p = None -> len p <= 125 /\ len p <> 1.
Proof.
  unfold validateClose. destruct (Z.eqb_spec (len p) 0); [lia |].
  destruct (Z.ltb_spec (len p) 2); [done |]. destruct (Z.ltb_spec 125 (len p)); [done |]. lia.
Qed.

Lemma Encode_post s op p :
  tx_ok s -> payload_ok p ->
  let '(s', out) := Encode rnd s op p in call_post s s' (CEncode op p) out.
Proof.
  intros Hs Hp. unfold Encode, encode, call_post, call_allowed, call_op. cbn [call_frame f_op].
  destruct (closeSent s && negb (op =? Opcode.Pong)) eqn:Ec.
  { apply andb_prop in Ec as [-> Ec]. apply negb_true_iff in Ec. rewrite Ec. cbn.
    split; [done | apply refused_same]. }
  assert (negb (closeSent s) || (op =? Opcode.Pong) = true) as ->.
  { by destruct (closeSent s), (op =? Opcode.Pong). }
  assert (closeSent s = true -> op = Opcode.Pong) as Hc.
  { intros E. rewrite E in Ec. apply negb_false_iff, Z.eqb_eq in Ec. done. }
  pose proof (encodeFrame_sent s op true p false Hp Hc) as H. cbn [andb] in *.
  destruct (encodeFrame rnd s op true p false) as [s' out].
  assert (Enc.check true op p = None -> tx_ok s' /\ sent s s' (Frame true false op (tx_key s rnd) p) out) as Hsent.
  { intros Hk. specialize (H Hk). split; [| done].
    destruct H as (_ & _ & _ & Hs' & _). auto. }
  unfold starts. destruct ((op =? Opcode.Text) || (op =? Opcode.Binary)) eqn:Ed; cbn [orb].
  { apply Hsent. unfold Enc.check. apply orb_prop in Ed as [-> | ->]; by rewrite ?orb_true_r. }
  destruct ((op =? Opcode.Ping) || (op =? Opcode.Pong)) eqn:Epp; cbn [andb].
  - rewrite Z.ltb_antisym. destruct (Z.leb_spec (len p) 125) as [H125 | H125]; cbn [negb orb].
    + apply Hsent. apply orb_prop in Epp as [E%Z.eqb_eq | E%Z.eqb_eq]; subst op; unfold Enc.check; cbn;
        destruct (Z.ltb_spec 125 (len p)); done || lia.
    + destruct (Z.eqb_spec op Opcode.Close) as [-> |]; [done |]. cbn.
      split; [done | apply refused_same].
  - cbn [orb]. destruct (Z.eqb_spec op Opcode.Close) as [-> |]; cbn [andb].
    + destruct (validateClose p) as [e |] eqn:Ev.
      * rewrite bool_decide_eq_false_2 by done. split; [done | apply refused_same].
      * rewrite bool_decide_eq_true_2 by done. apply Hsent.
        destruct (validateClose_len p Ev). unfold Enc.check. cbn.
        destruct (Z.ltb_spec 125 (len p)), (Z.eqb_spec (len p) 1); done || lia.
    + split; [done | apply refused_same].
Qed.

Lemma closed_cases s op :
  (closeSent s && negb (op =? Opcode.Pong) = true /\
     negb (closeSent s) || (op =? Opcode.Pong) = false) \/
  (closeSent s && negb (op =? Opcode.Pong) = false /\
     negb (closeSent s) || (op =? Opcode.Pong) = true /\ (closeSent s = true -> op = Opcode.Pong)).
Proof.
  destruct (closeSent s), (Z.eqb_spec op Opcode.Pong); cbn; (left; by split_and!) || (right; by split_and!).
Qed.

Lemma sent_ok s s' f out : tx_ok s -> sent s s' f out -> tx_ok s'.
Proof. intros Hs (_ & _ & _ & Hs' & _). auto. Qed.

Lemma EncodeCompressed_post s op p :
  tx_ok s -> payload_ok p ->
  let '(s', out) := EncodeCompressed rnd s op p in call_post s s' (CCompressed op p) out.
Proof.
  intros Hs Hp. unfold EncodeCompressed, encode, call_post, call_allowed, call_op, starts.
  cbn [call_frame f_op].
  destruct ((op =? Opcode.Text) || (op =? Opcode.Binary)) eqn:Ed.
  2: { apply orb_false_elim in Ed as [-> ->]. cbn. rewrite andb_false_r. split; [done | apply refused_same]. }
  replace (negb (op =? Opcode.Text) && negb (op =? Opcode.Binary)) with false
    by (by apply orb_prop in Ed as [-> | ->]; rewrite ?andb_false_r).
  rewrite andb_true_r. destruct (closed_cases s op) as [[-> ->] | (-> & -> & Hc)].
  { split; [done | apply refused_same]. }
  pose proof (encodeFrame_sent s op true p true Hp Hc) as H.
  destruct (encodeFrame rnd s op true p true) as [s' out].
  assert ((op =? Opcode.Continuation) = false /\ data_op op) as [En Hd].
  { unfold data_op. apply orb_prop in Ed as [->%Z.eqb_eq | ->%Z.eqb_eq]; auto. }
  rewrite En in H. specialize (H Hd). split; [by eapply sent_ok | done].
Qed.

Lemma EncodeFragment_post s op final p compressed :
  tx_ok s -> payload_ok p ->
  let '(s', out) := EncodeFragment rnd s op final p compressed in
  call_post s s' (CFragment op final p compressed) out.
Proof.
  intros Hs Hp. unfold EncodeFragment, call_post, call_allowed, call_op, starts.
  cbn [call_frame f_op].
  destruct ((op =? Opcode.Text) || (op =? Opcode.Binary) || (op =? Opcode.Continuation)) eqn:Ed.
  2: { apply orb_false_elim in Ed as [[-> ->]%orb_false_elim ->]. rewrite andb_false_r.
    split; [done | apply refused_same]. }
  replace (negb (op =? Opcode.Text) && negb (op =? Opcode.Binary) && negb (op =? Opcode.Continuation))
    with false by (by apply orb_prop in Ed as [[-> | ->]%orb_prop | ->]; rewrite ?andb_false_r).
  rewrite andb_true_r.
  assert (data_op op) as Hd.
  { unfold data_op. rewrite !orb_true_iff, !Z.eqb_eq in Ed. tauto. }
  destruct (closed_cases s op) as [[Ec ->] | (_ & -> & Hc)].
  { unfold encodeFrame. rewrite Ec. split; [done | apply refused_same]. }
  pose proof (encodeFrame_sent s op final p compressed Hp Hc) as H.
  destruct (encodeFrame rnd s op final p compressed) as [s' out].
  assert (sent s s' (Frame final (compressed && negb (op =? Opcode.Continuation)) op (tx_key s rnd) p) out)
    by (apply H; destruct compressed; [done |]; by destruct Hd as [-> | [-> | ->]]).
  split; [by eapply sent_ok | done].
Qed.

Lemma call_allowed_close closed p :
  call_allowed closed (CEncode Opcode.Close p) = negb closed && bool_decide (validateClose p = None).
Proof. destruct closed; reflexivity. Qed.

Lemma EncodeClose_post s code reason :
  tx_ok s -> call_ok (CClose code reason) ->
  let '(s', out) := EncodeClose rnd s code reason in call_post s s' (CClose code reason) out.
Proof.
  intros Hs [Hcode Hre]. unfold EncodeClose. pose proof (len_nonneg reason).
  destruct (Z.eqb_spec code 0) as [-> | N].
  - destruct (Z.eqb_spec (len reason) 0) as [E | N]; cbn [negb].
    + pose proof (Encode_post s Opcode.Close [] Hs) as Hpost.
      destruct (Encode _ _ _ _) as [s' out]. destruct Hpost as [Hs' Hpost]; [by split; [constructor |] |].
      split; [done |]. rewrite call_allowed_close in Hpost. unfold call_allowed, call_op. cbn in *.
      by rewrite E, orb_false_r.
    + split; [done |]. unfold call_allowed. cbn. destruct (Z.eqb_spec (len reason) 0); [done |].
      rewrite andb_false_r. apply refused_same.
  - unfold call_post, call_allowed, call_op. cbn [call_frame f_op]. destruct (Z.eqb_spec code 0); [done |].
    rewrite orb_false_r. destruct (Z.ltb_spec 123 (len reason)), (Z.leb_spec (len reason) 123);
      [lia | | | lia]; cbn [andb].
    { rewrite andb_false_r. split; [done | apply refused_same]. }
    destruct Hs as [Hl Hb].
    set (buf := splice (splice (closeBuf s) 0 (be_put 2 code)) 2 reason). cbn [closeBuf].
    assert (len (be_put 2 code) = 2) as H2 by (unfold len; by rewrite length_be_put).
    assert (upto buf (2 + len reason) = close_payload code reason) as E.
    { unfold buf. rewrite upto_splice by (rewrite len_splice; lia).
      unfold close_payload. f_equal. }
    set (s1 := {| s with closeBuf := buf |}).
    assert (tx_ok s1) as Hs1.
    { split; cbn; unfold buf; [rewrite !len_splice; rewrite ?len_splice; lia |].
      apply bytes_ok_splice; [apply bytes_ok_splice |]; eauto with ews. }
    assert (payload_ok (close_payload code reason)) as Hp.
    { split; [apply bytes_ok_app; eauto with ews | rewrite close_payload_len; lia]. }
    pose proof (Encode_post s1 Opcode.Close (close_payload code reason) Hs1 Hp) as Hpost.
    fold buf. match goal with |- context [Encode rnd ?x] => change x with s1 end.
    rewrite E.
    destruct (Encode rnd s1 Opcode.Close (close_payload code reason)) as [s' out].
    destruct Hpost as [Hs' Hpost]. split; [done |]. rewrite call_allowed_close in Hpost.
    change (closeSent s1) with (closeSent s) in Hpost.
    destruct (negb (closeSent s) && _); [| exact Hpost].
    destruct Hpost as (Hw & Hf & Hro & _ & Hcs). by split_and!.
Qed.

Lemma do_call_post s c :
  tx_ok s -> call_ok c -> let '(s', out) := do_call rnd s c in call_post s s' c out.
Proof.
  intros Hs Hc. destruct c; cbn [do_call].
  - by apply Encode_post.
  - by apply EncodeCompressed_post.
  - by apply EncodeFragment_post.
  - by apply EncodeClose_post.
Qed.
End lemmas.

(** A run of calls, each with the key bytes it would draw, and the frames the
    successful ones put on the wire. *)
Fixpoint do_calls `{Masker} `{Grow} (s : sender) (cs : list (call * list Z))
    : sender * list (list Z) :=
  match cs with
  | [] => (s, [])
  | (c, rnd) :: cs =>
      let '(s, out) := do_call rnd s c in
      let '(s, outs) := do_calls s cs in
      (s, match out with Ok (h, b) => (h ++ b) :: outs | Err _ => outs end)
  end.

Definition calls_ok (cs : list (call * list Z)) : Prop :=
  Forall (fun '(c, rnd) => call_ok c /\ bytes_ok rnd /\ len rnd = 4) cs.

(** Only pongs follow a close frame. *)
Fixpoint close_last (closed : bool) (fs : list frame) : bool :=
  match fs with
  | [] => true
  | f :: fs => (negb closed || (f_op f =? Opcode.Pong)) && close_last (closed || (f_op f =? Opcode.Close)) fs
  end.

Lemma do_calls_post {M : Masker} `{!MaskerOk M} {G : Grow} `{!GrowOk G} s cs :
  tx_ok s -> calls_ok cs ->
  exists fs, (do_calls s cs).2 = wire <$> fs /\ Forall frame_ok fs /\ close_last (closeSent s) fs = true /\
    Forall (fun f => is_Some (f_key f) <-> role s = Client) fs.
Proof.
  intros Hs Hcs. revert s Hs. induction Hcs as [| [c rnd] cs [Hc Hr] _ IH]; intros s Hs.
  { by exists []. }
  cbn [do_calls]. pose proof (do_call_post rnd Hr s c Hs Hc) as H.
  destruct (do_call rnd s c) as [s1 out]. destruct H as [Hs1 H]. specialize (IH s1 Hs1).
  destruct (do_calls s1 cs) as [s2 outs]. cbn [snd] in *. destruct IH as (fs & -> & Hf & Hl & Hk).
  destruct (call_allowed (closeSent s) c) eqn:Ea.
  - destruct H as ((h & b & -> & Ew) & Hfo & Hro & _ & Hcl).
    exists (call_frame c (tx_key s rnd) :: fs). split; [cbn; by rewrite Ew |].
    split; [by constructor |]. rewrite Hcl, Hro in *. split.
    + cbn [close_last]. rewrite Hl, andb_true_r. unfold call_allowed in Ea.
      apply andb_prop in Ea as [Ea _]. by destruct c.
    + constructor; [| done]. destruct c; cbn; unfold tx_key; case_decide; split; intros X;
        try done; try (by destruct X); eauto.
  - destruct H as ((e & ->) & Hro & Hcl). rewrite Hcl, Hro in *. by exists fs.
Qed.

(** ** Properties *)

(** C20. Each sender call either sends one frame or changes nothing: it
    succeeds exactly when [call_allowed] says (opcode, size, close payload,
    nothing but pongs after a close), and then header and body are the wire
    form of the frame asked for, masked with a fresh key exactly on clients;
    a close frame marks the sender closed, and a refused call leaves role and
    close state alone. *)
Theorem sender_calls {M : Masker} `{!MaskerOk M} {G : Grow} `{!GrowOk G} rnd s c :
  bytes_ok rnd -> len rnd = 4 -> tx_ok s -> call_ok c ->
  let '(s', out) := do_call rnd s c in
  tx_ok s' /\ role s' = role s /\
  if call_allowed (closeSent s) c then
    (exists h b, out = Ok (h, b) /\ h ++ b = wire (call_frame c (tx_key s rnd))) /\
    closeSent s' = closeSent s || (call_op c =? Opcode.Close)
  else (exists e, out = Err e) /\ closeSent s' = closeSent s.
Proof.
  intros Hb Hl Hs Hc. pose proof (do_call_post rnd (conj Hb Hl) s c Hs Hc) as H.
  destruct (do_call rnd s c) as [s' out]. destruct H as [Hs' H].
  destruct (call_allowed (closeSent s) c).
  - destruct H as (Hw & _ & Hro & _ & Hcl). split_and!; try done. rewrite Hcl. by destruct c.
  - destruct H as (He & Hro & Hcl). by split_and!.
Qed.

#[local] Existing Instance double_growth.
#[local] Existing Instance double_growth_ok.

Definition client : sender := Init zero Client.

Lemma client_ok : tx_ok client.
Proof. split; [reflexivity | apply bytes_ok_zeros]. Qed.

Lemma sender_calls_witness :
  let c := CClose 1000 [98; 121; 101] in
  let '(s', out) := do_call (H := swar_masker) [1; 2; 3; 4] client c in
  tx_ok s' /\ role s' = Client /\
  (exists h b, out = Ok (h, b) /\ h ++ b = [136; 133; 1; 2; 3; 4; 2; 234; 97; 125; 100]) /\
  closeSent s' = true.
Proof.
  exact (sender_calls (M := swar_masker) [1; 2; 3; 4] client (CClose 1000 [98; 121; 101])
    ltac:(repeat constructor; unfold is_byte; lia) eq_refl client_ok
    ltac:(split; [lia | repeat constructor; unfold is_byte; lia])).
Defined.

(** Any run of sender calls puts a sequence of well-formed frames on the
    wire, all masked on a client and none on a server, with at most one close
    frame, which only pongs follow. *)
Theorem sender_trace {M : Masker} `{!MaskerOk M} {G : Grow} `{!GrowOk G} s0 ro cs :
  tx_ok s0 -> calls_ok cs ->
  exists fs, (do_calls (Init s0 ro) cs).2 = wire <$> fs /\ Forall frame_ok fs /\
    close_last false fs = true /\ Forall (fun f => is_Some (f_key f) <-> ro = Client) fs.
Proof. intros Hs Hcs. by apply (do_calls_post (Init s0 ro) cs). Qed.

Lemma sender_trace_witness :
  let cs := [(CClose 1001 [], [1; 2; 3; 4]); (CEncode Opcode.Text [65], [0; 0; 0; 0]);
             (CEncode Opcode.Pong [], [5; 6; 7; 8])] in
  exists fs, (do_calls (H := swar_masker) (Init zero Client) cs).2 = wire <$> fs /\
    Forall frame_ok fs /\ close_last false fs = true /\
    Forall (fun f => is_Some (f_key f) <-> Client = Client) fs.
Proof.
  apply (sender_trace (M := swar_masker) zero Client).
  - split; [reflexivity | apply bytes_ok_zeros].
  - unfold calls_ok. repeat constructor; cbn; unfold is_byte; lia.
Defined.
