(* ===== verification/Bufpool.v ===== *)
(** * The size-class buffer pool (internal/bufpool/bufpool.go)

    A [sync.Pool] may hand out any buffer it holds, or none, and may drop
    what it holds at any time: which one is an argument ([pick]) here.  The
    other components need only the capacity a buffer comes with, [get_cap]. *)

From stdpp Require Import prelude gmap.
From S2P Require Import Prelude.

Definition MinBits : Z := 10.
Definition MaxBits : Z := 26.

(** [bits.Len(uint(n))] *)
Definition bits_len (n : Z) : Z := if u64 n =? 0 then 0 else Z.log2 (u64 n) + 1.

Definition class (n : Z) : Z := Z.max MinBits (bits_len (n - 1)).

(** A [Buffer]: the length of its slice and its capacity; whatever a previous
    holder left is never read. *)
Record Buffer := mkBuffer { blen : Z; capacity : Z }.

(** The pools, by class. *)
Definition pools : Type := gmap Z (list Buffer).

Module Bp.

Definition held (ps : pools) (c : Z) : list Buffer := default [] (ps !! c).

Definition Get (ps : pools) (pick : option nat) (n : Z) : pools * Buffer :=
  if Z.shiftl 1 MaxBits <? n then (ps, {| blen := 0; capacity := n |})
  else
    let c := class n in
    match pick ≫= (fun i => pair i <$> held ps c !! i) with
    | Some (i, b) => (<[c := delete i (held ps c)]> ps, {| b with blen := 0 |})
    | None => (ps, {| blen := 0; capacity := Z.shiftl 1 c |})
    end.

(** The class [Put] files a buffer of capacity [c] under, if any. *)
Definition put_class (c : Z) : option Z :=
  if (c <? Z.shiftl 1 MinBits) || (Z.shiftl 1 MaxBits <? c) || negb (Z.land c (c - 1) =? 0)
  then None else Some (bits_len c - 1).

Definition Put (ps : pools) (b : option Buffer) : pools :=
  match b with
  | None => ps
  | Some b =>
      match put_class (capacity b) with
      | None => ps
      | Some k => <[k := {| b with blen := 0 |} :: held ps k]> ps
      end
  end.

End Bp.

(** The capacity [Get] comes with, whatever the pool holds ([pool_capacity]). *)
Definition get_cap (n : Z) : Z := if Z.shiftl 1 MaxBits <? n then n else Z.shiftl 1 (class n).

(** ** Specification *)

(** Every pooled buffer is of its class's capacity. *)
Definition pools_ok (ps : pools) : Prop :=
  forall c bs b, ps !! c = Some bs -> b ∈ bs -> blen b = 0 /\ capacity b = 2 ^ c /\ MinBits <= c <= MaxBits.

(** What the rest of the program and the collector may do. *)
Inductive pool_step (ps : pools) : pools -> Prop :=
  | pool_get pick n : pool_step ps (Bp.Get ps pick n).1
  | pool_put b : pool_step ps (Bp.Put ps b)
  | pool_drop c bs : bs ⊆ Bp.held ps c -> pool_step ps (<[c := bs]> ps).

Lemma bits_len_bounds n : 0 < n < 2 ^ 64 -> 2 ^ (bits_len n - 1) <= n < 2 ^ bits_len n.
Proof.
  intros Hn. unfold bits_len, u64. rewrite Z.mod_small by lia. destruct (Z.eqb_spec n 0); [lia |].
  pose proof (Z.log2_spec n ltac:(lia)) as [H1 H2].
  replace (Z.log2 n + 1 - 1) with (Z.log2 n) by lia. rewrite Z.add_1_r. by split.
Qed.

Lemma bits_len_0 : bits_len 0 = 0.
Proof. done. Qed.

(** The class is the least one that fits. *)
Lemma class_spec n :
  0 < n <= 2 ^ MaxBits ->
  MinBits <= class n <= MaxBits /\ n <= 2 ^ class n /\ (MinBits < class n -> 2 ^ class n < 2 * n).
Proof.
  unfold MaxBits. intros Hn. unfold class, MinBits. destruct (decide (n = 1)) as [-> | H1].
  { change (bits_len (1 - 1)) with 0. change (2 ^ (10 `max` 0)) with 1024. lia. }
  pose proof (bits_len_bounds (n - 1) ltac:(lia)) as [Hl Hu]. set (k := bits_len (n - 1)) in *.
  assert (0 < k) as Hk.
  { destruct (Z.leb_spec k 0); [| done]. assert (2 ^ k <= 2 ^ 0) by (by apply Z.pow_le_mono_r). lia. }
  assert (k <= 26) as Hk26.
  { destruct (Z.leb_spec k 26); [done |].
    assert (2 ^ 26 <= 2 ^ (k - 1)) by (apply Z.pow_le_mono_r; lia). lia. }
  split; [lia |]. split.
  - assert (2 ^ k <= 2 ^ Z.max 10 k) by (apply Z.pow_le_mono_r; lia). lia.
  - intros Hm. replace (Z.max 10 k) with k by lia.
    assert (2 ^ k = 2 * 2 ^ (k - 1)) as -> by (rewrite <- Z.pow_succ_r by lia; f_equal; lia). lia.
Qed.

Lemma get_cap_ge n : n <= get_cap n.
Proof.
  unfold get_cap. change (Z.shiftl 1 MaxBits) with (2 ^ MaxBits).
  destruct (Z.ltb_spec (2 ^ MaxBits) n); [lia |].
  destruct (Z.leb_spec n 0).
  - rewrite Z.shiftl_1_l. assert (0 < 2 ^ class n); [| lia].
    apply Z.pow_pos_nonneg; unfold class, MinBits; lia.
  - rewrite Z.shiftl_1_l. by apply class_spec.
Qed.

(** A power of two in range is filed under its exponent. *)
Lemma put_class_pow k : MinBits <= k <= MaxBits -> Bp.put_class (2 ^ k) = Some k.
Proof.
  unfold MinBits, MaxBits. intros Hk.
  assert (k ∈ seqZ 10 17) as Hin by (apply elem_of_seqZ; lia).
  cbn in Hin. repeat (apply elem_of_cons in Hin as [-> | Hin]; [reflexivity |]).
  by apply elem_of_nil in Hin.
Qed.

(** A number sharing no bit with its predecessor is a power of two. *)
Lemma land_pred_pow c : 0 < c -> Z.land c (c - 1) = 0 -> c = 2 ^ Z.log2 c.
Proof.
  intros Hc Hl. pose proof (Z.log2_spec c Hc) as [H1 H2]. set (k := Z.log2 c) in *.
  destruct (Z.eqb_spec c (2 ^ k)) as [| Hne]; [done |]. exfalso.
  assert (0 <= k) by apply Z.log2_nonneg.
  assert (Z.testbit (Z.land c (c - 1)) k = true) as Hb; [| by rewrite Hl, Z.bits_0 in Hb].
  rewrite Z.land_spec. apply andb_true_intro. rewrite !Z.testbit_true by done. split.
  - replace (c / 2 ^ k) with 1; [done |]. apply Z.div_unique with (c - 2 ^ k); [| lia].
    left. rewrite Z.pow_succ_r in H2 by done. lia.
  - replace ((c - 1) / 2 ^ k) with 1; [done |]. apply Z.div_unique with (c - 1 - 2 ^ k); [| lia].
    left. rewrite Z.pow_succ_r in H2 by done. lia.
Qed.

Lemma put_class_inv c k : Bp.put_class c = Some k -> c = 2 ^ k /\ MinBits <= k <= MaxBits.
Proof.
  unfold Bp.put_class. change (Z.shiftl 1 MinBits) with (2 ^ 10). change (Z.shiftl 1 MaxBits) with (2 ^ 26).
  destruct (Z.ltb_spec c (2 ^ 10)), (Z.ltb_spec (2 ^ 26) c), (Z.eqb_spec (Z.land c (c - 1)) 0) as [El |];
    cbn [orb negb]; intros [= <-]; try done.
  pose proof (land_pred_pow c ltac:(lia) El) as Ec. unfold bits_len, u64. rewrite Z.mod_small by lia.
  destruct (Z.eqb_spec c 0); [lia |]. replace (Z.log2 c + 1 - 1) with (Z.log2 c) by lia.
  split; [done |]. unfold MinBits, MaxBits.
  assert (Z.log2 (2 ^ 10) <= Z.log2 c <= Z.log2 (2 ^ 26)) as Hl by (split; apply Z.log2_le_mono; lia).
  rewrite !Z.log2_pow2 in Hl by lia. done.
Qed.

Lemma pools_ok_insert ps c bs :
  pools_ok ps ->
  (forall b, b ∈ bs -> blen b = 0 /\ capacity b = 2 ^ c /\ MinBits <= c <= MaxBits) ->
  pools_ok (<[c := bs]> ps).
Proof.
  intros Hps Hb c' bs' b H Hin. apply lookup_insert_Some in H as [[<- <-] | [_ H]]; eauto.
Qed.

Lemma held_ok ps c b :
  pools_ok ps -> b ∈ Bp.held ps c -> blen b = 0 /\ capacity b = 2 ^ c /\ MinBits <= c <= MaxBits.
Proof.
  unfold Bp.held. intros Hps Hin. destruct (ps !! c) as [bs |] eqn:E; [eauto |]. by apply elem_of_nil in Hin.
Qed.

Lemma pool_step_ok ps ps' : pools_ok ps -> pool_step ps ps' -> pools_ok ps'.
Proof.
  intros Hps [pick n | b | c bs Hbs].
  - unfold Bp.Get. destruct (_ <? n); [done |].
    destruct (pick ≫= _) as [[i b] |]; [| done]. cbn [fst].
    apply pools_ok_insert; [done |]. intros b' Hin. apply (held_ok ps _ b' Hps).
    apply list_elem_of_lookup in Hin as [j Hj]. apply list_elem_of_lookup.
    destruct (decide (j < i)%nat).
    + exists j. by rewrite list_lookup_delete_lt in Hj.
    + exists (S j). rewrite list_lookup_delete_ge in Hj by lia. done.
  - unfold Bp.Put. destruct b as [b |]; [| done].
    destruct (Bp.put_class (capacity b)) as [k |] eqn:E; [| done]. apply put_class_inv in E as [Ec Hk].
    apply pools_ok_insert; [done |]. intros b' [-> | Hin]%elem_of_cons; [done |]. by apply (held_ok ps).
  - apply pools_ok_insert; [done |]. intros b Hin. apply (held_ok ps); auto.
Qed.

Lemma pool_capacity ps pick n :
  pools_ok ps -> let b := (Bp.Get ps pick n).2 in blen b = 0 /\ capacity b = get_cap n.
Proof.
  intros Hps. unfold Bp.Get, get_cap. destruct (_ <? n); [done |].
  destruct (pick ≫= _) as [[i b] |] eqn:E; [| done]. cbn. split; [done |].
  apply bind_Some in E as (i' & _ & E). apply fmap_Some in E as (b' & Hb & [= <- <-]).
  rewrite Z.shiftl_1_l. apply (held_ok ps); [done |]. apply list_elem_of_lookup. eauto.
Qed.

(** ** Properties *)

(** C35. The pools never mix sizes: after any sequence of gets, puts of any
    buffers whatever and collections, starting from empty pools, a buffer got
    for [n] bytes is empty and holds at least [n], less than twice as much
    unless it is of the smallest class; and putting it back files it where a
    request of the same size looks, unless it is too large to pool. *)
Theorem pool_sizes ps pick n :
  rtc pool_step ∅ ps -> 0 < n ->
  let b := (Bp.Get ps pick n).2 in
  blen b = 0 /\ n <= capacity b /\ capacity b < Z.max (2 ^ MinBits + 1) (2 * n) /\
  Bp.put_class (capacity b) = if 2 ^ MaxBits <? n then None else Some (class n).
Proof.
  intros Hr Hn. assert (pools_ok ps) as Hps.
  { assert (pools_ok ∅) as H0 by (intros c bs b H; by apply lookup_empty_Some in H).
    revert H0. induction Hr; [done |]. intros H0. apply IHHr. by eapply pool_step_ok. }
  intros b. destruct (pool_capacity ps pick n Hps) as [Hb Hc]. fold b in Hb, Hc.
  rewrite Hc. split; [done |]. split; [apply get_cap_ge |].
  unfold get_cap. change (Z.shiftl 1 MaxBits) with (2 ^ MaxBits).
  destruct (Z.ltb_spec (2 ^ MaxBits) n) as [Hl | Hl].
  - split; [lia |]. unfold Bp.put_class. change (Z.shiftl 1 MaxBits) with (2 ^ MaxBits).
    destruct (Z.ltb_spec (2 ^ MaxBits) n); [| lia]. by rewrite orb_true_r.
  - pose proof (class_spec n ltac:(lia)) as (Hk & _ & Hlt). rewrite Z.shiftl_1_l. split.
    + destruct (decide (MinBits < class n)); [specialize (Hlt ltac:(done)); lia |].
      replace (class n) with MinBits by lia. lia.
    + by apply put_class_pow.
Qed.

Lemma pool_sizes_witness :
  let ps := Bp.Put (Bp.Put ∅ (Some (mkBuffer 7 4096))) (Some (mkBuffer 0 5000)) in
  let b := (Bp.Get ps (Some O) 3000).2 in
  blen b = 0 /\ 3000 <= capacity b /\ Bp.put_class (capacity b) = Some 12.
Proof.
  pose proof (pool_sizes (Bp.Put (Bp.Put ∅ (Some (mkBuffer 7 4096))) (Some (mkBuffer 0 5000))) (Some O) 3000) as H.
  destruct H as (H1 & H2 & _ & H4); [| lia |].
  - eapply rtc_l; [apply (pool_put ∅ (Some (mkBuffer 7 4096))) |].
    eapply rtc_l; [apply (pool_put _ (Some (mkBuffer 0 5000))) |]. apply rtc_refl.
  - split; [exact H1 | split; [exact H2 | exact H4]].
Defined.
