(* ===== verification/Strings.v ===== *)
(** * Go strings

    A Go string is its bytes.  The functions of the [strings], [strconv] and
    [encoding/base64] packages the handshake uses, on byte lists.  Where a Go
    function works on runes, the few non-ASCII runes that matter (white space,
    and the letters that fold or lower to an ASCII one) are recognised by
    their UTF-8 bytes: a lead byte starts a rune wherever it stands, so the
    byte sequence and the rune are the same thing. *)

From stdpp Require Import prelude strings.
From S2P Require Import Prelude.

Definition str (s : string) : list Z := (fun c => Z.of_N (Ascii.N_of_ascii c)) <$> String.list_ascii_of_string s.
Arguments str s%_string.

(** ** Splitting *)

(** [strings.SplitSeq] and [strings.Split] with a one-byte separator. *)
Fixpoint split (sep : Z) (l : list Z) : list (list Z) :=
  match l with
  | [] => [[]]
  | b :: l =>
      if b =? sep then [] :: split sep l
      else match split sep l with [] => [[b]] | w :: ws => (b :: w) :: ws end
  end.

(** [strings.Cut] with a one-byte separator: before, after, found. *)
Fixpoint cut (sep : Z) (l : list Z) : list Z * list Z * bool :=
  match l with
  | [] => ([], [], false)
  | b :: l =>
      if b =? sep then ([], l, true)
      else let '(before, after, found) := cut sep l in (b :: before, after, found)
  end.

(** [strings.Join] *)
Fixpoint join (sep : list Z) (ws : list (list Z)) : list Z :=
  match ws with
  | [] => []
  | [w] => w
  | w :: ws => w ++ sep ++ join sep ws
  end.

(** ** Trimming *)

(** The runes [unicode.IsSpace] accepts, in UTF-8. *)
Definition spaces : list (list Z) :=
  [[9]; [10]; [11]; [12]; [13]; [32]; [0xC2; 0x85]; [0xC2; 0xA0]; [0xE1; 0x9A; 0x80]]
  ++ ((fun b => [0xE2; 0x80; b]) <$> [0x80; 0x81; 0x82; 0x83; 0x84; 0x85; 0x86; 0x87; 0x88; 0x89;
                                      0x8A; 0xA8; 0xA9; 0xAF])
  ++ [[0xE2; 0x81; 0x9F]; [0xE3; 0x80; 0x80]].

(** The rest of [l] after one of the prefixes [ps], if it starts with one. *)
Fixpoint strip_prefix (p l : list Z) : option (list Z) :=
  match p, l with
  | [], _ => Some l
  | b :: p, c :: l => if b =? c then strip_prefix p l else None
  | _ :: _, [] => None
  end.

Fixpoint strip_one (ps : list (list Z)) (l : list Z) : option (list Z) :=
  match ps with
  | [] => None
  | p :: ps => match strip_prefix p l with Some r => Some r | None => strip_one ps l end
  end.

Fixpoint strip_all (fuel : nat) (ps : list (list Z)) (l : list Z) : list Z :=
  match fuel with
  | O => l
  | S fuel => match strip_one ps l with Some r => strip_all fuel ps r | None => l end
  end.

Definition trim_left (ps : list (list Z)) (l : list Z) : list Z := strip_all (length l) ps l.
Definition trim_right (ps : list (list Z)) (l : list Z) : list Z :=
  reverse (trim_left (@reverse Z <$> ps) (reverse l)).

(** [strings.TrimSpace], and [strings.Trim] with one character. *)
Definition TrimSpace (l : list Z) : list Z := trim_right spaces (trim_left spaces l).
Definition Trim (c : Z) (l : list Z) : list Z := trim_right [[c]] (trim_left [[c]] l).

(** ** Case *)

Definition lower (b : Z) : Z := if (65 <=? b) && (b <=? 90) then b + 32 else b.

(** [strings.ToLower], as far as ASCII results go: U+0130 lowers to "i" and
    U+212A to "k"; other non-ASCII runes stay non-ASCII. *)
Fixpoint ToLower (l : list Z) : list Z :=
  match l with
  | [] => []
  | b :: l' =>
      match l' with
      | c :: l'' =>
          if (b =? 0xC4) && (c =? 0xB0) then 105 :: ToLower l''
          else
            match l'' with
            | d :: l3 =>
                if (b =? 0xE2) && (c =? 0x84) && (d =? 0xAA) then 107 :: ToLower l3
                else lower b :: ToLower l'
            | [] => lower b :: ToLower l'
            end
      | [] => [lower b]
      end
  end.

(** Simple folding, as far as ASCII is concerned: U+017F folds with "s" and
    U+212A with "k". *)
Fixpoint fold (l : list Z) : list Z :=
  match l with
  | [] => []
  | b :: l' =>
      match l' with
      | c :: l'' =>
          if (b =? 0xC5) && (c =? 0xBF) then 115 :: fold l''
          else
            match l'' with
            | d :: l3 =>
                if (b =? 0xE2) && (c =? 0x84) && (d =? 0xAA) then 107 :: fold l3
                else lower b :: fold l'
            | [] => lower b :: fold l'
            end
      | [] => [lower b]
      end
  end.

(** [strings.EqualFold]; exact when either argument is ASCII, as every token
    of the handshake is. *)
Definition EqualFold (s t : list Z) : bool := bool_decide (fold s = fold t).

(** ** Numbers: [strconv.Itoa] and [strconv.Atoi] *)

Definition digit (b : Z) : option Z := if (48 <=? b) && (b <=? 57) then Some (b - 48) else None.

Fixpoint digits (acc : Z) (l : list Z) : option Z :=
  match l with
  | [] => Some acc
  | b :: l => match digit b with Some d => digits (10 * acc + d) l | None => None end
  end.

(** [None] on a syntax or range error. *)
Definition Atoi (l : list Z) : option Z :=
  let neg := bool_decide (head l = Some 45) in
  let ds := if neg || bool_decide (head l = Some 43) then tail l else l in
  if bool_decide (ds = []) then None
  else
    match digits 0 ds with
    | Some v =>
        let n := if neg then - v else v in
        if (- 2 ^ 63 <=? n) && (n <? 2 ^ 63) then Some n else None
    | None => None
    end.

Fixpoint itoa_digits (fuel : nat) (n : Z) (acc : list Z) : list Z :=
  match fuel with
  | O => acc
  | S fuel =>
      let acc := (48 + n mod 10) :: acc in
      if n <? 10 then acc else itoa_digits fuel (n / 10) acc
  end.

(** Twenty digits hold every 64-bit integer. *)
Definition Itoa (n : Z) : list Z :=
  if n <? 0 then 45 :: itoa_digits 20 (- n) [] else itoa_digits 20 n [].

(** ** [base64.StdEncoding] *)

Definition b64_char (v : Z) : Z :=
  if v <? 26 then 65 + v else if v <? 52 then 97 + (v - 26) else if v <? 62 then 48 + (v - 52)
  else if v =? 62 then 43 else 47.

Definition b64_value (c : Z) : option Z :=
  if (65 <=? c) && (c <=? 90) then Some (c - 65)
  else if (97 <=? c) && (c <=? 122) then Some (c - 97 + 26)
  else if (48 <=? c) && (c <=? 57) then Some (c - 48 + 52)
  else if c =? 43 then Some 62 else if c =? 47 then Some 63 else None.

Fixpoint EncodeToString (l : list Z) : list Z :=
  match l with
  | a :: b :: c :: l =>
      let v := a * 65536 + b * 256 + c in
      b64_char (v / 262144) :: b64_char (v / 4096 mod 64) :: b64_char (v / 64 mod 64)
        :: b64_char (v mod 64) :: EncodeToString l
  | [a; b] =>
      let v := a * 65536 + b * 256 in
      [b64_char (v / 262144); b64_char (v / 4096 mod 64); b64_char (v / 64 mod 64); 61]
  | [a] =>
      let v := a * 65536 in
      [b64_char (v / 262144); b64_char (v / 4096 mod 64); 61; 61]
  | [] => []
  end.

(** The decoder ignores line breaks, wants complete groups with padding and
    does not check the unused bits. *)
Fixpoint decode_groups (l : list Z) : option (list Z) :=
  match l with
  | [] => Some []
  | a :: b :: c :: d :: l =>
      match b64_value a, b64_value b with
      | Some a, Some b =>
          if c =? 61 then
            if (d =? 61) && bool_decide (l = []) then Some [(a * 64 + b) / 16] else None
          else
            match b64_value c with
            | None => None
            | Some c =>
                if d =? 61 then
                  let v := a * 4096 + b * 64 + c in
                  if bool_decide (l = []) then Some [v / 1024; v / 4 mod 256] else None
                else
                  match b64_value d, decode_groups l with
                  | Some d, Some r =>
                      let v := a * 262144 + b * 4096 + c * 64 + d in
                      Some (v / 65536 :: v / 256 mod 256 :: v mod 256 :: r)
                  | _, _ => None
                  end
            end
      | _, _ => None
      end
  | _ => None
  end.

Definition DecodeString (l : list Z) : option (list Z) :=
  decode_groups (filter (fun b => b <> 10 /\ b <> 13) l).

(** ** Lemmas: base64 *)

(** A visible ASCII character other than the comma. *)
Definition token_byte (b : Z) : Prop := 33 <= b <= 126 /\ b <> 44.

Lemma b64_value_char v :
  0 <= v < 64 -> b64_value (b64_char v) = Some v /\ 43 <= b64_char v <= 122 /\ b64_char v <> 61 /\ b64_char v <> 44.
Proof.
  intros H. unfold b64_char, b64_value.
  repeat match goal with |- context [?a <? ?b] => destruct (Z.ltb_spec a b) end;
  repeat match goal with |- context [?a =? ?b] => destruct (Z.eqb_spec a b) end;
  repeat match goal with |- context [?a <=? ?b] => destruct (Z.leb_spec a b) end; cbn [andb];
  try lia; split; try lia; f_equal; lia.
Qed.

Lemma list_ind3 {A} (P : list A -> Prop) :
  P [] -> (forall a, P [a]) -> (forall a b, P [a; b]) ->
  (forall a b c l, P l -> P (a :: b :: c :: l)) -> forall l, P l.
Proof.
  intros H0 H1 H2 H3. fix go 1. intros [| a [| b [| c l]]]; [done | done | done |].
  apply H3, go.
Qed.

Lemma b64_digits v :
  0 <= v < 2 ^ 24 ->
  0 <= v / 262144 < 64 /\ 0 <= v / 4096 mod 64 < 64 /\ 0 <= v / 64 mod 64 < 64 /\ 0 <= v mod 64 < 64 /\
  v / 262144 * 262144 + v / 4096 mod 64 * 4096 + v / 64 mod 64 * 64 + v mod 64 = v.
Proof. intros. Z.to_euclidean_division_equations. lia. Qed.

Lemma byte_digits a b c :
  is_byte a -> is_byte b -> is_byte c ->
  let v := a * 65536 + b * 256 + c in
  0 <= v < 2 ^ 24 /\ v / 65536 = a /\ v / 256 mod 256 = b /\ v mod 256 = c.
Proof. unfold is_byte. cbv zeta. intros. Z.to_euclidean_division_equations. lia. Qed.

Lemma b64_char_ok l : bytes_ok l -> Forall token_byte (EncodeToString l).
Proof.
  induction l as [| a | a b | a b c l IH] using list_ind3; intros H;
    repeat (apply Forall_cons in H as [? H]); cbn [EncodeToString]; cbv zeta.
  - constructor.
  - pose proof (byte_digits a 0 0) as Hv. destruct Hv as (Hv & _); [done | done | done |].
    replace (a * 65536 + 0 * 256 + 0) with (a * 65536) in Hv by lia.
    destruct (b64_digits _ Hv) as (D1 & D2 & _).
    pose proof (b64_value_char _ D1). pose proof (b64_value_char _ D2). repeat constructor; lia.
  - pose proof (byte_digits a b 0) as Hv. destruct Hv as (Hv & _); [done | done | done |].
    replace (a * 65536 + b * 256 + 0) with (a * 65536 + b * 256) in Hv by lia.
    destruct (b64_digits _ Hv) as (D1 & D2 & D3 & _).
    pose proof (b64_value_char _ D1). pose proof (b64_value_char _ D2). pose proof (b64_value_char _ D3).
    repeat constructor; lia.
  - destruct (byte_digits a b c) as (Hv & _); [done | done | done |].
    destruct (b64_digits _ Hv) as (D1 & D2 & D3 & D4 & _).
    pose proof (b64_value_char _ D1). pose proof (b64_value_char _ D2). pose proof (b64_value_char _ D3).
    pose proof (b64_value_char _ D4). repeat constructor; try lia. by apply IH.
Qed.

Lemma decode_encode l : bytes_ok l -> decode_groups (EncodeToString l) = Some l.
Proof.
  induction l as [| a | a b | a b c l IH] using list_ind3; intros H;
    repeat (apply Forall_cons in H as [? H]); cbn [EncodeToString]; cbv zeta.
  - done.
  - destruct (byte_digits a 0 0) as (Hv & Ea & _); [done | done | done |].
    replace (a * 65536 + 0 * 256 + 0) with (a * 65536) in Hv, Ea by lia.
    destruct (b64_digits _ Hv) as (D1 & D2 & _ & _ & _).
    pose proof (b64_value_char _ D1) as (V1 & _). pose proof (b64_value_char _ D2) as (V2 & _).
    cbn [decode_groups]. rewrite V1, V2. cbn. do 2 f_equal.
    clear -Ea. Z.to_euclidean_division_equations. lia.
  - destruct (byte_digits a b 0) as (Hv & Ea & Eb & _); [done | done | done |].
    replace (a * 65536 + b * 256 + 0) with (a * 65536 + b * 256) in Hv, Ea, Eb by lia.
    destruct (b64_digits _ Hv) as (D1 & D2 & D3 & _ & Es).
    pose proof (b64_value_char _ D1) as (V1 & _). pose proof (b64_value_char _ D2) as (V2 & _).
    pose proof (b64_value_char _ D3) as (V3 & _ & N3%Z.eqb_neq & _).
    cbn [decode_groups]. rewrite V1, V2, N3, V3. cbn [Z.eqb Pos.eqb]. rewrite bool_decide_eq_true_2 by done.
    clear -Ea Eb. do 2 f_equal; [| f_equal]; Z.to_euclidean_division_equations; lia.
  - destruct (byte_digits a b c) as (Hv & Ea & Eb & Ec); [done | done | done |].
    set (v := a * 65536 + b * 256 + c) in *.
    destruct (b64_digits _ Hv) as (D1 & D2 & D3 & D4 & Es).
    pose proof (b64_value_char _ D1) as (V1 & _). pose proof (b64_value_char _ D2) as (V2 & _).
    pose proof (b64_value_char _ D3) as (V3 & _ & N3%Z.eqb_neq & _).
    pose proof (b64_value_char _ D4) as (V4 & _ & N4%Z.eqb_neq & _).
    cbn [decode_groups]. rewrite V1, V2, N3, V3, N4, V4, IH by done.
    cbv zeta. rewrite Es, Ea, Eb, Ec. done.
Qed.

(** Base64 round-trips, through the decoder that skips line breaks. *)
Lemma DecodeString_encode l : bytes_ok l -> DecodeString (EncodeToString l) = Some l.
Proof.
  intros H. unfold DecodeString. rewrite <- (decode_encode l H). f_equal.
  pose proof (b64_char_ok l H) as Hc. induction Hc as [| x k Hx Hk IH]; [done |].
  rewrite filter_cons_True by (unfold token_byte in Hx; lia). by rewrite IH.
Qed.

(** ** Lemmas: tokens *)

Definition token_ok (w : list Z) : Prop := w <> [] /\ Forall token_byte w.

Definition heads_outside (ps : list (list Z)) : bool :=
  forallb (fun p => match p with [] => false | c :: _ => (c <=? 32) || (127 <=? c) end) ps.

Lemma strip_one_token ps b l : heads_outside ps = true -> token_byte b -> strip_one ps (b :: l) = None.
Proof.
  intros Hp [Hb _]. induction ps as [| [| c p] ps IH]; [done | done |].
  apply andb_prop in Hp as [Hc Hp]. cbn. destruct (Z.eqb_spec c b) as [-> | _]; [| by apply IH].
  apply orb_prop in Hc as [Hc | Hc]; apply Z.leb_le in Hc; lia.
Qed.

Lemma strip_all_token fuel ps b l :
  heads_outside ps = true -> token_byte b -> strip_all fuel ps (b :: l) = b :: l.
Proof. intros Hp Hb. destruct fuel; [done |]. cbn [strip_all]. by rewrite strip_one_token. Qed.

Lemma spaces_heads : heads_outside spaces = true.
Proof. reflexivity. Qed.

Lemma spaces_lasts : heads_outside (@reverse Z <$> spaces) = true.
Proof. reflexivity. Qed.

Lemma trim_right_token w : token_ok w -> trim_right spaces w = w.
Proof.
  intros [Hn Hw]. unfold trim_right, trim_left.
  destruct (reverse w) as [| b l] eqn:E.
  { apply (f_equal reverse) in E. rewrite reverse_involutive in E. done. }
  rewrite strip_all_token; [rewrite <- E; apply reverse_involutive | apply spaces_lasts |].
  apply Forall_reverse in Hw. rewrite E in Hw. by apply Forall_inv in Hw.
Qed.

Lemma TrimSpace_token w : token_ok w -> TrimSpace w = w.
Proof.
  intros Hw. unfold TrimSpace. replace (trim_left spaces w) with w; [by apply trim_right_token |].
  destruct Hw as [Hn Hw]. destruct w as [| b l]; [done |]. unfold trim_left.
  by rewrite strip_all_token by (apply spaces_heads || by apply Forall_inv in Hw).
Qed.

Lemma TrimSpace_space_token w : token_ok w -> TrimSpace (32 :: w) = w.
Proof.
  intros Hw. unfold TrimSpace. replace (trim_left spaces (32 :: w)) with w; [by apply trim_right_token |].
  destruct Hw as [Hn Hw]. destruct w as [| b l]; [done |]. unfold trim_left.
  change (strip_all (length (32 :: b :: l)) spaces (32 :: b :: l))
    with (strip_all (length (b :: l)) spaces (b :: l)).
  by rewrite strip_all_token by (apply spaces_heads || by apply Forall_inv in Hw).
Qed.

(** What [TrimSpace] leaves alone: nothing, or visible characters at both ends. *)
Lemma TrimSpace_ends b w e :
  token_byte b -> token_byte e -> TrimSpace (32 :: b :: w ++ [e]) = b :: w ++ [e].
Proof.
  intros Hb He. unfold TrimSpace. replace (trim_left spaces (32 :: b :: w ++ [e])) with (b :: w ++ [e]).
  - unfold trim_right, trim_left. rewrite app_comm_cons, reverse_app. cbn [reverse app].
    change (reverse [e] ++ reverse (b :: w)) with (e :: reverse (b :: w)).
    rewrite strip_all_token by (done || apply spaces_lasts).
    change (e :: reverse (b :: w)) with (reverse [e] ++ reverse (b :: w)).
    by rewrite <- reverse_app, reverse_involutive.
  - unfold trim_left.
    change (strip_all (length (32 :: b :: w ++ [e])) spaces (32 :: b :: w ++ [e]))
      with (strip_all (length (b :: w ++ [e])) spaces (b :: w ++ [e])).
    by rewrite strip_all_token by (done || apply spaces_heads).
Qed.

(** *** Cutting and splitting at a byte *)

Lemma cut_found sep l rest : sep ∉ l -> cut sep (l ++ sep :: rest) = (l, rest, true).
Proof.
  induction l as [| b l IH]; intros Hn; cbn [app cut]; [by rewrite Z.eqb_refl |].
  apply not_elem_of_cons in Hn as [Hb Hl]. destruct (Z.eqb_spec b sep); [congruence |]. by rewrite IH.
Qed.

Lemma cut_missing sep l : sep ∉ l -> cut sep l = (l, [], false).
Proof.
  induction l as [| b l IH]; intros Hn; cbn [cut]; [done |]. apply not_elem_of_cons in Hn as [Hb Hl].
  destruct (Z.eqb_spec b sep); [congruence |]. by rewrite IH.
Qed.

Lemma split_found sep w rest : sep ∉ w -> split sep (w ++ sep :: rest) = w :: split sep rest.
Proof.
  induction w as [| b w IH]; intros Hn; cbn [app split]; [by rewrite Z.eqb_refl |].
  apply not_elem_of_cons in Hn as [Hb Hw]. destruct (Z.eqb_spec b sep); [congruence |]. by rewrite IH.
Qed.

Lemma split_missing sep w : sep ∉ w -> split sep w = [w].
Proof.
  induction w as [| b w IH]; intros Hn; cbn [split]; [done |]. apply not_elem_of_cons in Hn as [Hb Hw].
  destruct (Z.eqb_spec b sep); [congruence |]. by rewrite IH.
Qed.

(** No part of a split holds the byte, and the parts joined by it split again. *)
Lemma split_parts sep l : Forall (fun w => sep ∉ w) (split sep l).
Proof.
  induction l as [| b l IH]; cbn [split]; [by repeat constructor; apply not_elem_of_nil |].
  destruct (Z.eqb_spec b sep) as [-> | Hb]; [constructor; [apply not_elem_of_nil | done] |].
  destruct IH as [| w ws Hw Hws]; constructor; try done; apply not_elem_of_cons; by split;
    try apply not_elem_of_nil.
Qed.

Lemma split_of_join sep ws : ws <> [] -> Forall (fun w => sep ∉ w) ws -> split sep (join [sep] ws) = ws.
Proof.
  intros Hn Hws. induction Hws as [| w ws Hw Hws IH]; [done |]. destruct ws as [| v ws]; [by apply split_missing |].
  change (join [sep] (w :: v :: ws)) with (w ++ sep :: join [sep] (v :: ws)). by rewrite split_found, IH.
Qed.

Lemma app_sep_inj (sep : Z) v w s t : sep ∉ v -> sep ∉ w -> v ++ sep :: s = w ++ sep :: t -> v = w /\ s = t.
Proof. intros Hv Hw E. pose proof (f_equal (cut sep) E) as H. rewrite !cut_found in H by done. by injection H. Qed.

Lemma token_comma w : Forall token_byte w -> 44 ∉ w.
Proof. intros Hw He. eapply Forall_forall in Hw as [_ Hb]; [| exact He]. done. Qed.

Lemma split_token w rest : Forall token_byte w -> split 44 (w ++ 44 :: rest) = w :: split 44 rest.
Proof. intros Hw. by apply split_found, token_comma. Qed.

Lemma split_token_end w : Forall token_byte w -> split 44 w = [w].
Proof. intros Hw. by apply split_missing, token_comma. Qed.

(** The list a header value joined with commas stands for. *)
Lemma split_join ws :
  ws <> [] -> Forall token_ok ws -> TrimSpace <$> split 44 (join (str ", ") ws) = ws.
Proof.
  intros Hn Hw.
  assert (forall w ws, Forall token_ok (w :: ws) -> forall s, s = [] \/ s = [32] ->
    TrimSpace <$> split 44 (s ++ join (str ", ") (w :: ws)) = w :: ws) as H.
  { clear. intros w ws. revert w. induction ws as [| v ws IH]; intros w Hw s Hs;
      apply Forall_cons in Hw as [Hw Hws]; pose proof (proj2 Hw) as Hb.
    - cbn [join]. destruct Hs as [-> | ->]; cbn [app].
      + rewrite split_token_end by done. cbn. by rewrite TrimSpace_token.
      + cbn [split]. cbn [Z.eqb Pos.eqb]. rewrite split_token_end by done. cbn [fmap list_fmap].
        by rewrite TrimSpace_space_token.
    - specialize (IH v Hws [32] (or_intror eq_refl)).
      change (join (str ", ") (w :: v :: ws)) with (w ++ [44] ++ ([32] ++ join (str ", ") (v :: ws))).
      destruct Hs as [-> | ->]; cbn [app] in *.
      + rewrite split_token by done. cbn [fmap list_fmap] in *. by rewrite IH, TrimSpace_token.
      + cbn [split]. cbn [Z.eqb Pos.eqb]. fold split. rewrite split_token by done.
        cbn [fmap list_fmap] in *. by rewrite IH, TrimSpace_space_token. }
  destruct ws as [| w ws]; [done |]. apply (H w ws Hw []). by left.
Qed.
