(* ===== verification/Sha1.v ===== *)
(** * SHA-1 (crypto/sha1), on byte lists *)

From stdpp Require Import prelude strings.
From S2P Require Import Prelude Words Strings.

Definition u32 (x : Z) : Z := x mod 2 ^ 32.

Definition rotl (n x : Z) : Z := Z.lor (u32 (Z.shiftl x n)) (Z.shiftr x (32 - n)).

(** The message, a one bit, zeros, and its length in bits: whole blocks. *)
Definition pad (m : list Z) : list Z :=
  m ++ [0x80] ++ zeros ((55 - len m) mod 64) ++ be_put 8 (8 * len m).

Fixpoint words32 (fuel : nat) (l : list Z) : list Z :=
  match fuel with
  | O => []
  | S fuel => match l with [] => [] | _ => be_get (upto l 4) :: words32 fuel (from l 4) end
  end.

(** The schedule, latest word first. *)
Fixpoint schedule (n : nat) (w : list Z) : list Z :=
  match n with
  | O => w
  | S n =>
      let x := Z.lxor (Z.lxor (idx w 2) (idx w 7)) (Z.lxor (idx w 13) (idx w 15)) in
      schedule n (rotl 1 x :: w)
  end.

Record sha := Sha { ha : Z; hb : Z; hc : Z; hd : Z; he : Z }.

Definition sha_init : sha := Sha 0x67452301 0xEFCDAB89 0x98BADCFE 0x10325476 0xC3D2E1F0.

Definition round (t : Z) (w : Z) (s : sha) : sha :=
  let '(Sha a b c d e) := s in
  let '(f, k) :=
    if t <? 20 then (Z.lor (Z.land b c) (Z.land (Z.lxor b 0xFFFFFFFF) d), 0x5A827999)
    else if t <? 40 then (Z.lxor (Z.lxor b c) d, 0x6ED9EBA1)
    else if t <? 60 then (Z.lor (Z.lor (Z.land b c) (Z.land b d)) (Z.land c d), 0x8F1BBCDC)
    else (Z.lxor (Z.lxor b c) d, 0xCA62C1D6) in
  Sha (u32 (rotl 5 a + f + e + k + w)) a (rotl 30 b) c d.

Fixpoint rounds (t : Z) (ws : list Z) (s : sha) : sha :=
  match ws with [] => s | w :: ws => rounds (t + 1) ws (round t w s) end.

Definition block (s : sha) (ws : list Z) : sha :=
  let r := rounds 0 (reverse (schedule 64 (reverse ws))) s in
  Sha (u32 (ha s + ha r)) (u32 (hb s + hb r)) (u32 (hc s + hc r)) (u32 (hd s + hd r))
      (u32 (he s + he r)).

Fixpoint blocks (fuel : nat) (s : sha) (l : list Z) : sha :=
  match fuel with
  | O => s
  | S fuel =>
      match l with [] => s | _ => blocks fuel (block s (words32 16 (upto l 64))) (from l 64) end
  end.

Definition Sum (m : list Z) : list Z :=
  let p := pad m in
  let s := blocks (length p) sha_init p in
  be_put 4 (ha s) ++ be_put 4 (hb s) ++ be_put 4 (hc s) ++ be_put 4 (hd s) ++ be_put 4 (he s).

(** FIPS 180 gives the digest of "abc". *)
Example Sum_abc :
  Sum (str "abc") =
  [0xa9; 0x99; 0x3e; 0x36; 0x47; 0x06; 0x81; 0x6a; 0xba; 0x3e; 0x25; 0x71; 0x78; 0x50; 0xc2; 0x6c;
   0x9c; 0xd0; 0xd8; 0x9d].
Proof. vm_compute. reflexivity. Qed.
