(* ===== verification/Handshake.v ===== *)
(** * The opening handshake (package handshake)

    Requests and responses are the header fields the Go structs hold, as byte
    strings.  [rand.Read] in [NewKey] is the argument [rnd]. *)

From stdpp Require Import prelude strings.
From S2P Require Import Prelude Errors Strings Sha1.

Module Hs.

Definition Version : list Z := str "13".

(** What an endpoint asks of permessage-deflate ([Compress]), and what was
    agreed ([Compression]), from the local endpoint's point of view. *)
Record Compress := mkCompress { cLevel : Z; cMinSize : Z; ContextTakeover : bool }.

Record Options := mkOptions { oCompression : option Compress; Protocols : list (list Z) }.

Record Compression := mkCompression {
  Level : Z;
  MinSize : Z;
  SendContextTakeover : bool;
  ReceiveContextTakeover : bool;
  SendWindowBits : Z;
  ReceiveWindowBits : Z
}.

Record Result := mkResult { rCompression : option Compression; rProtocol : list Z }.

Record Request := mkRequest {
  Method : list Z; qUpgrade : list Z; qConnection : list Z; qVersion : list Z; Key : list Z;
  qExtensions : list Z; qProtocols : list Z
}.

Record Response := mkResponse {
  Status : Z; pUpgrade : list Z; pConnection : list Z; pAccept : list Z; pExtensions : list Z;
  pProtocol : list Z
}.

Definition Accept (key : list Z) : list Z :=
  EncodeToString (Sum (key ++ str "258EAFA5-E914-47DA-95CA-C5AB0DC85B11")).

Definition NewKey (rnd : list Z) : list Z := EncodeToString rnd.

Definition StatusCode (err : error) : Z :=
  if decide (err = Handshake ErrBadVersion) then 426 else 400.

Definition validKey (key : list Z) : bool :=
  match DecodeString key with Some b => len b =? 16 | None => false end.

Definition hasToken (header token : list Z) : bool :=
  existsb (fun t => EqualFold (TrimSpace t) token) (split 44 header).

Definition validOptions (opts : Options) : option error :=
  match oCompression opts with
  | Some c =>
      if (cLevel c <? -2) || (9 <? cLevel c) || (cMinSize c <? 0)
      then Some (Handshake ErrInvalidOptions) else None
  | None => None
  end.

(** ** Extensions (handshake/extension.go) *)

Definition deflateName : list Z := str "permessage-deflate".

Record param := mkParam { pname : list Z; pvalue : list Z }.
Record extension := mkExtension { ename : list Z; params : list param }.

Fixpoint parseParams (ps : list (list Z)) : result (list param) :=
  match ps with
  | [] => Ok []
  | p :: ps =>
      let '(name, value, _) := cut 61 (TrimSpace p) in
      let name := TrimSpace name in
      let value := Trim 34 (TrimSpace value) in
      if bool_decide (name = []) then Err (Handshake ErrBadExtension)
      else match parseParams ps with Ok r => Ok (mkParam name value :: r) | Err e => Err e end
  end.

Fixpoint parseOffers (offers : list (list Z)) : result (list extension) :=
  match offers with
  | [] => Ok []
  | offer :: offers =>
      let offer := TrimSpace offer in
      if bool_decide (offer = []) then parseOffers offers
      else
        let parts := split 59 offer in
        let name := TrimSpace (default [] (head parts)) in
        if bool_decide (name = []) then Err (Handshake ErrBadExtension)
        else
          match parseParams (tail parts) with
          | Err e => Err e
          | Ok ps =>
              match parseOffers offers with
              | Ok r => Ok (mkExtension name ps :: r)
              | Err e => Err e
              end
          end
  end.

Definition parseExtensions (header : list Z) : result (list extension) :=
  parseOffers (split 44 header).

Record deflateParams := mkDeflateParams {
  serverNoContextTakeover : bool;
  clientNoContextTakeover : bool;
  serverMaxWindowBits : Z;
  clientMaxWindowBits : Z
}.

Definition deflateParams_zero : deflateParams := mkDeflateParams false false 0 0.

(** [None] is a value that is no window size; zero means no value. *)
Definition windowBits (value : list Z) : option Z :=
  if bool_decide (value = []) then Some 0
  else match Atoi value with
       | Some n => if (n <? 8) || (15 <? n) then None else Some n
       | None => None
       end.

(** The loop of [parseDeflate]; [None] is [ok = false]. *)
Fixpoint parseDeflate_loop (seen : list (list Z)) (p : deflateParams) (kvs : list param)
    : option deflateParams :=
  match kvs with
  | [] => Some p
  | kv :: kvs =>
      let name := ToLower (pname kv) in
      if bool_decide (name ∈ seen) then None
      else
        let seen := name :: seen in
        if bool_decide (name = str "server_no_context_takeover") then
          if bool_decide (pvalue kv <> []) then None
          else parseDeflate_loop seen {| p with serverNoContextTakeover := true |} kvs
        else if bool_decide (name = str "client_no_context_takeover") then
          if bool_decide (pvalue kv <> []) then None
          else parseDeflate_loop seen {| p with clientNoContextTakeover := true |} kvs
        else if bool_decide (name = str "server_max_window_bits") then
          match windowBits (pvalue kv) with
          | None => None
          | Some bits =>
              if bits =? 0 then None
              else parseDeflate_loop seen {| p with serverMaxWindowBits := bits |} kvs
          end
        else if bool_decide (name = str "client_max_window_bits") then
          match windowBits (pvalue kv) with
          | None => None
          | Some bits =>
              let bits := if bits =? 0 then 15 else bits in
              parseDeflate_loop seen {| p with clientMaxWindowBits := bits |} kvs
          end
        else None
  end.

Definition parseDeflate (e : extension) : option deflateParams :=
  parseDeflate_loop [] deflateParams_zero (params e).

Definition formatDeflate (c : Compression) : list Z :=
  let s := deflateName in
  let s := if negb (SendContextTakeover c) then s ++ str "; server_no_context_takeover" else s in
  let s := if negb (ReceiveContextTakeover c) then s ++ str "; client_no_context_takeover" else s in
  if negb (SendWindowBits c =? 0) && negb (SendWindowBits c =? 15)
  then s ++ str "; server_max_window_bits=" ++ Itoa (SendWindowBits c) else s.

(** ** The server (handshake/server.go) *)

Fixpoint selectProtocol (requested : list Z) (supported : list (list Z)) : list Z :=
  match supported with
  | [] => []
  | s :: supported => if hasToken requested s then s else selectProtocol requested supported
  end.

(** The first offer the server can honor. *)
Fixpoint selectDeflate (c : Compress) (exts : list extension) : option Compression :=
  match exts with
  | [] => None
  | e :: exts =>
      if negb (EqualFold (ename e) deflateName) then selectDeflate c exts
      else
        match parseDeflate e with
        | None => selectDeflate c exts
        | Some p =>
            let takeover := ContextTakeover c in
            Some {| Level := cLevel c; MinSize := cMinSize c;
                    SendContextTakeover := takeover && negb (serverNoContextTakeover p);
                    ReceiveContextTakeover := takeover && negb (clientNoContextTakeover p);
                    SendWindowBits := serverMaxWindowBits p;
                    ReceiveWindowBits := clientMaxWindowBits p |}
        end
  end.

Definition Negotiate (req : Request) (opts : Options) : result (Response * Result) :=
  match validOptions opts with
  | Some err => Err err
  | None =>
      if negb (bool_decide (Method req = str "GET")) || negb (hasToken (qUpgrade req) (str "websocket"))
         || negb (hasToken (qConnection req) (str "Upgrade"))
      then Err (Handshake ErrNotWebSocket)
      else if negb (bool_decide (qVersion req = Version)) then Err (Handshake ErrBadVersion)
      else if negb (validKey (Key req)) then Err (Handshake ErrBadKey)
      else
        let resp := {| Status := 101; pUpgrade := str "websocket"; pConnection := str "Upgrade";
                       pAccept := Accept (Key req); pExtensions := []; pProtocol := [] |} in
        let res :=
          match oCompression opts with
          | None => Ok None
          | Some c =>
              match parseExtensions (qExtensions req) with
              | Err e => Err e
              | Ok exts => Ok (selectDeflate c exts)
              end
          end in
        match res with
        | Err e => Err e
        | Ok comp =>
            let proto := selectProtocol (qProtocols req) (Protocols opts) in
            Ok ({| resp with pExtensions := match comp with
                                            | Some c => formatDeflate c | None => [] end;
                             pProtocol := proto |},
                {| rCompression := comp; rProtocol := proto |})
        end
  end.

(** ** The client (handshake/client.go) *)

Definition NewRequest (rnd : list Z) (opts : Options) : result Request :=
  match validOptions opts with
  | Some err => Err err
  | None =>
      let req := {| Method := str "GET"; qUpgrade := str "websocket"; qConnection := str "Upgrade";
                    qVersion := Version; Key := NewKey rnd; qExtensions := [];
                    qProtocols := join (str ", ") (Protocols opts) |} in
      match oCompression opts with
      | None => Ok req
      | Some c =>
          let ext := deflateName ++ str "; client_max_window_bits" in
          let ext := if negb (ContextTakeover c)
                     then ext ++ str "; client_no_context_takeover; server_no_context_takeover"
                     else ext in
          Ok {| req with qExtensions := ext |}
      end
  end.

Definition Confirm (req : Request) (resp : Response) (opts : Options) : result Result :=
  if negb (Status resp =? 101) then Err (Handshake ErrBadStatus)
  else if negb (hasToken (pUpgrade resp) (str "websocket"))
          || negb (hasToken (pConnection resp) (str "Upgrade"))
  then Err (Handshake ErrNotWebSocket)
  else if negb (bool_decide (pAccept resp = Accept (Key req))) then Err (Handshake ErrBadAccept)
  else if negb (bool_decide (pProtocol resp = [])) && negb (hasToken (qProtocols req) (pProtocol resp))
  then Err (Handshake ErrBadProtocol)
  else
    let res := {| rCompression := None; rProtocol := pProtocol resp |} in
    match parseExtensions (pExtensions resp) with
    | Err e => Err e
    | Ok [] => Ok res
    | Ok [e] =>
        match oCompression opts with
        | None => Err (Handshake ErrBadExtension)
        | Some c =>
            if negb (EqualFold (ename e) deflateName) then Err (Handshake ErrBadExtension)
            else
              match parseDeflate e with
              | None => Err (Handshake ErrBadExtension)
              | Some p =>
                  let takeover := ContextTakeover c in
                  Ok {| res with rCompression := Some
                    {| Level := cLevel c; MinSize := cMinSize c;
                       SendContextTakeover := takeover && negb (clientNoContextTakeover p);
                       ReceiveContextTakeover := takeover && negb (serverNoContextTakeover p);
                       SendWindowBits := clientMaxWindowBits p;
                       ReceiveWindowBits := serverMaxWindowBits p |} |}
              end
        end
    | Ok _ => Err (Handshake ErrBadExtension)
    end.

End Hs.

Import Hs.

Example accept_rfc :
  Accept (str "dGhlIHNhbXBsZSBub25jZQ==") = str "s3pPLMBiTxaQ9kYGzzhZRbK+xOo=".
Proof. vm_compute. reflexivity. Qed.

(** ** Lemmas *)

Definition bits_ok (n : Z) : Prop := n = 0 \/ 8 <= n <= 15.

(** The window a side uses: zero stands for the full one. *)
Definition window_bits (n : Z) : Z := if n =? 0 then 15 else n.

Lemma windowBits_range v n : windowBits v = Some n -> bits_ok n.
Proof.
  unfold windowBits, bits_ok. case_bool_decide; [intros [= <-]; auto |].
  destruct (Atoi v) as [m |]; [| done].
  destruct (Z.ltb_spec m 8), (Z.ltb_spec 15 m); cbn; try done. intros [= <-]. lia.
Qed.

Lemma parseDeflate_bits e p :
  parseDeflate e = Some p -> bits_ok (serverMaxWindowBits p) /\ bits_ok (clientMaxWindowBits p).
Proof.
  unfold parseDeflate.
  assert (bits_ok (serverMaxWindowBits deflateParams_zero) /\ bits_ok (clientMaxWindowBits deflateParams_zero))
    as H0 by (split; left; done).
  revert H0. generalize deflateParams_zero, (@nil (list Z)). induction (params e) as [| kv kvs IH];
    intros q seen Hq; cbn [parseDeflate_loop]; [by intros [= <-] |].
  repeat case_bool_decide; try done; [apply IH; done | apply IH; done | |].
  - destruct (windowBits (pvalue kv)) as [b |] eqn:E; [| done]. apply windowBits_range in E.
    destruct (b =? 0); [done |]. apply IH. cbn. split; [exact E | apply Hq].
  - destruct (windowBits (pvalue kv)) as [b |] eqn:E; [| done]. apply windowBits_range in E.
    apply IH. cbn. split; [apply Hq |]. destruct (b =? 0); [right; lia | exact E].
Qed.

Lemma selectDeflate_some c exts comp :
  selectDeflate c exts = Some comp ->
  exists e p, e ∈ exts /\ EqualFold (ename e) deflateName = true /\ parseDeflate e = Some p /\
    comp = {| Level := cLevel c; MinSize := cMinSize c;
              SendContextTakeover := ContextTakeover c && negb (serverNoContextTakeover p);
              ReceiveContextTakeover := ContextTakeover c && negb (clientNoContextTakeover p);
              SendWindowBits := serverMaxWindowBits p; ReceiveWindowBits := clientMaxWindowBits p |}.
Proof.
  induction exts as [| e exts IH]; [done |]. cbn [selectDeflate].
  assert (selectDeflate c exts = Some comp ->
    exists e0 p, e0 ∈ e :: exts /\ EqualFold (ename e0) deflateName = true /\ parseDeflate e0 = Some p /\
    comp = {| Level := cLevel c; MinSize := cMinSize c;
              SendContextTakeover := ContextTakeover c && negb (serverNoContextTakeover p);
              ReceiveContextTakeover := ContextTakeover c && negb (clientNoContextTakeover p);
              SendWindowBits := serverMaxWindowBits p; ReceiveWindowBits := clientMaxWindowBits p |}) as Hskip.
  { intros H. destruct (IH H) as (e0 & p & He & ?). exists e0, p. split; [by apply elem_of_cons; right | done]. }
  destruct (EqualFold (ename e) deflateName) eqn:Ef; cbn [negb]; [| done].
  destruct (parseDeflate e) as [p |] eqn:Ep; [| done].
  intros [= <-]. exists e, p. split; [by apply elem_of_cons; left | done].
Qed.

Lemma selectProtocol_cases requested supported :
  let s := selectProtocol requested supported in
  s = [] \/ s ∈ supported /\ hasToken requested s = true.
Proof.
  induction supported as [| s supported IH]; cbn [selectProtocol]; [by left |].
  destruct (hasToken requested s) eqn:E; [right; split; [by apply elem_of_cons; left | done] |].
  destruct IH as [-> | [H1 H2]]; [by left | right; split; [by apply elem_of_cons; right | done]].
Qed.

(** What the server writes, the client reads. *)
Definition params_of (c : Compression) : deflateParams :=
  {| serverNoContextTakeover := negb (SendContextTakeover c);
     clientNoContextTakeover := negb (ReceiveContextTakeover c);
     serverMaxWindowBits := if SendWindowBits c =? 15 then 0 else SendWindowBits c;
     clientMaxWindowBits := 0 |}.

Lemma format_parse c :
  bits_ok (SendWindowBits c) ->
  exists e, parseExtensions (formatDeflate c) = Ok [e] /\ EqualFold (ename e) deflateName = true /\
            parseDeflate e = Some (params_of c).
Proof.
  destruct c as [lv ms st rt sb rb]. unfold formatDeflate, params_of. cbn -[parseExtensions Itoa str deflateName].
  intros H. assert (sb = 0 \/ sb = 8 \/ sb = 9 \/ sb = 10 \/ sb = 11 \/ sb = 12 \/ sb = 13 \/ sb = 14 \/ sb = 15)
    as Hs by (destruct H; lia).
  clear H. destruct st, rt, Hs as [-> | [-> | [-> | [-> | [-> | [-> | [-> | [-> | ->]]]]]]]];
    eexists; (split; [vm_compute; reflexivity | split; vm_compute; reflexivity]).
Qed.

Lemma validKey_NewKey rnd : bytes_ok rnd -> len rnd = 16 -> validKey (NewKey rnd) = true.
Proof.
  intros Hb Hl. unfold validKey, NewKey. rewrite DecodeString_encode by done. by rewrite Hl.
Qed.

Definition offer (takeover : bool) : list Z :=
  let ext := deflateName ++ str "; client_max_window_bits" in
  if negb takeover then ext ++ str "; client_no_context_takeover; server_no_context_takeover" else ext.

Lemma offer_parse takeover :
  exists e, parseExtensions (offer takeover) = Ok [e] /\ EqualFold (ename e) deflateName = true /\
            parseDeflate e = Some (mkDeflateParams (negb takeover) (negb takeover) 0 15).
Proof. destruct takeover; eexists; (split; [vm_compute; reflexivity | split; vm_compute; reflexivity]). Qed.

Lemma token_websocket : hasToken (str "websocket") (str "websocket") = true.
Proof. vm_compute. reflexivity. Qed.

Lemma token_upgrade : hasToken (str "Upgrade") (str "Upgrade") = true.
Proof. vm_compute. reflexivity. Qed.

#[local] Opaque Accept hasToken parseExtensions.

Lemma hasToken_join ps s :
  ps <> [] -> Forall token_ok ps ->
  hasToken (join (str ", ") ps) s = existsb (fun p => EqualFold p s) ps.
Proof.
  #[local] Transparent hasToken. intros Hn Hp. unfold hasToken. rewrite <- (split_join ps Hn Hp) at 2.
  induction (split 44 (join (str ", ") ps)) as [| t l IH]; [done |]. cbn. by rewrite IH.
Qed.

(** The two views of one negotiated connection: what one carries over the other
    keeps, in windows that reach as far. *)
Definition mirrored (c s : option Compression) : Prop :=
  match c, s with
  | None, None => True
  | Some c, Some s =>
      SendContextTakeover c = ReceiveContextTakeover s /\
      ReceiveContextTakeover c = SendContextTakeover s /\
      window_bits (SendWindowBits c) <= window_bits (ReceiveWindowBits s) /\
      window_bits (SendWindowBits s) <= window_bits (ReceiveWindowBits c) /\
      bits_ok (SendWindowBits c) /\ bits_ok (ReceiveWindowBits c) /\
      bits_ok (SendWindowBits s) /\ bits_ok (ReceiveWindowBits s)
  | _, _ => False
  end.

(** The checks of [Negotiate] before extensions, as one condition each. *)
Lemma Negotiate_ok req opts c proto :
  validOptions opts = None -> Method req = str "GET" ->
  hasToken (qUpgrade req) (str "websocket") = true -> hasToken (qConnection req) (str "Upgrade") = true ->
  qVersion req = Version -> validKey (Key req) = true ->
  match oCompression opts with
  | None => c = None
  | Some o => exists exts, parseExtensions (qExtensions req) = Ok exts /\ c = selectDeflate o exts
  end ->
  proto = selectProtocol (qProtocols req) (Protocols opts) ->
  Negotiate req opts =
    Ok (mkResponse 101 (str "websocket") (str "Upgrade") (Accept (Key req))
          (match c with Some c => formatDeflate c | None => [] end) proto, mkResult c proto).
Proof.
  intros Hv Hm Hu Hc Hver Hk He ->. unfold Negotiate. rewrite Hv, Hm, Hu, Hc, Hver, Hk.
  rewrite !bool_decide_eq_true_2 by done. cbn [negb orb].
  destruct (oCompression opts) as [o |]; [destruct He as (exts & -> & ->) | subst c]; done.
Qed.

(** A response of the right shape comes down to its extensions. *)
Lemma Confirm_ok req x opts proto :
  Method req = str "GET" -> hasToken (qProtocols req) proto = true \/ proto = [] ->
  Confirm req (mkResponse 101 (str "websocket") (str "Upgrade") (Accept (Key req)) x proto) opts =
  match parseExtensions x with
  | Err e => Err e
  | Ok [] => Ok (mkResult None proto)
  | Ok [e] =>
      match oCompression opts with
      | None => Err (Handshake ErrBadExtension)
      | Some c =>
          if negb (EqualFold (ename e) deflateName) then Err (Handshake ErrBadExtension)
          else match parseDeflate e with
               | None => Err (Handshake ErrBadExtension)
               | Some p => Ok (mkResult (Some (mkCompression (cLevel c) (cMinSize c)
                   (ContextTakeover c && negb (clientNoContextTakeover p))
                   (ContextTakeover c && negb (serverNoContextTakeover p))
                   (clientMaxWindowBits p) (serverMaxWindowBits p))) proto)
               end
      end
  | Ok _ => Err (Handshake ErrBadExtension)
  end.
Proof.
  intros _ Hp. unfold Confirm. cbn [Status pUpgrade pConnection pAccept pProtocol pExtensions Z.eqb Pos.eqb negb].
  rewrite token_websocket, token_upgrade, (bool_decide_eq_true_2 (Accept (Key req) = _)) by reflexivity.
  cbn [negb orb]. destruct Hp as [-> | ->]; [rewrite andb_false_r | rewrite bool_decide_eq_true_2 by done]; reflexivity.
Qed.

(** ** Properties *)

Lemma handshake_pair rnd oc os :
  bytes_ok rnd -> len rnd = 16 -> validOptions oc = None -> validOptions os = None ->
  exists req resp rs rc,
    NewRequest rnd oc = Ok req /\ Negotiate req os = Ok (resp, rs) /\ Confirm req resp oc = Ok rc /\
    rProtocol rc = rProtocol rs /\ mirrored (rCompression rc) (rCompression rs).
Proof.
  intros Hb Hl Hc Hs. pose proof (validKey_NewKey rnd Hb Hl) as Hk.
  set (ext := match oCompression oc with Some c => offer (ContextTakeover c) | None => [] end).
  set (req := mkRequest (str "GET") (str "websocket") (str "Upgrade") Version (NewKey rnd) ext
                (join (str ", ") (Protocols oc))).
  assert (NewRequest rnd oc = Ok req) as Hreq.
  { unfold NewRequest. rewrite Hc. subst req ext. by destruct (oCompression oc). }
  set (proto := selectProtocol (qProtocols req) (Protocols os)).
  assert (exists exts, parseExtensions ext = Ok exts /\
    match oCompression oc with
    | None => exts = []
    | Some c => exists e, exts = [e] /\ EqualFold (ename e) deflateName = true /\
        parseDeflate e = Some (mkDeflateParams (negb (ContextTakeover c)) (negb (ContextTakeover c)) 0 15)
    end) as (exts & Hexts & Hoffer).
  { subst ext. destruct (oCompression oc) as [c |].
    - destruct (offer_parse (ContextTakeover c)) as (e & E & H). exists [e]. eauto.
    - exists []. split; [reflexivity | done]. }
  set (comp := match oCompression os with None => None | Some o => selectDeflate o exts end).
  assert (Negotiate req os = Ok (mkResponse 101 (str "websocket") (str "Upgrade") (Accept (NewKey rnd))
      (match comp with Some c => formatDeflate c | None => [] end) proto, mkResult comp proto)) as Hneg.
  { apply Negotiate_ok; try done. subst comp. destruct (oCompression os); [eauto | done]. }
  assert (hasToken (qProtocols req) proto = true \/ proto = []) as Hp.
  { destruct (selectProtocol_cases (qProtocols req) (Protocols os)) as [E | [_ E]]; [by right | by left]. }
  exists req, (mkResponse 101 (str "websocket") (str "Upgrade") (Accept (NewKey rnd))
      (match comp with Some c => formatDeflate c | None => [] end) proto), (mkResult comp proto).
  rewrite (Confirm_ok req _ oc proto eq_refl Hp). subst comp.
  destruct (oCompression os) as [o |]; [destruct (oCompression oc) as [c |] |].
  - destruct Hoffer as (e & -> & He1 & He2). cbn [selectDeflate] in *. rewrite He1, He2 in *. cbn [negb] in *.
    set (cs := mkCompression (cLevel o) _ _ _ _ _) in *.
    destruct (format_parse cs) as (e' & -> & He1' & He2'); [by left |]. rewrite He1', He2'. cbn [negb].
    eexists. split; [exact Hreq |]. split; [exact Hneg |]. split; [reflexivity |]. split; [reflexivity |].
    assert (bits_ok 0 /\ bits_ok 15) as [B0 B15] by (unfold bits_ok; lia).
    cbn. unfold window_bits. destruct (ContextTakeover o), (ContextTakeover c); cbn; split_and!; first [exact B0 | exact B15 | done].
  - subst exts. cbn [selectDeflate] in *. eexists. split; [exact Hreq |]. split; [exact Hneg |]. by split.
  - eexists. split; [exact Hreq |]. split; [exact Hneg |]. by split.
Qed.

(** C27. Client and server agree: for any valid options on both sides, the
    server accepts the client's request, the client accepts the server's
    response, both report the same subprotocol, and their views of
    permessage-deflate mirror each other: what one may carry over between
    messages the other keeps, and neither compresses with a larger window
    than the other keeps. *)
Theorem handshake_agreement rnd oc os :
  bytes_ok rnd -> len rnd = 16 -> validOptions oc = None -> validOptions os = None ->
  exists req resp rs rc,
    NewRequest rnd oc = Ok req /\ Negotiate req os = Ok (resp, rs) /\ Confirm req resp oc = Ok rc /\
    rProtocol rc = rProtocol rs /\ mirrored (rCompression rc) (rCompression rs).
Proof. apply handshake_pair. Qed.

Lemma handshake_agreement_witness :
  let oc := mkOptions (Some (mkCompress 6 0 true)) [str "chat"; str "superchat"] in
  let os := mkOptions (Some (mkCompress 1 64 true)) [str "superchat"] in
  exists req resp rs rc,
    NewRequest (zeros 16) oc = Ok req /\ Negotiate req os = Ok (resp, rs) /\ Confirm req resp oc = Ok rc /\
    rProtocol rc = rProtocol rs /\ mirrored (rCompression rc) (rCompression rs).
Proof.
  cbv zeta. apply (handshake_agreement (zeros 16)); [apply bytes_ok_zeros | | |]; reflexivity.
Defined.

(** What a client accepts: a 101 response whose accept value answers its
    own key, a subprotocol it offered or none, and permessage-deflate only if
    it offered it, as the single extension, with window sizes it can honor. *)
Theorem Confirm_sound req resp opts res :
  Confirm req resp opts = Ok res ->
  Status resp = 101 /\ hasToken (pUpgrade resp) (str "websocket") = true /\
  hasToken (pConnection resp) (str "Upgrade") = true /\ pAccept resp = Accept (Key req) /\
  rProtocol res = pProtocol resp /\
  (rProtocol res = [] \/ hasToken (qProtocols req) (rProtocol res) = true) /\
  match rCompression res with
  | None => parseExtensions (pExtensions resp) = Ok []
  | Some c => bits_ok (SendWindowBits c) /\ bits_ok (ReceiveWindowBits c) /\
      exists o e, oCompression opts = Some o /\ parseExtensions (pExtensions resp) = Ok [e] /\
        EqualFold (ename e) deflateName = true /\ Level c = cLevel o
  end.
Proof.
  unfold Confirm. destruct (Z.eqb_spec (Status resp) 101) as [Hs | _]; [| done]. cbn [negb].
  destruct (hasToken (pUpgrade resp) _); [| done]. destruct (hasToken (pConnection resp) _); [| done]. cbn [negb orb].
  destruct (bool_decide_reflect (pAccept resp = Accept (Key req))) as [Ha | _]; [| done]. cbn [negb].
  destruct (negb (bool_decide (pProtocol resp = [])) && negb (hasToken (qProtocols req) (pProtocol resp))) eqn:Ep;
    [done |].
  assert (pProtocol resp = [] \/ hasToken (qProtocols req) (pProtocol resp) = true) as Hp.
  { destruct (bool_decide_reflect (pProtocol resp = [])) as [Hp | _]; [by left | right].
    by apply negb_false_iff in Ep. }
  destruct (parseExtensions (pExtensions resp)) as [[| e [| e2 l]] |] eqn:Ex; try done.
  { intros [= <-]. cbn. by split_and!. }
  destruct (oCompression opts) as [o |] eqn:Ho; [| done].
  destruct (EqualFold (ename e) deflateName) eqn:Ef; [| done]. cbn [negb].
  destruct (parseDeflate e) as [p |] eqn:Epd; [| done]. intros [= <-].
  destruct (parseDeflate_bits e p Epd). cbn. split_and!; try done. by exists o, e.
Qed.

Lemma Confirm_sound_witness :
  let req := mkRequest (str "GET") (str "websocket") (str "Upgrade") (str "13")
    (str "dGhlIHNhbXBsZSBub25jZQ==") (offer true) [] in
  let resp := mkResponse 101 (str "websocket") (str "Upgrade") (str "s3pPLMBiTxaQ9kYGzzhZRbK+xOo=")
    (str "permessage-deflate; client_max_window_bits=9") [] in
  let opts := mkOptions (Some (mkCompress 6 0 true)) [] in
  exists res, Confirm req resp opts = Ok res /\ rProtocol res = [] /\
    option_map SendWindowBits (rCompression res) = Some 9.
Proof.
  cbv zeta. set (req := mkRequest _ _ _ _ _ _ _). set (resp := mkResponse _ _ _ _ _ _). set (opts := mkOptions _ _).
  assert (exists res, Confirm req resp opts = Ok res /\ option_map SendWindowBits (rCompression res) = Some 9)
    as (res & E & E9) by (eexists; split; vm_compute; reflexivity).
  pose proof (Confirm_sound req resp opts res E) as (_ & _ & _ & _ & Hp & _).
  exists res. split; [exact E |]. split; [exact Hp | exact E9].
Defined.

(** With clean protocol names, the server picks its own most preferred
    subprotocol among those the client listed, and none only when the lists
    are disjoint. *)
Theorem selectProtocol_preferred offered supported :
  offered <> [] -> Forall token_ok offered ->
  let s := selectProtocol (join (str ", ") offered) supported in
  (exists before after, supported = before ++ s :: after /\
     existsb (fun p => EqualFold p s) offered = true /\
     forall t, t ∈ before -> existsb (fun p => EqualFold p t) offered = false)
  \/ (s = [] /\ forall t, t ∈ supported -> existsb (fun p => EqualFold p t) offered = false).
Proof.
  intros Hn Ho. induction supported as [| s supported IH]; cbv zeta; cbn [selectProtocol].
  - right. split; [done |]. intros t Ht. by apply elem_of_nil in Ht.
  - rewrite hasToken_join by done. destruct (existsb _ offered) eqn:E.
    + left. exists [], supported. split; [done |]. split; [done |].
      intros t Ht. by apply elem_of_nil in Ht.
    + destruct IH as [(b & a & Hs & Hx & Hb) | [Hs Hb]].
      * left. exists (s :: b), a. split; [cbn; by rewrite Hs at 1 |]. split; [done |].
        intros t [-> | Ht]%elem_of_cons; [done | by apply Hb].
      * right. split; [done |]. intros t [-> | Ht]%elem_of_cons; [done | by apply Hb].
Qed.

Lemma selectProtocol_preferred_witness :
  let s := selectProtocol (join (str ", ") [str "soap"; str "wamp"]) [str "mqtt"; str "WAMP"; str "soap"] in
  (exists before after, [str "mqtt"; str "WAMP"; str "soap"] = before ++ s :: after /\
     existsb (fun p => EqualFold p s) [str "soap"; str "wamp"] = true /\
     forall t, t ∈ before -> existsb (fun p => EqualFold p t) [str "soap"; str "wamp"] = false)
  \/ (s = [] /\ forall t, t ∈ [str "mqtt"; str "WAMP"; str "soap"] ->
       existsb (fun p => EqualFold p t) [str "soap"; str "wamp"] = false).
Proof.
  apply (selectProtocol_preferred [str "soap"; str "wamp"]); [done |].
  repeat constructor; try discriminate; lia.
Defined.
