(* ===== verification/Negotiation.v ===== *)
(** * What a server's handshake settles on

    [Negotiate] against a statement of its own of RFC 6455 section 4.2 and RFC
    7692 section 7.1: which requests are refused and with what, which offer of
    an extension header is taken, what is settled from its parameters, and
    what the answer says of it. *)

From stdpp Require Import prelude strings.
From S2P Require Import Prelude Errors Strings Sha1 Handshake.

Import Hs.

(** ** Header values *)

(** A comma-separated header value names a token, in any letter case. *)
Definition lists (header token : list Z) : Prop := exists t, t ∈ split 44 header /\ EqualFold (TrimSpace t) token = true.

(** The elements of a header that are not blank. *)
Definition elements (header : list Z) : list (list Z) := filter (fun o => o <> []) (TrimSpace <$> split 44 header).

(** An element's name and its parameters, a name and a value each. *)
Definition offer_name (o : list Z) : list Z := TrimSpace (default [] (head (split 59 o))).

Definition param_of (p : list Z) : list Z * list Z :=
  let '(n, v, _) := cut 61 (TrimSpace p) in (TrimSpace n, Trim 34 (TrimSpace v)).

Definition offer_params (o : list Z) : list (list Z * list Z) := param_of <$> tail (split 59 o).

Definition grammatical (header : list Z) : Prop :=
  Forall (fun o => offer_name o <> [] /\ Forall (fun q => q.1 <> []) (offer_params o)) (elements header).

(** ** permessage-deflate *)

(** A window size: 8 to 15, in decimal. *)
Definition window (v : list Z) (n : Z) : Prop := Atoi v = Some n /\ 8 <= n <= 15.

Definition param_ok (q : list Z * list Z) : Prop :=
  let name := ToLower q.1 in
  (name = str "server_no_context_takeover" \/ name = str "client_no_context_takeover") /\ q.2 = []
  \/ name = str "server_max_window_bits" /\ (exists n, window q.2 n)
  \/ name = str "client_max_window_bits" /\ (q.2 = [] \/ exists n, window q.2 n).

(** The parameters are known ones with values they can have, none twice. *)
Definition params_ok (qs : list (list Z * list Z)) : Prop := NoDup (ToLower <$> qs.*1) /\ Forall param_ok qs.

Definition acceptable (o : list Z) : Prop :=
  EqualFold (offer_name o) (str "permessage-deflate") = true /\ params_ok (offer_params o).

(** The element has this parameter, with this value. *)
Definition says (qs : list (list Z * list Z)) (name : string) (v : list Z) : Prop :=
  exists n, (n, v) ∈ qs /\ ToLower n = str name.

Definition mentions (qs : list (list Z * list Z)) (name : string) : Prop := exists v, says qs name v.

(** What is settled from an offer: a context is kept if the server wants it
    and the offer does not rule it out; the windows are what the offer says,
    the largest where it leaves the client's to the server, and zero where it
    says nothing. *)
Record honours (c : Compress) (qs : list (list Z * list Z)) (k : Compression) : Prop := {
  hn_level : Level k = cLevel c;
  hn_min : MinSize k = cMinSize c;
  hn_send : SendContextTakeover k = true <->
    ContextTakeover c = true /\ ~ mentions qs "server_no_context_takeover";
  hn_receive : ReceiveContextTakeover k = true <->
    ContextTakeover c = true /\ ~ mentions qs "client_no_context_takeover";
  hn_send_bits :
    (exists v, says qs "server_max_window_bits" v /\ window v (SendWindowBits k))
    \/ ~ mentions qs "server_max_window_bits" /\ SendWindowBits k = 0;
  hn_receive_bits :
    (exists v, says qs "client_max_window_bits" v /\
       (window v (ReceiveWindowBits k) \/ v = [] /\ ReceiveWindowBits k = 15))
    \/ ~ mentions qs "client_max_window_bits" /\ ReceiveWindowBits k = 0
}.

(** What the answer says of it: a single element, which a client can take,
    with the contexts that are not kept, and the server's window if it is not
    the full one. *)
Record answers (k : Compression) (header : list Z) : Prop := {
  an_one : exists r, elements header = [r] /\ acceptable r;
  an_says r : elements header = [r] ->
    (mentions (offer_params r) "server_no_context_takeover" <-> SendContextTakeover k = false) /\
    (mentions (offer_params r) "client_no_context_takeover" <-> ReceiveContextTakeover k = false) /\
    (forall n, (exists v, says (offer_params r) "server_max_window_bits" v /\ window v n) <->
               n = SendWindowBits k /\ n <> 0 /\ n <> 15) /\
    ~ mentions (offer_params r) "client_max_window_bits"
}.

(** The first acceptable offer is taken, if the server compresses. *)
Definition settled (c : option Compress) (header : list Z) (k : option Compression) (answer : list Z) : Prop :=
  match k with
  | None => answer = [] /\ (c = None \/ Forall (fun o => ~ acceptable o) (elements header))
  | Some k =>
      exists c' pre o post, c = Some c' /\ elements header = pre ++ o :: post /\ Forall (fun o => ~ acceptable o) pre /\
        acceptable o /\ honours c' (offer_params o) k /\ answers k answer
  end.

(** The server's first subprotocol among those the client lists. *)
Definition preferred (requested : list Z) (supported : list (list Z)) (s : list Z) : Prop :=
  (exists pre post, supported = pre ++ s :: post /\ lists requested s /\ Forall (fun t => ~ lists requested t) pre)
  \/ s = [] /\ Forall (fun t => ~ lists requested t) supported.

(** What is demanded of a request, in the order it is checked, each with what
    a request without it is refused with. *)
Definition demands (req : Request) (opts : Options) : list (Prop * handshake_error) :=
  [(forall c, oCompression opts = Some c -> -2 <= cLevel c <= 9 /\ 0 <= cMinSize c, ErrInvalidOptions);
   (Method req = str "GET" /\ lists (qUpgrade req) (str "websocket") /\ lists (qConnection req) (str "Upgrade"),
    ErrNotWebSocket);
   (qVersion req = str "13", ErrBadVersion);
   (exists k, DecodeString (Key req) = Some k /\ len k = 16, ErrBadKey);
   (oCompression opts = None \/ grammatical (qExtensions req), ErrBadExtension)].

(** ** The parsers *)

Lemma hasToken_lists header token : hasToken header token = true <-> lists header token.
Proof.
  unfold hasToken, lists. rewrite existsb_exists. split; intros (t & Ht & E); exists t; (split; [by apply list_elem_of_In | done]).
Qed.

Lemma hasToken_none header token : hasToken header token = false -> ~ lists header token.
Proof. intros E H. apply hasToken_lists in H. congruence. Qed.

Definition mk (q : list Z * list Z) : param := mkParam q.1 q.2.
Definition ext_of (o : list Z) : extension := mkExtension (offer_name o) (mk <$> offer_params o).

Lemma parseParams_cases ps :
  let qs := param_of <$> ps in
  Forall (fun q => q.1 <> []) qs /\ parseParams ps = Ok (mk <$> qs)
  \/ ~ Forall (fun q => q.1 <> []) qs /\ parseParams ps = Err (Handshake ErrBadExtension).
Proof.
  cbv zeta. induction ps as [| p ps IH]; [left; split; [constructor | done] |]. cbn [parseParams fmap list_fmap].
  rewrite Forall_cons.
  assert (param_of p = let '(n, v, _) := cut 61 (TrimSpace p) in (TrimSpace n, Trim 34 (TrimSpace v))) as Ep by done.
  destruct (cut 61 (TrimSpace p)) as [[n v] b]. rewrite Ep. cbn [fst].
  case_bool_decide as En; [right; split; [by intros [H _] | done] |].
  destruct IH as [[H ->] | [H ->]]; [by left | right; split; [by intros [_ Hf] | done]].
Qed.

Lemma parseOffers_cases os :
  let es := filter (fun o => o <> []) (TrimSpace <$> os) in
  let ok o := offer_name o <> [] /\ Forall (fun q => q.1 <> []) (offer_params o) in
  Forall ok es /\ parseOffers os = Ok (ext_of <$> es)
  \/ ~ Forall ok es /\ parseOffers os = Err (Handshake ErrBadExtension).
Proof.
  cbv zeta. induction os as [| o os IH]; [left; split; [constructor | done] |]. cbn [parseOffers fmap list_fmap].
  rewrite filter_cons. set (t := TrimSpace o). case_bool_decide as Et.
  { rewrite decide_False by (intros H; by apply H). exact IH. }
  rewrite decide_True by done. rewrite Forall_cons. change (TrimSpace (default [] (head (split 59 t)))) with (offer_name t).
  case_bool_decide as En; [right; split; [by intros [[H _] _] | done] |].
  destruct (parseParams_cases (tail (split 59 t))) as [[H ->] | [H ->]]; fold (offer_params t) in H.
  - destruct IH as [[Hf ->] | [Hf ->]]; [by left | right; split; [by intros [_ ?] | done]].
  - right. split; [by intros [[_ ?] _] | done].
Qed.

Lemma parse_cases header :
  grammatical header /\ parseExtensions header = Ok (ext_of <$> elements header)
  \/ ~ grammatical header /\ parseExtensions header = Err (Handshake ErrBadExtension).
Proof. apply (parseOffers_cases (split 44 header)). Qed.

(** ** The parameters of an offer *)

(** What the loop of [parseDeflate] makes of some parameters, from [p0]. *)
Record reads (qs : list (list Z * list Z)) (p0 p : deflateParams) : Prop := {
  rd_server : serverNoContextTakeover p = true <->
    serverNoContextTakeover p0 = true \/ mentions qs "server_no_context_takeover";
  rd_client : clientNoContextTakeover p = true <->
    clientNoContextTakeover p0 = true \/ mentions qs "client_no_context_takeover";
  rd_server_bits :
    (exists v, says qs "server_max_window_bits" v /\ window v (serverMaxWindowBits p))
    \/ ~ mentions qs "server_max_window_bits" /\ serverMaxWindowBits p = serverMaxWindowBits p0;
  rd_client_bits :
    (exists v, says qs "client_max_window_bits" v /\
       (window v (clientMaxWindowBits p) \/ v = [] /\ clientMaxWindowBits p = 15))
    \/ ~ mentions qs "client_max_window_bits" /\ clientMaxWindowBits p = clientMaxWindowBits p0
}.

Lemma says_cons q qs name v : says (q :: qs) name v <-> ToLower q.1 = str name /\ q.2 = v \/ says qs name v.
Proof.
  unfold says. split.
  - intros (n & [E | Hin]%elem_of_cons & H); [left; by subst q | right; by exists n].
  - intros [[E <-] | (n & Hin & H)]; [exists q.1 | exists n]; (split; [apply elem_of_cons | done]); [left; by destruct q | by right].
Qed.

Lemma mentions_cons q qs name : mentions (q :: qs) name <-> ToLower q.1 = str name \/ mentions qs name.
Proof.
  unfold mentions. setoid_rewrite says_cons. split.
  - intros (v & [[E _] | H]); [by left | right; by exists v].
  - intros [E | (v & H)]; [exists q.2; by left | exists v; by right].
Qed.

Lemma mentions_names qs name : mentions qs name <-> str name ∈ ToLower <$> qs.*1.
Proof.
  induction qs as [| q qs IH]; [split; [intros (v & n & H%elem_of_nil & _); done | intros H%elem_of_nil; done] |].
  rewrite mentions_cons, !fmap_cons, elem_of_cons, IH. by split; intros [H | H]; auto.
Qed.

Lemma says_other q qs name v : ToLower q.1 <> str name -> (says (q :: qs) name v <-> says qs name v).
Proof. intros H. rewrite says_cons. split; [intros [[E _] | ?]; done | by right]. Qed.

Lemma mentions_other q qs name : ToLower q.1 <> str name -> (mentions (q :: qs) name <-> mentions qs name).
Proof. intros H. rewrite mentions_cons. split; [intros [E | ?]; done | by right]. Qed.

Lemma windowBits_cases v :
  match windowBits v with
  | Some n => v = [] /\ n = 0 \/ v <> [] /\ window v n
  | None => v <> [] /\ forall n, ~ window v n
  end.
Proof.
  unfold windowBits, window. case_bool_decide as Ev; [by left |]. destruct (Atoi v) as [m |].
  - destruct (Z.ltb_spec m 8); cbn [orb]; [split; [done | intros n [[= <-] H']; lia] |].
    destruct (Z.ltb_spec 15 m); [split; [done | intros n [[= <-] H']; lia] | right; split; [done |]; split; [done | lia]].
  - split; [done | by intros n [? _]].
Qed.

Lemma window_nil n : ~ window [] n.
Proof. by intros [H _]. Qed.

Definition fresh (seen : list (list Z)) (qs : list (list Z * list Z)) : Prop :=
  Forall (fun n => n ∉ seen) (ToLower <$> qs.*1).

(** Either the parameters are fine and read as they should, or they are
    refused. *)
Definition loop_cases (seen : list (list Z)) (p0 : deflateParams) (qs : list (list Z * list Z)) : Prop :=
  fresh seen qs /\ params_ok qs /\ (exists p, parseDeflate_loop seen p0 (mk <$> qs) = Some p /\ reads qs p0 p)
  \/ ~ (fresh seen qs /\ params_ok qs) /\ parseDeflate_loop seen p0 (mk <$> qs) = None.

Lemma good_cons seen q qs :
  fresh seen (q :: qs) /\ params_ok (q :: qs) <->
  (ToLower q.1 ∉ seen) /\ param_ok q /\ fresh (ToLower q.1 :: seen) qs /\ params_ok qs.
Proof.
  unfold fresh, params_ok. rewrite !fmap_cons, NoDup_cons, !Forall_cons.
  assert (Forall (fun n => n ∉ ToLower q.1 :: seen) (ToLower <$> qs.*1) <->
          (ToLower q.1 ∉ ToLower <$> qs.*1) /\ Forall (fun n => n ∉ seen) (ToLower <$> qs.*1)) as ->; [| tauto].
  rewrite !Forall_forall. setoid_rewrite not_elem_of_cons. split.
  - intros H. split; [intros Hin; by destruct (H _ Hin) | intros n Hn; by apply H].
  - intros [H1 H2] n Hn. split; [intros ->; by apply H1 | by apply H2].
Qed.

Lemma step_taken seen p0 p1 q qs :
  loop_cases (ToLower q.1 :: seen) p1 qs -> ToLower q.1 ∉ seen -> param_ok q ->
  parseDeflate_loop seen p0 (mk <$> (q :: qs)) = parseDeflate_loop (ToLower q.1 :: seen) p1 (mk <$> qs) ->
  (forall p, ~ (ToLower q.1 ∈ ToLower <$> qs.*1) -> reads qs p1 p -> reads (q :: qs) p0 p) ->
  loop_cases seen p0 (q :: qs).
Proof.
  intros Hc Hs Hq El Hr. unfold loop_cases. rewrite El. destruct Hc as [(Hf & Hp & p & E & Hrd) | [Hn E]].
  - left. destruct (proj2 (good_cons seen q qs)) as [G1 G2]; [done |]. split; [done |]. split; [done |].
    exists p. split; [done |]. apply Hr; [| done]. destruct G2 as [G2 _]. rewrite !fmap_cons in G2. by apply NoDup_cons in G2 as [? _].
  - right. split; [| done]. intros H%good_cons. tauto.
Qed.

Lemma step_refused seen p0 q qs :
  (ToLower q.1 ∈ seen \/ ~ param_ok q) -> parseDeflate_loop seen p0 (mk <$> (q :: qs)) = None -> loop_cases seen p0 (q :: qs).
Proof. intros H E. right. split; [| done]. intros G%good_cons. tauto. Qed.

(** A parameter of another name changes nothing a name says. *)
Ltac other_name E := rewrite E; apply (bool_decide_unpack _); vm_compute; exact Logic.I.
Ltac others E H :=
  repeat (setoid_rewrite says_other; [| other_name E]); repeat (setoid_rewrite mentions_other; [| other_name E]); apply H.

Lemma loop_all qs seen p0 : loop_cases seen p0 qs.
Proof.
  revert seen p0. induction qs as [| q qs IH]; intros seen p0.
  { left. split; [constructor |]. split; [split; constructor |]. exists p0. split; [done |].
    assert (forall name, ~ mentions [] name) as Hm by (intros name (v & n & H%elem_of_nil & _); done).
    constructor; [| | by right | by right]; (split; [by left | by intros [? | ?%Hm]]). }
  assert (parseDeflate_loop seen p0 (mk <$> (q :: qs)) = parseDeflate_loop seen p0 (mk q :: (mk <$> qs))) as El by done.
  cbn [parseDeflate_loop pname pvalue mk] in El.
  destruct (bool_decide_reflect (ToLower q.1 ∈ seen)) as [Hin | Hs]; [by apply step_refused; [left |] |].
  destruct (bool_decide_reflect (ToLower q.1 = str "server_no_context_takeover")) as [E | N1];
    [| destruct (bool_decide_reflect (ToLower q.1 = str "client_no_context_takeover")) as [E | N2];
    [| destruct (bool_decide_reflect (ToLower q.1 = str "server_max_window_bits")) as [E | N3];
    [| destruct (bool_decide_reflect (ToLower q.1 = str "client_max_window_bits")) as [E | N4]]]].
  - destruct (bool_decide_reflect (q.2 <> [])) as [Hv | Hv].
    { apply step_refused; [| done]. right. unfold param_ok. rewrite E. by intros [[_ ?] | [[? _] | [? _]]]. }
    apply dec_stable in Hv.
    eapply step_taken; [apply IH | done | left; auto | exact El |]. intros p Hn H.
    constructor; [| others E H | others E H | others E H].
    rewrite (rd_server _ _ _ H), mentions_cons, E. cbn. tauto.
  - destruct (bool_decide_reflect (q.2 <> [])) as [Hv | Hv].
    { apply step_refused; [| done]. right. unfold param_ok. rewrite E. by intros [[_ ?] | [[? _] | [? _]]]. }
    apply dec_stable in Hv.
    eapply step_taken; [apply IH | done | left; auto | exact El |]. intros p Hn H.
    constructor; [others E H | | others E H | others E H].
    rewrite (rd_client _ _ _ H), mentions_cons, E. cbn. tauto.
  - pose proof (windowBits_cases q.2) as Hw. destruct (windowBits q.2) as [n |].
    2: { apply step_refused; [| done]. right. unfold param_ok. rewrite E. destruct Hw as [_ Hw].
         intros [[[? | ?] _] | [[_ [n ?]] | [? _]]]; try done. by apply (Hw n). }
    destruct Hw as [[Ev ->] | [Hv Hw]].
    { apply step_refused; [| done]. right. unfold param_ok. rewrite E, Ev.
      intros [[[? | ?] _] | [[_ [n ?%window_nil]] | [? _]]]; done. }
    assert ((n =? 0) = false) as En by (apply Z.eqb_neq; destruct Hw; lia). rewrite En in El.
    eapply step_taken; [apply IH | done | right; left; split; [done | by exists n] | exact El |]. intros p Hn H.
    constructor; [others E H | others E H | | others E H]. left. exists q.2. rewrite says_cons. split; [by left |].
    destruct (rd_server_bits _ _ _ H) as [(v & Hsay & _) | [_ ->]]; [| done].
    destruct Hn. rewrite E. apply mentions_names. by exists v.
  - pose proof (windowBits_cases q.2) as Hw. destruct (windowBits q.2) as [n |].
    2: { apply step_refused; [| done]. right. unfold param_ok. rewrite E. destruct Hw as [Hv Hw].
         intros [[[? | ?] _] | [[? _] | [_ [? | [n ?]]]]]; try done. by apply (Hw n). }
    eapply step_taken; [apply IH | done | | exact El |].
    { right. right. split; [done |]. destruct Hw as [[? _] | [_ Hw]]; [by left | right; by exists n]. }
    intros p Hn H. constructor; [others E H | others E H | others E H |]. left. exists q.2. rewrite says_cons. split; [by left |].
    destruct (rd_client_bits _ _ _ H) as [(v & Hsay & _) | [_ ->]].
    { destruct Hn. rewrite E. apply mentions_names. by exists v. }
    cbn. destruct Hw as [[Ev ->] | [_ Hw]]; [by right | left].
    assert ((n =? 0) = false) as -> by (apply Z.eqb_neq; destruct Hw; lia). done.
  - apply step_refused; [| done]. right. unfold param_ok. by intros [[[? | ?] _] | [[? _] | [? _]]].
Qed.

(** An offer is refused or read. *)
Lemma offer_cases o :
  params_ok (offer_params o) /\ (exists p, parseDeflate (ext_of o) = Some p /\ reads (offer_params o) deflateParams_zero p)
  \/ ~ params_ok (offer_params o) /\ parseDeflate (ext_of o) = None.
Proof.
  destruct (loop_all (offer_params o) [] deflateParams_zero) as [(_ & H & E) | [H E]]; [by left | right].
  split; [| exact E]. intros Hp. apply H. split; [| done]. apply Forall_forall. intros n _. apply not_elem_of_nil.
Qed.

(** A parameter that is there once has one value. *)
Lemma says_unique qs name v w :
  NoDup (ToLower <$> qs.*1) -> says qs name v -> says qs name w -> v = w.
Proof.
  induction qs as [| q qs IH]; [intros _ (n & H%elem_of_nil & _); done |].
  rewrite !fmap_cons, NoDup_cons, !says_cons. intros [Hn Hd].
  assert (forall u, says qs name u -> ToLower q.1 <> str name) as Hno.
  { intros u Hu E. destruct Hn. rewrite E. apply mentions_names. by exists u. }
  intros [[E <-] | Hv] [[E' <-] | Hw]; [done | by apply Hno in Hw | by apply Hno in Hv | by apply IH].
Qed.

Lemma says_window qs name v m :
  NoDup (ToLower <$> qs.*1) -> says qs name v -> window v m -> forall n, n = m <-> exists v, says qs name v /\ window v n.
Proof.
  intros Hd Hv [Ha Hr] n. split; [intros ->; exists v; by split |]. intros (w & Hw & [Hb _]).
  rewrite (says_unique _ _ _ _ Hd Hw Hv) in Hb. congruence.
Qed.

(** What the server says of its settlement, read by the same rules. *)
Lemma format_answers k : bits_ok (SendWindowBits k) -> answers k (formatDeflate k).
Proof.
  intros Hb. destruct (format_parse k Hb) as (e & Ep & En & Ed).
  destruct (parse_cases (formatDeflate k)) as [[_ E] | [_ E]]; rewrite Ep in E; [injection E as E | done].
  symmetry in E. apply fmap_cons_inv in E as (r & l & -> & El & Er). symmetry in El. apply fmap_nil_inv in El as ->.
  destruct (offer_cases r) as [(Hok & p & Hd & Hr) | [_ Hd]]; rewrite Ed in Hd; [injection Hd as <- | done].
  constructor; [by exists r |]. intros r' E'. rewrite Er in E'. injection E' as <-. split_and!.
  - pose proof (rd_server _ _ _ Hr) as H. cbn in H. rewrite negb_true_iff in H. rewrite H. split; [by right | by intros [? | ?]].
  - pose proof (rd_client _ _ _ Hr) as H. cbn in H. rewrite negb_true_iff in H. rewrite H. split; [by right | by intros [? | ?]].
  - intros n. destruct (rd_server_bits _ _ _ Hr) as [(v & Hv & Hw) | [Hm Hz]].
    + rewrite <- (says_window _ _ _ _ (proj1 Hok) Hv Hw n). cbn. unfold window in Hw. cbn in Hw.
      destruct (Z.eqb_spec (SendWindowBits k) 15); lia.
    + cbn in Hz. split; [intros (v & Hv & _); destruct Hm; by exists v |].
      destruct (Z.eqb_spec (SendWindowBits k) 15); lia.
  - intros Hm. destruct (rd_client_bits _ _ _ Hr) as [(v & _ & [[_ ?] | [_ ?]]) | [Hn _]]; [cbn in *; lia | done | done].
Qed.

Lemma acceptable_cases o :
  acceptable o /\ EqualFold (ename (ext_of o)) deflateName = true /\
    (exists p, parseDeflate (ext_of o) = Some p /\ reads (offer_params o) deflateParams_zero p)
  \/ ~ acceptable o /\ (EqualFold (ename (ext_of o)) deflateName = false \/ parseDeflate (ext_of o) = None).
Proof.
  unfold acceptable. change (ename (ext_of o)) with (offer_name o). change (str "permessage-deflate") with deflateName.
  destruct (EqualFold (offer_name o) deflateName); [| right; split; [by intros [? _] | by left]].
  destruct (offer_cases o) as [[Hp Hr] | [Hp Hd]]; [by left | right; split; [by intros [_ ?] | by right]].
Qed.

Lemma reads_honours c qs p :
  reads qs deflateParams_zero p ->
  honours c qs {| Level := cLevel c; MinSize := cMinSize c;
                  SendContextTakeover := ContextTakeover c && negb (serverNoContextTakeover p);
                  ReceiveContextTakeover := ContextTakeover c && negb (clientNoContextTakeover p);
                  SendWindowBits := serverMaxWindowBits p; ReceiveWindowBits := clientMaxWindowBits p |}.
Proof.
  intros [H1 H2 H3 H4]. cbn in *. constructor; try done; cbn; rewrite andb_true_iff, negb_true_iff, <- not_true_iff_false.
  - rewrite H1. intuition discriminate.
  - rewrite H2. intuition discriminate.
Qed.

Lemma select_settled c os header :
  elements header = os ->
  settled (Some c) header (selectDeflate c (ext_of <$> os))
    (match selectDeflate c (ext_of <$> os) with Some k => formatDeflate k | None => [] end).
Proof.
  intros Eh. unfold settled. rewrite Eh. clear Eh.
  enough (match selectDeflate c (ext_of <$> os) with
          | None => Forall (fun o => ~ acceptable o) os
          | Some k => exists pre o post, os = pre ++ o :: post /\ Forall (fun o => ~ acceptable o) pre /\
              acceptable o /\ honours c (offer_params o) k /\ bits_ok (SendWindowBits k)
          end) as H.
  { destruct (selectDeflate c (ext_of <$> os)) as [k |]; [| split; [done | by right]].
    destruct H as (pre & o & post & H1 & H2 & H3 & H4 & H5). exists c, pre, o, post. split_and!; try done. by apply format_answers. }
  induction os as [| o os IH]; [constructor |].
  change (selectDeflate c (ext_of <$> o :: os)) with
    (if negb (EqualFold (ename (ext_of o)) deflateName) then selectDeflate c (ext_of <$> os)
     else match parseDeflate (ext_of o) with
          | None => selectDeflate c (ext_of <$> os)
          | Some p => Some {| Level := cLevel c; MinSize := cMinSize c;
              SendContextTakeover := ContextTakeover c && negb (serverNoContextTakeover p);
              ReceiveContextTakeover := ContextTakeover c && negb (clientNoContextTakeover p);
              SendWindowBits := serverMaxWindowBits p; ReceiveWindowBits := clientMaxWindowBits p |}
          end).
  destruct (acceptable_cases o) as [(Ha & -> & p & Hd & Hr) | [Ha Hn]].
  - cbn [negb]. rewrite Hd. exists [], o, os. split; [done |]. split; [constructor |]. split; [done |].
    split; [by apply reads_honours | by apply parseDeflate_bits in Hd as [? _]].
  - assert (forall k, (if negb (EqualFold (ename (ext_of o)) deflateName) then selectDeflate c (ext_of <$> os)
       else match parseDeflate (ext_of o) with None => selectDeflate c (ext_of <$> os) | Some p => k p end)
       = selectDeflate c (ext_of <$> os)) as ->.
    { intros k. destruct Hn as [-> | ->]; [done |]. by destruct (negb _). }
    destruct (selectDeflate c (ext_of <$> os)) as [k |]; [| by constructor].
    destruct IH as (pre & o' & post & -> & Hpre & H). exists (o :: pre), o', post. split; [done |]. split; [by constructor | done].
Qed.

Lemma select_preferred requested supported : preferred requested supported (selectProtocol requested supported).
Proof.
  induction supported as [| s l IH]; [right; split; [done | constructor] |]. cbn [selectProtocol].
  destruct (hasToken requested s) eqn:E.
  - left. exists [], l. split; [done |]. split; [by apply hasToken_lists | constructor].
  - apply hasToken_none in E. destruct IH as [(pre & post & Hs & Hl & Hp) | [-> Hn]].
    + left. exists (s :: pre), post. split; [cbn; by rewrite <- Hs |]. split; [done | by constructor].
    + right. split; [done | by constructor].
Qed.

Ltac met := repeat (apply Forall_cons_2; [assumption |]); apply Forall_nil_2.

(** C31. What a server makes of a request, in both directions.  It is refused
    exactly when something demanded of it is missing, with the error of the
    first such demand: options in range, a GET that upgrades to websocket,
    version 13, a key of sixteen bytes, and, if the server compresses, an
    extension header that can be read.  Any other request is answered with
    [101] and the accept value of its key; the subprotocol is the server's
    first that the client lists, or none; permessage-deflate is settled from
    the first offer with known, well-formed and unrepeated parameters, a
    context is kept just when the server wants it and that offer does not rule
    it out, the windows are those the offer names, and the answer's header
    says exactly that. *)
Theorem Negotiate_decides req opts :
  match Negotiate req opts with
  | Err e => exists before P err after, demands req opts = before ++ (P, err) :: after /\ e = Handshake err /\
      Forall (fun d => d.1) before /\ ~ P
  | Ok (resp, res) =>
      Forall (fun d => d.1) (demands req opts) /\
      Status resp = 101 /\ pUpgrade resp = str "websocket" /\ pConnection resp = str "Upgrade" /\
      pAccept resp = EncodeToString (Sum (Key req ++ str "258EAFA5-E914-47DA-95CA-C5AB0DC85B11")) /\
      preferred (qProtocols req) (Protocols opts) (rProtocol res) /\ pProtocol resp = rProtocol res /\
      settled (oCompression opts) (qExtensions req) (rCompression res) (pExtensions resp)
  end.
Proof.
  unfold demands.
  set (D1 := forall c, _). set (D2 := _ /\ _). set (D3 := qVersion req = _). set (D4 := exists k, _). set (D5 := _ \/ _).
  unfold Negotiate.
  assert (if validOptions opts is None then D1 else validOptions opts = Some (Handshake ErrInvalidOptions) /\ ~ D1) as H1.
  { unfold validOptions, D1. destruct (oCompression opts) as [c |]; [| done].
    destruct (Z.ltb_spec (cLevel c) (-2)), (Z.ltb_spec 9 (cLevel c)), (Z.ltb_spec (cMinSize c) 0); cbn;
      first [intros ? [= <-]; lia | split; [done |]; intros H'; specialize (H' c eq_refl); lia]. }
  destruct (validOptions opts) as [e |].
  { destruct H1 as [[= ->] H1]. by eexists [], D1, _, _. }
  destruct (negb (bool_decide (Method req = str "GET")) || negb (hasToken (qUpgrade req) (str "websocket"))
     || negb (hasToken (qConnection req) (str "Upgrade"))) eqn:E2.
  { eexists [_], D2, _, _. split; [done |]. split; [done |]. split; [met |].
    unfold D2. intros (G1 & G2%hasToken_lists & G3%hasToken_lists). by rewrite bool_decide_eq_true_2, G2, G3 in E2. }
  assert D2 as H2.
  { apply orb_false_elim in E2 as [[G1 G2]%orb_false_elim G3]. apply negb_false_iff in G1, G2, G3.
    unfold D2. rewrite <- !hasToken_lists. split; [by apply bool_decide_eq_true in G1 | done]. }
  destruct (bool_decide_reflect (qVersion req = Version)) as [H3 | H3]; cbn [negb].
  2: { eexists [_; _], D3, _, _. split; [done |]. split; [done |]. split; [met | done]. }
  destruct (validKey (Key req)) eqn:E4; cbn [negb].
  2: { eexists [_; _; _], D4, _, _. split; [done |]. split; [done |]. split; [met |].
       unfold D4. intros (k & Hk & Hl). unfold validKey in E4. by rewrite Hk, Hl in E4. }
  assert D4 as H4.
  { unfold validKey in E4. unfold D4. destruct (DecodeString (Key req)) as [k |]; [| done]. exists k. by apply Z.eqb_eq in E4. }
  destruct (oCompression opts) as [c |] eqn:Ec.
  - destruct (parse_cases (qExtensions req)) as [[Hg ->] | [Hg ->]].
    + assert D5 as H5 by (by right). split; [met |]. do 4 (split; [done |]). split; [apply select_preferred |].
      split; [done |]. by apply select_settled.
    + eexists [_; _; _; _], D5, _, _. split; [done |]. split; [done |]. split; [met |]. unfold D5. by intros [? | ?].
  - assert D5 as H5 by (by left). split; [met |]. do 4 (split; [done |]). split; [apply select_preferred |].
    split; [done |]. split; [done |]. by left.
Qed.

(** Some requests: offers the server skips and the one it takes, a window it
    honours, a context it does not keep, and what is refused. *)
Definition a_try (version extensions protocols : list Z) : Request :=
  mkRequest (str "GET") (str "WebSocket") (str "keep-alive, upgrade") version (str "dGhlIHNhbXBsZSBub25jZQ==") extensions protocols.

Definition compressing : Options := mkOptions (Some (mkCompress 6 0 true)) [str "wamp"; str "soap"].

Example Negotiate_settles :
  exists resp, Negotiate (a_try (str "13") (str "x-other, permessage-deflate; server_max_window_bits=99, Permessage-Deflate; server_max_window_bits=10; client_no_context_takeover; client_max_window_bits") (str "SOAP, mqtt")) compressing
    = Ok (resp, mkResult (Some (mkCompression 6 0 true false 10 15)) (str "soap")) /\
    pExtensions resp = str "permessage-deflate; client_no_context_takeover; server_max_window_bits=10" /\
    pAccept resp = str "s3pPLMBiTxaQ9kYGzzhZRbK+xOo=".
Proof. eexists. split_and!; vm_compute; reflexivity. Qed.

Example Negotiate_refuses :
  Negotiate (a_try (str "8") [] []) compressing = Err (Handshake ErrBadVersion) /\
  Negotiate (a_try (str "13") (str "permessage-deflate; =1") []) compressing = Err (Handshake ErrBadExtension) /\
  Negotiate (a_try (str "13") [] []) (mkOptions (Some (mkCompress 10 0 true)) []) = Err (Handshake ErrInvalidOptions).
Proof. split_and!; vm_compute; reflexivity. Qed.
