(* ===== verification/Window.v ===== *)
(** * The compression history window (deflate/window.go)

    [buf] is the slice's contents and [bcap] its capacity; the bytes between
    the two are never read.  [append] past the capacity reallocates to what
    the runtime's growth rule says ([Grow]). *)

From stdpp Require Import prelude.
From S2P Require Import Prelude Encoder.

Record Window := mkWindow {
  Bits : Z;
  buf : list Z;
  bcap : Z;
  gen : Z   (* uint64 *)
}.

Definition windowSize : Z := Z.shiftl 32 10.

(** [&Window{Bits: bits}] *)
Definition Window_new (bits : Z) : Window := {| Bits := bits; buf := []; bcap := 0; gen := 0 |}.

Module Win.

Definition Size (w : Window) : Z :=
  if (8 <=? Bits w) && (Bits w <=? 15) then Z.shiftl 1 (Bits w) else windowSize.

Definition dict (w : option Window) : list Z :=
  match w with
  | None => []
  | Some w => let n := len (buf w) - Size w in if 0 <? n then from (buf w) n else buf w
  end.

Section ops.
Context `{Grow}.

(** [append(s, p...)] on contents and capacity. *)
Definition append (s : list Z * Z) (p : list Z) : list Z * Z :=
  let l := s.1 ++ p in (l, if len l <=? s.2 then s.2 else growcap s.2 (len l)).

Definition set_buf (w : Window) (s : list Z * Z) : Window := {| w with buf := s.1; bcap := s.2 |}.

Definition remember (w : Window) (p : list Z) : Window :=
  if len p =? 0 then w
  else
    let w := {| w with gen := u64 (gen w + 1) |} in
    let size := Size w in
    if size <=? len p then set_buf w (append ([], bcap w) (from p (len p - size)))
    else
      let w := if bcap w <? 2 * size
               then set_buf w (append ([], 2 * size) (dict (Some w))) else w in
      let w := if bcap w <? len (buf w) + len p
               then
                 let keep := size - len p in
                 {| w with buf := from (buf w) (len (buf w) - keep) |}
               else w in
      set_buf w (append (buf w, bcap w) p).

Definition Add (w : Window) (payload : list Z) : Window := remember w payload.

Definition Reset (w : Window) : Window := {| w with buf := []; gen := u64 (gen w + 1) |}.

End ops.
End Win.

Import Win.

(** ** Specification: the last [n] bytes of everything remembered *)

Definition lastn (n : Z) (l : list Z) : list Z := from l (len l - n).

Definition window_ok (w : Window) : Prop := len (buf w) <= bcap w.

Lemma len_lastn n l : 0 <= n -> len (lastn n l) = Z.min n (len l).
Proof. intros. unfold lastn. len_lia. Qed.

Lemma lastn_all n l : len l <= n -> lastn n l = l.
Proof. intros. unfold lastn. apply from_0. lia. Qed.

Lemma lastn_app_ge n l k : 0 <= n <= len k -> lastn n (l ++ k) = lastn n k.
Proof.
  intros. unfold lastn. rewrite len_app, from_app_ge by lia. f_equal. lia.
Qed.

Lemma lastn_app_le n l k : len k <= n -> lastn n (l ++ k) = lastn (n - len k) l ++ k.
Proof.
  intros Hk. unfold lastn. pose proof (len_nonneg l). rewrite len_app.
  destruct (decide (len l + len k - n <= len l)).
  - rewrite from_app_le by lia. do 2 f_equal. lia.
  - lia.
Qed.

Lemma lastn_lastn n m l : 0 <= n <= m -> lastn n (lastn m l) = lastn n l.
Proof.
  intros. pose proof (len_nonneg l). unfold lastn at 1. rewrite len_lastn by lia. unfold lastn.
  destruct (decide (len l <= m)).
  - rewrite (from_0 l (len l - m)) by lia. f_equal. lia.
  - rewrite from_from by lia. f_equal. lia.
Qed.

(** Only the last bytes of a prefix matter to the last bytes of the whole. *)
Lemma lastn_app_lastn n l k : 0 <= n -> lastn n (lastn n l ++ k) = lastn n (l ++ k).
Proof.
  intros. pose proof (len_nonneg k). destruct (decide (n <= len k)).
  - by rewrite !lastn_app_ge by lia.
  - rewrite !lastn_app_le by lia. f_equal. apply lastn_lastn. lia.
Qed.

(** A decoder's history [h] serves an encoder that knows [b] and reaches back
    [n] bytes: the bytes within reach are the end of [h]. *)
Definition reaches (n : Z) (b h : list Z) : Prop := suffix (lastn n b) h.

Lemma lastn_suffix n l : suffix (lastn n l) l.
Proof. exists (upto l (len l - n)). unfold lastn. by rewrite upto_from. Qed.

Lemma reaches_eq n b h : lastn n h = lastn n b -> reaches n b h.
Proof. unfold reaches. intros <-. apply lastn_suffix. Qed.

Lemma reaches_nil n h : reaches n [] h.
Proof. exists h. unfold lastn, from. by rewrite drop_nil, app_nil_r. Qed.

Lemma reaches_base n b b' h : lastn n b = lastn n b' -> reaches n b h -> reaches n b' h.
Proof. unfold reaches. by intros ->. Qed.

Lemma reaches_app n b h p : 0 <= n -> reaches n b h -> reaches n (b ++ p) (h ++ p).
Proof.
  intros Hn [k ->]. unfold reaches. rewrite <- lastn_app_lastn, <- app_assoc by done.
  apply suffix_app_r, lastn_suffix.
Qed.

Lemma Size_pos w : 256 <= Size w <= windowSize.
Proof.
  unfold Size. change windowSize with 32768.
  destruct (Z.leb_spec 8 (Bits w)), (Z.leb_spec (Bits w) 15); cbn [andb]; try lia.
  rewrite Z.shiftl_mul_pow2 by lia. assert (2 ^ 8 <= 2 ^ Bits w <= 2 ^ 15); [| lia].
  split; apply Z.pow_le_mono_r; lia.
Qed.

Lemma dict_lastn w : dict (Some w) = lastn (Size w) (buf w).
Proof.
  unfold dict, lastn. destruct (Z.ltb_spec 0 (len (buf w) - Size w)); [done |].
  rewrite from_0 by lia. done.
Qed.

Lemma dict_len w : len (dict (Some w)) <= Size w.
Proof. rewrite dict_lastn, len_lastn by (pose proof (Size_pos w); lia). lia. Qed.

Section remember.
Context {G : Grow} `{!GrowOk G}.

Lemma append_cap s p : len (append s p).1 <= (append s p).2.
Proof.
  unfold append. cbn. destruct (Z.leb_spec (len (s.1 ++ p)) s.2); [done |].
  apply growcap_ge.
Qed.

Lemma remember_Bits w p : Bits (remember w p) = Bits w.
Proof. unfold remember. repeat case_match; done. Qed.

Lemma remember_Size w p : Size (remember w p) = Size w.
Proof. unfold Size. by rewrite remember_Bits. Qed.

Lemma remember_gen w p : gen (remember w p) = if len p =? 0 then gen w else u64 (gen w + 1).
Proof. unfold remember. repeat case_match; done. Qed.

Lemma remember_ok w p : window_ok w -> window_ok (remember w p).
Proof.
  intros Hw. unfold remember. destruct (len p =? 0); [done |].
  destruct (_ <=? len p); [apply append_cap |]. apply append_cap.
Qed.

Lemma remember_dict w p :
  window_ok w -> dict (Some (remember w p)) = lastn (Size w) (dict (Some w) ++ p).
Proof.
  intros Hw. pose proof (Size_pos w) as Hs. pose proof (len_nonneg p). pose proof (dict_len w) as Hd.
  rewrite dict_lastn, remember_Size.
  unfold remember. destruct (Z.eqb_spec (len p) 0) as [E | N].
  { apply len_0_nil in E. subst p. rewrite app_nil_r, (dict_lastn w). symmetry. apply lastn_lastn. lia. }
  set (w1 := {| w with gen := _ |}). change (Size w1) with (Size w).
  destruct (Z.leb_spec (Size w) (len p)) as [Hp | Hp].
  { cbn [set_buf append buf fst app]. fold (lastn (Size w) p).
    rewrite lastn_lastn by lia. by rewrite lastn_app_ge by lia. }
  set (w2 := if bcap w1 <? 2 * Size w then _ else w1).
  assert (lastn (Size w) (buf w2) = dict (Some w) /\ len (buf w2) <= bcap w2 /\ 2 * Size w <= bcap w2)
    as (Eb & Hl & Hc).
  { subst w2. destruct (Z.ltb_spec (bcap w1) (2 * Size w)) as [Hlt | Hge].
    - change (dict (Some w1)) with (dict (Some w)). cbn [set_buf append buf bcap fst snd app].
      destruct (Z.leb_spec (len (dict (Some w))) (2 * Size w)); [| lia].
      split_and!; [apply lastn_all; lia | lia | lia].
    - split_and!; [by rewrite dict_lastn | exact Hw | done]. }
  clearbody w2. clear w1. cbn [set_buf append buf fst].
  destruct (Z.ltb_spec (bcap w2) (len (buf w2) + len p)) as [Hfull | Hfit].
  - cbn [buf]. fold (lastn (Size w - len p) (buf w2)).
    rewrite <- Eb, lastn_app_lastn by lia. rewrite !lastn_app_le by lia. f_equal. apply lastn_lastn. lia.
  - rewrite <- Eb. by rewrite lastn_app_lastn by lia.
Qed.

(** The backing array stays within twice the window, whatever is added, once
    it holds less than a window at a time. *)
Lemma remember_cap w p :
  window_ok w -> len p < Size w -> bcap w <= 2 * Size w -> bcap (remember w p) <= 2 * Size w.
Proof.
  intros Hw Hp Hc. pose proof (Size_pos w). pose proof (len_nonneg p). pose proof (dict_len w).
  unfold remember. destruct (Z.eqb_spec (len p) 0); [done |].
  set (w1 := {| w with gen := _ |}). change (Size w1) with (Size w).
  destruct (Z.leb_spec (Size w) (len p)); [lia |].
  set (w2 := if bcap w1 <? 2 * Size w then _ else w1).
  assert (bcap w2 = 2 * Size w /\ len (buf w2) <= bcap w2) as [Ec Hl].
  { subst w2. destruct (Z.ltb_spec (bcap w1) (2 * Size w)) as [Hlt | Hge]; [| cbn in *; unfold window_ok in *; lia].
    change (dict (Some w1)) with (dict (Some w)). cbn [set_buf append buf bcap fst snd app].
    destruct (Z.leb_spec (len (dict (Some w))) (2 * Size w)); lia. }
  clearbody w2. clear w1. cbn [set_buf append buf bcap fst snd].
  destruct (Z.ltb_spec (bcap w2) (len (buf w2) + len p)); cbn [buf bcap].
  - rewrite len_app, len_from. match goal with |- context [?a <=? ?b] => destruct (Z.leb_spec a b) end; lia.
  - rewrite len_app. match goal with |- context [?a <=? ?b] => destruct (Z.leb_spec a b) end; lia.
Qed.
End remember.

(** ** Properties *)

(** Whatever has been added since the last reset, and in whatever pieces,
    the dictionary the window offers is exactly its last [Size] bytes, however
    the buffer was compacted or reallocated on the way. *)
Theorem window_history {G : Grow} `{!GrowOk G} w ps :
  window_ok w ->
  let w' := foldl remember w ps in
  window_ok w' /\ dict (Some w') = lastn (Size w) (dict (Some w) ++ concat ps).
Proof.
  revert w. induction ps as [| p ps IH]; intros w Hw; cbn [foldl concat].
  - split; [done |]. rewrite app_nil_r, dict_lastn. symmetry. apply lastn_lastn. pose proof (Size_pos w). lia.
  - destruct (IH _ (remember_ok w p Hw)) as [Hok Hd]. split; [done |].
    rewrite Hd, remember_Size, remember_dict by done.
    rewrite lastn_app_lastn by (pose proof (Size_pos w); lia). by rewrite app_assoc.
Qed.

#[local] Existing Instance double_growth.
#[local] Existing Instance double_growth_ok.

Lemma window_history_witness :
  let w := Window_new 8 in
  let w' := foldl remember w [zeros 200; replicate 100 1; [2; 3]] in
  window_ok w' /\ dict (Some w') = lastn 256 (zeros 200 ++ replicate 100 1 ++ [2; 3]).
Proof. apply (window_history (Window_new 8)). done. Defined.
