(* ===== verification/Compressor.v ===== *)
(** * The compressor (deflate/compressor.go)

    The DEFLATE encoder is a third-party package: the class [Flate] is its
    interface and [FlateOk] what its documentation promises.  A window is
    passed with the identity of the Go pointer, so that "the same window" can
    be told from "a window with the same bytes". *)

From stdpp Require Import prelude.
From S2P Require Import Prelude Errors Encoder Window.

(** [flate.Writer]: each operation returns the bytes it appended to the
    output buffer, or an error. *)
Class Flate := {
  fwriter : Type;
  NewWriter : Z -> result fwriter;
  NewWriterWindow : Z -> result fwriter;
  ResetDict : fwriter -> list Z -> fwriter;
  Write : fwriter -> list Z -> fwriter * result (list Z);
  Flush : fwriter -> fwriter * result (list Z)
}.

Record Compressor `{Flate} := mkCompressor {
  writer : fwriter;
  output : list Z;
  cwindow : Z;
  attached : option Z;
  cgen : Z;
  mid : bool
}.

Module Cmp.
Section ops.
Context `{Flate} `{Grow}.

Definition NewCompressor (level : Z) : result Compressor :=
  match NewWriter level with
  | Err e => Err e
  | Ok w => Ok {| writer := w; output := []; cwindow := windowSize; attached := None; cgen := 0; mid := false |}
  end.

Definition NewCompressorWindow (windowBits : Z) : result Compressor :=
  if (windowBits <? 8) || (15 <? windowBits) then Err (Deflate ErrInvalidWindow)
  else
    match NewWriterWindow (Z.shiftl 1 windowBits) with
    | Err e => Err e
    | Ok w => Ok {| writer := w; output := []; cwindow := Z.shiftl 1 windowBits; attached := None;
                    cgen := 0; mid := false |}
    end.

(** Whether the encoder must be primed from the window. *)
Definition stale (c : Compressor) (w : option (Z * Window)) : bool :=
  negb (mid c) &&
  match w with
  | None => true
  | Some (i, w) => negb (bool_decide (attached c = Some i)) || negb (gen w =? cgen c)
  end.

Definition prime (c : Compressor) (w : option (Z * Window)) : Compressor :=
  if stale c w then
    let dict := Win.dict (snd <$> w) in
    let dict := if cwindow c <? len dict then from dict (len dict - cwindow c) else dict in
    {| c with writer := ResetDict (writer c) dict |}
  else c.

Definition detach (c : Compressor) : Compressor := {| c with attached := None; mid := false |}.

Definition CompressChunk (c : Compressor) (payload : list Z) (w : option (Z * Window)) (final : bool)
    : Compressor * option (Z * Window) * result (list Z) :=
  let c := prime {| c with output := [] |} w in
  let '(fw, r) := Write (writer c) payload in
  let c := {| c with writer := fw |} in
  match r with
  | Err e => (detach c, w, Err e)
  | Ok bs =>
      let c := {| c with output := output c ++ bs |} in
      let '(fw, r) := Flush (writer c) in
      let c := {| c with writer := fw |} in
      match r with
      | Err e => (detach c, w, Err e)
      | Ok bs =>
          let c := {| c with output := output c ++ bs |} in
          let c := {| c with attached := fst <$> w; mid := negb final |} in
          let '(c, w) :=
            match w with
            | None => (c, w)
            | Some (i, w) =>
                let w := Win.remember w payload in ({| c with cgen := gen w |}, Some (i, w))
            end in
          let output := output c in
          (c, w, Ok (if final then upto output (len output - 4) else output))
      end
  end.

Definition Compress (c : Compressor) (payload : list Z) (w : option (Z * Window))
    : Compressor * option (Z * Window) * result (list Z) :=
  CompressChunk c payload w true.

Definition Reset (c : Compressor) : Compressor :=
  {| c with output := []; writer := ResetDict (writer c) []; attached := None; mid := false |}.

End ops.
End Cmp.

Import Cmp.

(** ** What the encoder promises *)

Definition sync_tail : list Z := [0; 0; 255; 255].

(** [fhist] is the data the encoder's matches may refer to, [freach] how far
    back they go, and [inflates h bs p] says that a decoder with history [h]
    turns [bs] into [p].  Encoding never fails into an in-memory buffer, a
    flush ends with the sync marker, the flushed bytes decode against any
    history that ends with what the encoder reaches, and decoding composes. *)
Class FlateOk (F : Flate) := {
  fhist : fwriter -> list Z;
  freach : fwriter -> Z;
  inflates : list Z -> list Z -> list Z -> Prop;
  freach_pos w : 0 <= freach w;
  reset_hist w d : fhist (ResetDict w d) = d;
  reset_reach w d : freach (ResetDict w d) = freach w;
  new_reach l w : NewWriter l = Ok w -> freach w = windowSize;
  new_window_reach n w : NewWriterWindow n = Ok w -> freach w = n;
  flush_spec w p : exists w1 b1 w2 b2 body,
    Write w p = (w1, Ok b1) /\ Flush w1 = (w2, Ok b2) /\
    b1 ++ b2 = body ++ sync_tail /\
    fhist w2 = fhist w ++ p /\ freach w2 = freach w /\
    forall h, reaches (freach w) (fhist w) h -> inflates h (b1 ++ b2) p;
  inflates_app h b1 p1 b2 p2 :
    inflates h b1 p1 -> inflates (h ++ p1) b2 p2 -> inflates h (b1 ++ b2) (p1 ++ p2)
}.

Section spec.
Context {F : Flate} {FO : FlateOk F} {G : Grow} `{!GrowOk G}.

(** The encoder's reach is the compressor's window, and when it continues a
    window nobody else has touched, their histories agree within reach. *)
Definition in_sync (c : Compressor) (i : Z) (w : Window) : Prop :=
  attached c = Some i -> cgen c = gen w ->
  lastn (cwindow c) (fhist (writer c)) = lastn (cwindow c) (Win.dict (Some w)).

Definition comp_ok (c : Compressor) : Prop := freach (writer c) = cwindow c.

(** The history the next chunk is encoded against. *)
Definition base (c : Compressor) (w : option (Z * Window)) : list Z :=
  if stale c w then Win.dict (snd <$> w) else fhist (writer c).

Lemma comp_ok_pos c : comp_ok c -> 0 <= cwindow c.
Proof. unfold comp_ok. intros <-. apply freach_pos. Qed.

Lemma prime_spec c w :
  comp_ok c ->
  let c' := prime c w in
  comp_ok c' /\ cwindow c' = cwindow c /\ output c' = output c /\
  lastn (cwindow c) (fhist (writer c')) = lastn (cwindow c) (base c w).
Proof.
  intros Hc. pose proof (comp_ok_pos c Hc). unfold prime, base. destruct (stale c w); [| done]. cbn.
  unfold comp_ok in *. cbn. rewrite reset_reach, reset_hist. split_and!; try done.
  destruct (Z.ltb_spec (cwindow c) (len (Win.dict (snd <$> w)))); [| done].
  apply lastn_lastn. lia.
Qed.

(** One chunk: it never fails, its output decodes against any history that
    ends with what [base] has within reach, and the encoder then stands after it. *)
Lemma CompressChunk_spec c p w final :
  comp_ok c ->
  exists c' out body,
    CompressChunk c p w final
      = (c', (fun '(i, w) => (i, Win.remember w p)) <$> w, Ok out) /\
    out = (if final then body else body ++ sync_tail) /\
    comp_ok c' /\ cwindow c' = cwindow c /\ attached c' = fst <$> w /\ mid c' = negb final /\
    (forall i w0, w = Some (i, w0) -> cgen c' = gen (Win.remember w0 p)) /\
    lastn (cwindow c) (fhist (writer c')) = lastn (cwindow c) (base c w ++ p) /\
    forall h, reaches (cwindow c) (base c w) h -> inflates h (body ++ sync_tail) p.
Proof.
  intros Hc. pose proof (comp_ok_pos c Hc) as Hpos. unfold CompressChunk.
  set (c0 := {| c with output := [] |}).
  destruct (prime_spec c0 w Hc) as (Hok & Hw & Hout & Hh). change (base c0 w) with (base c w) in Hh.
  change (cwindow c0) with (cwindow c) in *. change (output c0) with (@nil Z) in Hout.
  set (c1 := prime c0 w) in *. clearbody c1.
  destruct (flush_spec (writer c1) p) as (w1 & b1 & w2 & b2 & body & -> & Hf & Hb & Hhist & Hreach & Hinf).
  cbn [writer output]. rewrite Hf, Hout. cbn [app].
  unfold comp_ok in Hok. rewrite Hw in Hok. rewrite Hok in *.
  assert ((if final then upto (b1 ++ b2) (len (b1 ++ b2) - 4) else b1 ++ b2)
          = if final then body else body ++ sync_tail) as Eout.
  { rewrite Hb. destruct final; [| done]. rewrite len_app. change (len sync_tail) with 4.
    replace (len body + 4 - 4) with (len body) by lia. apply upto_app_len. }
  assert (lastn (cwindow c) (fhist w2) = lastn (cwindow c) (base c w ++ p)) as Hh2.
  { rewrite Hhist. rewrite <- (lastn_app_lastn _ (fhist (writer c1))), Hh by done.
    by apply lastn_app_lastn. }
  assert (forall h, reaches (cwindow c) (base c w) h -> inflates h (body ++ sync_tail) p) as Hi.
  { intros h E. rewrite <- Hb. apply Hinf. by apply reaches_base with (base c w). }
  destruct w as [[i w] |]; eexists _, _, body; (split; [reflexivity |]); cbn; rewrite Eout;
    split_and!; try done; try (unfold comp_ok; cbn; congruence).
Qed.

(** A message sent as a list of chunks, the last one final. *)
Fixpoint send_chunks (c : Compressor) (w : option (Z * Window)) (ps : list (list Z))
    : Compressor * option (Z * Window) * result (list Z) :=
  match ps with
  | [] => (c, w, Ok [])
  | p :: ps =>
      let '(c, w, r) := CompressChunk c p w (bool_decide (ps = [])) in
      match r with
      | Err e => (c, w, Err e)
      | Ok out =>
          let '(c, w, r) := send_chunks c w ps in
          (c, w, match r with Ok outs => Ok (out ++ outs) | Err e => Err e end)
      end
  end.

Definition remember_all (w : option (Z * Window)) (ps : list (list Z)) : option (Z * Window) :=
  (fun '(i, w) => (i, foldl Win.remember w ps)) <$> w.

Lemma send_chunks_spec c w ps :
  comp_ok c -> ps <> [] ->
  exists c' out,
    send_chunks c w ps = (c', remember_all w ps, Ok out) /\
    comp_ok c' /\ cwindow c' = cwindow c /\ attached c' = fst <$> w /\ mid c' = false /\
    (forall i w0, w = Some (i, w0) -> cgen c' = gen (foldl Win.remember w0 ps)) /\
    lastn (cwindow c) (fhist (writer c')) = lastn (cwindow c) (base c w ++ concat ps) /\
    forall h, reaches (cwindow c) (base c w) h ->
      inflates h (out ++ sync_tail) (concat ps).
Proof.
  revert c w. induction ps as [| p ps IH]; intros c w Hc Hn; [done |]. cbn [send_chunks].
  pose proof (comp_ok_pos c Hc) as Hpos.
  destruct (CompressChunk_spec c p w (bool_decide (ps = [])) Hc)
    as (c1 & o1 & body & -> & Eo & Hc1 & Hw1 & Ha1 & Hm1 & Hg1 & Hh1 & Hi1).
  destruct (decide (ps = [])) as [-> | Hps].
  - rewrite bool_decide_eq_true_2 in * by done. subst o1. cbn [send_chunks concat].
    rewrite !app_nil_r. eexists _, _. split; [unfold remember_all; cbn; reflexivity |].
    by split_and!.
  - rewrite bool_decide_eq_false_2 in * by done. subst o1.
    set (w1 := (fun '(i, w) => (i, Win.remember w p)) <$> w).
    destruct (IH c1 w1 Hc1 Hps) as (c2 & out & -> & Hc2 & Hw2 & Ha2 & Hm2 & Hg2 & Hh2 & Hi2).
    assert (base c1 w1 = fhist (writer c1)) as Hb by (unfold base, stale; by rewrite Hm1).
    rewrite Hw1, Hb in *.
    exists c2, ((body ++ sync_tail) ++ out). split; [by destruct w as [[i w0] |] |].
    split; [done |]. split; [done |]. split; [by destruct w as [[i w0] |] |]. split; [done |].
    split; [intros i w0 ->; by apply (Hg2 i) |]. cbn [concat]. split.
    + rewrite Hh2, <- lastn_app_lastn, Hh1, lastn_app_lastn by done. by rewrite app_assoc.
    + intros h E. rewrite <- app_assoc. apply inflates_app; [by apply Hi1 |]. apply Hi2.
      apply reaches_base with (base c w ++ p); [by symmetry | by apply reaches_app].
Qed.

(** ** A connection's stream over time *)

(** What happens to a send direction: a message in chunks through this
    compressor, a message sent through some other path, this compressor
    serving a message without a window elsewhere, or going back to a pool. *)
Inductive traffic :=
  | TMessage (ps : list (list Z))
  | TOther (p : list Z)
  | TElsewhere (p : list Z)
  | TPool.

(** [peer] is the receiver's window: it remembers each message it decodes.
    The results are the compressed messages, with what they must decode to
    and the history they meet. *)
Fixpoint carry (i : Z) (c : Compressor) (w peer : Window) (ts : list traffic)
    : list (list Z * result (list Z) * list Z) * Window * Window :=
  match ts with
  | [] => ([], w, peer)
  | TMessage ps :: ts =>
      let '(c, w', r) := send_chunks c (Some (i, w)) ps in
      let w := default w (snd <$> w') in
      let '(outs, w, peer') := carry i c w (Win.remember peer (concat ps)) ts in
      ((Win.dict (Some peer), r, concat ps) :: outs, w, peer')
  | TOther p :: ts => carry i c (Win.Add w p) (Win.remember peer p) ts
  | TElsewhere p :: ts => carry i (Compress c p None).1.1 w peer ts
  | TPool :: ts => carry i (Reset c) w peer ts
  end.

Definition traffic_ok (ts : list traffic) : Prop :=
  Forall (fun t => match t with TMessage ps => ps <> [] | _ => True end) ts.

(** How often the traffic can bump the generation. *)
Fixpoint bumps (ts : list traffic) : Z :=
  match ts with
  | [] => 0
  | TMessage ps :: ts => len ps + bumps ts
  | TOther _ :: ts => 1 + bumps ts
  | _ :: ts => bumps ts
  end.

Lemma bumps_nonneg ts : 0 <= bumps ts.
Proof. induction ts as [| [] ts IH]; cbn; try lia. pose proof (len_nonneg ps). lia. Qed.

(** Remembering bumps the generation, and only an empty payload does not. *)
Lemma gen_remember w p :
  0 <= gen w -> gen w + 1 < 2 ^ 64 ->
  gen (Win.remember w p) = gen w + (if len p =? 0 then 0 else 1).
Proof.
  intros H1 H2. rewrite remember_gen. destruct (len p =? 0); [lia |]. apply Z.mod_small. lia.
Qed.

Lemma gen_remember_all w ps :
  0 <= gen w -> gen w + len ps < 2 ^ 64 ->
  gen w <= gen (foldl Win.remember w ps) <= gen w + len ps /\
  (gen (foldl Win.remember w ps) = gen w -> concat ps = []).
Proof.
  revert w. induction ps as [| p ps IH]; intros w H0 H1; cbn [foldl concat]; [split; [len_lia | done] |].
  rewrite len_cons in *. pose proof (len_nonneg ps). pose proof (gen_remember w p H0 ltac:(lia)) as E.
  destruct (IH (Win.remember w p)) as [Hr He]; [destruct (len p =? 0); lia.. |].
  destruct (Z.eqb_spec (len p) 0) as [Hz | Hz]; split; try lia.
  intros Hg. apply len_0_nil in Hz. subst p. apply He. lia.
Qed.

Lemma dict_all w ps :
  window_ok w -> window_ok (foldl Win.remember w ps) /\ Win.Size (foldl Win.remember w ps) = Win.Size w /\
  Win.dict (Some (foldl Win.remember w ps)) = lastn (Win.Size w) (Win.dict (Some w) ++ concat ps).
Proof.
  revert w. induction ps as [| p ps IH]; intros w Hw; cbn [foldl concat].
  - split_and!; try done. rewrite app_nil_r, dict_lastn. symmetry. apply lastn_lastn. pose proof (Size_pos w). lia.
  - destruct (IH _ (remember_ok w p Hw)) as (Hok & Hs & Hd). rewrite remember_Size in *.
    split_and!; try done. rewrite Hd, remember_dict by done.
    rewrite lastn_app_lastn by (pose proof (Size_pos w); lia). by rewrite app_assoc.
Qed.

(** The state of a send direction and its peer between messages. *)
Record flow (i : Z) (c : Compressor) (w peer : Window) (n : Z) : Prop := {
  fl_c : comp_ok c /\ mid c = false;
  fl_w : window_ok w /\ window_ok peer;
  fl_size : cwindow c <= Win.Size w /\ cwindow c <= Win.Size peer;
  fl_peer : lastn (cwindow c) (Win.dict (Some w)) = lastn (cwindow c) (Win.dict (Some peer));
  fl_gen : 0 <= gen w /\ gen w + n < 2 ^ 64;
  fl_att : attached c = Some i -> cgen c <= gen w;
  fl_sync : in_sync c i w
}.

Lemma base_dict i c w :
  mid c = false -> in_sync c i w ->
  lastn (cwindow c) (base c (Some (i, w))) = lastn (cwindow c) (Win.dict (Some w)).
Proof.
  intros Hm Hs. unfold base, stale. rewrite Hm. cbn [negb andb].
  destruct (bool_decide_reflect (attached c = Some i)) as [Ha | _]; [| done].
  destruct (Z.eqb_spec (gen w) (cgen c)) as [Hg | _]; [| done]. cbn. by apply Hs.
Qed.

(** The dictionaries still agree within reach once both sides remember the same bytes. *)
Lemma agree_after n d d' s s' p :
  0 <= n -> n <= s -> n <= s' -> lastn n d = lastn n d' ->
  lastn n (lastn s (d ++ p)) = lastn n (lastn s' (d' ++ p)).
Proof.
  intros Hn H1 H2 E. rewrite !lastn_lastn by lia.
  rewrite <- (lastn_app_lastn n d), <- (lastn_app_lastn n d') by done. by rewrite E.
Qed.

Lemma flow_message i c w peer n ps :
  0 <= n -> flow i c w peer (len ps + n) -> ps <> [] ->
  exists c' out, send_chunks c (Some (i, w)) ps = (c', Some (i, foldl Win.remember w ps), Ok out) /\
    inflates (Win.dict (Some peer)) (out ++ sync_tail) (concat ps) /\
    flow i c' (foldl Win.remember w ps) (Win.remember peer (concat ps)) n.
Proof.
  intros Hn0 [[Hc Hm] [Hw Hp] [Hs1 Hs2] Hpe [Hg0 Hg1] Ha Hs] Hn.
  pose proof (comp_ok_pos c Hc) as Hpos. pose proof (base_dict i c w Hm Hs) as Hb.
  destruct (send_chunks_spec c (Some (i, w)) ps Hc Hn)
    as (c' & out & E & Hc' & Hcw & Ha' & Hm' & Hg' & Hh' & Hi').
  exists c', out. split; [done |]. split; [apply Hi', reaches_eq; by rewrite Hb |].
  destruct (dict_all w ps Hw) as (Hwo & Hws & Hwd).
  constructor; rewrite ?Hcw, ?Hws, ?remember_Size; try done.
  - split; [done | by apply remember_ok].
  - rewrite Hwd, remember_dict by done. by apply agree_after.
  - destruct (gen_remember_all w ps Hg0); lia.
  - intros _. rewrite (Hg' i w eq_refl). lia.
  - intros _ _. rewrite Hcw, Hh', Hwd. rewrite lastn_lastn by lia.
    rewrite <- lastn_app_lastn, Hb, lastn_app_lastn by done. done.
Qed.

Lemma flow_other i c w peer n p :
  0 <= n -> flow i c w peer (1 + n) -> flow i c (Win.Add w p) (Win.remember peer p) n.
Proof.
  intros Hn0 [[Hc Hm] [Hw Hp] [Hs1 Hs2] Hpe [Hg0 Hg1] Ha Hs]. unfold Win.Add.
  pose proof (comp_ok_pos c Hc) as Hpos. pose proof (gen_remember w p Hg0 ltac:(lia)) as Eg.
  constructor; rewrite ?remember_Size; try done.
  - split; by apply remember_ok.
  - rewrite !remember_dict by done. by apply agree_after.
  - destruct (len p =? 0); lia.
  - intros E. specialize (Ha E). destruct (len p =? 0); lia.
  - intros E Eq. specialize (Ha E). destruct (Z.eqb_spec (len p) 0) as [Hz | Hz]; [| lia].
    apply len_0_nil in Hz. subst p. rewrite remember_dict by done. rewrite app_nil_r.
    rewrite lastn_lastn by lia. apply Hs; [done | lia].
Qed.

Lemma flow_detached i c c' w peer n :
  flow i c w peer n -> comp_ok c' -> mid c' = false -> attached c' = None -> cwindow c' = cwindow c ->
  flow i c' w peer n.
Proof.
  intros [[Hc Hm] Hw [Hs1 Hs2] Hpe Hg Ha Hs] Hc' Hm' Ha' Hcw.
  constructor; rewrite ?Hcw; try done; unfold in_sync; by rewrite Ha'.
Qed.

Lemma carry_flow i c w peer ts n :
  0 <= n -> traffic_ok ts -> flow i c w peer (bumps ts + n) ->
  let '(outs, w', peer') := carry i c w peer ts in
  Forall (fun '(h, r, p) => exists out, r = Ok out /\ inflates h (out ++ sync_tail) p) outs /\
  lastn (cwindow c) (Win.dict (Some w')) = lastn (cwindow c) (Win.dict (Some peer')).
Proof.
  intros Hn Hts. revert c w peer. induction Hts as [| t ts Ht _ IH]; intros c w peer Hf; cbn [carry].
  { split; [constructor | apply Hf]. }
  pose proof (bumps_nonneg ts). destruct t as [ps | p | p |]; cbn [bumps] in Hf.
  - rewrite <- Z.add_assoc in Hf.
    destruct (flow_message i c w peer (bumps ts + n) ps ltac:(lia) Hf Ht) as (c' & out & E & Hi & Hf').
    destruct (send_chunks_spec c (Some (i, w)) ps (proj1 (fl_c _ _ _ _ _ Hf)) Ht)
      as (c1 & out1 & E1 & _ & Hcw & _). rewrite E1 in E. injection E as -> ->.
    rewrite E1. cbn [fmap option_fmap option_map snd default]. specialize (IH _ _ _ Hf').
    destruct (carry i c' _ _ ts) as [[outs w'] peer']. rewrite Hcw in IH. destruct IH as [IH1 IH2].
    split; [| done]. constructor; [by exists out | done].
  - rewrite <- Z.add_assoc in Hf. apply IH. by apply flow_other; [lia |].
  - destruct (fl_c _ _ _ _ _ Hf) as [Hc _]. unfold Compress.
    destruct (CompressChunk_spec c p None true Hc) as (c' & out & body & E & _ & Hc' & Hcw & Ha & Hm & _).
    rewrite E. cbn [fst]. rewrite <- Hcw. apply IH. by apply (flow_detached i c).
  - destruct (fl_c _ _ _ _ _ Hf) as [Hc _]. change (cwindow c) with (cwindow (Reset c)). apply IH.
    apply (flow_detached i c); try done. unfold comp_ok. cbn. by rewrite reset_reach.
Qed.

End spec.

Lemma new_flow {F : Flate} {FO : FlateOk F} {G : Grow} i c bits bits' n :
  (exists level, NewCompressor level = Ok c) \/ (exists b, NewCompressorWindow b = Ok c) ->
  cwindow c <= Win.Size (Window_new bits) -> cwindow c <= Win.Size (Window_new bits') ->
  0 <= n < 2 ^ 64 -> flow i c (Window_new bits) (Window_new bits') n.
Proof.
  intros Hnew H1 H2 Hn.
  assert (comp_ok c /\ mid c = false /\ attached c = None) as (Hc & Hm & Ha).
  { destruct Hnew as [[l H] | [b H]]; unfold NewCompressor, NewCompressorWindow in H.
    - destruct (NewWriter l) as [fw |] eqn:E; [| done]. injection H as <-.
      split_and!; try done. by apply new_reach with l.
    - destruct ((b <? 8) || (15 <? b)); [done |].
      destruct (NewWriterWindow (Z.shiftl 1 b)) as [fw |] eqn:E; [| done]. injection H as <-.
      split_and!; try done. by apply new_window_reach. }
  constructor; [by split | split; unfold window_ok; cbn; len_lia | by split | by rewrite !dict_lastn; unfold lastn, from; cbn [buf Window_new]; rewrite !drop_nil | cbn; lia | by rewrite Ha | unfold in_sync; by rewrite Ha].
Qed.

(** ** Properties *)

(** C22. Context takeover never loses the peer: on a connection whose sender
    started from a new compressor and window, and whose receiver keeps at
    least the compressor's window, every message, in one chunk or several,
    compresses without error to bytes that inflate to the message against the
    receiver's own history, whatever other traffic goes in between: messages
    sent through other paths, this compressor serving other connections or
    going back to a pool. *)
Theorem takeover_sync {F : Flate} {FO : FlateOk F} {G : Grow} `{!GrowOk G} i c bits bits' ts :
  (exists level, NewCompressor level = Ok c) \/ (exists b, NewCompressorWindow b = Ok c) ->
  cwindow c <= Win.Size (Window_new bits) -> cwindow c <= Win.Size (Window_new bits') ->
  traffic_ok ts -> bumps ts < 2 ^ 64 ->
  let '(outs, w', peer') := carry i c (Window_new bits) (Window_new bits') ts in
  Forall (fun '(h, r, p) => exists out, r = Ok out /\ inflates h (out ++ sync_tail) p) outs.
Proof.
  intros Hnew H1 H2 Hts Hb. pose proof (bumps_nonneg ts) as Hb0.
  pose proof (carry_flow i c (Window_new bits) (Window_new bits') ts 0 ltac:(lia) Hts) as H.
  destruct (carry _ _ _ _ _) as [[outs w'] peer']. apply H. by apply new_flow; [| | | lia].
Qed.

(** A codec that stores its input, for the witness: every flush is the bytes
    written since the last one and the sync marker. *)
Definition raw_flate : Flate := {|
  fwriter := list Z * Z;
  NewWriter l := Ok ([], windowSize);
  NewWriterWindow n := if n <? 0 then Err (Other 0) else Ok ([], n);
  ResetDict w d := (d, w.2);
  Write w p := ((w.1 ++ p, w.2), Ok p);
  Flush w := (w, Ok sync_tail)
|}.

Definition raw_inflates (h bs p : list Z) : Prop :=
  exists qs, bs = concat ((fun q => q ++ sync_tail) <$> qs) /\ p = concat qs.

#[local] Program Instance raw_flate_ok : FlateOk raw_flate := {|
  fhist w := w.1;
  freach w := Z.max 0 w.2;
  inflates := raw_inflates
|}.
Next Obligation. intros. cbn. lia. Qed.
Next Obligation. done. Qed.
Next Obligation. done. Qed.
Next Obligation. intros l w [= <-]. done. Qed.
Next Obligation.
  intros n w. cbn. destruct (Z.ltb_spec n 0); [done |]. intros [= <-]. cbn. lia.
Qed.
Next Obligation.
  intros w p. cbn. exists (w.1 ++ p, w.2), p, (w.1 ++ p, w.2), sync_tail, p. split_and!; try done.
  intros h _. exists [p]. cbn. by rewrite !app_nil_r.
Qed.
Next Obligation.
  intros h b1 p1 b2 p2 (q1 & -> & ->) (q2 & -> & ->). exists (q1 ++ q2).
  by rewrite fmap_app, !concat_app.
Qed.

#[local] Existing Instance double_growth.
#[local] Existing Instance double_growth_ok.

Lemma takeover_sync_witness :
  let c := mkCompressor raw_flate ([], windowSize) [] windowSize None 0 false in
  let '(outs, w', peer') := carry (F := raw_flate) 0 c (Window_new 0) (Window_new 15)
    [TMessage [[1; 2]; [3]]; TOther [9]; TElsewhere [8]; TMessage [[4]]; TPool; TMessage [[]]] in
  Forall (fun '(h, r, p) => exists out, r = Ok out /\ inflates (F := raw_flate) h (out ++ sync_tail) p) outs.
Proof.
  apply (takeover_sync (F := raw_flate) (FO := raw_flate_ok) 0
    (mkCompressor raw_flate ([], windowSize) [] windowSize None 0 false) 0 15).
  - left. exists 6. reflexivity.
  - done.
  - done.
  - repeat constructor; discriminate.
  - reflexivity.
Defined.
