(* ===== verification/Decompressor.v ===== *)
(** * The decompressor (deflate/decompressor.go)

    The inflater is a third-party package ([flate.NewReaderDict]): the class
    [Inflater] is its interface, a machine that runs one [Read] call and asks
    its source for input on the way.  A slice is its contents, with its
    capacity beside it where the code looks at it; [inBuf] and [outBuf] are
    the pool's handles on the storage of [in_] and [output] and carry nothing
    else.  A [*Window] is its address in [windows].

    A loop whose end is not in the decompressor's hands takes [fuel]; [None]
    is a call that has not returned yet.  Enough fuel is proved to exist. *)

From stdpp Require Import prelude gmap.
From S2P Require Import Prelude Errors Encoder Bufpool Window.

(** One move of a running [Read]: it returns, or wants [ReadByte] or [Read]
    of its source and goes on with what that gives. *)
Inductive action (run reader : Type) :=
  | Return (r : reader) (out : list Z) (err : option error)
  | NeedByte (k : result Z -> run)
  | NeedBytes (n : Z) (k : list Z * option error -> run).
Arguments Return {run reader}.
Arguments NeedByte {run reader}.
Arguments NeedBytes {run reader}.

Class Inflater := {
  freader : Type;
  frun : Type;
  NewReaderDict : list Z -> freader;
  ResetReader : freader -> list Z -> freader * option error;
  ReadCall : freader -> Z -> frun;  (* [Read] into a slice of that length *)
  move : frun -> action frun freader
}.

(** [ChunkSource]: the source's own state, and [None] if it never returns. *)
Class ChunkSource (St : Type) := NextChunk : St -> option (St * result (list Z)).

(** The memory the window pointers point into. *)
Abbreviation windows := (gmap Z Window).

(** [w.dict()], nil included. *)
Definition dict_at (h : windows) (w : option Z) : list Z := Win.dict (w ≫= (h !!.)).

Definition inflateTail : list Z := [0; 0; 255; 255; 1; 0; 0; 255; 255].

(** [int64] wrap-around. *)
Definition s64 (z : Z) : Z := (z + 2 ^ 63) mod 2 ^ 64 - 2 ^ 63.

Module Dz.

Record messageReader := mkMessageReader {
  payload : list Z;
  tail : list Z;
  eof : bool
}.

Definition mr_zero : messageReader := {| payload := []; tail := []; eof := false |}.

Record Decompressor `{Inflater} := mkDecompressor {
  reader : option freader;
  slice : list Z;     (* what the bytes.Reader has left *)
  in_ : list Z;
  in_cap : Z;
  input : messageReader;
  output : list Z;
  out_cap : Z;
  window : option Z;
  scratch : Window;
  kept : Z;
  streaming : bool;
  active : bool;
  done : bool
}.

(** The zero value. *)
Definition zero `{Inflater} : Decompressor :=
  {| reader := None; slice := []; in_ := []; in_cap := 0; input := mr_zero; output := []; out_cap := 0;
     window := None; scratch := Window_new 0; kept := 0; streaming := false; active := false;
     done := false |}.

Definition mr_exhausted (m : messageReader) : bool :=
  eof m && (len (payload m) =? 0) && (len (tail m) =? 0).

Section ops.
Context `{I : Inflater} `{Grow} {St : Type} `{CS : ChunkSource St}.

(** ** The input *)

Fixpoint fill (fuel : nat) (m : messageReader) (σ : St) : option (messageReader * St * result bool) :=
  if (len (payload m) =? 0) && negb (eof m) then
    match fuel with
    | O => None
    | S fuel =>
        '(σ, r) ← NextChunk σ;
        match r with
        | Err e =>
            if bool_decide (e = Io EOF) then Some ({| m with eof := true |}, σ, Ok false)
            else Some (m, σ, Err e)
        | Ok chunk => fill fuel {| m with payload := chunk |} σ
        end
    end
  else Some (m, σ, Ok (negb (len (payload m) =? 0))).

Definition mr_Read (fuel : nat) (m : messageReader) (σ : St) (n : Z)
    : option (messageReader * St * (list Z * option error)) :=
  if n =? 0 then Some (m, σ, ([], None))
  else
    '(m, σ, r) ← fill fuel m σ;
    match r with
    | Err e => Some (m, σ, ([], Some e))
    | Ok true =>
        Some ({| m with payload := from (payload m) n |}, σ, (upto (payload m) n, None))
    | Ok false =>
        let out := upto (tail m) n in
        Some ({| m with tail := from (tail m) (len out) |}, σ,
              (out, if len out =? 0 then Some (Io EOF) else None))
    end.

Definition mr_ReadByte (fuel : nat) (m : messageReader) (σ : St)
    : option (messageReader * St * result Z) :=
  '(m, σ, r) ← fill fuel m σ;
  match r with
  | Err e => Some (m, σ, Err e)
  | Ok true => Some ({| m with payload := from (payload m) 1 |}, σ, Ok (idx (payload m) 0))
  | Ok false =>
      if negb (len (tail m) =? 0)
      then Some ({| m with tail := from (tail m) 1 |}, σ, Ok (idx (tail m) 0))
      else Some (m, σ, Err (Io EOF))
  end.

(** [bytes.Reader]'s [ReadByte] and [Read]. *)
Definition slice_ReadByte (s : list Z) : list Z * result Z :=
  match s with [] => ([], Err (Io EOF)) | b :: s => (s, Ok b) end.

Definition slice_Read (s : list Z) (n : Z) : list Z * (list Z * option error) :=
  if len s =? 0 then (s, ([], Some (Io EOF))) else (from s n, (upto s n, None)).

(** The same of [d.source()], whichever it is. *)
Definition source_ReadByte (fuel : nat) (d : Decompressor) (σ : St)
    : option (Decompressor * St * result Z) :=
  if streaming d then
    '(m, σ, r) ← mr_ReadByte fuel (input d) σ; Some ({| d with input := m |}, σ, r)
  else let '(s, r) := slice_ReadByte (slice d) in Some ({| d with slice := s |}, σ, r).

Definition source_Read (fuel : nat) (d : Decompressor) (σ : St) (n : Z)
    : option (Decompressor * St * (list Z * option error)) :=
  if streaming d then
    '(m, σ, r) ← mr_Read fuel (input d) σ n; Some ({| d with input := m |}, σ, r)
  else let '(s, r) := slice_Read (slice d) n in Some ({| d with slice := s |}, σ, r).

Definition exhausted (d : Decompressor) : bool :=
  if streaming d then mr_exhausted (input d) else len (slice d) =? 0.

(** [d.reader.Read(p)]: the inflater's call run against [d.source()]. *)
Fixpoint call (fuel fuel' : nat) (u : frun) (d : Decompressor) (σ : St)
    : option (Decompressor * St * (list Z * option error)) :=
  match fuel' with
  | O => None
  | S fuel' =>
      match move u with
      | Return r out err => Some ({| d with reader := Some r |}, σ, (out, err))
      | NeedByte k => '(d, σ, r) ← source_ReadByte fuel d σ; call fuel fuel' (k r) d σ
      | NeedBytes n k => '(d, σ, r) ← source_Read fuel d σ n; call fuel fuel' (k r) d σ
      end
  end.

(** ** The message *)

Definition finish (d : Decompressor) (h : windows) (ok : bool) : Decompressor * windows :=
  let h :=
    match window d with
    | None => h
    | Some i =>
        if negb ok then alter Win.Reset i h
        else if negb (streaming d) then alter (fun w => Win.remember w (from (output d) (kept d))) i h
        else h
    end in
  ({| d with window := None; input := mr_zero; slice := []; active := false; done := false;
             streaming := false |}, h).

Definition fail {A} (d : Decompressor) (h : windows) (err : error)
    : Decompressor * windows * result A :=
  let '(d, h) := finish d h false in (d, h, Err err).

(** The dictionary of a reset in the middle of a message; [out] is what was
    just read, in the spare capacity of [output]. *)
Definition dict (d : Decompressor) (h : windows) (out : list Z) : Decompressor * windows * list Z :=
  if streaming d then
    (d, h, match window d with Some i => dict_at h (Some i) | None => Win.dict (Some (scratch d)) end)
  else
    let out := output d ++ out in
    match window d with
    | Some i =>
        let h := alter (fun w => Win.remember w (from out (kept d))) i h in
        ({| d with kept := len out |}, h, dict_at h (Some i))
    | None => (d, h, from out (Z.max 0 (len out - windowSize)))
    end.

(** The state of a message about to start: the part of [begin] between
    abandoning the last one and resetting the inflater.  [src] is nil in slice
    mode, where the payload is given instead. *)
Definition aim (d : Decompressor) (src : bool) (pay : list Z) (w : option Z) : Decompressor :=
  let d := {| d with window := w; scratch := Win.Reset (scratch d); streaming := src |} in
  let d :=
    if src then {| d with input := {| payload := []; tail := inflateTail; eof := false |} |}
    else
      let n := len pay + len inflateTail in
      let d := if in_cap d <? n then {| d with in_ := []; in_cap := get_cap n |} else d in
      let b := pay ++ inflateTail in
      {| d with in_ := b; slice := b |} in
  {| d with kept := 0; active := true; done := false |}.

Definition begin (d : Decompressor) (h : windows) (src : bool) (pay : list Z) (w : option Z)
    : Decompressor * windows * option error :=
  let '(d, h) := if active d then finish d h false else (d, h) in
  let d := aim d src pay w in
  match reader d with
  | None => ({| d with reader := Some (NewReaderDict (dict_at h w)) |}, h, None)
  | Some r =>
      let '(r, err) := ResetReader r (dict_at h w) in
      let d := {| d with reader := Some r |} in
      match err with
      | None => (d, h, None)
      | Some e => let '(d, h) := finish d h false in (d, h, Some e)
      end
  end.

Definition Begin (d : Decompressor) (h : windows) (w : option Z)
    : Decompressor * windows * option error :=
  begin d h true [] w.

(** Streamed output is remembered as it is produced. *)
Definition keep (d : Decompressor) (h : windows) (out : list Z) : Decompressor * windows :=
  if negb (len out =? 0) && streaming d then
    match window d with
    | Some i => (d, alter (fun w => Win.remember w out) i h)
    | None => ({| d with scratch := Win.remember (scratch d) out |}, h)
    end
  else (d, h).

(** The loop of [Read], [n] the length of [p]. *)
Fixpoint Read_loop (fuel fuel' : nat) (d : Decompressor) (h : windows) (σ : St) (n : Z)
    : option (Decompressor * windows * St * result (list Z)) :=
  match fuel', reader d with
  | S fuel', Some r =>
      '(d, σ, (out, err)) ← call fuel fuel (ReadCall r n) d σ;
      let '(d, h) := keep d h out in
      match err with
      | Some e =>
          if bool_decide (e = Io EOF) then
            if exhausted d then
              if len out =? 0 then
                let '(d, h) := finish d h true in Some (d, h, σ, Err (Io EOF))
              else Some ({| d with done := true |}, h, σ, Ok out)
            else
              let '(d, h, dict) := dict d h out in
              match reader d with
              | None => None
              | Some r =>
                  let '(r, err) := ResetReader r dict in
                  let d := {| d with reader := Some r |} in
                  match err with
                  | Some e => let '(d, h, e) := fail d h e in Some (d, h, σ, e)
                  | None => if negb (len out =? 0) then Some (d, h, σ, Ok out)
                            else Read_loop fuel fuel' d h σ n
                  end
              end
          else let '(d, h, e) := fail d h e in Some (d, h, σ, e)
      | None =>
          if len out =? 0 then let '(d, h, e) := fail d h (Io ErrNoProgress) in Some (d, h, σ, e)
          else Some (d, h, σ, Ok out)
      end
  | _, _ => None
  end.

Definition Read (fuel : nat) (d : Decompressor) (h : windows) (σ : St) (n : Z)
    : option (Decompressor * windows * St * result (list Z)) :=
  if negb (active d) then Some (d, h, σ, Err (Deflate ErrNoMessage'))
  else if done d then let '(d, h) := finish d h true in Some (d, h, σ, Err (Io EOF))
  else Read_loop fuel fuel d h σ n.

Definition Reset (d : Decompressor) (h : windows) : Decompressor * windows :=
  let '(d, h) := finish d h false in ({| d with output := [] |}, h).

Definition ReleaseOutput (d : Decompressor) (h : windows) : Decompressor * windows :=
  let '(d, h) := Reset d h in
  ({| d with output := []; out_cap := 0; in_ := []; in_cap := 0 |}, h).

End ops.

(** ** A whole message

    In slice mode there is no source to ask. *)

#[export] Instance no_source : ChunkSource unit := fun _ => None.

Section whole.
Context `{I : Inflater} `{Grow}.

Definition projected (d : Decompressor) : Z :=
  if streaming d then 0
  else
    let remaining := len (slice d) in
    let consumed := len (in_ d) - remaining in
    if consumed <=? 0 then 0 else Z.quot (s64 (len (output d) * remaining)) consumed.

Definition grow (d : Decompressor) (n : Z) : Decompressor :=
  if n <=? out_cap d - len (output d) then d
  else {| d with out_cap := get_cap (len (output d) + n) |}.

(** The room one turn of the loop of [Decompress] reads into. *)
Definition make_room (d : Decompressor) : Decompressor :=
  if out_cap d =? len (output d) then
    let p := projected d in
    grow d (Z.max (Z.max (Z.shiftl 32 10) (Z.quot (len (output d)) 2)) (p + Z.quot p 16))
  else d.

Definition room (d : Decompressor) (maxSize : Z) : Z :=
  let size := out_cap d - len (output d) in
  let remaining := maxSize - len (output d) in
  if remaining <? size then remaining + 1 else size.

Fixpoint Decompress_loop (fuel fuel' : nat) (d : Decompressor) (h : windows) (maxSize : Z)
    : option (Decompressor * windows * result (list Z)) :=
  match fuel' with
  | O => None
  | S fuel' =>
      let d := make_room d in
      '(d, h, _, r) ← Read fuel d h tt (room d maxSize);
      let d := {| d with output := output d ++ match r with Ok out => out | Err _ => [] end |} in
      if maxSize <? len (output d) then
        let '(d, h) := finish d h false in Some (d, h, Err (Deflate ErrMessageTooLarge'))
      else if bool_decide (r = Err (Io EOF)) || done d then
        let '(d, h) := finish d h true in Some (d, h, Ok (output d))
      else
        match r with
        | Err e => Some (d, h, Err e)
        | Ok _ => Decompress_loop fuel fuel' d h maxSize
        end
  end.

Definition Decompress (fuel : nat) (d : Decompressor) (h : windows) (pay : list Z) (maxSize : Z)
    (w : option Z) : option (Decompressor * windows * result (list Z)) :=
  if maxSize <? 0 then Some (d, h, Err (Deflate ErrInvalidLimit))
  else
    let '(d, h, err) := begin d h false pay w in
    match err with
    | Some e => Some (d, h, Err e)
    | None =>
        let d := {| d with output := [] |} in
        let hint := Z.min (4 * len pay) (maxSize + 1) in
        let d := if out_cap d <? hint then {| d with out_cap := get_cap hint |} else d in
        Decompress_loop fuel fuel d h maxSize
    end.

End whole.
End Dz.

(** ** What the inflater promises

    [stops]: after its source failed, the call returns; with that error ([io.EOF]
    becomes [io.ErrUnexpectedEOF], since the stream had not ended), or with
    data it still held, and then every later call does the same ([broken]).
    A call on a [fresh] reader does not report the end of a stream without
    having read any of it. *)

Definition noEOF (e : error) : error := if bool_decide (e = Io EOF) then Io ErrUnexpectedEOF else e.

Definition stops `{Inflater} (broken : freader -> error -> Prop) (u : frun) (e : error) : Prop :=
  exists r out e', move u = Return r out e' /\ (e' = None /\ broken r e \/ e' = Some (noEOF e)).

Class InflaterOk (I : Inflater) := {
  space : frun -> Z;
  fresh : freader -> Prop;
  broken : freader -> error -> Prop;
  space_call r n : 0 <= n -> space (ReadCall r n) = n;
  fresh_new d : fresh (NewReaderDict d);
  fresh_reset r d : fresh (ResetReader r d).1;
  reset_error r d : (ResetReader r d).2 <> Some (Io EOF);
  fresh_call r n r' out e : fresh r -> move (ReadCall r n) = Return r' out e -> e <> Some (Io EOF);
  broken_call r n e : broken r e -> stops broken (ReadCall r n) e;
  move_return u r out e : move u = Return r out e -> len out <= space u;
  move_byte u k :
    move u = NeedByte k -> (forall x, space (k x) = space u) /\ forall e, stops broken (k (Err e)) e;
  move_bytes u n k :
    move u = NeedBytes n k ->
    0 < n /\ (forall x, space (k x) = space u) /\ forall e, stops broken (k ([], Some e)) e
}.

(** [deflates d bs rest p]: the DEFLATE stream at the head of [bs], after the
    dictionary [d], is of [p] and ends where [rest] begins.  A reader started
    on it [serves] it: it asks for no byte past the end, and hands out [p]
    piece by piece. *)
Class InflaterSpec (I : Inflater) := {
  deflates : list Z -> list Z -> list Z -> list Z -> Prop;
  serves : freader -> list Z -> list Z -> list Z -> Prop;
  serving : frun -> list Z -> list Z -> list Z -> Prop;
  serves_new d bs rest p :
    len d <= windowSize -> deflates d bs rest p -> serves (NewReaderDict d) bs rest p;
  serves_reset r d bs rest p :
    len d <= windowSize -> deflates d bs rest p ->
    (ResetReader r d).2 = None /\ serves (ResetReader r d).1 bs rest p;
  serves_call r n bs rest p : 0 < n -> serves r bs rest p -> serving (ReadCall r n) bs rest p;
  serving_move u bs rest p :
    serving u bs rest p ->
    match move u with
    | Return r out None => out <> [] /\ exists q, p = out ++ q /\ serves r bs rest q
    | Return r out (Some e) => e = Io EOF /\ out = p /\ bs = rest
    | NeedByte k => exists b l, bs = b :: l /\ serving (k (Ok b)) l rest p
    | NeedBytes n k =>
        bs <> [] /\ forall c l, bs = c ++ l -> c <> [] -> len c <= n -> serving (k (c, None)) l rest p
    end
}.

(** A message is one stream, or several with each the dictionary of the next. *)
Inductive inflated `{InflaterSpec} (size : Z) : list Z -> list Z -> list Z -> Prop :=
  | inflated_last d l p : deflates d l [] p -> inflated size d l p
  | inflated_more d l rest p q :
      deflates d l rest p -> rest <> [] -> inflated size (lastn size (d ++ p)) rest q ->
      inflated size d l (p ++ q).

(** A source that gives [cs], then the error [e], and ends up as [σ']. *)
Inductive feeds {St} `{ChunkSource St} : St -> list (list Z) -> St -> error -> Prop :=
  | feeds_end σ σ' e : NextChunk σ = Some (σ', Err e) -> feeds σ [] σ' e
  | feeds_chunk σ σ1 c cs σ' e :
      NextChunk σ = Some (σ1, Ok c) -> feeds σ1 cs σ' e -> feeds σ (c :: cs) σ' e.

(** The windows a decompressor works on. *)
Definition windows_ok (h : windows) : Prop := forall i w, h !! i = Some w -> window_ok w.
Definition pointer_ok (h : windows) (w : option Z) : Prop :=
  match w with Some i => is_Some (h !! i) | None => True end.
Definition size_at (h : windows) (w : option Z) : Z :=
  match w ≫= (h !!.) with Some w => Win.Size w | None => windowSize end.
