(* ===== verification/Stored.v ===== *)
(** * A concrete codec: DEFLATE with stored blocks only

    The DEFLATE packages are parameters of the development.  This is an
    implementation of both halves, for the witnesses: a writer that emits
    stored blocks (RFC 1951, section 3.2.4) and an inflater that reads them,
    the reader over any byte source.  [Agrees] is what makes an encoder and an
    inflater belong together. *)

From stdpp Require Import prelude.
From S2P Require Import Prelude Errors Encoder Window Compressor Decompressor.

(** The final block that [inflateTail] adds after the sync marker. *)
Definition final_block : list Z := [1; 0; 0; 255; 255].

(** What the encoder's contract says decodes, the inflater decodes, once the
    stream is terminated. *)
Class Agrees {F : Flate} (FO : FlateOk F) {I : Inflater} (IS : InflaterSpec I) : Prop :=
  agrees h bs p : len h <= windowSize -> inflates h bs p -> deflates h (bs ++ final_block) [] p.

(** ** Blocks *)

Definition block_header (final : bool) (n : Z) : list Z :=
  [if final then 1 else 0; n mod 256; n / 256; 255 - n mod 256; 255 - n / 256].

Definition block (final : bool) (q : list Z) : list Z := block_header final (len q) ++ q.

Fixpoint blocks (fuel : nat) (p : list Z) : list Z :=
  match fuel with
  | O => []
  | S fuel => if bool_decide (p = []) then [] else block false (upto p 65535) ++ blocks fuel (from p 65535)
  end.

(** Blocks up to a final one. *)
Inductive stream : list Z -> list Z -> list Z -> Prop :=
  | stream_final q rest : len q < 65536 -> stream (block true q ++ rest) rest q
  | stream_block q bs rest p :
      len q < 65536 -> stream bs rest p -> stream (block false q ++ bs) rest (q ++ p).

(** ** The writer *)

Definition stored_flate : Flate := {|
  fwriter := list Z * Z;
  NewWriter l := Ok ([], windowSize);
  NewWriterWindow n := if n <? 0 then Err (Other 0) else Ok ([], n);
  ResetDict w d := (d, w.2);
  Write w p := ((w.1 ++ p, w.2), Ok (blocks (length p) p));
  Flush w := (w, Ok (block false []))
|}.

Definition stored_inflates (h bs p : list Z) : Prop :=
  exists qs, Forall (fun q => len q < 65536) qs /\ bs = concat (block false <$> qs) /\ p = concat qs.

Lemma blocks_inflates fuel p :
  (length p <= fuel)%nat -> exists qs, Forall (fun q => len q < 65536) qs /\
    blocks fuel p = concat (block false <$> qs) /\ p = concat qs.
Proof.
  revert p. induction fuel as [| fuel IH]; intros p Hl.
  { destruct p; [by exists [] | cbn in Hl; lia]. }
  cbn [blocks]. destruct (bool_decide_reflect (p = [])) as [-> | Hne]; [by exists [] |].
  destruct (IH (from p 65535)) as (qs & H1 & H2 & H3).
  { unfold from. rewrite length_drop. destruct p; [done | cbn [length] in *; lia]. }
  exists (upto p 65535 :: qs). split; [constructor; [len_lia | done] |]. split; [by rewrite H2 |].
  cbn [concat]. rewrite <- H3. symmetry. apply upto_from.
Qed.

#[export] Program Instance stored_flate_ok : FlateOk stored_flate := {|
  fhist w := w.1;
  freach w := Z.max 0 w.2;
  inflates := stored_inflates
|}.
Next Obligation. intros. cbn. lia. Qed.
Next Obligation. done. Qed.
Next Obligation. done. Qed.
Next Obligation. intros l w [= <-]. done. Qed.
Next Obligation.
  intros n w. cbn. destruct (Z.ltb_spec n 0); [done |]. intros [= <-]. cbn. lia.
Qed.
Next Obligation.
  intros w p. cbn. destruct (blocks_inflates (length p) p) as (qs & H1 & H2 & H3); [done |].
  eexists _, _, _, _, (blocks (length p) p ++ [0]). split; [reflexivity |]. split; [reflexivity |].
  split; [by rewrite <- app_assoc |]. split; [done |]. split; [done |].
  intros h _. exists (qs ++ [[]]). split; [by apply Forall_app_2; [| repeat constructor] |].
  rewrite fmap_app, !concat_app, <- H2, <- H3. cbn. by rewrite app_nil_r.
Qed.
Next Obligation.
  intros h b1 p1 b2 p2 (q1 & F1 & -> & ->) (q2 & F2 & -> & ->). exists (q1 ++ q2).
  rewrite fmap_app, !concat_app. split; [by apply Forall_app_2 | done].
Qed.

(** ** The inflater *)

Inductive sreader := AtBlock | InBlock (final : bool) (n : Z) | Ended | Broken (e : error).

Inductive srun :=
  | RHead (n : Z) (acc : list Z)
  | RData (n : Z) (final : bool) (m : Z)
  | RRet (n : Z) (r : sreader) (out : list Z) (err : option error).

Definition scall (r : sreader) (n : Z) : srun :=
  match r with
  | AtBlock => RHead n []
  | InBlock final m => RData n final m
  | Ended => RRet n Ended [] (Some (Io EOF))
  | Broken e => RRet n (Broken e) [] (Some (noEOF e))
  end.

(** With the header complete: its checks, and where to go on. *)
Definition after_header (n : Z) (acc : list Z) : srun :=
  let m := idx acc 1 + 256 * idx acc 2 in
  let final := idx acc 0 =? 1 in
  if negb (bool_decide (acc = block_header final m))
  then RRet n (Broken (Other 0)) [] (Some (Other 0))
  else if 0 <? m then RData n final m
  else if final then RRet n Ended [] (Some (Io EOF)) else RHead n [].

Definition smove (u : srun) : action srun sreader :=
  match u with
  | RHead n acc =>
      NeedByte (fun r =>
        match r with
        | Ok b => if len (acc ++ [b]) <? 5 then RHead n (acc ++ [b]) else after_header n (acc ++ [b])
        | Err e => RRet n (Broken e) [] (Some (noEOF e))
        end)
  | RData n final m =>
      NeedBytes (Z.max 1 (Z.min n m)) (fun '(l, err) =>
        match err with
        | Some e => RRet n (Broken e) [] (Some (noEOF e))
        | None =>
            let out := upto l n in
            RRet n (if len out <? m then InBlock final (m - len out) else if final then Ended else AtBlock) out None
        end)
  | RRet n r out err => Return r (upto out n) err
  end.

#[export] Instance stored_inflater : Inflater := {|
  freader := sreader;
  frun := srun;
  NewReaderDict _ := AtBlock;
  ResetReader _ _ := (AtBlock, None);
  ReadCall := scall;
  move := smove
|}.

Definition srun_space (u : srun) : Z :=
  match u with RHead n _ | RData n _ _ | RRet n _ _ _ => Z.max 0 n end.

Lemma after_header_space n acc : srun_space (after_header n acc) = Z.max 0 n.
Proof. unfold after_header. repeat case_match; done. Qed.

#[export] Program Instance stored_inflater_ok : InflaterOk stored_inflater := {|
  space := srun_space;
  fresh r := r = AtBlock;
  broken r e := r = Broken e
|}.
Next Obligation. intros [| ? ? | | ?] k Hk; cbn; lia. Qed.
Next Obligation. done. Qed.
Next Obligation. done. Qed.
Next Obligation. done. Qed.
Next Obligation. by intros r n r' out e ->. Qed.
Next Obligation. intros r n e ->. cbn. eexists _, _, _. split; [reflexivity | by right]. Qed.
Next Obligation. intros [| | ? ? ? ?] r' out' e; cbn; try done. intros [= <- <- <-]. len_lia. Qed.
Next Obligation.
  intros [] k; cbn; try done. intros [= <-]. split.
  - intros [b | e]; [| done]. case_match; [done | apply after_header_space].
  - intros e. eexists _, _, _. split; [reflexivity | by right].
Qed.
Next Obligation.
  intros [| ? ? ? | ] n' k; cbn; try done. intros [= <- <-]. split; [lia |]. split.
  - by intros [l []].
  - intros e. eexists _, _, _. split; [reflexivity | by right].
Qed.

(** ** It decodes *)

Definition sserves (r : sreader) (bs rest p : list Z) : Prop :=
  match r with
  | AtBlock => stream bs rest p
  | InBlock final m =>
      exists q bs' p', 0 < m /\ len q = m /\ bs = q ++ bs' /\ p = q ++ p' /\
        if final then bs' = rest /\ p' = [] else stream bs' rest p'
  | Ended => bs = rest /\ p = []
  | Broken _ => False
  end.

Definition sserving (u : srun) (bs rest p : list Z) : Prop :=
  match u with
  | RHead n acc => 0 < n /\ len acc < 5 /\ stream (acc ++ bs) rest p
  | RData n final m => 0 < n /\ sserves (InBlock final m) bs rest p
  | RRet n r out err =>
      len out <= n /\
      match err with
      | None => out <> [] /\ exists q, p = out ++ q /\ sserves r bs rest q
      | Some e => e = Io EOF /\ out = p /\ bs = rest
      end
  end.

Lemma len_block_header final n : len (block_header final n) = 5.
Proof. done. Qed.

Lemma after_header_serving n (final : bool) (q bs rest p p' : list Z) :
  0 < n -> len q < 65536 -> p = q ++ p' -> (if final then bs = rest /\ p' = [] else stream bs rest p') ->
  sserving (after_header n (block_header final (len q))) (q ++ bs) rest p.
Proof.
  intros Hn Hq -> Hb. pose proof (len_nonneg q). unfold after_header.
  assert (idx (block_header final (len q)) 1 + 256 * idx (block_header final (len q)) 2 = len q) as ->.
  { change (len q mod 256 + 256 * (len q / 256) = len q). pose proof (Z.div_mod (len q) 256). lia. }
  assert ((idx (block_header final (len q)) 0 =? 1) = final) as -> by (by destruct final).
  rewrite bool_decide_eq_true_2 by done. cbn [negb]. destruct (Z.ltb_spec 0 (len q)).
  - split; [done |]. exists q, bs, p'. by split_and!.
  - assert (q = []) as -> by (apply len_0_nil; lia). cbn [app]. destruct final.
    + destruct Hb as [-> ->]. cbn. split_and!; try done. change (@len Z []) with 0. lia.
    + by split_and!.
Qed.

Lemma stream_head bs rest p :
  stream bs rest p -> exists (final : bool) (q bs' p' : list Z), bs = block_header final (len q) ++ q ++ bs' /\ len q < 65536 /\
    p = q ++ p' /\ if final then bs' = rest /\ p' = [] else stream bs' rest p'.
Proof.
  intros [q rest' Hq | q bs' rest' p' Hq Hs].
  - exists true, q, rest', []. unfold block. rewrite <- app_assoc, app_nil_r. by split_and!.
  - exists false, q, bs', p'. unfold block. rewrite <- app_assoc. by split_and!.
Qed.

#[export] Program Instance stored_inflater_spec : InflaterSpec stored_inflater := {|
  deflates _ := stream;
  serves := sserves;
  serving := sserving
|}.
Next Obligation. done. Qed.
Next Obligation. done. Qed.
Next Obligation.
  intros [| final m | | e] n bs rest p Hn Hs; cbn in *.
  - by split_and!.
  - by split.
  - destruct Hs as [-> ->]. split_and!; try done. change (@len Z []) with 0. lia.
  - done.
Qed.
Next Obligation.
  intros [n acc | n final m | n r out err] bs rest p; cbn.
  - intros (Hn & Ha & Hs). destruct (stream_head _ _ _ Hs) as (final & q & bs' & p' & E & Hq & Hp & Hf).
    assert (len acc < len (block_header final (len q))) as Hlt by (rewrite len_block_header; lia).
    destruct bs as [| b l].
    { exfalso. rewrite app_nil_r in E. apply (f_equal len) in E. rewrite len_app in E.
      pose proof (len_nonneg (q ++ bs')). lia. }
    exists b, l. split; [done |]. assert (acc ++ b :: l = (acc ++ [b]) ++ l) as Ea by (by rewrite <- app_assoc).
    rewrite Ea in E, Hs. destruct (Z.ltb_spec (len (acc ++ [b])) 5); [by split_and! |].
    apply app_inj_1 in E as [-> ->]; [by apply after_header_serving with p' |].
    assert (len (acc ++ [b]) = len (block_header final (len q))) as El; [| by apply Nat2Z.inj].
    rewrite len_block_header. rewrite len_app in *. change (len [b]) with 1 in *. lia.
  - intros (Hn & q & bs' & p' & Hm & Hq & -> & -> & Hf). split; [intros El; apply app_eq_nil in El as [Eq _]; rewrite Eq in Hq; change (@len Z []) with 0 in Hq; lia |].
    intros c l E Hc Hcl. assert (upto c n = c) as -> by (apply upto_all; lia).
    assert (len c <> 0) as Hc0 by (by intros ->%len_0_nil). pose proof (len_nonneg c).
    split; [lia |]. split; [done |].
    assert (q = c ++ from q (len c) /\ l = from q (len c) ++ bs') as [Eq El].
    { assert (q = upto q (len c) ++ from q (len c)) as Eq by (by rewrite upto_from).
      rewrite Eq, <- app_assoc in E. apply app_inj_1 in E as [E1 E2]; [by rewrite <- E1, <- E2, upto_from at 1 |].
      assert (len (upto q (len c)) = len c) as Ex by len_lia. by apply Nat2Z.inj. }
    exists (from q (len c) ++ p'). split; [by rewrite app_assoc, <- Eq |]. rewrite El.
    destruct (Z.ltb_spec (len c) m).
    + exists (from q (len c)), bs', p'. split_and!; try done; [lia | len_lia].
    + rewrite from_all by lia. by destruct final.
  - intros [Hl He]. rewrite upto_all by done. done.
Qed.

#[export] Instance stored_agrees : Agrees stored_flate_ok stored_inflater_spec.
Proof.
  intros h bs p _ (qs & Hqs & -> & ->). cbn. induction Hqs as [| q qs Hq _ IH]; cbn.
  - exact (stream_final [] [] eq_refl).
  - rewrite <- app_assoc. by apply (stream_block q).
Qed.
