(* ===== verification/Inflating.v ===== *)
(** * What the decompressor promises

    Every call returns, on any input and with any inflater that keeps the
    [io.Reader] contract; the output never exceeds the limit; a message that
    is a sequence of DEFLATE streams comes out whole, streamed or at once; the
    window afterwards holds what was said, or nothing after an error. *)

From stdpp Require Import prelude gmap.
From S2P Require Import Prelude Errors Encoder Bufpool Window Decompressor.

Import Dz.

(** Projections of updated decompressors. *)
Ltac dz_simpl :=
  cbn [reader slice in_ in_cap input output out_cap window scratch kept streaming active done].

Section source.
Context {I : Inflater} {G : Grow} {St : Type} {CS : ChunkSource St}.
Implicit Types (d : Decompressor) (σ : St).

(** [d] will be given the bytes [l], then the error [e], in fewer than [fuel]
    chunks; [σe] is what its source ends up as. *)
Definition supply (fuel : nat) d σ (l : list Z) (σe : St) (e : error) : Prop :=
  if streaming d then
    if eof (input d) then
      e = Io EOF /\ σ = σe /\ payload (input d) = [] /\ l = tail (input d) /\ (0 < fuel)%nat
    else
      tail (input d) = inflateTail /\
      exists cs, feeds σ cs σe e /\ (length cs < fuel)%nat /\
        l = payload (input d) ++ concat cs ++ (if bool_decide (e = Io EOF) then inflateTail else [])
  else e = Io EOF /\ σ = σe /\ l = slice d.

Lemma supply_exhausted fuel d σ l σe e :
  supply fuel d σ l σe e -> exhausted d = bool_decide (l = [] /\ e = Io EOF).
Proof.
  unfold supply, exhausted, mr_exhausted. destruct (streaming d).
  - destruct (eof (input d)); cbn [andb].
    + intros (-> & _ & -> & -> & _). change (len [] =? 0) with true. cbn [andb].
      destruct (tail (input d)) as [| b t]; [done |]. rewrite len_cons.
      pose proof (len_nonneg t). destruct (Z.eqb_spec (1 + len t) 0); [lia |].
      rewrite bool_decide_eq_false_2; [done |]. by intros [[=] _].
    + intros (_ & cs & _ & _ & ->). rewrite bool_decide_eq_false_2; [done |]. intros [El ->].
      apply app_eq_nil in El as [_ El]. by apply app_eq_nil in El as [_ El].
  - intros (-> & _ & ->). destruct (slice d) as [| b s]; [done |]. rewrite len_cons. pose proof (len_nonneg s).
    destruct (Z.eqb_spec (1 + len s) 0); [lia |]. rewrite bool_decide_eq_false_2; [done |]. by intros [[=] _].
Qed.

Lemma supply_end fuel d σ σe : supply fuel d σ [] σe (Io EOF) -> σ = σe.
Proof.
  unfold supply. destruct (streaming d); [| by intros (_ & -> & _)].
  destruct (eof (input d)); [by intros (_ & -> & _) |]. rewrite bool_decide_eq_true_2 by done.
  intros (_ & cs & _ & _ & El). by destruct (payload (input d)), (concat cs).
Qed.

Lemma from_cons_pos (b : Z) l : from (b :: l) 1 = l.
Proof. done. Qed.

(** Pulling the next nonempty chunk. *)
Lemma dz_fill_post fuel m σ cs σe e :
  eof m = false -> feeds σ cs σe e -> (length cs < fuel)%nat ->
  exists m' σ', tail m' = tail m /\
    if bool_decide (payload m ++ concat cs = []) then
      σ' = σe /\
      fill fuel m σ = Some (m', σ', if bool_decide (e = Io EOF) then Ok false else Err e) /\
      eof m' = bool_decide (e = Io EOF) /\ payload m' = []
    else
      fill fuel m σ = Some (m', σ', Ok true) /\ eof m' = false /\ payload m' <> [] /\
      exists cs', feeds σ' cs' σe e /\ (length cs' <= length cs)%nat /\
        payload m' ++ concat cs' = payload m ++ concat cs.
Proof.
  intros He Hf. revert m He fuel. induction Hf as [σ σe e E | σ σ1 c cs σe e E Hf IH];
    intros [p t ef] He fuel Hfuel; cbn in He; subst ef; cbn [payload tail eof].
  - destruct fuel as [| fuel]; [lia |]. cbn [fill concat payload eof]. rewrite app_nil_r.
    destruct p as [| b p].
    + rewrite bool_decide_eq_true_2 by done. change (len [] =? 0) with true. cbn [negb andb]. rewrite E.
      cbn. destruct (bool_decide (e = Io EOF)); [eexists (mkMessageReader [] t true), σe | eexists (mkMessageReader [] t false), σe]; by split_and!.
    + rewrite bool_decide_eq_false_2 by done. rewrite len_cons. pose proof (len_nonneg p).
      destruct (Z.eqb_spec (1 + len p) 0); [lia |]. cbn [andb negb].
      exists (mkMessageReader (b :: p) t false), σ. split; [done |].
      split_and!; try done. exists []. split_and!; [by apply feeds_end | done | apply app_nil_r].
  - cbn [length] in Hfuel. destruct fuel as [| fuel]; [lia |]. cbn [fill concat payload eof].
    destruct p as [| b p].
    + change (len [] =? 0) with true. cbn [negb andb app]. rewrite E. cbn [mbind option_bind].
      destruct (IH {| payload := c; tail := t; eof := false |} eq_refl fuel) as (m' & σ' & Ht & H); [lia |].
      cbn [payload tail] in H, Ht. exists m', σ'. split; [done |].
      destruct (bool_decide (c ++ concat cs = [])); [exact H |].
      destruct H as (H1 & H2 & H3 & cs' & H4 & H5 & H6). split_and!; try done. exists cs'. split_and!; [done | cbn [length]; lia | done].
    + rewrite bool_decide_eq_false_2 by done. rewrite len_cons. pose proof (len_nonneg p).
      destruct (Z.eqb_spec (1 + len p) 0); [lia |]. cbn [andb negb].
      exists (mkMessageReader (b :: p) t false), σ. split; [done |].
      split_and!; try done. exists (c :: cs). split_and!; [by eapply feeds_chunk | done | done].
Qed.

Lemma fill_eof fuel m σ :
  eof m = true -> payload m = [] -> (0 < fuel)%nat -> fill fuel m σ = Some (m, σ, Ok false).
Proof. intros E Ep Hf. destruct fuel; [lia |]. cbn. by rewrite E, Ep. Qed.

(** [supply] of a message reader, apart from the decompressor around it. *)
Definition mr_supply (fuel : nat) (m : messageReader) (σ : St) (l : list Z) (σe : St) (e : error) : Prop :=
  if eof m then e = Io EOF /\ σ = σe /\ payload m = [] /\ l = tail m /\ (0 < fuel)%nat
  else
    tail m = inflateTail /\
    exists cs, feeds σ cs σe e /\ (length cs < fuel)%nat /\
      l = payload m ++ concat cs ++ (if bool_decide (e = Io EOF) then inflateTail else []).

Lemma upto_pos (p : list Z) n : 0 < n -> p <> [] -> upto p n <> [] /\ len (upto p n) <= n.
Proof.
  intros Hn Hp. split; [| len_lia]. destruct p; [done |]. unfold upto.
  replace (Z.to_nat n) with (S (Z.to_nat (n - 1))) by lia. done.
Qed.

Lemma from_len_upto (p : list Z) n : from p (len (upto p n)) = from p n.
Proof.
  rewrite len_upto. destruct (Z.leb_spec n 0); [rewrite !from_0 by len_lia; done |].
  destruct (Z.leb_spec n (len p)); [f_equal; lia |]. rewrite !from_all by lia. done.
Qed.

(** Filling before a read: the payload in hand, the tail, or the error. *)
Lemma mr_fill_post fuel m σ l σe e :
  mr_supply fuel m σ l σe e ->
  exists m' σ',
    (fill fuel m σ = Some (m', σ', Ok true) /\ payload m' <> [] /\ eof m' = false /\
     mr_supply fuel m' σ' l σe e) \/
    (fill fuel m σ = Some (m', σ', Ok false) /\ eof m' = true /\ mr_supply fuel m' σ' l σe e) \/
    (fill fuel m σ = Some (m', σ', Err e) /\ l = [] /\ σ' = σe).
Proof.
  unfold mr_supply. destruct (eof m) eqn:Ee.
  { intros (-> & -> & Ep & -> & Hf). exists m, σe. right. left. rewrite fill_eof, Ee by done. by split_and!. }
  intros (Ht & cs & Hfe & Hlt & ->).
  destruct (dz_fill_post fuel m σ cs σe e Ee Hfe Hlt) as (m' & σ' & Htl & Hp). exists m', σ'.
  rewrite (app_assoc (payload m)). destruct (bool_decide_reflect (payload m ++ concat cs = [])) as [-> | Hne].
  - destruct Hp as (-> & -> & Hm & Hpm). rewrite Hm. right.
    destruct (bool_decide_reflect (e = Io EOF)) as [-> |]; [left | by right].
    split_and!; try done; [by rewrite Htl, Ht | lia].
  - destruct Hp as (-> & Hm & Hpm & cs' & Hfe' & Hlt' & Ecs). left. rewrite Hm, Htl.
    split_and!; try done. exists cs'. split_and!; [done | lia |]. by rewrite <- Ecs, app_assoc.
Qed.

(** Taking [n] bytes of the payload or the tail. *)
Lemma mr_take fuel m σ l σe e n :
  mr_supply fuel m σ l σe e ->
  if eof m then mr_supply fuel {| m with tail := from (tail m) n |} σ (from (tail m) n) σe e
  else exists l', l = payload m ++ l' /\ mr_supply fuel {| m with payload := from (payload m) n |} σ (from (payload m) n ++ l') σe e.
Proof.
  destruct m as [p t []]; unfold mr_supply; cbn [payload tail eof].
  - intros (-> & -> & -> & _ & Hf). by split_and!.
  - intros (Ht & cs & Hfe & Hlt & ->). eexists. split; [done |]. split; [done |]. by exists cs.
Qed.

Lemma mr_ReadByte_post fuel m σ l σe e :
  mr_supply fuel m σ l σe e ->
  exists m' σ',
    match l with
    | b :: l => mr_ReadByte fuel m σ = Some (m', σ', Ok b) /\ mr_supply fuel m' σ' l σe e
    | [] => mr_ReadByte fuel m σ = Some (m', σ', Err e) /\ σ' = σe
    end.
Proof.
  intros Hs. unfold mr_ReadByte.
  destruct (mr_fill_post _ _ _ _ _ _ Hs) as ([p t ef] & σ' & Hf); cbn [payload eof] in Hf.
  destruct Hf as [(-> & Hp & -> & Hs') | [(-> & -> & Hs') | (-> & -> & ->)]];
    cbn [mbind option_bind payload tail]; [| | by eexists _, _].
  - destruct (mr_take _ _ _ _ _ _ 1 Hs') as (l' & -> & Ht). cbn [payload tail eof] in *.
    destruct p as [| b p]; [done |]. by eexists _, _.
  - pose proof (mr_take _ _ _ _ _ _ 1 Hs') as Ht. cbn [payload tail eof] in *.
    destruct Hs' as (-> & -> & _ & -> & _). destruct t as [| b t]; [by eexists _, _ |].
    cbn [tail]. rewrite len_cons. pose proof (len_nonneg t). destruct (Z.eqb_spec (1 + len t) 0); [lia |]. by eexists _, _.
Qed.

Lemma mr_Read_post fuel m σ l σe e n :
  mr_supply fuel m σ l σe e -> 0 < n ->
  exists m' σ',
    if bool_decide (l = []) then mr_Read fuel m σ n = Some (m', σ', ([], Some e)) /\ σ' = σe
    else exists c l', l = c ++ l' /\ c <> [] /\ len c <= n /\
      mr_Read fuel m σ n = Some (m', σ', (c, None)) /\ mr_supply fuel m' σ' l' σe e.
Proof.
  intros Hs Hn. unfold mr_Read. destruct (Z.eqb_spec n 0); [lia |].
  destruct (mr_fill_post _ _ _ _ _ _ Hs) as ([p t ef] & σ' & Hf); cbn [payload eof] in Hf.
  destruct Hf as [(-> & Hp & -> & Hs') | [(-> & -> & Hs') | (-> & -> & ->)]];
    cbn [mbind option_bind payload tail]; [| | by eexists _, _].
  - destruct (mr_take _ _ _ _ _ _ n Hs') as (l' & -> & Ht). cbn [payload tail eof] in *.
    destruct (upto_pos p n Hn Hp) as [H1 H2]. rewrite bool_decide_eq_false_2 by (destruct p; done).
    eexists _, _, (upto p n), (from p n ++ l'). split; [by rewrite app_assoc, upto_from |].
    split_and!; [exact H1 | exact H2 | done | exact Ht].
  - pose proof (mr_take _ _ _ _ _ _ n Hs') as Ht. cbn [payload tail eof] in *. rewrite from_len_upto.
    destruct Hs' as (-> & -> & _ & -> & _). cbn [tail]. destruct (decide (t = [])) as [-> | E].
    + rewrite bool_decide_eq_true_2 by done. replace (upto [] n) with (@nil Z) by (symmetry; apply take_nil).
      by eexists _, _.
    + destruct (upto_pos t n Hn E) as [H1 H2]. rewrite bool_decide_eq_false_2 by done.
      destruct (Z.eqb_spec (len (upto t n)) 0) as [Ez | _]; [by apply len_0_nil in Ez |].
      eexists _, _, _, _. split; [symmetry; apply (upto_from _ n) |]. split_and!; [exact H1 | exact H2 | done | exact Ht].
Qed.

(** The same of whichever source the decompressor draws from. *)
Definition with_source d (s : list Z) (m : messageReader) (r : option freader) : Decompressor :=
  {| d with slice := s; input := m; reader := r |}.

Lemma supply_streaming fuel d σ l σe e :
  streaming d = true -> supply fuel d σ l σe e <-> mr_supply fuel (input d) σ l σe e.
Proof. unfold supply, mr_supply. by intros ->. Qed.

Lemma source_ReadByte_post fuel d σ l σe e :
  supply fuel d σ l σe e ->
  exists s m σ', let d' := with_source d s m (reader d) in
    match l with
    | b :: l => source_ReadByte fuel d σ = Some (d', σ', Ok b) /\ supply fuel d' σ' l σe e
    | [] => source_ReadByte fuel d σ = Some (d', σ', Err e) /\ σ' = σe
    end.
Proof.
  unfold source_ReadByte. destruct d as [rd sl i ic inp o oc wi sc ke [] ac dn]; cbn [streaming].
  - rewrite supply_streaming by done. cbn [input]. intros Hs.
    destruct (mr_ReadByte_post _ _ _ _ _ _ Hs) as (m & σ' & H). exists sl, m, σ'.
    destruct l; destruct H as [-> H]; by split.
  - unfold supply. cbn [streaming slice]. intros (-> & -> & ->).
    destruct sl as [| b sl]; [exists [], inp, σe | exists sl, inp, σe]; by split_and!.
Qed.

Lemma source_Read_post fuel d σ l σe e n :
  supply fuel d σ l σe e -> 0 < n ->
  exists s m σ', let d' := with_source d s m (reader d) in
    if bool_decide (l = []) then source_Read fuel d σ n = Some (d', σ', ([], Some e)) /\ σ' = σe
    else exists c l', l = c ++ l' /\ c <> [] /\ len c <= n /\
      source_Read fuel d σ n = Some (d', σ', (c, None)) /\ supply fuel d' σ' l' σe e.
Proof.
  unfold source_Read. destruct d as [rd sl i ic inp o oc wi sc ke [] ac dn]; cbn [streaming].
  - rewrite supply_streaming by done. cbn [input]. intros Hs Hn.
    destruct (mr_Read_post _ _ _ _ _ _ n Hs Hn) as (m & σ' & H). exists sl, m, σ'. destruct (bool_decide (l = [])).
    + destruct H as [-> H]. by split.
    + destruct H as (c & l' & -> & Hc & Hl & -> & H). exists c, l'. by split_and!.
  - unfold supply. cbn [streaming slice]. intros (-> & -> & ->) Hn. unfold slice_Read.
    destruct (decide (sl = [])) as [-> | Hne]; [exists [], inp, σe; by split |].
    exists (from sl n), inp, σe. rewrite bool_decide_eq_false_2 by done.
    destruct (Z.eqb_spec (len sl) 0) as [Ez | _]; [by apply len_0_nil in Ez |].
    destruct (upto_pos sl n Hn Hne) as [H1 H2]. exists (upto sl n), (from sl n).
    split; [symmetry; apply upto_from |]. by split_and!.
Qed.
End source.

Section call.
Context {I : Inflater} {IO : InflaterOk I} {G : Grow} {St : Type} {CS : ChunkSource St}.
Implicit Types (d : Decompressor) (σ : St).

Lemma supply_reader fuel d s m r r' σ l σe e :
  supply fuel (with_source d s m r) σ l σe e -> supply fuel (with_source d s m r') σ l σe e.
Proof. done. Qed.

Lemma with_source_self d r : {| d with reader := r |} = with_source d (slice d) (input d) r.
Proof. done. Qed.

(** A call that is over after its source failed. *)
Lemma call_stops fuel fuel' u d σ e :
  (0 < fuel')%nat -> stops broken u e ->
  exists r out err, call fuel fuel' u d σ = Some ({| d with reader := Some r |}, σ, (out, err)) /\
    len out <= space u /\ (err = Some (noEOF e) \/ err = None /\ broken r e).
Proof.
  intros Hf (r & out & err & Hm & He). destruct fuel'; [lia |]. cbn [call]. rewrite Hm.
  exists r, out, err. split; [done |]. split; [by apply (move_return u r out err) |].
  destruct He as [[-> ?] | ->]; [by right | by left].
Qed.

(** A call with whatever the source gives. *)
Lemma call_post fuel fuel' u d σ l σe e :
  supply fuel d σ l σe e -> (length l + 1 < fuel')%nat ->
  exists s m r σ' out err, let d' := with_source d s m (Some r) in
    call fuel fuel' u d σ = Some (d', σ', (out, err)) /\ len out <= space u /\
    ((exists l', supply fuel d' σ' l' σe e /\
       (l' = l /\ move u = Return r out err \/ (length l' < length l)%nat)) \/
     (σ' = σe /\ (err = Some (noEOF e) \/ err = None /\ broken r e))).
Proof.
  revert u d σ l. induction fuel' as [| fuel' IH]; intros u d σ l Hs Hf; [lia |]. cbn [call].
  destruct (move u) as [r out err | k | n k] eqn:Em.
  - eexists _, _, r, σ, out, err. cbv zeta. split; [rewrite with_source_self; reflexivity |].
    split; [by apply (move_return u r out err) |]. left. exists l. split; [exact Hs | by left].
  - destruct (move_byte u k Em) as [Hsp Hst].
    destruct (source_ReadByte_post _ _ _ _ _ _ Hs) as (s & m & σ' & H). destruct l as [| b l].
    + destruct H as [-> ->]. cbn [mbind option_bind].
      destruct (call_stops fuel fuel' (k (Err e)) (with_source d s m (reader d)) σe e) as (r & out & err & -> & Hl & He);
        [lia | done |]. rewrite Hsp in Hl. exists s, m, r, σe, out, err. split; [done |]. split; [done |]. by right.
    + destruct H as [-> H]. cbn [mbind option_bind length] in *.
      destruct (IH (k (Ok b)) _ _ _ H ltac:(lia)) as (s' & m' & r & σ'' & out & err & -> & Hl & Hr).
      rewrite Hsp in Hl. exists s', m', r, σ'', out, err. split; [done |]. split; [done |].
      destruct Hr as [(l' & Hs' & Hr) | Hr]; [left | by right]. exists l'. split; [exact Hs' |]. right.
      destruct Hr as [[-> _] | Hr]; lia.
  - destruct (move_bytes u n k Em) as (Hn & Hsp & Hst).
    destruct (source_Read_post _ _ _ _ _ _ n Hs Hn) as (s & m & σ' & H). destruct (bool_decide (l = [])).
    + destruct H as [-> ->]. cbn [mbind option_bind].
      destruct (call_stops fuel fuel' (k ([], Some e)) (with_source d s m (reader d)) σe e) as (r & out & err & -> & Hl & He);
        [lia | done |]. rewrite Hsp in Hl. exists s, m, r, σe, out, err. split; [done |]. split; [done |]. by right.
    + destruct H as (c & l1 & -> & Hc & _ & -> & H). cbn [mbind option_bind]. rewrite length_app in *.
      assert (0 < length c)%nat by (destruct c; [done | cbn; lia]).
      destruct (IH (k (c, None)) _ _ _ H ltac:(lia)) as (s' & m' & r & σ'' & out & err & -> & Hl & Hr).
      rewrite Hsp in Hl. exists s', m', r, σ'', out, err. split; [done |]. split; [done |].
      destruct Hr as [(l' & Hs' & Hr) | Hr]; [left | by right]. exists l'. split; [exact Hs' |]. right.
      destruct Hr as [[-> _] | Hr]; lia.
Qed.

(** A call on a stream it can decode. *)
Lemma call_serving {IS : InflaterSpec I} fuel fuel' u d σ l σe e rest p :
  supply fuel d σ l σe e -> (length l < fuel')%nat -> serving u l rest p ->
  exists s m r σ' out err l', let d' := with_source d s m (Some r) in
    call fuel fuel' u d σ = Some (d', σ', (out, err)) /\ supply fuel d' σ' l' σe e /\
    (l' = l /\ move u = Return r out err \/ (length l' < length l)%nat) /\
    match err with
    | None => out <> [] /\ exists q, p = out ++ q /\ serves r l' rest q
    | Some e => e = Io EOF /\ out = p /\ l' = rest
    end.
Proof.
  revert u d σ l. induction fuel' as [| fuel' IH]; intros u d σ l Hs Hf Hv; [lia |]. cbn [call].
  pose proof (serving_move u l rest p Hv) as Hm. destruct (move u) as [r out err | k | n k] eqn:Em.
  - eexists _, _, r, σ, out, err, l. cbv zeta. split; [rewrite with_source_self; reflexivity |].
    split; [exact Hs |]. split; [by left |]. destruct err; [by destruct Hm as (-> & -> & ->) | exact Hm].
  - destruct Hm as (b & l1 & -> & Hv'). destruct (source_ReadByte_post _ _ _ _ _ _ Hs) as (s & m & σ' & -> & H).
    cbn [mbind option_bind length] in *.
    destruct (IH (k (Ok b)) _ _ _ H ltac:(lia) Hv') as (s' & m' & r & σ2 & out & err & l' & E & Hs' & Hl & He).
    exists s', m', r, σ2, out, err, l'. split_and!; try done. right. destruct Hl as [[-> _] | Hl]; lia.
  - destruct Hm as (Hl & Hv'). destruct (move_bytes u n k Em) as (Hn & _ & _).
    destruct (source_Read_post _ _ _ _ _ _ n Hs Hn) as (s & m & σ' & H). rewrite bool_decide_eq_false_2 in H by done.
    destruct H as (c & l1 & -> & Hc & Hcn & -> & H). cbn [mbind option_bind]. rewrite length_app in *.
    assert (0 < length c)%nat by (destruct c; [done | cbn; lia]).
    destruct (IH (k (c, None)) _ _ _ H ltac:(lia) (Hv' c l1 eq_refl Hc Hcn))
      as (s' & m' & r & σ2 & out & err & l' & E & Hs' & Hl' & He).
    exists s', m', r, σ2, out, err, l'. split_and!; try done. right. destruct Hl' as [[-> _] | Hl']; lia.
Qed.
End call.

(** ** The windows *)

Section memory.
Context {G : Grow} `{!GrowOk G}.
Implicit Types (h : windows) (w : option Z).

(** Nothing but the window at [w] changes. *)
Definition others w h h' : Prop := forall j, Some j <> w -> h' !! j = h !! j.

Lemma others_refl w h : others w h h.
Proof. done. Qed.

Lemma others_trans w h1 h2 h3 : others w h1 h2 -> others w h2 h3 -> others w h1 h3.
Proof. intros H1 H2 j Hj. by rewrite H2, H1. Qed.

(** What a change at [w] keeps: validity and size. *)
Definition kept_at w h h' : Prop :=
  others w h h' /\ (windows_ok h -> windows_ok h') /\ (pointer_ok h w -> pointer_ok h' w) /\
  size_at h' w = size_at h w.

Lemma kept_refl w h : kept_at w h h.
Proof. split_and!; auto using others_refl. Qed.

Lemma kept_trans w h1 h2 h3 : kept_at w h1 h2 -> kept_at w h2 h3 -> kept_at w h1 h3.
Proof.
  intros (H1 & H2 & H3 & H4) (K1 & K2 & K3 & K4). split_and!; auto; [| congruence].
  by eapply others_trans.
Qed.

Lemma kept_alter i h f :
  (forall x : Window, window_ok x -> window_ok (f x)) -> (forall x : Window, Win.Size (f x) = Win.Size x) ->
  kept_at (Some i) h (alter f i h).
Proof.
  intros Hok Hs. split_and!.
  - intros j Hj. rewrite lookup_alter_ne; [done |]. congruence.
  - intros Hh j x. destruct (decide (i = j)) as [<- |].
    + rewrite lookup_alter_eq. intros (x0 & Hw & ->)%fmap_Some. eauto.
    + rewrite lookup_alter_ne by done. eauto.
  - unfold pointer_ok. rewrite lookup_alter_eq. intros [x ->]. by eexists.
  - unfold size_at. cbn [mbind option_bind]. rewrite lookup_alter_eq. destruct (h !! i); cbn; [apply Hs | done].
Qed.

Lemma kept_remember i h p : kept_at (Some i) h (alter (fun x => Win.remember x p) i h).
Proof. apply kept_alter; intros x; [apply remember_ok | apply remember_Size]. Qed.

Lemma kept_reset i h : kept_at (Some i) h (alter Win.Reset i h).
Proof. apply kept_alter; [| done]. intros x Hw. unfold window_ok in *. cbn. len_lia. Qed.

Lemma dict_at_remember i h p :
  windows_ok h -> pointer_ok h (Some i) ->
  dict_at (alter (fun x => Win.remember x p) i h) (Some i)
  = lastn (size_at h (Some i)) (dict_at h (Some i) ++ p).
Proof.
  intros Hh [x Hw]. unfold dict_at, size_at. cbn [mbind option_bind]. rewrite lookup_alter_eq, Hw.
  cbn [fmap option_fmap option_map]. apply remember_dict. by eapply Hh.
Qed.

Lemma reset_dict (x : Window) : Win.dict (Some (Win.Reset x)) = [].
Proof. cbn. unfold from. case_match; [apply drop_nil | done]. Qed.

Lemma dict_at_reset i h : dict_at (alter Win.Reset i h) (Some i) = [].
Proof.
  unfold dict_at. cbn [mbind option_bind]. rewrite lookup_alter_eq.
  destruct (h !! i); [apply reset_dict | done].
Qed.

Lemma size_at_pos h w : 256 <= size_at h w <= windowSize.
Proof. unfold size_at. destruct (w ≫= _); [apply Size_pos |]. split; done. Qed.

Lemma dict_at_len h w : len (dict_at h w) <= size_at h w.
Proof. unfold dict_at, size_at. destruct (w ≫= _); [apply dict_len | done]. Qed.

(** Remembering in pieces. *)
Lemma lastn_grow n (D p q : list Z) : 0 <= n -> lastn n (lastn n (D ++ p) ++ q) = lastn n (D ++ p ++ q).
Proof. intros. by rewrite lastn_app_lastn, <- app_assoc. Qed.
End memory.

(** ** A message in progress *)

Section message.
Context {I : Inflater} {IO : InflaterOk I} {G : Grow} `{!GrowOk G} {St : Type} {CS : ChunkSource St}.
Implicit Types (d : Decompressor) (σ : St) (h : windows) (w : option Z) (D O : list Z).

(** The fixed part: the scratch window is a full-size one, and the output is
    within its storage. *)
Definition decompressor_ok d : Prop :=
  window_ok (scratch d) /\ Win.Size (scratch d) = windowSize /\ len (output d) <= out_cap d.

(** [D] is the history the message started from and [O] its output so far. *)
Record mid d h w D O : Prop := {
  mid_ok : window_ok (scratch d) /\ Win.Size (scratch d) = windowSize;
  mid_mem : windows_ok h /\ pointer_ok h w;
  mid_active : active d = true;
  mid_window : window d = w;
  mid_none : w = None -> D = [];
  mid_hist :
    if streaming d
    then (match w with Some _ => dict_at h w | None => Win.dict (Some (scratch d)) end) = lastn (size_at h w) (D ++ O)
    else 0 <= kept d <= len O /\ (w <> None -> dict_at h w = lastn (size_at h w) (D ++ upto O (kept d)))
}.

Definition idle d : Prop :=
  active d = false /\ window d = None /\ streaming d = false /\ done d = false.

(** The message is over, and the window holds it. *)
Definition finished d h w D O : Prop :=
  idle d /\ (w <> None -> dict_at h w = lastn (size_at h w) (D ++ O)).

(** The message is over, and nothing is remembered. *)
Definition cleared d h w : Prop := idle d /\ dict_at h w = [].

(** What no operation on a message in progress touches. *)
Definition framed d d' : Prop :=
  output d' = output d /\ out_cap d' = out_cap d /\ in_ d' = in_ d /\
  (window_ok (scratch d) -> window_ok (scratch d')) /\ Win.Size (scratch d') = Win.Size (scratch d).

Lemma framed_refl d : framed d d.
Proof. by split_and!. Qed.

(** Closes what is left of a step's bookkeeping. *)
Ltac frame :=
  split_and!; auto using kept_refl, kept_remember, kept_reset; try done;
  try (unfold framed; split_and!; cbn; first [done | congruence | auto]).

Lemma framed_trans d1 d2 d3 : framed d1 d2 -> framed d2 d3 -> framed d1 d3.
Proof. intros (H1 & H2 & H3 & H4 & H5) (K1 & K2 & K3 & K4 & K5). split_and!; auto; congruence. Qed.

Lemma mid_source d h w D O s m r : mid d h w D O -> mid (with_source d s m r) h w D O.
Proof. intros []. by constructor. Qed.

Lemma keep_mid d h w D O out :
  mid d h w D O ->
  let '(d', h') := keep d h out in
  mid d' h' w D (O ++ out) /\ kept_at w h h' /\ framed d d' /\ streaming d' = streaming d /\
  reader d' = reader d /\ done d' = done d /\ slice d' = slice d /\ input d' = input d.
Proof.
  intros [[Hs1 Hs2] [Hh Hp] Ha Hw Hn Hist]. unfold keep. pose proof (size_at_pos h w) as Hsz.
  destruct (streaming d) eqn:Est.
  2: { rewrite andb_false_r. split; [| by frame].
    destruct Hist as [Hk Hd]. constructor; try done. rewrite Est, len_app.
    split; [pose proof (len_nonneg out); lia |]. by rewrite upto_app_le by lia. }
  rewrite andb_true_r. destruct (Z.eqb_spec (len out) 0) as [E | E]; cbn [negb].
  { apply len_0_nil in E. subst out. rewrite app_nil_r.
    split; [| by frame]. constructor; try done. by rewrite Est. }
  rewrite Hw. destruct w as [i |].
  - split; [| frame].
    destruct (kept_remember i h out) as (_ & K1 & K2 & K3).
    constructor; auto. rewrite Est, K3, dict_at_remember, Hist by done. rewrite lastn_grow by lia. done.
  - split; [| split_and!; auto using kept_refl].
    + constructor; try done.
      * cbn. split; [by apply remember_ok | by rewrite remember_Size].
      * cbn [streaming scratch]. rewrite remember_dict, Hist, Hs2 by done.
        change (size_at h None) with windowSize in *. rewrite lastn_grow by lia. done.
    + split_and!; try done; cbn; [by apply remember_ok | apply remember_Size].
Qed.

(** The dictionary of a reset is the history so far. *)
Lemma dict_mid d h w D O out :
  mid d h w D (O ++ out) -> (streaming d = false -> output d = O) ->
  let '(d', h', dct) := dict d h out in
  dct = lastn (size_at h w) (D ++ O ++ out) /\ mid d' h' w D (O ++ out) /\ kept_at w h h' /\ framed d d' /\
  streaming d' = streaming d /\ reader d' = reader d /\ done d' = done d /\ slice d' = slice d /\ input d' = input d.
Proof.
  intros Hm Ho. pose proof Hm as [[Hs1 Hs2] [Hh Hp] Ha Hw Hn Hist]. pose proof (size_at_pos h w) as Hsz.
  unfold dict. rewrite Hw. destruct (streaming d) eqn:Est.
  - split; [rewrite <- Hist; by destruct w | frame].
  - specialize (Ho eq_refl). rewrite Ho. destruct Hist as [Hk Hd]. destruct w as [i |].
    + destruct (kept_remember i h (from (O ++ out) (kept d))) as (K0 & K1 & K2 & K3).
      assert (dict_at (alter (fun x => Win.remember x (from (O ++ out) (kept d))) i h) (Some i)
              = lastn (size_at h (Some i)) (D ++ O ++ out)) as Edct.
      { rewrite dict_at_remember, Hd by done. rewrite lastn_grow by lia. by rewrite upto_from. }
      split; [exact Edct |]. split; [| frame].
      constructor; auto. rewrite ?Est. cbn [kept]. split; [pose proof (len_nonneg (O ++ out)); lia |].
      intros _. rewrite K3, upto_all by lia. exact Edct.
    + specialize (Hn eq_refl). subst D. cbn [app]. split.
      * unfold lastn. change (size_at h None) with windowSize. destruct (Z.leb_spec (len (O ++ out)) windowSize).
        -- by rewrite !from_0 by lia.
        -- f_equal. lia.
      * frame.
Qed.

Lemma dz_finish_ok d h w D O :
  mid d h w D O -> (streaming d = false -> output d = O) ->
  let '(d', h') := finish d h true in
  finished d' h' w D O /\ kept_at w h h' /\ framed d d' /\ reader d' = reader d.
Proof.
  intros [[Hs1 Hs2] [Hh Hp] Ha Hw Hn Hist] Ho. pose proof (size_at_pos h w) as Hsz.
  unfold finish, finished. rewrite Hw. cbn [negb]. destruct w as [i |].
  - destruct (streaming d) eqn:Est; cbn [negb].
    + frame.
    + destruct Hist as [Hk Hd]. specialize (Ho eq_refl). rewrite Ho.
      frame. intros _.
      destruct (kept_remember i h (from O (kept d))) as (_ & _ & _ & ->).
      rewrite dict_at_remember, Hd by done. rewrite lastn_grow by lia. by rewrite upto_from.
  - frame.
Qed.

Lemma finish_cleared d h w :
  window d = w ->
  let '(d', h') := finish d h false in
  cleared d' h' w /\ kept_at w h h' /\ framed d d' /\ reader d' = reader d.
Proof.
  intros Hw. unfold finish, cleared. rewrite Hw. cbn [negb]. destruct w as [i |].
  - frame. apply dict_at_reset.
  - frame.
Qed.

(** The windows once whatever was in progress is abandoned. *)
Definition abandoned d h : windows :=
  if active d then match window d with Some i => alter Win.Reset i h | None => h end else h.

Lemma finish_abandoned d h :
  active d = true -> (finish d h false).2 = abandoned d h.
Proof. intros Ha. unfold finish, abandoned. rewrite Ha. by destruct (window d). Qed.

Lemma mid_start d h w :
  window_ok (scratch d) -> Win.Size (scratch d) = windowSize -> windows_ok h -> pointer_ok h w ->
  active d = true -> window d = w -> kept d = 0 -> Win.dict (Some (scratch d)) = [] ->
  mid d h w (dict_at h w) [].
Proof.
  intros Hs1 Hs2 Hh Hp Ha Hw Hk Hs. constructor; try done; [by intros -> |].
  assert (dict_at h w = lastn (size_at h w) (dict_at h w)) as E by (symmetry; apply lastn_all, dict_at_len).
  rewrite app_nil_r. destruct (streaming d).
  - destruct w; [exact E | by rewrite Hs].
  - rewrite Hk. split; [done |]. intros _. unfold upto. by rewrite take_nil, app_nil_r.
Qed.

Lemma aim_fields d src pay w :
  let d' := aim d src pay w in
  output d' = output d /\ out_cap d' = out_cap d /\ scratch d' = Win.Reset (scratch d) /\ reader d' = reader d /\
  window d' = w /\ streaming d' = src /\ active d' = true /\ done d' = false /\ kept d' = 0 /\
  if src then input d' = mkMessageReader [] inflateTail false else slice d' = pay ++ inflateTail.
Proof. unfold aim. destruct src; [by split_and! |]. destruct (in_cap _ <? _); by split_and!. Qed.

(** How a message starts. *)
Lemma begin_post d h src pay w :
  decompressor_ok d -> windows_ok (abandoned d h) -> pointer_ok (abandoned d h) w ->
  let '(d', h', err) := begin d h src pay w in
  output d' = output d /\ out_cap d' = out_cap d /\ window_ok (scratch d') /\ Win.Size (scratch d') = windowSize /\
  match err with
  | Some e => e <> Io EOF /\ cleared d' h' w /\ kept_at w (abandoned d h) h' /\
      exists r, (ResetReader r (dict_at (abandoned d h) w)).2 = Some e
  | None =>
      h' = abandoned d h /\ mid d' h' w (dict_at h' w) [] /\ streaming d' = src /\ done d' = false /\
      (exists r, reader d' = Some r /\ fresh r /\
         forall (IS : InflaterSpec I) l rest p, deflates (dict_at h' w) l rest p -> serves r l rest p) /\
      if src then input d' = mkMessageReader [] inflateTail false else slice d' = pay ++ inflateTail
  end.
Proof.
  intros (Hs1 & Hs2 & _) Hh Hp. unfold begin.
  assert (exists d1, (if active d then finish d h false else (d, h)) = (d1, abandoned d h) /\
    output d1 = output d /\ out_cap d1 = out_cap d /\ scratch d1 = scratch d) as (d1 & -> & <- & <- & H3).
  { unfold abandoned, finish. destruct (active d); [| by exists d]. eexists. split; [reflexivity |]. by split_and!. }
  generalize dependent (abandoned d h). intros h0 Hh Hp.
  destruct (aim_fields d1 src pay w) as (<- & <- & E3 & _ & E5 & E6 & E7 & E8 & E9 & E10).
  rewrite H3 in E3. generalize dependent (aim d1 src pay w). intros d2 E3 E5 E6 E7 E8 E9 E10.
  assert (window_ok (scratch d2) /\ Win.Size (scratch d2) = windowSize) as [Hr1 Hr2].
  { rewrite E3. split; [| exact Hs2]. unfold window_ok in *. cbn. len_lia. }
  pose proof (size_at_pos h0 w). pose proof (dict_at_len h0 w).
  destruct (reader d2) as [r |] eqn:Er.
  - pose proof (reset_error r (dict_at h0 w)) as Hre. pose proof (fresh_reset r (dict_at h0 w)) as Hfr.
    pose proof (fun IS => serves_reset (I := I) (InflaterSpec := IS) r (dict_at h0 w)) as Hsr.
    destruct (ResetReader r (dict_at h0 w)) as [r' [e |]] eqn:Ez; cbn [fst snd] in *.
    + pose proof (finish_cleared {| d2 with reader := Some r' |} h0 w E5) as Hc.
      destruct (finish _ h0 false) as [d3 h3]. destruct Hc as (Hc & Hk & (F1 & F2 & _ & F4 & F5) & _).
      cbn in F1, F2, F4, F5. rewrite Hr2 in F5. split_and!; auto; [congruence |]. exists r. by rewrite Ez.
    + split_and!; try done.
      * apply mid_start; try done. cbn [scratch]. by rewrite E3, reset_dict.
      * exists r'. split_and!; try done. intros IS l rest p Hd. apply (Hsr IS l rest p); [lia | done].
  - split_and!; try done.
    + apply mid_start; try done. cbn [scratch]. by rewrite E3, reset_dict.
    + eexists. split; [reflexivity |]. split; [apply fresh_new |].
      intros IS l rest p Hd. apply serves_new; [lia | done].
Qed.

(** What is still to come, and how the source will fail. *)
Definition flow (fuel : nat) d σ (l : list Z) (σe : St) (e : error) : Prop :=
  supply fuel d σ l σe e \/ (σ = σe /\ l = [] /\ exists r, reader d = Some r /\ broken r e).

(** After a [Read]: more output, the end of the message, or a failure. *)
Definition dz_read_post (fuel : nat) d h w D O (n : Z) (l : list Z) (σe : St) (e : error)
    (d' : Decompressor) (h' : windows) (σ' : St) (r : result (list Z)) : Prop :=
  kept_at w h h' /\ framed d d' /\
  match r with
  | Ok out =>
      out <> [] /\ len out <= n /\ mid d' h' w D (O ++ out) /\ streaming d' = streaming d /\
      is_Some (reader d') /\ exists l', flow fuel d' σ' l' σe e /\ (length l' <= length l)%nat
  | Err x => if bool_decide (x = Io EOF) then finished d' h' w D O else cleared d' h' w
  end.

Lemma read_post_trans fuel d1 h1 d h w D O n l1 l σe e d' h' σ' r :
  kept_at w h1 h -> framed d1 d -> streaming d = streaming d1 -> (length l <= length l1)%nat ->
  dz_read_post fuel d h w D O n l σe e d' h' σ' r -> dz_read_post fuel d1 h1 w D O n l1 σe e d' h' σ' r.
Proof.
  intros Hk Hf Hst Hl (K & F & H). split; [by eapply kept_trans |]. split; [by eapply framed_trans |].
  destruct r as [out | x]; [| exact H]. destruct H as (H1 & H2 & H3 & H4 & H5 & l' & H6 & H7).
  split_and!; try done; [congruence |]. exists l'. split; [exact H6 | lia].
Qed.

(** A failing return. *)
Lemma dz_fail_post fuel d h w D O O' n l σe e σ x :
  mid d h w D O' -> x <> Io EOF ->
  let '(d', h', r) := fail d h x in dz_read_post fuel d h w D O n l σe e d' h' σ r.
Proof.
  intros Hm Hx. unfold fail. pose proof (finish_cleared d h w (mid_window _ _ _ _ _ Hm)) as H.
  destruct (finish d h false) as [d' h']. destruct H as (Hc & Hk & Hf & _).
  split; [done |]. split; [done |]. by rewrite bool_decide_eq_false_2.
Qed.

Lemma noEOF_ne e : noEOF e <> Io EOF.
Proof. unfold noEOF. by case_bool_decide. Qed.

(** The inflater's call and what is remembered of it. *)
Lemma call_mid fuel d h w D O σ l σe e r n :
  mid d h w D O -> reader d = Some r -> flow fuel d σ l σe e -> (length l + 1 < fuel)%nat -> 0 <= n ->
  exists d1 σ1 out err, call fuel fuel (ReadCall r n) d σ = Some (d1, σ1, (out, err)) /\ len out <= n /\
    let '(d2, h2) := keep d1 h out in
    mid d2 h2 w D (O ++ out) /\ kept_at w h h2 /\ framed d d2 /\ streaming d2 = streaming d /\
    done d2 = done d /\ is_Some (reader d2) /\
    ((exists l', supply fuel d2 σ1 l' σe e /\ exhausted d2 = bool_decide (l' = [] /\ e = Io EOF) /\
        (length l' <= length l)%nat /\ (fresh r -> err = Some (Io EOF) -> (length l' < length l)%nat)) \/
     (σ1 = σe /\ ((exists x, err = Some x /\ x <> Io EOF) \/ (err = None /\ flow fuel d2 σ1 [] σe e)))).
Proof.
  intros Hm Hr Hfl Hf Hn0.
  assert (exists s m r' σ1 out err, call fuel fuel (ReadCall r n) d σ = Some (with_source d s m (Some r'), σ1, (out, err)) /\
    len out <= n /\
    ((exists l', supply fuel (with_source d s m (Some r')) σ1 l' σe e /\
       (l' = l /\ move (ReadCall r n) = Return r' out err \/ (length l' < length l)%nat)) \/
     (σ1 = σe /\ (err = Some (noEOF e) \/ err = None /\ broken r' e))))
    as (s & m & r' & σ1 & out & err & E & Hn & H).
  { destruct Hfl as [Hs | (-> & -> & r0 & Hr0 & Hb)].
    - destruct (call_post fuel fuel (ReadCall r n) d σ l σe e Hs Hf) as (s & m & r' & σ1 & out & err & E & Hn & H).
      rewrite space_call in Hn by done. by exists s, m, r', σ1, out, err.
    - rewrite Hr in Hr0. injection Hr0 as <-.
      destruct (call_stops fuel fuel (ReadCall r n) d σe e ltac:(lia) (broken_call r n e Hb)) as (r' & out & err & E & Hn & H).
      rewrite space_call in Hn by done. exists (slice d), (input d), r', σe, out, err. split; [exact E |]. split; [done |]. by right. }
  exists (with_source d s m (Some r')), σ1, out, err. split; [exact E |]. split; [exact Hn |].
  pose proof (keep_mid (with_source d s m (Some r')) h w D O out (mid_source d h w D O s m (Some r') Hm)) as Hk.
  destruct (keep _ h out) as [d2 h2]. destruct Hk as (Hm2 & Hk2 & Hf2 & Hst & Hr2 & Hd2 & Hs2 & Hi2).
  cbn in Hst, Hr2, Hd2, Hs2, Hi2. split; [exact Hm2 |]. split; [exact Hk2 |].
  split; [by destruct Hf2 |]. split; [exact Hst |]. split; [exact Hd2 |]. split; [by rewrite Hr2 |].
  assert (forall l', supply fuel (with_source d s m (Some r')) σ1 l' σe e -> supply fuel d2 σ1 l' σe e) as Hsup.
  { intros l'. unfold supply. cbn. by rewrite Hst, Hs2, Hi2. }
  destruct H as [(l' & Hs & H) | [-> H]].
  - left. exists l'. split; [by apply Hsup |]. split; [apply (supply_exhausted fuel d2 σ1 l' σe e), Hsup, Hs |].
    split; [destruct H as [[-> _] | H]; lia |]. intros Hfr ->. destruct H as [[_ Hmv] | H]; [| done].
    by destruct (fresh_call r n r' out _ Hfr Hmv).
  - right. split; [done |]. destruct H as [-> | [-> Hb]]; [left | right].
    + eexists. split; [done | apply noEOF_ne].
    + split; [done |]. right. split_and!; try done. by exists r'.
Qed.

Lemma Read_loop_post fuel fuel' d h w D O σ l σe e r n :
  mid d h w D O -> (streaming d = false -> output d = O) -> reader d = Some r -> done d = false ->
  flow fuel d σ l σe e -> (length l + 1 < fuel)%nat -> 0 <= n ->
  (fresh r /\ (length l < fuel')%nat \/ (length l + 1 < fuel')%nat) ->
  exists d' h' σ' res, Read_loop fuel fuel' d h σ n = Some (d', h', σ', res) /\
    dz_read_post fuel d h w D O n l σe e d' h' σ' res.
Proof.
  revert d h σ l r. induction fuel' as [| fuel' IH]; intros d h σ l r Hm Ho Hr Hd Hfl Hf Hn0 Hf'; [lia |].
  cbn [Read_loop]. rewrite Hr.
  destruct (call_mid fuel d h w D O σ l σe e r n Hm Hr Hfl Hf Hn0) as (d1 & σ1 & out & err & -> & Hn & H).
  cbn [mbind option_bind]. destruct (keep d1 h out) as [d2 h2].
  destruct H as (Hm2 & Hk2 & Hf2 & Hst & Hd2 & Hr2 & H).
  destruct err as [x |].
  2: { destruct (Z.eqb_spec (len out) 0) as [Ez | Ez].
    - pose proof (dz_fail_post fuel d2 h2 w D O (O ++ out) n l σe e σ1 (Io ErrNoProgress) Hm2 ltac:(done)) as Hp.
      destruct (fail d2 h2 _) as [[d3 h3] res]. eexists _, _, _, _. split; [reflexivity |].
      by eapply read_post_trans, Hp.
    - eexists _, _, _, _. split; [reflexivity |]. split; [done |]. split; [done |].
      split; [by intros -> |]. split_and!; try done. destruct H as [(l' & Hs & _ & Hl & _) | [-> [(x & [=] & _) | [_ Hfl']]]].
      + exists l'. split; [by left | done].
      + exists []. split; [exact Hfl' | cbn; lia]. }
  destruct (bool_decide_reflect (x = Io EOF)) as [-> | Hx].
  2: { pose proof (dz_fail_post fuel d2 h2 w D O (O ++ out) n l σe e σ1 x Hm2 Hx) as Hp.
    destruct (fail d2 h2 x) as [[d3 h3] res]. eexists _, _, _, _. split; [reflexivity |].
    by eapply read_post_trans, Hp. }
  destruct H as [(l' & Hs & -> & Hl & Hfr) | [_ [(x & [= <-] & Hx) | [[=] _]]]]; [| done].
  destruct (bool_decide_reflect (l' = [] /\ e = Io EOF)) as [[-> ->] | Hex].
  - destruct (Z.eqb_spec (len out) 0) as [Ez | Ez].
    + apply len_0_nil in Ez. subst out. rewrite app_nil_r in *.
      assert (streaming d2 = false -> output d2 = O) as Ho2 by (intros; destruct Hf2 as (-> & _); rewrite Ho; congruence).
      pose proof (dz_finish_ok d2 h2 w D O Hm2 Ho2) as Hp. destruct (finish d2 h2 true) as [d3 h3].
      destruct Hp as (Hp & Hk3 & Hf3 & _). eexists _, _, _, _. split; [reflexivity |].
      split; [by eapply kept_trans |]. split; [by eapply framed_trans |]. by rewrite bool_decide_eq_true_2.
    + eexists _, _, _, _. split; [reflexivity |]. split; [done |].
      split; [by destruct Hf2 |]. split; [by intros -> |]. split; [done |].
      split; [by destruct Hm2 |]. split_and!; try done. exists []. split; [by left | cbn; lia].
  - assert (streaming d2 = false -> output d2 = O) as Ho2 by (intros; destruct Hf2 as (-> & _); rewrite Ho; congruence).
    pose proof (dict_mid d2 h2 w D O out Hm2 Ho2) as Hp. destruct (dict d2 h2 out) as [[d3 h3] dct].
    destruct Hp as (_ & Hm3 & Hk3 & Hf3 & Hst3 & Hr3 & Hd3 & Hs3 & Hi3).
    destruct Hr2 as [r2 Hr2]. rewrite Hr3, Hr2.
    pose proof (reset_error r2 dct) as Hre. pose proof (fresh_reset r2 dct) as Hfre.
    destruct (ResetReader r2 dct) as [r3 err]. cbn [fst snd] in *.
    set (d4 := {| d3 with reader := Some r3 |}).
    assert (mid d4 h3 w D (O ++ out)) as Hm4 by (by destruct Hm3).
    assert (framed d d4) as Hf4 by (eapply framed_trans; [exact Hf2 | exact Hf3]).
    assert (supply fuel d4 σ1 l' σe e) as Hs4.
    { unfold supply in *. cbn. by rewrite Hst3, Hs3, Hi3. }
    assert (kept_at w h h3) as Hk4 by (by eapply kept_trans).
    assert (streaming d4 = streaming d) as Hst4 by (cbn; congruence).
    destruct err as [x |].
    { pose proof (dz_fail_post fuel d4 h3 w D O (O ++ out) n l' σe e σ1 x Hm4 ltac:(congruence)) as Hp.
      destruct (fail d4 h3 x) as [[d5 h5] res]. eexists _, _, _, _. split; [reflexivity |].
      by eapply read_post_trans, Hp. }
    destruct (Z.eqb_spec (len out) 0) as [Ez | Ez]; cbn [negb].
    + apply len_0_nil in Ez. subst out. rewrite app_nil_r in *.
      assert (length l' < fuel')%nat as Hlt by (destruct Hf' as [[Hfr1 ?] | ?]; [specialize (Hfr Hfr1 eq_refl); lia | lia]).
      destruct (IH d4 h3 σ1 l' r3 Hm4) as (d5 & h5 & σ5 & res & E & Hp); try done.
      * intros Est. destruct Hf4 as (-> & _). apply Ho. congruence.
      * cbn. congruence.
      * by left.
      * lia.
      * by left.
      * eexists _, _, _, _. split; [exact E |]. by eapply read_post_trans, Hp.
    + eexists _, _, _, _. split; [reflexivity |]. split; [done |]. split; [done |].
      split; [by intros -> |]. split_and!; try done. exists l'. split; [by left | done].
Qed.

(** ** A message the inflater can decode *)

(** From reader [r] on the input [l], after the history [H], the message goes
    on with [p]: the rest of one stream, then the streams after it. *)
Definition plan {IS : InflaterSpec I} (sz : Z) (r : freader) (l H p : list Z) : Prop :=
  exists rest p1 p2, serves r l rest p1 /\ p = p1 ++ p2 /\
    (rest = [] /\ p2 = [] \/ rest <> [] /\ inflated sz (lastn sz (H ++ p1)) rest p2).

Lemma plan_start {IS : InflaterSpec I} sz r l H p :
  0 <= sz -> inflated sz (lastn sz H) l p ->
  (forall rest p, deflates (lastn sz H) l rest p -> serves r l rest p) -> plan sz r l H p.
Proof.
  intros Hsz Hi. inversion Hi as [d l' p' Hd | d l' rest p1 p2 Hd Hne Hi']; subst; intros Hs.
  - exists [], p, []. split; [by apply Hs |]. split; [by rewrite app_nil_r | by left].
  - exists rest, p1, p2. split; [by apply Hs |]. split; [done |]. right. split; [done |].
    by rewrite lastn_app_lastn in Hi'.
Qed.

Lemma Read_loop_plan {IS : InflaterSpec I} fuel fuel' d h w D O σ l σe r n p :
  mid d h w D O -> (streaming d = false -> output d = O) -> reader d = Some r -> done d = false ->
  supply fuel d σ l σe (Io EOF) -> (length l + 1 < fuel)%nat -> 0 < n ->
  (fresh r /\ (length l < fuel')%nat \/ (length l + 1 < fuel')%nat) ->
  plan (size_at h w) r l (D ++ O) p ->
  exists d' h' σ' res, Read_loop fuel fuel' d h σ n = Some (d', h', σ', res) /\
    match res with
    | Err x => x = Io EOF /\ p = [] /\ σ' = σe
    | Ok out => exists q, p = out ++ q /\
        (done d' = true /\ q = [] /\ supply fuel d' σ' [] σe (Io EOF) \/
         done d' = false /\ exists r' l', reader d' = Some r' /\ supply fuel d' σ' l' σe (Io EOF) /\
           (length l' <= length l)%nat /\ plan (size_at h w) r' l' (D ++ O ++ out) q)
    end.
Proof.
  revert d h σ l r p. induction fuel' as [| fuel' IH]; intros d h σ l r p Hm Ho Hr Hd Hsu Hf Hn Hf' Hpl; [lia |].
  cbn [Read_loop]. rewrite Hr. destruct Hpl as (rest & p1 & p2 & Hsv & -> & Hrest).
  destruct (call_serving fuel fuel _ d σ l σe (Io EOF) rest p1 Hsu ltac:(lia) (serves_call r n l rest p1 Hn Hsv))
    as (s & m & r1 & σ1 & out & err & l1 & -> & Hs1 & Hl1 & Hc). cbn [mbind option_bind].
  pose proof (keep_mid _ h w D O out (mid_source d h w D O s m (Some r1) Hm)) as Hk.
  destruct (keep _ h out) as [d2 h2].
  destruct Hk as (Hm2 & Hk2 & Hf2 & Hst & Hr2 & Hd2 & Hs2 & Hi2). cbn in Hst, Hr2, Hd2, Hs2, Hi2.
  assert (supply fuel d2 σ1 l1 σe (Io EOF)) as Hsu2.
  { unfold supply in *. cbn in Hs1. by rewrite Hst, Hs2, Hi2. }
  assert (length l1 <= length l)%nat as Hle by (destruct Hl1 as [[-> _] | ?]; lia).
  destruct err as [x |].
  2: { destruct Hc as (Hne & q1 & -> & Hsv1). destruct (Z.eqb_spec (len out) 0) as [Ez | _]; [by apply len_0_nil in Ez |].
    eexists _, _, _, _. split; [reflexivity |]. exists (q1 ++ p2). split; [by rewrite app_assoc |]. right.
    split; [congruence |]. exists r1, l1. split_and!; try done. exists rest, q1, p2. split_and!; try done.
    by rewrite <- !app_assoc in *. }
  destruct Hc as (-> & -> & ->). rewrite bool_decide_eq_true_2 by done.
  rewrite (supply_exhausted _ _ _ _ _ _ Hsu2). destruct Hrest as [[-> ->] | [Hne Hinf]].
  { rewrite bool_decide_eq_true_2 by done. rewrite app_nil_r.
    destruct (Z.eqb_spec (len p1) 0) as [Ez | Ez].
    - apply len_0_nil in Ez. destruct (finish d2 h2 true) as [d3 h3].
      eexists _, _, _, _. split; [reflexivity |]. split_and!; try done. by apply (supply_end fuel d2).
    - eexists _, _, _, _. split; [reflexivity |]. exists []. rewrite app_nil_r. split; [done |]. left.
      by split_and!. }
  rewrite bool_decide_eq_false_2 by (by intros [-> _]).
  assert (streaming d2 = false -> output d2 = O) as Ho2 by (intros; destruct Hf2 as (-> & _); apply Ho; congruence).
  pose proof (dict_mid d2 h2 w D O p1 Hm2 Ho2) as Hp. destruct (dict d2 h2 p1) as [[d3 h3] dct].
  destruct Hp as (Edct & Hm3 & Hk3 & Hf3 & Hst3 & Hr3 & Hd3 & Hs3 & Hi3). rewrite Hr3, Hr2.
  destruct (kept_trans _ _ _ _ Hk2 Hk3) as (_ & _ & _ & Hsz).
  pose proof (size_at_pos h w) as Hszp. destruct Hk2 as (_ & _ & _ & Hsz2). rewrite Hsz2 in Edct.
  rewrite app_assoc in Edct.
  assert (len dct <= windowSize) as Hdl by (rewrite Edct, len_lastn by lia; lia).
  pose proof (fun l rest p => serves_reset r1 dct l rest p Hdl) as Hsr. pose proof (fresh_reset r1 dct) as Hfre.
  assert ((ResetReader r1 dct).2 = None) as Hno.
  { rewrite <- Edct in Hinf. by inversion Hinf; subst; edestruct Hsr. }
  destruct (ResetReader r1 dct) as [r3 err]. cbn [fst snd] in *. subst err.
  assert (plan (size_at h w) r3 rest (D ++ O ++ p1) p2) as Hpl.
  { apply plan_start; [lia | by rewrite app_assoc |]. intros rest' p'. rewrite app_assoc, <- Edct.
    intros Hdf. by apply Hsr. }
  set (d4 := {| d3 with reader := Some r3 |}).
  assert (supply fuel d4 σ1 rest σe (Io EOF)) as Hs4.
  { unfold supply in *. cbn. by rewrite Hst3, Hs3, Hi3. }
  destruct (Z.eqb_spec (len p1) 0) as [Ez | Ez]; cbn [negb].
  - apply len_0_nil in Ez. subst p1. rewrite app_nil_r in *. cbn [app].
    assert (length rest < fuel')%nat as Hlt.
    { destruct Hf' as [[Hfr ?] | ?]; [| lia]. destruct Hl1 as [[-> Hmv] | ?]; [| lia].
      by destruct (fresh_call r n _ _ _ Hfr Hmv). }
    destruct (IH d4 h3 σ1 rest r3 p2) as (d5 & h5 & σ5 & res & E & Hp); try done.
    + by destruct Hm3.
    + intros Est. destruct Hf3 as (Hof & _). cbn. rewrite Hof. apply Ho2. cbn in Est. congruence.
    + cbn. congruence.
    + lia.
    + by left.
    + by rewrite Hsz.
    + rewrite Hsz in Hp. eexists _, _, _, _. split; [exact E |].
      destruct res as [out | x]; [| exact Hp]. destruct Hp as (q & -> & Hp). exists q. split; [done |].
      destruct Hp as [Hp | (Hp1 & r' & l' & Hp2 & Hp3 & Hp4 & Hp5)]; [by left | right].
      split; [done |]. exists r', l'. split_and!; try done. lia.
  - eexists _, _, _, _. split; [reflexivity |]. exists p2. split; [done |]. right.
    split; [cbn; congruence |]. by exists r3, rest.
Qed.
End message.
