(* ===== verification/Inflation.v ===== *)
(** * Whole messages through the decompressor

    [Decompress] always returns, within its limit, and leaves the window
    either with the message remembered or empty; on input the inflater can
    decode it returns exactly the message, and streaming with [Read] hands out
    the same bytes. *)

From stdpp Require Import prelude gmap.
From S2P Require Import Prelude Errors Encoder Bufpool Window Compressor Decompressor Stored Inflating.

Import Dz.

Section message.
Context {I : Inflater} {IO : InflaterOk I} {IS : InflaterSpec I} {G : Grow} `{!GrowOk G} {St : Type} {CS : ChunkSource St}.
Implicit Types (d : Decompressor) (σ : St) (h : windows) (w : option Z) (D O : list Z).

(** Between two reads of a message. *)
Definition ready (fuel : nat) d σ (l : list Z) (σe : St) (e : error) : Prop :=
  is_Some (reader d) /\ flow fuel d σ l σe e.

Lemma Read_post fuel d h w D O σ l σe e n :
  mid d h w D O -> (streaming d = false -> output d = O) -> ready fuel d σ l σe e ->
  (length l + 1 < fuel)%nat -> 0 <= n ->
  exists d' h' σ' res, Read fuel d h σ n = Some (d', h', σ', res) /\
    dz_read_post fuel d h w D O n l σe e d' h' σ' res.
Proof.
  intros Hm Ho [[r Hr] Hfl] Hf Hn. unfold Read. rewrite (mid_active _ _ _ _ _ Hm). cbn [negb].
  destruct (done d) eqn:Hd.
  - pose proof (dz_finish_ok d h w D O Hm Ho) as Hp. destruct (finish d h true) as [d' h'].
    destruct Hp as (Hp & Hk & Hfr & _). eexists _, _, _, _. split; [reflexivity |].
    split; [done |]. split; [done |]. by rewrite bool_decide_eq_true_2.
  - eapply Read_loop_post; try done. right. lia.
Qed.

(** *** Streaming *)

(** The caller of [Read], with buffers of whatever sizes, to [io.EOF]. *)
Fixpoint drain (fuel k : nat) (ns : nat -> Z) d h σ
    : option (Decompressor * windows * St * result (list Z)) :=
  match k with
  | O => None
  | S k =>
      '(d, h, σ, r) ← Read fuel d h σ (ns k);
      match r with
      | Err e => Some (d, h, σ, if bool_decide (e = Io EOF) then Ok [] else Err e)
      | Ok out =>
          '(d, h, σ, r) ← drain fuel k ns d h σ;
          Some (d, h, σ, match r with Ok outs => Ok (out ++ outs) | Err e => Err e end)
      end
  end.

(** What is left of a streamed message is [q]; [l] is what its source has. *)
Definition awaits d h w D O (l q : list Z) : Prop :=
  mid d h w D O /\ streaming d = true /\ is_Some (reader d) /\
  if done d then q = [] /\ l = [] else exists r, reader d = Some r /\ plan (size_at h w) r l (D ++ O) q.

(** One [Read]: a piece of it, or its end. *)
Lemma Read_awaits fuel d h w D O σ l σe q n :
  awaits d h w D O l q -> supply fuel d σ l σe (Io EOF) -> (length l + 1 < fuel)%nat -> 0 < n ->
  exists d' h' σ' res, Read fuel d h σ n = Some (d', h', σ', res) /\ kept_at w h h' /\ framed d d' /\
    match res with
    | Ok out => out <> [] /\ len out <= n /\ exists q' l', q = out ++ q' /\ awaits d' h' w D (O ++ out) l' q' /\
        supply fuel d' σ' l' σe (Io EOF) /\ (length l' <= length l)%nat
    | Err x => x = Io EOF /\ q = [] /\ σ' = σe /\ finished d' h' w D O
    end.
Proof.
  intros (Hm & Hst & Hr & Hpl) Hsu Hf Hn.
  destruct (Read_post fuel d h w D O σ l σe (Io EOF) n Hm ltac:(congruence) (conj Hr (or_introl Hsu)) Hf (Z.lt_le_incl _ _ Hn))
    as (d1 & h1 & σ1 & res & E & Hk1 & Hf1 & Hp). exists d1, h1, σ1, res. split; [done |]. split; [done |]. split; [done |].
  unfold Read in E. rewrite (mid_active _ _ _ _ _ Hm) in E. cbn [negb] in E. destruct (done d) eqn:Hd.
  { destruct Hpl as [-> ->]. destruct (finish d h true) as [d2 h2]. injection E as -> -> <- <-.
    rewrite bool_decide_eq_true_2 in Hp by done. split; [done |]. split; [done |].
    split; [by eapply supply_end | done]. }
  destruct Hpl as (r & Hrd & Hpl).
  destruct (Read_loop_plan fuel fuel d h w D O σ l σe r n q Hm ltac:(congruence) Hrd Hd Hsu Hf Hn ltac:(right; lia) Hpl)
    as (d1' & h1' & σ1' & res' & E' & Hq). rewrite E' in E. injection E as -> -> -> ->.
  destruct res as [out | x].
  - destruct Hp as (Hne & Hlo & Hm1 & Hst1 & Hr1 & _). destruct Hq as (q' & -> & Hq). split; [done |]. split; [done |].
    destruct Hk1 as (_ & _ & _ & Hsz). rewrite Hst in Hst1. unfold awaits.
    destruct Hq as [(-> & -> & Hs1) | (-> & r1 & l2 & Hr2 & Hs2 & Hl2 & Hpl2)].
    + exists [], []. split; [done |]. split; [done |]. split; [done |]. cbn. lia.
    + exists q', l2. split; [done |]. split; [| done]. split; [done |]. split; [done |]. split; [done |].
      exists r1. by rewrite Hsz.
  - destruct Hq as (-> & -> & ->). by rewrite bool_decide_eq_true_2 in Hp by done.
Qed.

Lemma drain_plan fuel k ns d h w D O σ l σe q :
  awaits d h w D O l q -> supply fuel d σ l σe (Io EOF) -> (length l + 1 < fuel)%nat ->
  (forall i, 0 < ns i) -> len q + 1 < Z.of_nat k ->
  exists d' h', drain fuel k ns d h σ = Some (d', h', σe, Ok q) /\ finished d' h' w D (O ++ q) /\ kept_at w h h'.
Proof.
  revert d h O σ l q. induction k as [| k IH]; intros d h O σ l q Haw Hsu Hf Hns Hk; [pose proof (len_nonneg q); lia |].
  cbn [drain].
  destruct (Read_awaits fuel d h w D O σ l σe q (ns k) Haw Hsu Hf (Hns k)) as (d1 & h1 & σ1 & res & -> & Hk1 & Hf1 & Hp).
  cbn [mbind option_bind]. destruct res as [out | x].
  - destruct Hp as (Hne & Hlo & q' & l' & -> & Haw' & Hsu' & Hl').
    assert (len out <> 0) by (by intros ->%len_0_nil). rewrite len_app in Hk. pose proof (len_nonneg out).
    destruct (IH d1 h1 (O ++ out) σ1 l' q' Haw' Hsu' ltac:(lia) Hns ltac:(lia)) as (d2 & h2 & -> & Hfin & Hk2).
    cbn [mbind option_bind]. eexists _, _. split; [reflexivity |]. rewrite app_assoc. split; [done |].
    by eapply kept_trans.
  - destruct Hp as (-> & -> & -> & Hfin). rewrite bool_decide_eq_true_2 by done. eexists _, _. split; [reflexivity |].
    by rewrite app_nil_r.
Qed.

(** A source gives what it gives. *)
Lemma feeds_det (σ σ1 σ2 : St) cs cs2 e1 e2 : feeds σ cs σ1 e1 -> feeds σ cs2 σ2 e2 -> cs = cs2 /\ σ1 = σ2.
Proof.
  intros H. revert cs2. induction H as [σ σ1 e1 E | σ τ c cs σ1 e1 E H IH]; intros cs2 H2;
    destruct H2 as [σ σ2 e2 E2 | σ τ2 c2 cs2 σ2 e2 E2 H2]; rewrite E in E2; injection E2; try done.
  intros; subst. by destruct (IH _ H2) as [-> ->].
Qed.

(** Started on a message the inflater can decode. *)
Lemma Begin_awaits d h w raw p :
  decompressor_ok d -> windows_ok (abandoned d h) -> pointer_ok (abandoned d h) w ->
  inflated (size_at (abandoned d h) w) (dict_at (abandoned d h) w) (raw ++ inflateTail) p ->
  exists d1, Begin d h w = (d1, abandoned d h, None) /\ decompressor_ok d1 /\
    awaits d1 (abandoned d h) w (dict_at (abandoned d h) w) [] (raw ++ inflateTail) p /\
    input d1 = mkMessageReader [] inflateTail false /\ done d1 = false.
Proof.
  intros Hok Hh Hp Hi. pose proof (begin_post d h true [] w Hok Hh Hp) as Hb. unfold Begin.
  pose proof (size_at_pos (abandoned d h) w). pose proof (dict_at_len (abandoned d h) w).
  destruct (begin d h true [] w) as [[d1 h1] [e |]].
  { destruct Hb as (_ & _ & _ & _ & _ & _ & _ & r & Hr).
    assert ((ResetReader r (dict_at (abandoned d h) w)).2 = None) as Hno; [| congruence].
    inversion Hi; subst; (eapply serves_reset; [| eassumption]); lia. }
  destruct Hb as (E1 & E2 & E3 & E4 & -> & Hmid & Hst & Hd & (r & Hr & _ & Hsv) & Hin).
  exists d1. split; [done |]. split; [unfold decompressor_ok; rewrite E1, E2; by destruct Hok as (_ & _ & ?) |].
  split; [| done]. split; [done |]. split; [done |]. split; [by exists r |]. rewrite Hd. exists r. split; [done |].
  assert (lastn (size_at (abandoned d h) w) (dict_at (abandoned d h) w) = dict_at (abandoned d h) w) as El
    by (apply lastn_all, dict_at_len).
  rewrite app_nil_r. apply plan_start; rewrite ?El; [lia | done |]. intros rest q. apply Hsv.
Qed.

(** C25. A message fed in any chunks and read with buffers of any sizes comes
    out as the same bytes [Decompress] would return, followed by [io.EOF], and
    leaves the window the same; the source has then been read to its end. *)
Theorem streaming_inflates fuel k ns d h w σ cs σe p :
  decompressor_ok d -> windows_ok (abandoned d h) -> pointer_ok (abandoned d h) w ->
  feeds σ cs σe (Io EOF) -> (length cs < fuel)%nat -> len (concat cs) + 11 < Z.of_nat fuel ->
  (forall i, 0 < ns i) -> len p + 1 < Z.of_nat k ->
  inflated (size_at (abandoned d h) w) (dict_at (abandoned d h) w) (concat cs ++ inflateTail) p ->
  let '(d1, h1, err) := Begin d h w in
  err = None /\
  exists d2 h2, drain fuel k ns d1 h1 σ = Some (d2, h2, σe, Ok p) /\ idle d2 /\ others w (abandoned d h) h2 /\
    (w <> None -> dict_at h2 w = lastn (size_at h2 w) (dict_at (abandoned d h) w ++ p)).
Proof.
  intros Hok Hh Hp Hfe Hlt Hf Hns Hk Hi. destruct (Begin_awaits d h w (concat cs) p Hok Hh Hp Hi) as (d1 & -> & _ & Haw & Hin & Hd).
  split; [done |]. pose proof Haw as (_ & Hst & _).
  destruct (drain_plan fuel k ns d1 _ w _ [] σ (concat cs ++ inflateTail) σe p Haw) as (d2 & h2 & E & [Hid Hw] & Ho & _ & _ & Hsz); try done.
  - unfold supply. rewrite Hst, Hin. cbn. split; [done |]. exists cs. by split_and!.
  - rewrite length_app. change (length inflateTail) with 9%nat. unfold len in Hf. lia.
  - exists d2, h2. by split_and!.
Qed.
End message.

(** ** [Decompress] *)

Section whole.
Context {I : Inflater} {IO : InflaterOk I} {G : Grow} `{!GrowOk G}.
Implicit Types (d : Decompressor) (h : windows) (w : option Z) (D O : list Z).

Lemma make_room_fields d :
  0 <= out_cap d - len (output d) ->
  exists c, make_room d = {| d with out_cap := c |} /\ len (output d) < c.
Proof.
  intros Hc. unfold make_room, grow. destruct (Z.eqb_spec (out_cap d) (len (output d))) as [E | E].
  - set (n := Z.max _ _). assert (32768 <= n) as Hn by (subst n; change (Z.shiftl 32 10) with 32768; lia).
    destruct (Z.leb_spec n (out_cap d - len (output d))); [lia |]. eexists. split; [reflexivity |].
    pose proof (get_cap_ge (len (output d) + n)). lia.
  - exists (out_cap d). split; [by destruct d | lia].
Qed.

(** Where the loop of [Decompress] is at the top. *)
Record looping (fuel : nat) d h w D (maxSize : Z) (l : list Z) : Prop := {
  lp_mid : mid d h w D (output d);
  lp_slice : streaming d = false;
  lp_done : done d = false;
  lp_ready : ready (St := unit) fuel d tt l tt (Io EOF);
  lp_ok : decompressor_ok d;
  lp_fuel : (length l + 1 < fuel)%nat;
  lp_max : len (output d) <= maxSize
}.

(** What [Decompress] promises, from the history [D]. *)
Definition outcome h w D (maxSize : Z) d' h' (r : result (list Z)) : Prop :=
  decompressor_ok d' /\ idle d' /\ kept_at w h h' /\
  match r with
  | Ok out => len out <= maxSize /\ (w <> None -> dict_at h' w = lastn (size_at h w) (D ++ out))
  | Err e => dict_at h' w = []
  end.

Lemma outcome_trans w h1 h D maxSize d' h' r :
  kept_at w h1 h -> outcome h w D maxSize d' h' r -> outcome h1 w D maxSize d' h' r.
Proof.
  intros Hk (H1 & H2 & H3 & H4). split_and!; try done; [by eapply kept_trans |].
  destruct Hk as (_ & _ & _ & Hs). destruct r; [by rewrite <- Hs | done].
Qed.

Lemma idle_finish d h ok : window d = None -> (finish d h ok).2 = h.
Proof. unfold finish. by intros ->. Qed.

Lemma finish_framed d h ok :
  let d' := (finish d h ok).1 in
  idle d' /\ output d' = output d /\ out_cap d' = out_cap d /\ scratch d' = scratch d.
Proof. by split_and!. Qed.

(** One turn of the loop: it ends as promised, or goes on with more output. *)
Lemma loop_turn fuel d h w D maxSize l :
  looping fuel d h w D maxSize l ->
  exists d1 h1 res, Read (St := unit) fuel (make_room d) h tt (room (make_room d) maxSize) = Some (d1, h1, tt, res) /\
    let d2 := {| d1 with output := output d1 ++ match res with Ok out => out | Err _ => [] end |} in
    kept_at w h h1 /\ decompressor_ok d2 /\
    match res with
    | Ok out =>
        out <> [] /\ output d2 = output d ++ out /\ len (output d2) <= maxSize + 1 /\
        mid d2 h1 w D (output d2) /\ streaming d2 = false /\
        exists l', ready (St := unit) fuel d2 tt l' tt (Io EOF) /\ (length l' <= length l)%nat
    | Err x => output d2 = output d /\ idle d2 /\
        if bool_decide (x = Io EOF) then w <> None -> dict_at h1 w = lastn (size_at h1 w) (D ++ output d2)
        else dict_at h1 w = []
    end.
Proof.
  intros [Hm Hst Hd Hrd (Hs1 & Hs2 & Hcap) Hf Hmax].
  destruct (make_room_fields d ltac:(lia)) as (c & Em & Hc).
  assert (mid (make_room d) h w D (output d)) as Hm' by (rewrite Em; destruct Hm; by constructor).
  set (n := room (make_room d) maxSize).
  assert (0 < n <= c - len (output d) /\ len (output d) + n <= maxSize + 1) as [Hn Hnm].
  { subst n. rewrite Em. unfold room. dz_simpl. destruct (Z.ltb_spec (maxSize - len (output d)) (c - len (output d))); lia. }
  destruct (Read_post (St := unit) fuel (make_room d) h w D (output d) tt l tt (Io EOF) n Hm')
    as (d1 & h1 & [] & res & E & Hk & (F1 & F2 & _ & F4 & F5) & Hp); [by rewrite Em | by rewrite Em | done | lia |].
  exists d1, h1, res. split; [exact E |]. cbv zeta. split; [done |].
  rewrite Em in F1, F2, F4, F5. cbn in F1, F2, F4, F5. destruct res as [out | x]; dz_simpl; rewrite F1.
  - destruct Hp as (Hne & Hlo & Hm1 & Hst1 & Hr1 & l' & Hfl & Hl').
    rewrite Em in Hst1. cbn in Hst1. split.
    { split_and!; dz_simpl; [by apply F4 | congruence |]. rewrite F2, len_app. lia. }
    split; [done |]. split; [done |]. split; [rewrite len_app; lia |]. split; [destruct Hm1; by constructor |].
    split; [congruence |]. exists l'. split; [| done]. by split.
  - rewrite app_nil_r. split.
    { split_and!; dz_simpl; [by apply F4 | congruence |]. lia. }
    split; [done |]. destruct (bool_decide (x = Io EOF)); destruct Hp as [Hi Hp]; by split.
Qed.

(** Ending on the last byte or at [io.EOF]. *)
Lemma end_outcome d2 h1 h w D maxSize :
  kept_at w h h1 -> decompressor_ok d2 -> len (output d2) <= maxSize ->
  mid d2 h1 w D (output d2) \/
    idle d2 /\ (w <> None -> dict_at h1 w = lastn (size_at h1 w) (D ++ output d2)) ->
  let '(d3, h3) := finish d2 h1 true in outcome h w D maxSize d3 h3 (Ok (output d3)) /\ output d3 = output d2.
Proof.
  intros Hk (Ho1 & Ho2 & Ho3) Hl Hm. destruct (finish_framed d2 h1 true) as (Hi & E1 & E2 & E3).
  assert (kept_at w h1 (finish d2 h1 true).2 /\
    (w <> None -> dict_at (finish d2 h1 true).2 w = lastn (size_at h1 w) (D ++ output d2))) as [Hk' Hd].
  { destruct Hm as [Hm | [Hid Hd]].
    - pose proof (dz_finish_ok d2 h1 w D (output d2) Hm ltac:(done)) as Hp. destruct (finish d2 h1 true) as [d3 h3].
      destruct Hp as ([_ Hp] & Hk' & _). split; [done |]. destruct Hk' as (_ & _ & _ & <-). done.
    - rewrite idle_finish by apply Hid. split; [apply kept_refl | done]. }
  destruct (finish d2 h1 true) as [d3 h3]. cbn [fst snd] in *. split; [| done].
  split; [split_and!; [by rewrite E3 | by rewrite E3 | by rewrite E1, E2] |]. split; [done |].
  split; [by eapply kept_trans |]. rewrite E1. split; [done |].
  destruct Hk as (_ & _ & _ & Hs). by rewrite <- Hs.
Qed.

Lemma too_large_outcome d2 h1 h w D maxSize e :
  kept_at w h h1 -> decompressor_ok d2 -> window d2 = w ->
  let '(d3, h3) := finish d2 h1 false in outcome h w D maxSize d3 h3 (Err e).
Proof.
  intros Hk Ho Hw. pose proof (finish_cleared d2 h1 w Hw) as Hp. destruct (finish_framed d2 h1 false) as (Hi & E1 & E2 & E3).
  destruct (finish d2 h1 false) as [d3 h3]. cbn [fst] in *. destruct Hp as ([_ Hc] & Hk' & _).
  destruct Ho as (Ho1 & Ho2 & Ho3). split; [split_and!; [by rewrite E3 | by rewrite E3 | by rewrite E1, E2] |].
  split_and!; try done. by eapply kept_trans.
Qed.

Lemma Decompress_loop_post fuel fuel' d h w D maxSize l :
  looping fuel d h w D maxSize l -> maxSize - len (output d) + 1 < Z.of_nat fuel' ->
  exists d' h' r, Decompress_loop fuel fuel' d h maxSize = Some (d', h', r) /\ outcome h w D maxSize d' h' r.
Proof.
  revert d h l. induction fuel' as [| fuel' IH]; intros d h l Hlp Hf'; [pose proof (lp_max _ _ _ _ _ _ _ Hlp); lia |].
  cbn [Decompress_loop].
  destruct (loop_turn fuel d h w D maxSize l Hlp) as (d1 & h1 & res & -> & Hk & Hok & H). cbn [mbind option_bind].
  set (d2 := {| d1 with output := _ |}) in *. destruct (Z.ltb_spec maxSize (len (output d2))) as [Hbig | Hfit].
  { destruct res as [out | x]; [| destruct H as (Eo & _); rewrite Eo in Hbig; pose proof (lp_max _ _ _ _ _ _ _ Hlp); lia].
    destruct H as (_ & _ & _ & Hm2 & _).
    pose proof (too_large_outcome d2 h1 h w D maxSize (Deflate ErrMessageTooLarge') Hk Hok (mid_window _ _ _ _ _ Hm2)) as Hp.
    destruct (finish d2 h1 false) as [d3 h3]. by eexists _, _, _. }
  destruct res as [out | x].
  - destruct H as (Hne & Eo & Hlen & Hm2 & Hst & l' & Hrd & Hl'). rewrite bool_decide_eq_false_2 by done. cbn [orb].
    destruct (done d2) eqn:Hd.
    + pose proof (end_outcome d2 h1 h w D maxSize Hk Hok Hfit (or_introl Hm2)) as Hp.
      destruct (finish d2 h1 true) as [d3 h3]. eexists _, _, _. split; [reflexivity |]. apply Hp.
    + destruct (IH d2 h1 l') as (d' & h' & r & E & Hp).
      * pose proof (lp_fuel _ _ _ _ _ _ _ Hlp). constructor; try done. lia.
      * assert (len out <> 0) by (by intros ->%len_0_nil). rewrite Eo, len_app. pose proof (len_nonneg out). lia.
      * eexists _, _, _. split; [exact E |]. by eapply outcome_trans.
  - destruct H as (Eo & Hi & H). destruct (decide (x = Io EOF)) as [-> | Hx].
    + rewrite (bool_decide_eq_true_2 (Err _ = _)) by done. cbn [orb]. rewrite bool_decide_eq_true_2 in H by done.
      pose proof (end_outcome d2 h1 h w D maxSize Hk Hok Hfit (or_intror (conj Hi H))) as Hp.
      destruct (finish d2 h1 true) as [d3 h3]. eexists _, _, _. split; [reflexivity |]. apply Hp.
    + rewrite (bool_decide_eq_false_2 (Err _ = _)) by congruence. cbn [orb].
      rewrite bool_decide_eq_false_2 in H by done. assert (done d2 = false) as -> by apply Hi.
      eexists _, _, _. split; [reflexivity |]. by split_and!.
Qed.

Lemma lim_app_le (l k : list Z) n : len l <= n -> bool_decide (len (l ++ k) <= n) = bool_decide (len k <= n - len l).
Proof. intros. apply bool_decide_ext. rewrite len_app. lia. Qed.

Lemma Decompress_loop_plan {IS : InflaterSpec I} fuel fuel' d h w D maxSize l r p :
  looping fuel d h w D maxSize l -> maxSize - len (output d) + 1 < Z.of_nat fuel' ->
  reader d = Some r -> supply (St := unit) fuel d tt l tt (Io EOF) -> plan (size_at h w) r l (D ++ output d) p ->
  exists d' h', Decompress_loop fuel fuel' d h maxSize
    = Some (d', h', if bool_decide (len (output d ++ p) <= maxSize) then Ok (output d ++ p)
                    else Err (Deflate ErrMessageTooLarge')).
Proof.
  revert d h l r p. induction fuel' as [| fuel' IH]; intros d h l r p Hlp Hf' Hr Hsu Hpl;
    [pose proof (lp_max _ _ _ _ _ _ _ Hlp); lia |].
  cbn [Decompress_loop].
  destruct (loop_turn fuel d h w D maxSize l Hlp) as (d1 & h1 & res & E & Hk & Hok & H).
  rewrite E. cbn [mbind option_bind].
  destruct Hlp as [Hm Hst Hd Hrd (Hs1 & Hs2 & Hcap) Hf Hmax].
  destruct (make_room_fields d ltac:(lia)) as (c & Em & Hc).
  assert (mid (make_room d) h w D (output d)) as Hm' by (rewrite Em; destruct Hm; by constructor).
  set (n := room (make_room d) maxSize) in *.
  assert (0 < n) as Hn.
  { subst n. rewrite Em. unfold room. dz_simpl. destruct (Z.ltb_spec (maxSize - len (output d)) (c - len (output d))); lia. }
  destruct (Read_loop_plan (St := unit) fuel fuel (make_room d) h w D (output d) tt l tt r n p Hm')
    as (d1' & h1' & [] & res' & E' & Hp); try (rewrite Em; done); try done; [right; lia |].
  assert (Read (St := unit) fuel (make_room d) h tt n = Some (d1', h1', tt, res')) as E2.
  { unfold Read. rewrite (mid_active _ _ _ _ _ Hm').
    assert (done (make_room d) = false) as -> by (by rewrite Em). exact E'. }
  rewrite E in E2. injection E2 as <- <- <-. set (d2 := {| d1 with output := _ |}) in *.
  destruct res as [out | x].
  - destruct H as (Hne & Eo & Hlen & Hm2 & Hst2 & l2 & Hrd2 & Hl2). destruct Hp as (q & -> & Hp).
    rewrite app_assoc, <- Eo. destruct (Z.ltb_spec maxSize (len (output d2))) as [Hbig | Hfit].
    { destruct (finish d2 h1 false) as [d3 h3]. eexists _, _. rewrite bool_decide_eq_false_2; [reflexivity |].
      rewrite len_app. pose proof (len_nonneg q). lia. }
    rewrite (bool_decide_eq_false_2 (Ok _ = _)) by done. cbn [orb].
    destruct Hp as [(Hd1 & -> & _) | (Hd1 & r' & l' & Hr' & Hsu' & Hl' & Hpl')].
    + assert (done d2 = true) as -> by done.
      destruct (finish_framed d2 h1 true) as (_ & Eo3 & _). destruct (finish d2 h1 true) as [d3 h3]. cbn [fst] in Eo3.
      eexists _, _. rewrite app_nil_r, bool_decide_eq_true_2 by done. by rewrite Eo3.
    + assert (done d2 = false) as -> by done.
      destruct Hk as (Hk1 & Hk2 & Hk3 & Hk4).
      apply (IH d2 h1 l' r' q); [constructor; try done | | done | done | by rewrite Hk4, Eo].
      * split; [by exists r' | by left].
      * lia.
      * assert (len out <> 0) by (by intros ->%len_0_nil). rewrite Eo, len_app. pose proof (len_nonneg out). lia.
  - destruct H as (Eo & _). destruct Hp as (-> & -> & _). rewrite app_nil_r.
    destruct (Z.ltb_spec maxSize (len (output d2))) as [Hbig | Hfit]; [rewrite Eo in Hbig; lia |].
    rewrite (bool_decide_eq_true_2 (Err _ = _)) by done. cbn [orb].
    destruct (finish_framed d2 h1 true) as (_ & Eo3 & _). destruct (finish d2 h1 true) as [d3 h3]. cbn [fst] in Eo3.
    eexists _, _. rewrite bool_decide_eq_true_2 by done. by rewrite Eo3, Eo.
Qed.

(** The loop's start. *)
Lemma Decompress_start fuel d h pay maxSize w :
  decompressor_ok d -> windows_ok (abandoned d h) -> pointer_ok (abandoned d h) w -> 0 <= maxSize ->
  len pay + 11 < Z.of_nat fuel ->
  (exists d1 h1 e, Decompress fuel d h pay maxSize w = Some (d1, h1, Err e) /\ e <> Io EOF /\
     outcome (abandoned d h) w (dict_at (abandoned d h) w) maxSize d1 h1 (Err e) /\
     exists r, (ResetReader r (dict_at (abandoned d h) w)).2 = Some e) \/
  (exists d1 r, let h0 := abandoned d h in
     Decompress fuel d h pay maxSize w = Decompress_loop fuel fuel d1 h0 maxSize /\
     looping fuel d1 h0 w (dict_at h0 w) maxSize (pay ++ inflateTail) /\ output d1 = [] /\
     reader d1 = Some r /\ supply (St := unit) fuel d1 tt (pay ++ inflateTail) tt (Io EOF) /\
     forall (IS : InflaterSpec I) l rest p, deflates (dict_at h0 w) l rest p -> serves r l rest p).
Proof.
  intros Hok Hh Hp Hm Hf. pose proof (begin_post d h false pay w Hok Hh Hp) as Hb. unfold Decompress.
  destruct (Z.ltb_spec maxSize 0); [lia |]. destruct (begin d h false pay w) as [[d1 h1] [e |]].
  - destruct Hb as (E1 & E2 & E3 & E4 & He & [Hid Hcl] & Hk & Hr). left. exists d1, h1, e. split; [done |]. split; [done |].
    split; [| done]. split; [| by split_and!]. destruct Hok as (_ & _ & Hok). split_and!; try done. by rewrite E1, E2.
  - destruct Hb as (E1 & E2 & E3 & E4 & -> & Hmid & Hst & Hd & (r & Hr & _ & Hsv) & Hsl). right.
    set (d2 := {| d1 with output := [] |}). set (d3 := if out_cap d2 <? _ then _ else d2).
    assert (exists c, d3 = {| d1 with output := []; out_cap := c |} /\ 0 <= c) as (c & Ed3 & Hc).
    { destruct Hok as (_ & _ & Hok). pose proof (len_nonneg (output d)). subst d3 d2. dz_simpl.
      set (hint := Z.min _ _). destruct (Z.ltb_spec (out_cap d1) hint).
      - eexists. split; [reflexivity |]. pose proof (get_cap_ge hint). lia.
      - exists (out_cap d1). split; [done | lia]. }
    clearbody d3. clear d2. subst d3. eexists _, r. split; [reflexivity |].
    assert (supply (St := unit) fuel {| d1 with output := []; out_cap := c |} tt (pay ++ inflateTail) tt (Io EOF)) as Hsu.
    { unfold supply. dz_simpl. by rewrite Hst. }
    split; [| by split_and!]. constructor; try done.
    + destruct Hmid. by constructor.
    + split; [by exists r | by left].
    + rewrite length_app. change (length inflateTail) with 9%nat. unfold len in Hf. lia.
Qed.

Lemma Decompress_outcome fuel d h pay maxSize w :
  decompressor_ok d -> windows_ok (abandoned d h) -> pointer_ok (abandoned d h) w -> 0 <= maxSize ->
  len pay + maxSize + 11 < Z.of_nat fuel ->
  exists d' h' r, Decompress fuel d h pay maxSize w = Some (d', h', r) /\
    outcome (abandoned d h) w (dict_at (abandoned d h) w) maxSize d' h' r.
Proof.
  intros Hok Hh Hp Hm Hf. pose proof (len_nonneg pay).
  destruct (Decompress_start fuel d h pay maxSize w Hok Hh Hp Hm ltac:(lia))
    as [(d1 & h1 & e & -> & _ & Ho & _) | (d1 & r & -> & Hlp & Eo & _)]; [by exists d1, h1, (Err e) |].
  apply (Decompress_loop_post fuel fuel _ _ _ _ _ _ Hlp). rewrite Eo, len_nil. lia.
Qed.

Lemma Decompress_decodes {IS : InflaterSpec I} fuel d h pay maxSize w p :
  decompressor_ok d -> windows_ok (abandoned d h) -> pointer_ok (abandoned d h) w -> 0 <= maxSize ->
  len pay + maxSize + 11 < Z.of_nat fuel ->
  inflated (size_at (abandoned d h) w) (dict_at (abandoned d h) w) (pay ++ inflateTail) p ->
  exists d' h', Decompress fuel d h pay maxSize w
    = Some (d', h', if bool_decide (len p <= maxSize) then Ok p else Err (Deflate ErrMessageTooLarge')).
Proof.
  intros Hok Hh Hp Hm Hf Hi. pose proof (len_nonneg pay). pose proof (size_at_pos (abandoned d h) w).
  pose proof (dict_at_len (abandoned d h) w).
  destruct (Decompress_start fuel d h pay maxSize w Hok Hh Hp Hm ltac:(lia))
    as [(d1 & h1 & e & _ & _ & _ & r & Hr) | (d1 & r & -> & Hlp & Eo & Hr & Hsu & Hsv)].
  { assert ((ResetReader r (dict_at (abandoned d h) w)).2 = None) as Hno; [| congruence].
    inversion Hi; subst; (eapply serves_reset; [| eassumption]); lia. }
  assert (lastn (size_at (abandoned d h) w) (dict_at (abandoned d h) w) = dict_at (abandoned d h) w) as El
    by (apply lastn_all, dict_at_len).
  destruct (Decompress_loop_plan fuel fuel d1 _ w _ maxSize _ r p Hlp) as (d' & h' & E); try done.
  - rewrite Eo, len_nil. lia.
  - rewrite Eo, app_nil_r. apply plan_start; rewrite ?El; [lia | done |]. intros rest q. apply Hsv.
  - rewrite Eo in E. eauto.
Qed.

(** ** Properties *)

(** C23. Whatever the compressed bytes are, and whatever inflater keeps the
    reader contract, for a limit that is not negative [Decompress] returns; a result never exceeds [maxSize],
    and is then exactly what the window has gained; after any error the window
    is empty; no other window is touched, and the decompressor is free for the
    next message, a message it was in the middle of being abandoned with its
    window cleared. *)
Theorem Decompress_contract fuel d h pay maxSize w :
  decompressor_ok d -> windows_ok (abandoned d h) -> pointer_ok (abandoned d h) w -> 0 <= maxSize ->
  len pay + maxSize + 11 < Z.of_nat fuel ->
  exists d' h' r, Decompress fuel d h pay maxSize w = Some (d', h', r) /\
    decompressor_ok d' /\ idle d' /\ others w (abandoned d h) h' /\
    match r with
    | Ok out => len out <= maxSize /\
        (w <> None -> dict_at h' w = lastn (size_at h' w) (dict_at (abandoned d h) w ++ out))
    | Err _ => dict_at h' w = []
    end.
Proof.
  intros Hok Hh Hp Hm Hf.
  destruct (Decompress_outcome fuel d h pay maxSize w Hok Hh Hp Hm Hf) as (d' & h' & r & E & H1 & H2 & (H3 & _ & _ & H3') & H4).
  exists d', h', r. split_and!; try done. destruct r; [by rewrite H3' | done].
Qed.

(** C24. On input the inflater can decode, as one DEFLATE stream or several,
    [Decompress] returns exactly the message when it is within [maxSize] and
    [ErrMessageTooLarge] when it is not, from the window's history. *)
Theorem Decompress_inflates {IS : InflaterSpec I} fuel d h pay maxSize w p :
  decompressor_ok d -> windows_ok (abandoned d h) -> pointer_ok (abandoned d h) w -> 0 <= maxSize ->
  len pay + maxSize + 11 < Z.of_nat fuel ->
  inflated (size_at (abandoned d h) w) (dict_at (abandoned d h) w) (pay ++ inflateTail) p ->
  exists d' h', Decompress fuel d h pay maxSize w
    = Some (d', h', if bool_decide (len p <= maxSize) then Ok p else Err (Deflate ErrMessageTooLarge')).
Proof. apply Decompress_decodes. Qed.
End whole.

(** ** A message in stored blocks, for the witnesses *)

#[local] Existing Instance double_growth.
#[local] Existing Instance double_growth_ok.

(** "Hi" as a sender would flush it, the sync marker stripped. *)
Definition demo_payload : list Z := block false [72; 105] ++ [0].

Definition demo_windows : windows := {[ 0 := Window_new 9 ]}.

Lemma demo_inflated h : inflated 512 h (demo_payload ++ inflateTail) [72; 105].
Proof.
  apply inflated_last. change (stream (block false [72; 105] ++ (block false [] ++ (block true [] ++ []))) [] ([72; 105] ++ [] ++ [])).
  apply stream_block; [done |]. apply stream_block; [done |]. by apply (stream_final []).
Qed.

Lemma demo_windows_ok : windows_ok demo_windows.
Proof. unfold demo_windows. intros i x [_ <-]%lookup_singleton_Some. done. Qed.

Lemma demo_decompressor_ok : decompressor_ok Dz.zero.
Proof. by split_and!. Qed.

Lemma Decompress_contract_witness :
  exists d' h' r, Decompress 200 Dz.zero demo_windows [1; 2; 3] 100 (Some 0) = Some (d', h', r) /\
    match r with Ok out => len out <= 100 | Err _ => dict_at h' (Some 0) = [] end.
Proof.
  destruct (Decompress_contract 200 Dz.zero demo_windows [1; 2; 3] 100 (Some 0) demo_decompressor_ok demo_windows_ok)
    as (d' & h' & r & E & _ & _ & _ & H); [by eexists | done | done |].
  exists d', h', r. split; [exact E |]. destruct r; [exact (proj1 H) | exact H].
Defined.

Lemma Decompress_inflates_witness :
  exists d' h', Decompress 200 Dz.zero demo_windows demo_payload 100 (Some 0) = Some (d', h', Ok [72; 105]).
Proof.
  destruct (Decompress_inflates 200 Dz.zero demo_windows demo_payload 100 (Some 0) [72; 105] demo_decompressor_ok demo_windows_ok)
    as (d' & h' & E); [by eexists | done | done | apply demo_inflated |].
  exists d', h'. exact E.
Defined.

(** A source of two chunks. *)
#[local] Instance list_source : ChunkSource (list (list Z)) :=
  fun cs => Some (match cs with [] => ([], Err (Io EOF)) | c :: cs => (cs, Ok c) end).

Lemma streaming_inflates_witness :
  let '(d1, h1, err) := Begin Dz.zero demo_windows (Some 0) in
  err = None /\
  exists d2 h2, drain 100 5 (fun _ => 1) d1 h1 [upto demo_payload 3; from demo_payload 3] = Some (d2, h2, [], Ok [72; 105]).
Proof.
  pose proof (streaming_inflates 100 5 (fun _ => 1) Dz.zero demo_windows (Some 0)
    [upto demo_payload 3; from demo_payload 3] [upto demo_payload 3; from demo_payload 3] [] [72; 105]
    demo_decompressor_ok demo_windows_ok ltac:(by eexists)) as H.
  destruct (Begin Dz.zero demo_windows (Some 0)) as [[d1 h1] err].
  destruct H as (H1 & d2 & h2 & E & _); [| cbn; lia | done | done | done | apply demo_inflated | split; [exact H1 | by exists d2, h2]].
  eapply feeds_chunk; [reflexivity |]. eapply feeds_chunk; [reflexivity |]. by apply feeds_end.
Defined.
