(* ===== verification/Queue.v ===== *)
(** * The transport and the send queue (ws/queue.go, and write of ws/conn_write.go)

    The transport's [Write] is not ours: [Transport] says what its i-th call
    does with some bytes, and [TransportOk] is the [io.Writer] contract.  A
    vectored write ([net.Buffers.WriteTo]) is one call with the concatenation.

    The queue is guarded by its own lock: each definition is one critical
    section, or one transport write of the writer goroutine. *)

From stdpp Require Import prelude.
From S2P Require Import Prelude Errors Header Encoder Sender Bufpool.

Class Transport := tw : Z -> list Z -> Z * option error.

Class TransportOk (T : Transport) : Prop := {
  tw_range i p : 0 <= (tw i p).1 <= len p;
  tw_short i p : (tw i p).1 < len p -> (tw i p).2 <> None
}.

(** Bytes accepted so far, and calls made. *)
Record net := Net { written : list Z; calls : Z }.

Definition net_write `{Transport} (o : net) (p : list Z) : net * option error :=
  let '(n, e) := tw (calls o) p in
  ({| written := written o ++ upto p n; calls := calls o + 1 |}, e).

(** ** The queue *)

(** A queued frame: a range of the arena, or shared bytes. *)
Inductive segment :=
  | Range (start_ end_ : Z)
  | Ext (bytes : list Z).

(** [acap] is the capacity, [alarge] whether it is size-class storage. *)
Record arena := mkArena { ab : list Z; acap : Z; alarge : bool }.

Record Queue := mkQueue {
  limit : Z;
  cur : option arena;
  segments : list segment;
  size : Z;
  running : bool;
  qerr : option error;
  enqueued : Z;
  qwritten : Z;
  flushing : option arena;
  flushSegments : list segment
}.

Definition coalesceLimit : Z := Z.shiftl 16 10.

(** A fresh arena, when the pool is empty. *)
Definition arena_new : arena := {| ab := []; acap := Z.shiftl 4 10; alarge := false |}.

Module Qu.

(** The new queue of [NewQueue]. *)
Definition new (lim : Z) : Queue :=
  {| limit := if lim <=? 0 then Z.shiftl 1 20 else lim; cur := None; segments := []; size := 0;
     running := false; qerr := None; enqueued := 0; qwritten := 0; flushing := None;
     flushSegments := [] |}.

(** [NewQueue] on a connection that has one. *)
Definition adjust (q : Queue) (lim : Z) : Queue :=
  if 0 <? lim then {| q with limit := lim |} else q.

Definition Err (q : Queue) : option error := qerr q.
Definition Pending (q : Queue) : Z := size q.

Definition reserve (q : Queue) (n : Z) : option error :=
  match qerr q with
  | Some e => Some e
  | None => if negb (size q =? 0) && (limit q <? size q + n) then Some (Ws ErrQueueFull) else None
  end.

Section ops.
Context `{Transport} `{Grow}.

(** A nil [ext] is [None].  [pooled] is the arena the pool hands out. *)
Definition enqueue (q : Queue) (pooled : arena) (header body : list Z) (ext : option (list Z))
    : Queue * result Z :=
  match qerr q with
  | Some e => (q, Errors.Err e)
  | None =>
      let n := len header + len body + len (default [] ext) in
      let q :=
        match ext with
        | Some x => {| q with segments := segments q ++ [Ext x] |}
        | None =>
            let a := default pooled (cur q) in
            let start := len (ab a) in
            let need := start + n in
            let a := if (acap a <? need) && (poolKeep <? need)
                     then {| ab := ab a; acap := get_cap need; alarge := true |} else a in
            let b := ab a ++ header ++ body in
            let a := {| a with ab := b; acap := if len b <=? acap a then acap a else growcap (acap a) (len b) |} in
            {| q with cur := Some a; segments := segments q ++ [Range start (len b)] |}
        end in
      let q := {| q with size := size q + n; enqueued := u64 (enqueued q + 1) |} in
      let q := if negb (running q) then {| q with running := true |} else q in
      (q, Ok (enqueued q))
  end.

(** [waitLocked]: whether the waiter for frame [seq] may return, and with what. *)
Definition waitLocked (q : Queue) (seq : Z) : option (option error) :=
  if (qwritten q <? seq) && bool_decide (qerr q = None) then None else Some (qerr q).

(** *** The writer goroutine: [run] is [take], [flush], [finish], repeated *)

(** The head of the loop: [None] when it exits. *)
Definition take (q : Queue) : Queue * bool :=
  if bool_decide (segments q = []) || negb (bool_decide (qerr q = None))
  then ({| q with running := false |}, false)
  else
    ({| q with cur := None; flushing := cur q; segments := []; flushSegments := segments q;
               size := 0 |}, true).

(** The bytes of a segment. *)
Definition frame_of (a : option arena) (s : segment) : list Z :=
  match s with
  | Ext x => x
  | Range i j => slice (default [] (ab <$> a)) i j
  end.

(** One write with all the frames: a plain write for one frame, a writev on a
    socket, one coalesced buffer elsewhere. *)
Definition flush (q : Queue) (vectored : bool) (o : net) : net * option error :=
  match flushSegments q with
  | [s] => net_write o (frame_of (flushing q) s)
  | ss =>
      if vectored then net_write o (concat (frame_of (flushing q) <$> ss))
      else
        let out := fold_left (fun out s => out ++ frame_of (flushing q) s) ss [] in
        net_write o out
  end.

Definition finish (q : Queue) (err : option error) : Queue :=
  let q := {| q with qwritten := u64 (qwritten q + len (flushSegments q)); flushSegments := [];
                     flushing := None |} in
  match err with
  | None => q
  | Some e => {| q with qerr := Some e; segments := []; size := 0; running := false |}
  end.

End ops.
End Qu.

Import Qu.

(** ** The queue as a transition system

    Producers call [enqueue] under the connection's write lock; the writer
    goroutine goes round [take], [flush], [finish]; pings, pongs and other
    direct writes reach the transport between flushes.  Any interleaving of
    these steps is possible. *)

Inductive phase := NoWriter | AtTop | Writing | Wrote (err : option error).

(** The last three fields are for reasoning only: every frame ever queued,
    what the transport has taken (the flag marks queued frames), and whether
    any transport write has failed. *)
Record sys := mkSys {
  sq : Queue;
  so : net;
  sph : phase;
  frames : list (list Z);
  log : list (bool * list Z);
  broken : bool
}.

Definition initial (lim : Z) (o : net) : sys :=
  {| sq := new lim; so := o; sph := NoWriter; frames := []; log := []; broken := false |}.

Section system.
Context {T : Transport} `{!TransportOk T} {G : Grow} (vectored : bool) (pooled : arena).
Context (Hpooled : ab pooled = []).

Inductive qstep (s : sys) : sys -> Prop :=
  | q_enqueue header body ext q' seq :
      enqueue (sq s) pooled header body ext = (q', Ok seq) ->
      qstep s {| s with sq := q';
                 sph := if running (sq s) then sph s else AtTop;
                 frames := frames s ++ [default (header ++ body) ext] |}
  | q_take q' :
      sph s = AtTop -> take (sq s) = (q', true) -> qstep s {| s with sq := q'; sph := Writing |}
  | q_exit q' :
      sph s = AtTop -> take (sq s) = (q', false) -> qstep s {| s with sq := q'; sph := NoWriter |}
  | q_flush o' err :
      sph s = Writing -> flush (sq s) vectored (so s) = (o', err) ->
      qstep s {| s with so := o'; sph := Wrote err;
                 log := log s ++ (if err is None
                                  then (fun x => (true, frame_of (flushing (sq s)) x)) <$> flushSegments (sq s)
                                  else []);
                 broken := broken s || (if err is None then false else true) |}
  | q_finish err :
      sph s = Wrote err ->
      qstep s {| s with sq := finish (sq s) err; sph := if err is None then AtTop else NoWriter |}
  | q_direct p o' err :
      net_write (so s) p = (o', err) ->
      qstep s {| s with so := o'; log := log s ++ (if err is None then [(false, p)] else []);
                 broken := broken s || (if err is None then false else true) |}.

(** The frames in the writer's hands and those still waiting. *)
Definition in_flight (s : sys) : list (list Z) := frame_of (flushing (sq s)) <$> flushSegments (sq s).
Definition waiting (s : sys) : list (list Z) := frame_of (cur (sq s)) <$> segments (sq s).

Definition queued_log (s : sys) : list (list Z) := snd <$> filter (fun x => x.1 = true) (log s).

(** The segments in range of their arena. *)
Definition range_ok (a : option arena) (x : segment) : Prop :=
  match x with Range i j => 0 <= i <= j /\ j <= len (default [] (ab <$> a)) | Ext _ => True end.

Record sys_ok (s : sys) : Prop := {
  so_run : running (sq s) = false <-> sph s = NoWriter;
  so_count : enqueued (sq s) = u64 (len (frames s));
  so_ranges : Forall (range_ok (cur (sq s))) (segments (sq s));
  so_flight : match sph s with NoWriter | AtTop => flushSegments (sq s) = [] | _ => True end;
  so_bytes : broken s = false -> written (so s) = concat (snd <$> log s);
  so_order :
    broken s = false ->
    frames s = queued_log s ++ (if sph s is Wrote _ then [] else in_flight s) ++ waiting s /\
    qwritten (sq s) = u64 (len (queued_log s) - if sph s is Wrote _ then len (flushSegments (sq s)) else 0);
  so_sum :
    broken s = false -> (if sph s is Wrote _ then len (flushSegments (sq s)) else 0) <= len (queued_log s);
  so_err : qerr (sq s) <> None -> broken s = true;
  so_wrote : match sph s with Wrote (Some _) => broken s = true | _ => True end
}.

Lemma frame_of_cur a x y c l :
  range_ok (Some a) x -> frame_of (Some {| ab := ab a ++ y; acap := c; alarge := l |}) x = frame_of (Some a) x.
Proof. destruct x as [i j |]; [| done]. intros [Hi Hj]. apply slice_app_l; [exact Hj | apply Hi]. Qed.

Lemma net_write_ok o p o' :
  net_write o p = (o', None) -> written o' = written o ++ p.
Proof.
  unfold net_write. pose proof (tw_short (calls o) p) as Hs. pose proof (tw_range (calls o) p) as Hr.
  destruct (tw (calls o) p) as [n e]. cbn in *. intros [= <- ->]. cbn. f_equal. apply upto_all.
  destruct (decide (n < len p)); [by destruct Hs | lia].
Qed.

Lemma flush_ok q o o' :
  flush q vectored o = (o', None) ->
  written o' = written o ++ concat (frame_of (flushing q) <$> flushSegments q).
Proof.
  assert (forall ss acc, fold_left (fun out x => out ++ frame_of (flushing q) x) ss acc
                         = acc ++ concat (frame_of (flushing q) <$> ss)) as Hfold.
  { intros ss. induction ss as [| x ss IH]; intros acc; cbn; [by rewrite app_nil_r |].
    rewrite IH. by rewrite app_assoc. }
  unfold flush. destruct (flushSegments q) as [| x [| y ss]].
  - destruct vectored; intros H; by apply net_write_ok in H.
  - intros H. apply net_write_ok in H. cbn. by rewrite app_nil_r.
  - destruct vectored; intros H; apply net_write_ok in H; [done |]. by rewrite Hfold in H.
Qed.

Lemma enqueue_spec q header body ext q' seq :
  Forall (range_ok (cur q)) (segments q) ->
  enqueue q pooled header body ext = (q', Ok seq) ->
  qerr q = None /\ qerr q' = None /\ running q' = true /\ enqueued q' = u64 (enqueued q + 1) /\ seq = enqueued q' /\
  qwritten q' = qwritten q /\ flushing q' = flushing q /\ flushSegments q' = flushSegments q /\
  Forall (range_ok (cur q')) (segments q') /\
  frame_of (cur q') <$> segments q' = (frame_of (cur q) <$> segments q) ++ [default (header ++ body) ext].
Proof.
  intros Hr. unfold enqueue. destruct (qerr q) eqn:He; [done |].
  destruct ext as [x |]; cbn [default].
  - intros [= <- <-]. destruct (running q) eqn:Hrun; cbn; rewrite ?Hrun; split_and!; try done;
      try (apply Forall_app; split; [done | by repeat constructor]); by rewrite fmap_app.
  - set (n := len header + len body + _). set (a0 := default pooled (cur q)).
    set (a1 := if _ && _ then _ else a0). assert (ab a1 = ab a0) as Ea by (subst a1; by destruct (_ && _)).
    rewrite Ea. set (a2 := {| a1 with ab := _; acap := _ |}).
    assert (Forall (range_ok (Some a0)) (segments q)) as Hr0.
    { subst a0. destruct (cur q) as [a |]; [done |]. cbn. eapply Forall_impl; [exact Hr |].
      intros [i j |]; [| done]. cbn. by rewrite Hpooled. }
    assert (frame_of (Some a2) <$> segments q = frame_of (cur q) <$> segments q) as Ef.
    { apply list_fmap_ext. intros k x Hx. assert (range_ok (Some a0) x) as Hx0 by (by eapply Forall_lookup_1).
      unfold a2. rewrite frame_of_cur by done. subst a0. destruct (cur q) as [a |]; [done |].
      destruct x; [| done]. cbn. by rewrite Hpooled. }
    assert (Forall (range_ok (Some a2)) (segments q ++ [Range (len (ab a0)) (len (ab a0 ++ header ++ body))])) as Hr2.
    { apply Forall_app. split.
      - eapply Forall_impl; [exact Hr0 |]. intros [i j |]; [| done]. cbn. rewrite len_app.
        pose proof (len_nonneg (header ++ body)). lia.
      - repeat constructor; cbn; try apply len_nonneg; rewrite ?len_app; len_lia. }
    intros [= <- <-]. destruct (running q) eqn:Hrun; cbn; rewrite ?Hrun; split_and!; try done;
      rewrite fmap_app, Ef; cbn; rewrite slice_app_r, Z.sub_diag by lia;
      by rewrite slice_all by (rewrite !len_app; lia).
Qed.

Lemma queued_log_app l1 l2 :
  snd <$> filter (fun x : bool * list Z => x.1 = true) (l1 ++ l2) =
  (snd <$> filter (fun x => x.1 = true) l1) ++ (snd <$> filter (fun x => x.1 = true) l2).
Proof. by rewrite filter_app, fmap_app. Qed.

Lemma queued_log_true (ss : list (list Z)) :
  snd <$> filter (fun x : bool * list Z => x.1 = true) ((fun f => (true, f)) <$> ss) = ss.
Proof. induction ss as [| x ss IH]; [done |]. rewrite fmap_cons, filter_cons_True, fmap_cons by done. by rewrite IH. Qed.

Lemma u64_add_idemp a b : u64 (u64 a + b) = u64 (a + b).
Proof. unfold u64. by rewrite Z.add_mod_idemp_l. Qed.

Lemma enqueue_ok s header body ext q' seq :
  sys_ok s -> enqueue (sq s) pooled header body ext = (q', Ok seq) ->
  sys_ok {| s with sq := q'; sph := if running (sq s) then sph s else AtTop;
                   frames := frames s ++ [default (header ++ body) ext] |}.
Proof.
  intros [Hrun Hcnt Hrg Hfl Hby Hord Hsum Herr Hwr] E.
  destruct (enqueue_spec _ _ _ _ _ _ Hrg E) as (He & He' & Hr' & Hc' & _ & Hw' & Hf' & Hs' & Hrg' & Hfr).
  set (ph := if running (sq s) then sph s else AtTop).
  assert (ph <> NoWriter /\ (ph = sph s \/ sph s = NoWriter /\ ph = AtTop)) as [Hne Hph].
  { subst ph. destruct (running (sq s)); [| by split; [| right; split; [apply Hrun |]]].
    split; [intros Hn; by apply Hrun in Hn | by left]. }
  clearbody ph.
  assert (broken s = false ->
    frames s ++ [default (header ++ body) ext] =
      queued_log s ++ (if ph is Wrote _ then [] else in_flight s) ++ waiting s ++ [default (header ++ body) ext] /\
    qwritten (sq s) = u64 (len (queued_log s) - if ph is Wrote _ then len (flushSegments (sq s)) else 0)) as Hord'.
  { intros Hb. destruct (Hord Hb) as [Ho1 Ho2]. rewrite Ho1. destruct Hph as [-> | [E1 ->]]; [| rewrite E1 in *];
      by rewrite <- !app_assoc. }
  constructor; cbn; try done.
  - by rewrite Hr'.
  - rewrite Hc', Hcnt, u64_add_idemp, len_app. done.
  - rewrite Hs'. destruct Hph as [-> | [E1 ->]]; [done | by rewrite E1 in Hfl].
  - intros Hb. unfold waiting, in_flight, queued_log in *. cbn. rewrite Hw', Hs', Hf', Hfr. by apply Hord'.
  - intros Hb. specialize (Hsum Hb). unfold queued_log in *. cbn. rewrite Hs'.
    destruct Hph as [-> | [E1 ->]]; [done | apply len_nonneg].
  - destruct Hph as [-> | [_ ->]]; done.
Qed.

Lemma take_ok s q' :
  sys_ok s -> sph s = AtTop -> take (sq s) = (q', true) -> sys_ok {| s with sq := q'; sph := Writing |}.
Proof.
  intros [Hrun Hcnt Hrg Hfl Hby Hord Hsum Herr Hwr] Hp. rewrite Hp in *. unfold take.
  destruct (_ || _) eqn:E; [done |]. intros [= <-]. constructor; cbn; try done.
  - split; [intros H; by apply Hrun in H | done].
  - intros Hb. destruct (Hord Hb) as [Ho1 Ho2]. unfold waiting, in_flight, queued_log in *. cbn.
    rewrite Ho1, Hfl. cbn. rewrite app_nil_r. split; [done |]. by rewrite Ho2.
Qed.

Lemma exit_ok s q' :
  sys_ok s -> sph s = AtTop -> take (sq s) = (q', false) -> sys_ok {| s with sq := q'; sph := NoWriter |}.
Proof.
  intros [Hrun Hcnt Hrg Hfl Hby Hord Hsum Herr Hwr] Hp. rewrite Hp in *. unfold take.
  destruct (_ || _) eqn:E; [| done]. intros [= <-]. constructor; cbn; done.
Qed.

Lemma flush_step_ok s o' err :
  sys_ok s -> sph s = Writing -> flush (sq s) vectored (so s) = (o', err) ->
  sys_ok {| s with so := o'; sph := Wrote err;
              log := log s ++ (if err is None
                               then (fun x => (true, frame_of (flushing (sq s)) x)) <$> flushSegments (sq s)
                               else []);
              broken := broken s || (if err is None then false else true) |}.
Proof.
  intros [Hrun Hcnt Hrg Hfl Hby Hord Hsum Herr Hwr] Hp E. rewrite Hp in *. constructor; cbn; try done.
  - split; [intros H; by apply Hrun in H | done].
  - intros Hb. apply orb_false_elim in Hb as [Hb Hn]. destruct err; [done |].
    rewrite fmap_app, concat_app, <- Hby by done. rewrite <- list_fmap_compose.
    by apply flush_ok.
  - intros Hb. apply orb_false_elim in Hb as [Hb Hn]. destruct err; [done |].
    destruct (Hord Hb) as [Ho1 Ho2]. unfold queued_log, in_flight, waiting in *. cbn.
    rewrite queued_log_app.
    rewrite (list_fmap_compose (frame_of (flushing (sq s))) (fun f => (true, f))), queued_log_true.
    split; [by rewrite Ho1, <- app_assoc |]. rewrite Ho2, len_app, !len_map. f_equal. lia.
  - intros Hb. apply orb_false_elim in Hb as [Hb Hn]. destruct err; [done |].
    unfold queued_log. cbn. rewrite queued_log_app.
    rewrite (list_fmap_compose (frame_of (flushing (sq s))) (fun f => (true, f))), queued_log_true.
    rewrite len_app, !len_map. pose proof (len_nonneg (filter (fun x : bool * list Z => x.1 = true) (log s))). lia.
  - intros H. by rewrite Herr.
  - destruct err; [by rewrite orb_true_r | done].
Qed.

Lemma finish_ok s err :
  sys_ok s -> sph s = Wrote err ->
  sys_ok {| s with sq := finish (sq s) err; sph := if err is None then AtTop else NoWriter |}.
Proof.
  intros [Hrun Hcnt Hrg Hfl Hby Hord Hsum Herr Hwr] Hp. rewrite Hp in *.
  destruct err as [e |]; constructor; cbn; try done.
  - intros Hb. congruence.
  - intros _. apply len_nonneg.
  - split; [intros H; by apply Hrun in H | done].
  - intros Hb. destruct (Hord Hb) as [Ho1 Ho2]. unfold waiting, in_flight, queued_log in *. cbn in *.
    split; [done |]. rewrite Ho2, u64_add_idemp. f_equal. lia.
  - intros _. apply len_nonneg.
Qed.

Lemma direct_ok s p o' err :
  sys_ok s -> net_write (so s) p = (o', err) ->
  sys_ok {| s with so := o'; log := log s ++ (if err is None then [(false, p)] else []);
              broken := broken s || (if err is None then false else true) |}.
Proof.
  intros [Hrun Hcnt Hrg Hfl Hby Hord Hsum Herr Hwr] E. constructor; cbn; try done.
  - intros Hb. apply orb_false_elim in Hb as [Hb Hn]. destruct err; [done |].
    rewrite fmap_app, concat_app, <- Hby by done. cbn. rewrite app_nil_r. by apply net_write_ok.
  - intros Hb. apply orb_false_elim in Hb as [Hb Hn]. destruct err; [done |].
    destruct (Hord Hb) as [Ho1 Ho2]. unfold queued_log, in_flight, waiting in *. cbn.
    rewrite queued_log_app. cbn. by rewrite app_nil_r.
  - intros Hb. apply orb_false_elim in Hb as [Hb Hn]. specialize (Hsum Hb). unfold queued_log in *. cbn.
    rewrite queued_log_app, len_app.
    match goal with |- _ <= _ + ?x => assert (0 <= x) by apply len_nonneg end. lia.
  - intros H. by rewrite Herr.
  - destruct (sph s) as [| | | [e |]]; try done. by rewrite Hwr.
Qed.

Lemma qstep_ok s s' : sys_ok s -> qstep s s' -> sys_ok s'.
Proof.
  intros Hok Hs. destruct Hs; eauto using enqueue_ok, take_ok, exit_ok, flush_step_ok, finish_ok, direct_ok.
Qed.

Lemma initial_ok lim : sys_ok (initial lim (Net [] 0)).
Proof. constructor; cbn; try done; constructor. Qed.

Lemma reachable_ok lim s : rtc qstep (initial lim (Net [] 0)) s -> sys_ok s.
Proof.
  pose proof (initial_ok lim) as H. revert H. generalize (initial lim (Net [] 0)).
  intros s0 H0 Hs. induction Hs as [| s0 s1 s2 Hs _ IH]; [done |]. apply IH. by eapply qstep_ok.
Qed.

(** Once an error is recorded there is no writer, and nothing changes that. *)
Definition settled (s : sys) : Prop := qerr (sq s) <> None -> sph s = NoWriter /\ running (sq s) = false.

Lemma enqueue_failed q header body ext e : qerr q = Some e -> enqueue q pooled header body ext = (q, Errors.Err e).
Proof. intros He. unfold enqueue. by rewrite He. Qed.

Lemma enqueue_qerr q header body ext q' seq :
  enqueue q pooled header body ext = (q', Ok seq) -> qerr q' = None.
Proof.
  unfold enqueue. destruct (qerr q) eqn:He; [done |].
  destruct ext; intros [= <- <-]; by destruct (running q).
Qed.

Lemma take_qerr q q' b : take q = (q', b) -> qerr q' = qerr q /\ (b = true -> qerr q = None).
Proof.
  unfold take. destruct (_ || _) eqn:E; intros [= <- <-]; [done |]. split; [done |]. intros _.
  apply orb_false_elim in E as [_ E]. apply negb_false_iff in E. by apply bool_decide_eq_true in E.
Qed.

Lemma settled_step s s' : settled s -> qstep s s' -> settled s'.
Proof.
  unfold settled. intros Hse Hst He.
  destruct Hst as [h b x q' seq E | q' Hph E | q' Hph E | o' err Hph E | err Hph | p o' err E]; cbn in *; try by apply Hse.
  - by apply enqueue_qerr in E.
  - apply take_qerr in E as [E1 E2]. rewrite E1 in He. by destruct He, E2.
  - split; [done |]. unfold take in E. destruct (_ || _); [by injection E as <- | done].
  - destruct Hse; [done | congruence].
  - destruct err as [e |]; [done |]. destruct Hse; [done | congruence].
Qed.

Lemma settled_run lim s : rtc qstep (initial lim (Net [] 0)) s -> settled s.
Proof.
  assert (settled (initial lim (Net [] 0))) as H by (intros H; by destruct H).
  revert H. generalize (initial lim (Net [] 0)). intros s0 H0 Hs. induction Hs as [| s0 s1 s2 Hs _ IH]; [done |].
  apply IH. by eapply settled_step.
Qed.

(** How the writer leaves. *)
Lemma exit_reports s s' :
  settled s -> qstep s s' -> sph s <> NoWriter -> sph s' = NoWriter ->
  waiting s' = [] /\
  (sph s = AtTop /\ waiting s = [] /\ qerr (sq s') = None \/
   exists e, sph s = Wrote (Some e) /\ qerr (sq s') = Some e).
Proof.
  intros Hse Hst Hn. destruct Hst as [h b x q' seq E | q' Hph E | q' Hph E | o' err Hph E | err Hph | p o' err E];
    cbn; try congruence.
  - destruct (running (sq s)); congruence.
  - intros _. assert (qerr (sq s) = None) as He.
    { destruct (qerr (sq s)) eqn:Eq; [| done]. destruct Hse; [by rewrite Eq | done]. }
    unfold take in E. rewrite He, (bool_decide_eq_true_2 (None = None)), orb_false_r in E by done.
    destruct (bool_decide_reflect (segments (sq s) = [])) as [Hw |]; [| done]. injection E as <-.
    unfold waiting. cbn. rewrite Hw. split; [done |]. by left.
  - destruct err as [e |]; [| done]. intros _. split; [done |]. right. by exists e.
Qed.

(** A recorded error stays, and was recorded after a failed write. *)
Lemma failure_stays s s' e :
  settled s -> qerr (sq s) = Some e -> rtc qstep s s' -> qerr (sq s') = Some e /\ sph s' = NoWriter.
Proof.
  intros Hse He Hs. revert Hse He. induction Hs as [s | s s1 s2 Hst _ IH]; intros Hse He.
  - split; [done |]. apply Hse. by rewrite He.
  - apply IH; [by eapply settled_step |]. destruct Hse as [Hph Hr]; [by rewrite He |].
    destruct Hst as [h b x q' seq E | q' Hph' E | q' Hph' E | o' err Hph' E | err Hph' | p o' err E]; cbn in *; try congruence.
    by rewrite (enqueue_failed _ _ _ _ _ He) in E.
Qed.

Lemma failure_of s0 s e :
  settled s0 -> qerr (sq s0) = None -> rtc qstep s0 s -> qerr (sq s) = Some e ->
  exists s1, rtc qstep s0 s1 /\ sph s1 = Wrote (Some e) /\ rtc qstep s1 s.
Proof.
  intros Hse H0 Hs He. induction Hs as [s | s0 s1 s2 Hst Hs IH]; [congruence |].
  pose proof (settled_step _ _ Hse Hst) as Hse1. destruct (qerr (sq s1)) as [x |] eqn:E1.
  - destruct (failure_stays _ _ _ Hse1 E1 Hs) as [E2 _]. assert (x = e) as -> by congruence.
    exists s0. split; [done |]. split; [| by eapply rtc_l].
    destruct Hst as [h b y q' seq E | q' Hph E | q' Hph E | o' err Hph E | err Hph | p o' err E]; cbn in *; try congruence.
    + apply enqueue_qerr in E. congruence.
    + apply take_qerr in E as [E _]. congruence.
    + apply take_qerr in E as [E _]. congruence.
    + destruct err as [y |]; cbn in E1; congruence.
  - destruct (IH Hse1 eq_refl He) as (s3 & ? & ? & ?). exists s3. split; [by eapply rtc_l | done].
Qed.
End system.

(** ** Properties *)

(** C26. Whatever the interleaving of producers, the writer goroutine and
    direct control-frame writes, as long as no transport write failed the
    transport has received whole frames only; the queued ones among them are
    the queued frames in submission order, and the rest are exactly the
    frames in the writer's hands followed by those still waiting: nothing is
    lost, duplicated, torn or reordered. *)
Theorem queue_order {T : Transport} `{!TransportOk T} {G : Grow} vectored pooled lim s :
  ab pooled = [] -> rtc (qstep vectored pooled) (initial lim (Net [] 0)) s -> broken s = false ->
  written (so s) = concat (snd <$> log s) /\
  frames s = queued_log s ++ (if sph s is Wrote _ then [] else in_flight s) ++ waiting s.
Proof.
  intros Hp Hs Hb. pose proof (reachable_ok vectored pooled Hp lim s Hs) as Hok.
  split; [by apply so_bytes | by apply so_order].
Qed.

(** C29. At most one writer goroutine runs, exactly while the queue says so.
    It exits either with nothing left to write and no error, or because the
    write it made failed, and then it has dropped what waited and recorded that
    write's error.  [Err] reports an error only if such a write failed with it,
    and from then on, whatever happens, it stays that first error, the writer
    never runs again, and every Send and every wait fails with it. *)
Theorem queue_writer {T : Transport} `{!TransportOk T} {G : Grow} vectored pooled lim s :
  ab pooled = [] -> rtc (qstep vectored pooled) (initial lim (Net [] 0)) s ->
  (running (sq s) = true <-> sph s <> NoWriter) /\
  (forall s', qstep vectored pooled s s' -> sph s <> NoWriter -> sph s' = NoWriter ->
     waiting s' = [] /\
     (sph s = AtTop /\ waiting s = [] /\ Err (sq s') = None \/
      exists e, sph s = Wrote (Some e) /\ Err (sq s') = Some e)) /\
  (forall e, Err (sq s) = Some e ->
     (exists s0, rtc (qstep vectored pooled) (initial lim (Net [] 0)) s0 /\ sph s0 = Wrote (Some e) /\
        rtc (qstep vectored pooled) s0 s) /\
     forall s', rtc (qstep vectored pooled) s s' ->
       Err (sq s') = Some e /\ sph s' = NoWriter /\
       forall n header body ext seq,
         reserve (sq s') n = Some e /\ enqueue (sq s') pooled header body ext = (sq s', Errors.Err e) /\
         waitLocked (sq s') seq = Some (Some e)).
Proof.
  intros Hp Hs. pose proof (reachable_ok vectored pooled Hp lim s Hs) as Hok.
  pose proof (so_run s Hok) as Hrun. split; [| split].
  - destruct (running (sq s)); split; try done.
    + intros _ Hn. by apply Hrun in Hn.
    + intros Hn. destruct Hn. by apply Hrun.
  - intros s' Hst. apply (exit_reports _ _ _ _ (settled_run _ _ _ _ Hs) Hst).
  - intros e He. split; [by apply (failure_of vectored pooled _ s e (settled_run vectored pooled lim _ (rtc_refl _ _))) |]. intros s' Hs'.
    destruct (failure_stays vectored pooled s s' e (settled_run _ _ _ _ Hs) He Hs') as [He' Hph'].
    split; [done |]. split; [done |]. intros n header body ext seq. unfold Err in He'.
    unfold reserve, enqueue, waitLocked. rewrite He'. rewrite bool_decide_eq_false_2 by done. by rewrite andb_false_r.
Qed.

(** A synchronous send that was told its frame is written can rely on it:
    when the wait for sequence number [seq] succeeds, the first [seq] frames
    ever queued have all been handed to the transport. *)
Theorem queue_wait {T : Transport} `{!TransportOk T} {G : Grow} vectored pooled lim s seq :
  ab pooled = [] -> rtc (qstep vectored pooled) (initial lim (Net [] 0)) s -> broken s = false ->
  len (frames s) < 2 ^ 64 -> waitLocked (sq s) seq = Some None ->
  exists rest, queued_log s = upto (frames s) seq ++ rest.
Proof.
  intros Hp Hs Hb Hlen Hw. pose proof (reachable_ok vectored pooled Hp lim s Hs) as Hok.
  destruct (so_order s Hok Hb) as [Ho1 Ho2]. unfold waitLocked in Hw.
  destruct (qwritten (sq s) <? seq) eqn:Ew.
  { destruct (bool_decide_reflect (qerr (sq s) = None)) as [Hq | Hq]; cbn in Hw; congruence. }
  apply Z.ltb_ge in Ew. exists (from (queued_log s) seq). rewrite Ho1.
  assert (seq <= len (queued_log s)) as Hseq.
  { pose proof (len_nonneg (queued_log s)). destruct (sph s) as [| | | err] eqn:Eph.
    1-3: (rewrite Z.sub_0_r in Ho2; unfold u64 in Ho2; rewrite Z.mod_small in Ho2; [lia |];
          rewrite Ho1, len_app in Hlen; pose proof (len_nonneg (in_flight s ++ waiting s)); lia).
    pose proof (so_sum s Hok Hb) as Hsum. rewrite Eph in Hsum. pose proof (len_nonneg (flushSegments (sq s))).
    unfold u64 in Ho2. rewrite Z.mod_small in Ho2; [lia |].
    rewrite Ho1, len_app in Hlen. pose proof (len_nonneg ([] ++ waiting s)). lia. }
  rewrite upto_app_le by done. by rewrite upto_from.
Qed.

(** A transport that takes everything, and a short run, for the witnesses:
    two frames queued, taken and flushed together, with a ping in between. *)
Definition perfect : Transport := fun _ p => (len p, None).

Lemma perfect_ok : TransportOk perfect.
Proof. split; cbn; intros; [pose proof (len_nonneg p) |]; lia. Qed.

#[local] Existing Instance perfect.
#[local] Existing Instance perfect_ok.
#[local] Existing Instance double_growth.

Definition queue_of (r : Queue * result Z) : Queue := r.1.

Definition demo1 : sys :=
  let s := initial 0 (Net [] 0) in
  let q := queue_of (enqueue (sq s) arena_new [129; 1] [65] None) in
  {| s with sq := q; sph := AtTop; frames := [[129; 1; 65]] |}.
Definition demo2 : sys :=
  let s := demo1 in
  let q := queue_of (enqueue (sq s) arena_new [] [] (Some [130; 0])) in
  {| s with sq := q; frames := [[129; 1; 65]; [130; 0]] |}.
Definition demo3 : sys := let s := demo2 in let q := (take (sq s)).1 in {| s with sq := q; sph := Writing |}.
Definition demo4 : sys :=
  let s := demo3 in
  {| s with so := Net [137; 0] 1; log := [(false, [137; 0])] |}.
Definition demo5 : sys :=
  let s := demo4 in
  {| s with so := Net [137; 0; 129; 1; 65; 130; 0] 2; sph := Wrote None;
            log := [(false, [137; 0]); (true, [129; 1; 65]); (true, [130; 0])] |}.
Definition demo6 : sys := let s := demo5 in let q := finish (sq s) None in {| s with sq := q; sph := AtTop |}.

Lemma qstep_eq s s1 s2 : qstep true arena_new s s1 -> s1 = s2 -> qstep true arena_new s s2.
Proof. by intros ? <-. Qed.

Ltac demo_step c := eapply qstep_eq; [eapply c; vm_compute; reflexivity | vm_compute; reflexivity].

Lemma demo_run : rtc (qstep true arena_new) (initial 0 (Net [] 0)) demo6.
Proof.
  apply rtc_l with demo1; [demo_step (q_enqueue true arena_new (initial 0 (Net [] 0)) [129; 1] [65] None) |].
  apply rtc_l with demo2; [demo_step (q_enqueue true arena_new demo1 [] [] (Some [130; 0])) |].
  apply rtc_l with demo3; [demo_step (q_take true arena_new demo2) |].
  apply rtc_l with demo4; [demo_step (q_direct true arena_new demo3 [137; 0]) |].
  apply rtc_l with demo5; [demo_step (q_flush true arena_new demo4) |].
  apply rtc_once. demo_step (q_finish true arena_new demo5 None).
Qed.

Lemma queue_order_witness :
  written (so demo6) = concat (snd <$> log demo6) /\
  frames demo6 = queued_log demo6 ++ in_flight demo6 ++ waiting demo6.
Proof. exact (queue_order true arena_new 0 demo6 eq_refl demo_run eq_refl). Defined.

(** A transport that is gone, and a run of one frame: the write fails. *)
Definition broken_pipe : Transport := fun _ _ => (0, Some (Io ErrUnexpectedEOF)).

Lemma broken_pipe_ok : TransportOk broken_pipe.
Proof. split; cbn; intros; [pose proof (len_nonneg p); lia | done]. Qed.

Definition gone1 : sys := let s := demo1 in let q := (take (sq s)).1 in {| s with sq := q; sph := Writing |}.
Definition gone2 : sys :=
  let s := gone1 in {| s with so := Net [] 1; sph := Wrote (Some (Io ErrUnexpectedEOF)); broken := true |}.
Definition gone3 : sys :=
  let s := gone2 in let q := finish (sq s) (Some (Io ErrUnexpectedEOF)) in {| s with sq := q; sph := NoWriter |}.

Lemma gone_run : rtc (qstep (T := broken_pipe) true arena_new) (initial 0 (Net [] 0)) gone3.
Proof.
  apply rtc_l with demo1.
  { apply (q_enqueue (T := broken_pipe) true arena_new (initial 0 (Net [] 0)) [129; 1] [65] None _ 1). vm_compute. reflexivity. }
  apply rtc_l with gone1; [apply (q_take (T := broken_pipe) true arena_new demo1); vm_compute; reflexivity |].
  apply rtc_l with gone2.
  { apply (q_flush (T := broken_pipe) true arena_new gone1 (Net [] 1) (Some (Io ErrUnexpectedEOF))); vm_compute; reflexivity. }
  apply rtc_once. apply (q_finish (T := broken_pipe) true arena_new gone2 (Some (Io ErrUnexpectedEOF))). vm_compute. reflexivity.
Qed.

Lemma queue_writer_witness :
  (running (sq demo6) = true <-> sph demo6 <> NoWriter) /\
  forall n header body ext,
    reserve (sq gone3) n = Some (Io ErrUnexpectedEOF) /\
    enqueue (sq gone3) arena_new header body ext = (sq gone3, Errors.Err (Io ErrUnexpectedEOF)).
Proof.
  split; [apply (queue_writer true arena_new 0 demo6 eq_refl demo_run) |].
  destruct (@queue_writer broken_pipe broken_pipe_ok double_growth true arena_new 0 gone3 eq_refl gone_run) as (_ & _ & H).
  destruct (H (Io ErrUnexpectedEOF) eq_refl) as [_ Hf]. destruct (Hf gone3 (rtc_refl _ _)) as (_ & _ & Hr).
  intros n header body ext. destruct (Hr n header body ext 0) as (H1 & H2 & _). by split.
Defined.

Lemma queue_wait_witness : exists rest, queued_log demo6 = upto [[129; 1; 65]; [130; 0]] 2 ++ rest.
Proof. exact (queue_wait true arena_new 0 demo6 2 eq_refl demo_run eq_refl eq_refl eq_refl). Defined.
