(* ===== verification/ConnCompress.v ===== *)
(** * The send side of permessage-deflate (ws/conn_compress.go)

    Compressors come from pools: [getCompressor] hands out one that was reset
    before it was put there, or a new one.  Which one is the pool's business,
    so the operations take it as an argument; [fresh] is what is known of it. *)

From stdpp Require Import prelude.
From S2P Require Import Prelude Errors Encoder Window Compressor Handshake.

Definition pendingHistory : Z := 8.

(** [config] is nil without compression.  The array of pending prepared
    messages and its count are the list of their payloads, oldest first. *)
Record compressorContext `{Flate} := mkCompressorContext {
  config : option Hs.Compression;
  minSize : Z;
  shared : bool;
  window : option Window;
  cattached : option Compressor;
  scratch : list Z;
  pending : list (list Z);
  pendingBytes : Z
}.

Module Cc.
Section ops.
Context `{Flate} `{Grow}.

(** The connection's one send window, with its identity. *)
Definition wid : Z := 0.
Definition tagged (w : option Window) : option (Z * Window) := (fun w => (wid, w)) <$> w.

Definition newCompressor (comp : Hs.Compression) : result Compressor :=
  let bits := Hs.SendWindowBits comp in
  if negb (bits =? 0) && negb (bits =? 15) then Cmp.NewCompressorWindow bits
  else Cmp.NewCompressor (Hs.Level comp).

(** What [putCompressor] leaves in the pool. *)
Definition putCompressor (c : Compressor) : Compressor := Cmp.Reset c.

(** [pooled] is what [getCompressor] returns.  The boolean is [shared]: the
    caller returns it to the pool. *)
Definition compressorFor (cc : compressorContext) (pooled : Compressor)
    : compressorContext * Compressor * bool :=
  match cattached cc with
  | Some c => (cc, c, false)
  | None =>
      if bool_decide (window cc = None) || shared cc then (cc, pooled, true)
      else ({| cc with cattached := Some pooled |}, pooled, false)
  end.

(** The payloads added to the window, in order. *)
Definition applyPending (cc : compressorContext) : compressorContext :=
  {| cc with window := (fun w => foldl Win.Add w (pending cc)) <$> window cc;
             pending := []; pendingBytes := 0 |}.

Definition dropPending (cc : compressorContext) : compressorContext :=
  {| cc with pending := []; pendingBytes := 0 |}.

Definition dropOldestPending (cc : compressorContext) : compressorContext :=
  {| cc with pendingBytes := pendingBytes cc - len (default [] (head (pending cc)));
             pending := tail (pending cc) |}.

Fixpoint drop_covered (fuel : nat) (size n : Z) (cc : compressorContext) : compressorContext :=
  match fuel with
  | O => cc
  | S fuel =>
      if (0 <? len (pending cc))
         && (size <=? pendingBytes cc - len (default [] (head (pending cc))) + n)
      then drop_covered fuel size n (dropOldestPending cc) else cc
  end.

(** Called with a window only; the payload is the prepared message's. *)
Definition notePrepared (cc : compressorContext) (p : list Z) : compressorContext :=
  match window cc with
  | None => cc
  | Some w =>
      let size := Win.Size w in
      let n := len p in
      let cc :=
        if size <=? n then dropPending cc
        else
          let cc := drop_covered (length (pending cc)) size n cc in
          if len (pending cc) =? pendingHistory then applyPending cc else cc in
      {| cc with pending := pending cc ++ [p]; pendingBytes := pendingBytes cc + n |}
  end.

Definition releaseCompressor (cc : compressorContext) : compressorContext :=
  {| cc with cattached := None |}.

End ops.
End Cc.

Import Cc.

(** ** Specification: the history a connection owes its window *)

Section pending.
Context {F : Flate} {G : Grow} `{!GrowOk G}.

(** The window's contents if nothing had been deferred. *)
Definition owed (cc : compressorContext) : list Z :=
  match window cc with
  | None => []
  | Some w => lastn (Win.Size w) (Win.dict (Some w) ++ concat (pending cc))
  end.

Definition pending_ok (cc : compressorContext) : Prop :=
  pendingBytes cc = len (concat (pending cc)) /\ len (pending cc) <= pendingHistory /\
  match window cc with Some w => window_ok w | None => pending cc = [] end.

Lemma applyPending_ok cc :
  pending_ok cc -> pending_ok (applyPending cc) /\ owed (applyPending cc) = owed cc /\
  Win.dict (window (applyPending cc)) = owed cc.
Proof.
  intros (Hb & Hn & Hw). unfold applyPending, pending_ok, owed in *.
  cbn [window pending pendingBytes]. destruct (window cc) as [w |]; [| by split_and!].
  cbn [fmap option_fmap option_map concat].
  change (foldl Win.Add w (pending cc)) with (foldl Win.remember w (pending cc)).
  destruct (dict_all w (pending cc) Hw) as (Hok & Hs & Hd).
  rewrite app_nil_r, Hs, Hd. split_and!; try done. apply lastn_lastn. pose proof (Size_pos w). lia.
Qed.

Lemma dropOldest_ok w cc n :
  window cc = Some w -> pending_ok cc -> 0 < len (pending cc) ->
  Win.Size w <= pendingBytes cc - len (default [] (head (pending cc))) + len n ->
  pending_ok (dropOldestPending cc) /\ len (pending (dropOldestPending cc)) < len (pending cc) /\
  lastn (Win.Size w) (owed (dropOldestPending cc) ++ n) = lastn (Win.Size w) (owed cc ++ n).
Proof.
  intros Ew (Hb & Hn & Hw) Hpos Hcov. unfold dropOldestPending, pending_ok, owed in *.
  cbn [window pending pendingBytes]. rewrite Ew in *.
  destruct (pending cc) as [| p ps]; [unfold len in Hpos; cbn in Hpos; lia |].
  cbn [head tail default concat from_option id] in *. change (id p) with p in *. rewrite len_app in Hb. rewrite len_cons in *.
  pose proof (len_nonneg ps). pose proof (Size_pos w).
  split_and!; try done; try lia.
  rewrite !lastn_app_lastn, <- !app_assoc by lia.
  assert (forall l, lastn (Win.Size w) (l ++ concat ps ++ n) = lastn (Win.Size w) (concat ps ++ n)) as E.
  { intros l. apply lastn_app_ge. rewrite len_app. lia. }
  by rewrite E, (app_assoc (Win.dict (Some w)) p), E.
Qed.

Lemma drop_covered_ok fuel w cc n :
  window cc = Some w -> pending_ok cc ->
  let cc' := drop_covered fuel (Win.Size w) (len n) cc in
  pending_ok cc' /\ window cc' = Some w /\
  lastn (Win.Size w) (owed cc' ++ n) = lastn (Win.Size w) (owed cc ++ n).
Proof.
  revert cc. induction fuel as [| fuel IH]; intros cc Ew Hok; [done |]. cbn [drop_covered].
  destruct (_ && _) eqn:E; [| done]. apply andb_prop in E as [E1%Z.ltb_lt E2%Z.leb_le].
  destruct (dropOldest_ok w cc n Ew Hok E1 E2) as (Hok' & _ & Ho).
  destruct (IH (dropOldestPending cc) Ew Hok') as (H1 & H2 & H3). split_and!; try done. by rewrite H3.
Qed.

Lemma notePrepared_ok cc w p :
  window cc = Some w -> pending_ok cc ->
  pending_ok (notePrepared cc p) /\ owed (notePrepared cc p) = lastn (Win.Size w) (owed cc ++ p) /\
  exists w', window (notePrepared cc p) = Some w' /\ Win.Size w' = Win.Size w.
Proof.
  intros Ew Hok. unfold notePrepared. rewrite Ew. pose proof (Size_pos w).
  set (cc1 := if Win.Size w <=? len p then _ else _).
  assert (pending_ok cc1 /\ len (pending cc1) < pendingHistory /\
    (exists w1, window cc1 = Some w1 /\ Win.Size w1 = Win.Size w) /\
    lastn (Win.Size w) (owed cc1 ++ p) = lastn (Win.Size w) (owed cc ++ p)) as (H1 & H2 & (w1 & H3 & Hs) & H4).
  { subst cc1. destruct (Z.leb_spec (Win.Size w) (len p)) as [Hp | Hp].
    - destruct Hok as (Hb & Hn & Hw). split_and!.
      + unfold pending_ok, dropPending. cbn. split_and!; try done. by rewrite Ew in *.
      + done.
      + by exists w.
      + by rewrite !lastn_app_ge by lia.
    - destruct (drop_covered_ok (length (pending cc)) w cc p Ew Hok) as (Hok1 & Ew1 & Ho1).
      set (cc2 := drop_covered _ _ _ cc) in *. destruct (Z.eqb_spec (len (pending cc2)) pendingHistory) as [E | N].
      + destruct (applyPending_ok cc2 Hok1) as (Hok2 & Ho2 & _). split_and!; [done | done | | by rewrite Ho2].
        exists (foldl Win.remember w (pending cc2)). unfold applyPending. cbn. rewrite Ew1. split; [done |].
        apply (dict_all w). destruct Hok as (_ & _ & Hw). by rewrite Ew in Hw.
      + split_and!; [done | destruct Hok1 as (_ & ? & _); lia | by exists w | done]. }
  clearbody cc1. destruct H1 as (Hb & Hn & Hw). split; [| split].
  - unfold pending_ok. cbn. rewrite concat_app, !len_app, Hb. cbn. rewrite app_nil_r.
    split_and!; [done | | by rewrite H3 in *]. change (len [p]) with 1. lia.
  - unfold owed at 1. cbn [window pending]. rewrite H3, Hs, concat_app. cbn [concat].
    rewrite app_nil_r, app_assoc, <- H4. unfold owed. rewrite H3, Hs. symmetry. apply lastn_app_lastn. lia.
  - by exists w1.
Qed.

(** The calls that touch the deferred history: a prepared message goes out,
    or a message is compressed and wants the window. *)
Inductive history_call := NotePrepared (p : list Z) | ApplyPending.

Definition history_step (cc : compressorContext) (h : history_call) : compressorContext :=
  match h with NotePrepared p => notePrepared cc p | ApplyPending => applyPending cc end.

Definition noted (hs : list history_call) : list (list Z) :=
  omap (fun h => match h with NotePrepared p => Some p | ApplyPending => None end) hs.

Lemma history_calls_ok hs cc w :
  window cc = Some w -> pending_ok cc ->
  let cc' := foldl history_step cc hs in
  pending_ok cc' /\ owed cc' = lastn (Win.Size w) (owed cc ++ concat (noted hs)) /\
  exists w', window cc' = Some w' /\ Win.Size w' = Win.Size w.
Proof.
  revert cc w. induction hs as [| h hs IH]; intros cc w Ew Hok; cbn [foldl].
  { split_and!; [done | | by exists w]. cbn. rewrite app_nil_r. unfold owed. rewrite Ew.
    symmetry. apply lastn_lastn. pose proof (Size_pos w). lia. }
  assert (pending_ok (history_step cc h) /\
    owed (history_step cc h) = lastn (Win.Size w) (owed cc ++ concat (noted [h])) /\
    exists w', window (history_step cc h) = Some w' /\ Win.Size w' = Win.Size w) as (H1 & H2 & w1 & H3 & Hs).
  { destruct h as [p |]; cbn [history_step noted omap list_omap concat]; rewrite app_nil_r.
    - by apply notePrepared_ok.
    - destruct (applyPending_ok cc Hok) as (H1 & H2 & _). split_and!; [done | |].
      + rewrite H2. unfold owed. rewrite Ew. symmetry. apply lastn_lastn. pose proof (Size_pos w). lia.
      + exists (foldl Win.remember w (pending cc)). unfold applyPending. cbn. rewrite Ew. split; [done |].
        apply (dict_all w). destruct Hok as (_ & _ & Hw). by rewrite Ew in Hw. }
  destruct (IH _ w1 H3 H1) as (G1 & G2 & w' & G3 & G4).
  split_and!; [done | | exists w'; split; [done | congruence]].
  rewrite G2, H2, Hs, lastn_app_lastn, <- app_assoc, <- concat_app by (pose proof (Size_pos w); lia).
  do 3 f_equal. unfold noted. by rewrite <- omap_app.
Qed.

(** C30. Deferring the history of prepared messages changes nothing a
    compressor can see: over any sequence of prepared sends and flushes, at
    most [pendingHistory] payloads are held, their bytes are counted exactly,
    and once flushed the window is the one eager copying would have left. *)
Theorem pending_history (hs : list history_call) (cc : compressorContext) (w : Window)
    (Hw : window cc = Some w) (Hok : window_ok w) (Hp : pending cc = []) (Hb : pendingBytes cc = 0) :
  let cc' := foldl history_step cc hs in
  len (pending cc') <= pendingHistory /\ pendingBytes cc' = len (concat (pending cc')) /\
  Win.dict (window (applyPending cc')) = Win.dict (Some (foldl Win.Add w (noted hs))).
Proof.
  assert (pending_ok cc) as Hc.
  { unfold pending_ok. rewrite Hw, Hp, Hb. split_and!; [done | vm_compute; discriminate | done]. }
  destruct (history_calls_ok hs cc w Hw Hc) as (H1 & H2 & _). cbv zeta.
  destruct (applyPending_ok _ H1) as (_ & _ & H3). split_and!; [apply H1 | apply H1 |].
  rewrite H3, H2. unfold owed. rewrite Hw, Hp. cbn [concat]. rewrite app_nil_r.
  rewrite lastn_app_lastn by (pose proof (Size_pos w); lia).
  symmetry. change (foldl Win.Add) with (foldl Win.remember). by apply dict_all.
Qed.
End pending.

#[local] Existing Instance double_growth.
#[local] Existing Instance double_growth_ok.
#[local] Existing Instance raw_flate.

Lemma pending_history_witness :
  let w := Window_new 8 in
  let cc := mkCompressorContext raw_flate None 0 false (Some w) None [] [] 0 in
  let hs := map NotePrepared (replicate 20 1 :: replicate 10 [2; 3] ++ [replicate 250 4; [5]]) in
  let cc' := foldl history_step cc hs in
  len (pending cc') <= pendingHistory /\ pendingBytes cc' = len (concat (pending cc')) /\
  Win.dict (window (applyPending cc')) = Win.dict (Some (foldl Win.Add w (noted hs))).
Proof. apply pending_history; [reflexivity | vm_compute; discriminate | reflexivity | reflexivity]. Defined.
