(* ===== verification/SendFlow.v ===== *)
(** * The send direction of a compressing connection and its peer

    A connection's window, the prepared payloads it still owes that window,
    and the compressor it has attached, against the window of the peer that
    decompresses: what has to agree, and that a chunk, a message and a
    prepared message keep it so.  [cw] is the reach of the compressors the
    connection uses. *)

From stdpp Require Import prelude.
From S2P Require Import Prelude Errors Encoder Window Compressor ConnCompress.

Section flow.
Context {F : Flate} {FO : FlateOk F} {G : Grow} `{!GrowOk G} (cw : Z).

(** Window against peer, with room for [n] more changes of the window. *)
Definition win_sync (cc : compressorContext) (peer : option Window) (n : Z) : Prop :=
  pending_ok cc /\
  match window cc, peer with
  | None, None => True
  | Some w, Some v =>
      window_ok v /\ 0 <= cw <= Win.Size w /\ cw <= Win.Size v /\
      lastn cw (owed cc) = lastn cw (Win.dict (Some v)) /\
      0 <= gen w /\ gen w + len (pending cc) + n < 2 ^ 64
  | _, _ => False
  end.

(** A compressor that serves this connection, now or later. *)
Definition att_sync (cc : compressorContext) (c : Compressor) : Prop :=
  comp_ok c /\ cwindow c = cw /\
  match window cc with
  | Some w => attached c = Some Cc.wid -> cgen c <= gen w /\ in_sync c Cc.wid w
  | None => True
  end.

(** In the middle of a message of which [sofar] has been compressed. *)
Definition strm (cc : compressorContext) (c : Compressor) (peer : option Window) (sofar : list Z) (n : Z) : Prop :=
  pending cc = [] /\ pendingBytes cc = 0 /\ comp_ok c /\ cwindow c = cw /\
  lastn cw (base c (Cc.tagged (window cc))) = lastn cw (Win.dict peer ++ sofar) /\
  match window cc, peer with
  | None, None => True
  | Some w, Some v =>
      window_ok w /\ window_ok v /\ 0 <= cw <= Win.Size w /\ cw <= Win.Size v /\
      lastn cw (Win.dict (Some w)) = lastn cw (Win.dict (Some v) ++ sofar) /\
      0 <= gen w /\ gen w + n < 2 ^ 64
  | _, _ => False
  end.

Lemma win_sync_weaken cc peer n m : m <= n -> win_sync cc peer n -> win_sync cc peer m.
Proof.
  intros Hm [Hp Hs]. split; [done |]. destruct (window cc), peer; try done.
  destruct Hs as (? & ? & ? & ? & ? & ?). split_and!; try done; lia.
Qed.

Lemma window_apply cc :
  window (Cc.applyPending cc) = (fun w => foldl Win.remember w (pending cc)) <$> window cc.
Proof. done. Qed.

(** What applying the deferred payloads does to the window itself. *)
Lemma apply_gen cc w :
  window cc = Some w -> pending_ok cc -> 0 <= gen w -> gen w + len (pending cc) < 2 ^ 64 ->
  exists w', window (Cc.applyPending cc) = Some w' /\ gen w <= gen w' <= gen w + len (pending cc) /\
    Win.Size w' = Win.Size w /\ (gen w' = gen w -> Win.dict (Some w') = Win.dict (Some w)).
Proof.
  intros Ew (_ & _ & Hw) Hg Hg'. rewrite Ew in Hw. rewrite window_apply, Ew. eexists. split; [reflexivity |].
  destruct (gen_remember_all w (pending cc)) as [Hge Heq]; [done | lia |].
  destruct (dict_all w (pending cc) Hw) as (_ & Hs & Hd). split; [done |]. split; [done |].
  intros E. rewrite Hd, Heq by lia.
  rewrite app_nil_r, dict_lastn, lastn_lastn, <- dict_lastn by (pose proof (Size_pos w); lia). done.
Qed.

Lemma apply_att_sync cc c :
  pending_ok cc -> (forall w, window cc = Some w -> 0 <= gen w /\ gen w + len (pending cc) < 2 ^ 64) ->
  att_sync cc c -> att_sync (Cc.applyPending cc) c.
Proof.
  intros Hp Hgw (Hc & Hcw & Ha). split; [done |]. split; [done |].
  destruct (window cc) as [w |] eqn:Ew; [| by rewrite window_apply, Ew].
  destruct (Hgw w eq_refl) as [Hg Hg']. destruct (apply_gen cc w Ew Hp Hg Hg') as (w' & -> & Hge & _ & Heq).
  intros E. destruct (Ha E) as [Hle Hsync]. split; [lia |]. intros _ Eg. rewrite Heq by lia.
  apply Hsync; [done | lia].
Qed.

Lemma win_sync_gen cc peer n w :
  0 <= n -> win_sync cc peer n -> window cc = Some w -> 0 <= gen w /\ gen w + len (pending cc) < 2 ^ 64.
Proof.
  intros Hn [Hp Hs] Ew. rewrite Ew in Hs. destruct peer as [v |]; [| done].
  destruct Hs as (? & ? & ? & ? & ? & ?). lia.
Qed.

Lemma apply_win_sync cc peer n :
  0 <= n -> win_sync cc peer n ->
  win_sync (Cc.applyPending cc) peer n /\ pending (Cc.applyPending cc) = [].
Proof.
  intros Hn Hwin. pose proof Hwin as [Hp Hs]. destruct (applyPending_ok cc Hp) as (Hp' & Ho & Hd).
  split; [| done]. split; [done |].
  destruct (window cc) as [w |] eqn:Ew; [| by rewrite window_apply, Ew].
  destruct (win_sync_gen cc peer n w Hn Hwin Ew) as [Hg Hg'].
  destruct (apply_gen cc w Ew Hp Hg Hg') as (w' & -> & Hge & Hsz & _). destruct peer as [v |]; [| done].
  destruct Hs as (Hv & Hc1 & Hc2 & Hl & _ & Hn').
  rewrite Hsz, Ho. assert (len (pending (Cc.applyPending cc)) = 0) by done.
  split_and!; try done; lia.
Qed.

Lemma start_strm cc c peer n :
  win_sync cc peer n -> pending cc = [] -> att_sync cc c -> mid c = false -> strm cc c peer [] n.
Proof.
  intros [Hp Hs] Ep (Hc & Hcw & Ha) Hm. pose proof Hp as (Hb & _ & Hw). unfold strm. rewrite app_nil_r.
  assert (pendingBytes cc = 0) as Ebz by (by rewrite Hb, Ep). clear Hb.
  split_and!; try done.
  - destruct (window cc) as [w |] eqn:Ew, peer as [v |]; try done.
    + destruct Hs as (_ & Hc1 & _ & Hl & _). unfold owed in Hl. rewrite Ew, Ep in Hl. cbn [concat] in Hl.
      rewrite app_nil_r, dict_lastn, lastn_lastn, <- dict_lastn in Hl by (pose proof (Size_pos w); lia).
      rewrite <- Hl, <- Hcw. apply base_dict; [done |]. intros E. apply (Ha E). done.
    + unfold base, Cmp.stale. by rewrite Hm.
  - destruct (window cc) as [w |] eqn:Ew, peer as [v |]; try done.
    destruct Hs as (Hv & Hc1 & Hc2 & Hl & Hg & Hg'). unfold owed in Hl. rewrite Ew, Ep in *. cbn [concat] in Hl.
    rewrite app_nil_r, dict_lastn, lastn_lastn, <- dict_lastn in Hl by (pose proof (Size_pos w); lia).
    rewrite app_nil_r. change (len (@nil (list Z))) with 0 in Hg'. split_and!; try done; lia.
Qed.

(** One chunk of a message. *)
Lemma chunk_strm cc c peer sofar p final n :
  0 <= n -> strm cc c peer sofar (1 + n) ->
  exists c' w' body,
    Cmp.CompressChunk c p (Cc.tagged (window cc)) final
      = (c', Cc.tagged w', Ok (if final then body else body ++ sync_tail)) /\
    inflates (Win.dict peer ++ sofar) (body ++ sync_tail) p /\ mid c' = negb final /\
    att_sync {| cc with window := w' |} c' /\
    (final = false -> strm {| cc with window := w' |} c' peer (sofar ++ p) n) /\
    (final = true ->
     win_sync {| cc with window := w' |} ((fun v => Win.remember v (sofar ++ p)) <$> peer) n).
Proof.
  intros Hn (Ep & Eb & Hc & Hcw & Hbase & Hw).
  destruct (CompressChunk_spec c p (Cc.tagged (window cc)) final Hc)
    as (c' & o & body & -> & -> & Hc' & Hcw' & Ha & Hm & Hg & Hh & Hi).
  pose proof (comp_ok_pos c Hc) as Hpos. rewrite Hcw in *.
  set (w' := (fun w => Win.remember w p) <$> window cc).
  exists c', w', body. split; [by destruct (window cc) |].
  split; [apply Hi; by apply reaches_eq |]. split; [done |].
  assert (lastn cw (fhist (writer c')) = lastn cw (Win.dict peer ++ sofar ++ p)) as Hh'.
  { rewrite Hh, <- lastn_app_lastn, Hbase, lastn_app_lastn by done. by rewrite app_assoc. }
  assert (forall w v, window cc = Some w -> peer = Some v ->
    window_ok (Win.remember w p) /\ gen (Win.remember w p) <= gen w + 1 /\ 0 <= gen (Win.remember w p) /\
    lastn cw (Win.dict (Some (Win.remember w p))) = lastn cw (Win.dict (Some v) ++ sofar ++ p)) as Hwin.
  { intros w v Ew ->. rewrite Ew in Hw. destruct Hw as (Hwo & Hv & H1 & H2 & Hl & Hg1 & Hg2).
    pose proof (gen_remember w p Hg1 ltac:(lia)) as Eg.
    split; [by apply remember_ok |]. split; [destruct (len p =? 0); lia |].
    split; [destruct (len p =? 0); lia |].
    rewrite remember_dict, lastn_lastn by (done || lia).
    rewrite <- lastn_app_lastn, Hl, lastn_app_lastn by done. by rewrite app_assoc. }
  split; [| split; intros ->].
  - split; [done |]. split; [done |]. cbn [window]. subst w'.
    destruct (window cc) as [w |] eqn:Ew, peer as [v |]; try done. cbn [fmap option_fmap option_map].
    intros _. rewrite (Hg _ w eq_refl). split; [lia |]. intros _ _. rewrite Hcw'.
    destruct (Hwin w v eq_refl eq_refl) as (_ & _ & _ & ->). by rewrite Hh'.
  - unfold strm. cbn [pending pendingBytes window]. split_and!; try done.
    + unfold base, Cmp.stale. rewrite Hm. cbn. exact Hh'.
    + subst w'. destruct (window cc) as [w |] eqn:Ew, peer as [v |]; try done. cbn [fmap option_fmap option_map].
      destruct (Hwin w v eq_refl eq_refl) as (H1 & H2 & H3 & H4).
      destruct Hw as (Hwo & Hv & Hs1 & Hs2 & Hl & Hg1 & Hg2). rewrite remember_Size. split_and!; try done; lia.
  - subst w'. destruct (window cc) as [w |] eqn:Ew, peer as [v |]; try done.
    2: { split; [| done]. unfold pending_ok. cbn. rewrite Ep, Eb. split_and!; done. }
    destruct (Hwin w v eq_refl eq_refl) as (H1 & H2 & H3 & H4).
    destruct Hw as (Hwo & Hv & Hs1 & Hs2 & Hl & Hg1 & Hg2).
    split; [unfold pending_ok; cbn; rewrite Ep, Eb; split_and!; done |].
    cbn [window pending fmap option_fmap option_map]. rewrite Ep, !remember_Size. change (len (@nil (list Z))) with 0.
    split_and!; try (by apply remember_ok); try lia.
    unfold owed. cbn [window pending]. rewrite ?Ep. cbn [concat]. rewrite app_nil_r, remember_Size.
    rewrite lastn_lastn, H4 by lia. rewrite remember_dict, lastn_lastn by (done || lia). done.
Qed.

(** A prepared message: deferred here, remembered there. *)
Lemma drop_covered_pot fuel size n cc :
  len (pending (Cc.drop_covered fuel size n cc)) <= len (pending cc) /\
  window (Cc.drop_covered fuel size n cc) = window cc.
Proof.
  revert cc. induction fuel as [| fuel IH]; intros cc; [done |]. cbn [Cc.drop_covered].
  destruct (_ && _); [| done]. destruct (IH (Cc.dropOldestPending cc)) as [H1 H2]. split; [| done].
  cbn [pending Cc.dropOldestPending] in H1. destruct (pending cc) as [| x l]; cbn [tail] in H1; [done |].
  rewrite len_cons. lia.
Qed.

Lemma note_gen cc w p :
  window cc = Some w -> pending_ok cc -> 0 <= gen w -> gen w + len (pending cc) < 2 ^ 64 ->
  exists w', window (Cc.notePrepared cc p) = Some w' /\ 0 <= gen w' /\
    gen w' + len (pending (Cc.notePrepared cc p)) <= gen w + len (pending cc) + 1 /\
    forall c, att_sync cc c -> att_sync (Cc.notePrepared cc p) c.
Proof.
  intros Ew Hp Hg Hg'. unfold Cc.notePrepared. rewrite Ew. pose proof (len_nonneg (pending cc)).
  destruct (Win.Size w <=? len p).
  { exists w. split; [exact Ew |]. split; [done |]. split; [cbn; change (len [p]) with 1; lia |].
    intros c Hc. exact Hc. }
  set (cc2 := Cc.drop_covered _ _ _ cc).
  destruct (drop_covered_pot (length (pending cc)) (Win.Size w) (len p) cc) as [Hlen Hwin].
  destruct (drop_covered_ok (length (pending cc)) w cc p Ew Hp) as (Hp2 & Ew2 & _). fold cc2 in Hlen, Hwin, Hp2, Ew2.
  destruct (len (pending cc2) =? pendingHistory).
  - destruct (apply_gen cc2 w Ew2 Hp2 Hg ltac:(lia)) as (w' & Ew' & Hge & _). exists w'.
    split; [exact Ew' |]. split; [lia |]. split; [cbn; change (len [p]) with 1; lia |].
    intros c Hc. apply (apply_att_sync cc2); [done | | unfold att_sync in *; by rewrite Hwin].
    intros x. rewrite Ew2. intros [= <-]. lia.
  - exists w. split; [exact Ew2 |]. split; [done |]. split.
    + cbn. rewrite len_app. change (len [p]) with 1. lia.
    + intros c Hc. unfold att_sync in *. cbn [window]. by rewrite Hwin.
Qed.

Lemma prepared_sync cc w peer p n :
  0 <= n -> window cc = Some w -> win_sync cc peer (1 + n) ->
  win_sync (Cc.notePrepared cc p) ((fun v => Win.remember v p) <$> peer) n /\
  forall c, att_sync cc c -> att_sync (Cc.notePrepared cc p) c.
Proof.
  intros Hn Ew Hwin. pose proof Hwin as [Hp Hs]. rewrite Ew in Hs. destruct peer as [v |]; [| done].
  destruct Hs as (Hv & Hc1 & Hc2 & Hl & Hg & Hg').
  destruct (note_gen cc w p Ew Hp Hg ltac:(lia)) as (w' & Ew' & Hg1 & Hg2 & Hatt). split; [| done].
  destruct (notePrepared_ok cc w p Ew Hp) as (Hp' & Ho & w2 & Ew2 & Hsz).
  assert (w2 = w') as -> by congruence. split; [done |]. rewrite Ew'. cbn [fmap option_fmap option_map].
  rewrite Hsz, remember_Size. split_and!; try done; try lia; [by apply remember_ok |].
  rewrite Ho, remember_dict, !lastn_lastn by (done || lia).
  rewrite <- lastn_app_lastn, Hl, lastn_app_lastn by lia. done.
Qed.
End flow.
