(* ===== verification/ConnWrite.v ===== *)
(** * The write side of a connection (ws/conn_write.go, ws/prepared.go, and
      the connection's half of ws/queue.go)

    Each definition is what a method does between taking and releasing the
    write lock, as state passing over [Conn]'s write-side fields.  The world
    outside is [World]: the operating system's random bytes and what the pools
    hand out, numbered by the draws made so far ([ticks]).  A synchronous
    write on a connection with a queue waits for the writer goroutine; here
    that goroutine then runs until it exits, one schedule of those [Queue]
    covers, so that the operations can be executed. *)

From stdpp Require Import prelude.
From S2P Require Import Prelude Words Mask Errors Header Encoder Close Receiver Sender Window Compressor Handshake Queue ConnCompress.

Class World `{Flate} := {
  rand : Z -> list Z;
  pooledCompressor : Z -> Compressor;
  pooledArena : arena
}.

Record fragmentState := mkFragmentState {
  fop : Z;
  first : bool;
  compressed : bool;
  heldCompressor : bool
}.

(** A Go [any]: the caller's value, in an encoding of the caller's choice. *)
Definition any : Type := list Z.

(** The write-side fields of [Conn], and the user's data, which a handler keeps
    its state in; [out] is what the transport has taken. *)
Record wconn `{Flate} := mkWconn {
  role : Role;
  vectored : bool;
  fragmentSize : Z;
  tx : Tx.sender;
  queue : option Queue;
  comp : compressorContext;
  frag : fragmentState;
  out : net;
  ticks : Z;
  userData : any
}.

(** [Config], less the handler (ws/conn.go). *)
Record Config := mkConfig {
  cRole : Role;
  ReadBufferSize : Z;
  MaxMessageSize : Z;
  FragmentSize : Z;
  ValidateUTF8 : bool;
  cCompression : option Hs.Compression;
  CompressionShared : bool;
  cUserData : any
}.

Definition DefaultReadBufferSize : Z := Z.shiftl 4 10.
Definition DefaultMaxMessageSize : Z := Z.shiftl 8 20.
Definition DefaultFragmentSize : Z := Z.shiftl 64 10.
Definition DefaultMinSize : Z := 128.

(** [cmp.Or] *)
Definition Or (a b : Z) : Z := if a =? 0 then b else a.

Definition validBits (b : Z) : bool := (b =? 0) || (8 <=? b) && (b <=? 15).

(** The guards of [NewConn]: a [Role] of the model is one of the two. *)
Definition validConfig (cfg : Config) : bool :=
  negb ((ReadBufferSize cfg <? 0) || (MaxMessageSize cfg <? 0) || (FragmentSize cfg <? 0)) &&
  match cCompression cfg with
  | None => true
  | Some c =>
      negb ((Hs.Level c <? -2) || (9 <? Hs.Level c) || (Hs.MinSize c <? 0)
            || negb (validBits (Hs.SendWindowBits c)) || negb (validBits (Hs.ReceiveWindowBits c)))
  end.

(** The history window of a direction. *)
Definition window_for (takeover : bool) (bits : Z) : option Window :=
  if takeover then Some (Window_new bits) else None.

(** The send side of compression in a new connection. *)
Definition newComp `{Flate} (cfg : Config) : compressorContext :=
  match cCompression cfg with
  | None => mkCompressorContext _ None 0 false None None [] [] 0
  | Some c =>
      mkCompressorContext _ (Some c) (Or (Hs.MinSize c) DefaultMinSize) (CompressionShared cfg)
        (window_for (Hs.SendContextTakeover c) (Hs.SendWindowBits c)) None [] [] 0
  end.

(** The write side of what [NewConn] builds; [vectored] is whether the
    transport has a [SyscallConn]. *)
Definition newWrite `{Flate} (cfg : Config) (vectored : bool) : wconn :=
  {| role := cRole cfg; vectored := vectored; fragmentSize := Or (FragmentSize cfg) DefaultFragmentSize;
     tx := Tx.Init Tx.zero (cRole cfg); queue := None; comp := newComp cfg;
     frag := mkFragmentState 0 false false false; out := Net [] 0; ticks := 0;
     userData := cUserData cfg |}.

(** [Prepared], with the variants by level and window bits. *)
Record Prepared := mkPrepared {
  pop : Z;
  pframe : list Z;
  ppayload : list Z;
  variants : list (Z * Z * list Z)
}.

(** An [io.Reader]: its content, and the error it then returns ([EOF] at a
    regular end). *)
Record reader := mkReader { content : list Z; ending : error }.

(** [io.ReadFull] into a buffer of [n] bytes: what was read, the error, the
    reader afterwards. *)
Definition ReadFull (r : reader) (n : Z) : list Z * option error * reader :=
  let rest := {| content := from (content r) n; ending := ending r |} in
  if n <=? len (content r) then (upto (content r) n, None, rest)
  else
    (content r,
     Some (if bool_decide (ending r = Io EOF) && negb (len (content r) =? 0)
           then Io ErrUnexpectedEOF else ending r), rest).

(** What a call returns; [None] is a call that never does. *)
Definition ret := option (option error).

Module Cw.
Section ops.
Context {M : Masker} {G : Grow} {F : Flate} {T : Transport} {W : World}.

(** A call of the sender, with the random bytes it may draw. *)
Definition tx_call {A} (s : wconn) (f : list Z -> Tx.sender -> Tx.sender * A) : wconn * A :=
  let '(t, a) := f (rand (ticks s)) (tx s) in ({| s with tx := t; ticks := ticks s + 1 |}, a).

Definition getCompressor (s : wconn) : wconn * Compressor :=
  ({| s with ticks := ticks s + 1 |}, pooledCompressor (ticks s)).

Definition write (s : wconn) (header body : list Z) : wconn * option error :=
  if len body =? 0 then
    let '(o, err) := net_write (out s) header in ({| s with out := o |}, err)
  else if vectored s then
    let '(o, err) := net_write (out s) (header ++ body) in ({| s with out := o |}, err)
  else if len body <=? coalesceLimit then
    let '(o, err) := net_write (out s) (header ++ body) in ({| s with out := o |}, err)
  else
    let '(o, err) := net_write (out s) header in
    match err with
    | Some _ => ({| s with out := o |}, err)
    | None => let '(o, err) := net_write o body in ({| s with out := o |}, err)
    end.

(** [Ok None] has been written, [Ok (Some seq)] is queued. *)
Definition enqueue (s : wconn) (q : Queue) (header body : list Z) (ext : option (list Z))
    : wconn * result (option Z) :=
  let '(q, r) := Qu.enqueue q pooledArena header body ext in
  ({| s with queue := Some q |}, match r with Ok seq => Ok (Some seq) | Err e => Err e end).

Definition sendFrame (s : wconn) (header body : list Z) : wconn * result (option Z) :=
  match queue s with
  | Some q => enqueue s q header body None
  | None =>
      let '(s, err) := write s header body in
      (s, match err with None => Ok None | Some e => Err e end)
  end.

(** The writer goroutine, from its start or the top of its loop; with nobody
    adding frames it exits at its second look. *)
Fixpoint run (fuel : nat) (s : wconn) : wconn :=
  match fuel, queue s with
  | S fuel, Some q =>
      if negb (running q) then s
      else
        let '(q, work) := Qu.take q in
        if negb work then {| s with queue := Some q |}
        else
          let '(o, err) := Qu.flush q (vectored s) (out s) in
          let q := Qu.finish q err in
          run fuel {| s with queue := Some q; out := o |}
  | _, _ => s
  end.

Definition await (s : wconn) (r : result (option Z)) : wconn * ret :=
  match r with
  | Err e => (s, Some (Some e))
  | Ok None => (s, Some None)
  | Ok (Some seq) =>
      let s := run 2 s in
      (s, match queue s with Some q => Qu.waitLocked q seq | None => None end)
  end.

Definition encodeData (s : wconn) (op : Z) (payload : list Z)
    : wconn * result (list Z * list Z) :=
  if bool_decide (config (comp s) = None) || (len payload <? minSize (comp s))
  then tx_call s (fun rnd t => Tx.Encode rnd t op payload)
  else
    let cc := Cc.applyPending (comp s) in
    let '(s, pooled) :=
      if bool_decide (cattached cc = None) then getCompressor s else (s, pooledCompressor 0) in
    let '(cc, c, shared) := Cc.compressorFor cc pooled in
    let '(c, w, r) := Cmp.Compress c payload (Cc.tagged (window cc)) in
    let cc := {| cc with window := snd <$> w;
                         cattached := if shared : bool then cattached cc else Some c |} in
    let s := {| s with comp := cc |} in
    let '(s, r) :=
      match r with
      | Err e => (s, Err e)
      | Ok bs => tx_call s (fun rnd t => Tx.EncodeCompressed rnd t op bs)
      end in
    if shared : bool then
      let cc := comp s in
      let cc := {| cc with scratch := match r with Ok (_, body) => body | Err _ => [] end |} in
      (* the compressor, reset, goes back to the pool *)
      ({| s with comp := cc |}, match r with Ok (h, _) => Ok (h, scratch cc) | Err e => Err e end)
    else (s, r).

Definition Write (s : wconn) (op : Z) (payload : list Z) : wconn * ret :=
  if negb (op =? Opcode.Text) && negb (op =? Opcode.Binary) then (s, Some (Some (Ws ErrProtocol)))
  else if negb (fop (frag s) =? 0) then (s, Some (Some (Ws ErrMessageOpen)))
  else
    let '(s, r) := encodeData s op payload in
    match r with
    | Err e => (s, Some (Some e))
    | Ok (header, body) => let '(s, r) := sendFrame s header body in await s r
    end.

Definition BeginMessage (s : wconn) (op : Z) : wconn * ret :=
  if negb (op =? Opcode.Text) && negb (op =? Opcode.Binary) then (s, Some (Some (Ws ErrProtocol)))
  else if negb (fop (frag s) =? 0) then (s, Some (Some (Ws ErrMessageOpen)))
  else if Tx.CloseSent (tx s) then (s, Some (Some (Ws ErrClosing)))
  else
    let fr := frag s in
    let fr := {| fr with fop := op; first := true;
                         compressed := negb (bool_decide (config (comp s) = None)) |} in
    let s := {| s with frag := fr |} in
    if compressed fr && bool_decide (cattached (comp s) = None) then
      let '(s, c) := getCompressor s in
      let cc := comp s in
      ({| s with comp := {| cc with cattached := Some c |};
                 frag := {| fr with heldCompressor := true |} |}, Some None)
    else (s, Some None).

Definition endFragmented (s : wconn) (err : option error) : wconn * option error :=
  let fr := frag s in
  let fr := {| fr with fop := 0 |} in
  let s := {| s with frag := fr |} in
  if heldCompressor fr then
    let fr := {| fr with heldCompressor := false |} in
    let s := {| s with frag := fr |} in
    if shared (comp s) || bool_decide (window (comp s) = None)
    then ({| s with comp := Cc.releaseCompressor (comp s) |}, err)
    else (s, err)
  else (s, err).

(** The failing returns of [fragment]. *)
Definition fragment_fail (s : wconn) (e : error) : wconn * result (option Z) :=
  let '(s, _) := endFragmented s (Some e) in (s, Err e).

(** [c.comp.attached.CompressChunk] when there is none is a nil dereference;
    [BeginMessage] has attached one. *)
Definition compress_fragment (s : wconn) (payload : list Z) (final : bool)
    : wconn * result (list Z) :=
  if negb (compressed (frag s)) then (s, Ok payload)
  else
    let cc := Cc.applyPending (comp s) in
    match cattached cc with
    | None => ({| s with comp := cc |}, Err (Other 0))
    | Some c =>
        let '(c, w, r) := Cmp.CompressChunk c payload (Cc.tagged (window cc)) final in
        ({| s with comp := {| cc with window := snd <$> w; cattached := Some c |} |}, r)
    end.

Definition fragment (s : wconn) (payload : list Z) (final : bool) : wconn * result (option Z) :=
  if fop (frag s) =? 0 then (s, Err (Ws ErrNoMessage))
  else
    let op := if first (frag s) then fop (frag s) else Opcode.Continuation in
    let '(s, r) := compress_fragment s payload final in
    match r with
    | Err e => fragment_fail s e
    | Ok payload =>
        let '(s, r) :=
          tx_call s (fun rnd t => Tx.EncodeFragment rnd t op final payload (compressed (frag s))) in
        match r with
        | Err e => fragment_fail s e
        | Ok (header, body) =>
            let '(s, r) := sendFrame s header body in
            match r with
            | Err e => fragment_fail s e
            | Ok seq =>
                let fr := frag s in
                let s := {| s with frag := {| fr with first := false |} |} in
                if final : bool then let '(s, _) := endFragmented s None in (s, Ok seq)
                else (s, Ok seq)
            end
        end
    end.

Definition writeFragment (s : wconn) (payload : list Z) (final : bool) : wconn * ret :=
  let '(s, r) := fragment s payload final in await s r.

Definition WriteChunk (s : wconn) (payload : list Z) : wconn * ret := writeFragment s payload false.
Definition EndMessage (s : wconn) : wconn * ret := writeFragment s [] true.

(** The loop of [WriteFrom]: [cur] is the chunk in hand, [r] the reader. *)
Fixpoint WriteFrom_loop (fuel : nat) (s : wconn) (cur : list Z) (r : reader) (total : Z)
    : wconn * Z * ret :=
  match fuel with
  | O => (s, total, None)
  | S fuel =>
      let '(next, err, r) := ReadFull r (fragmentSize s) in
      match err with
      | Some e =>
          if negb (bool_decide (e = Io EOF)) && negb (bool_decide (e = Io ErrUnexpectedEOF))
          then (s, total, Some (Some e))
          else
            let final := bool_decide (e = Io EOF) in
            let '(s, werr) := writeFragment s cur final in
            match werr with
            | Some None =>
                let total := total + len cur in
                if final : bool then (s, total, Some None)
                else
                  let '(s, werr) := writeFragment s next true in
                  match werr with
                  | Some None => (s, total + len next, Some None)
                  | _ => (s, total, werr)
                  end
            | _ => (s, total, werr)
            end
      | None =>
          let '(s, werr) := writeFragment s cur false in
          match werr with
          | Some None => WriteFrom_loop fuel s next r (total + len cur)
          | _ => (s, total, werr)
          end
      end
  end.

Definition WriteFrom (s : wconn) (op : Z) (r : reader) : wconn * Z * ret :=
  if negb (op =? Opcode.Text) && negb (op =? Opcode.Binary)
  then (s, 0, Some (Some (Ws ErrProtocol)))
  else
    let fuel := length (content r) in
    let '(cur, err, r) := ReadFull r (fragmentSize s) in
    match err with
    | Some e =>
        if bool_decide (e = Io EOF) || bool_decide (e = Io ErrUnexpectedEOF)
        then let '(s, err) := Write s op cur in (s, len cur, err)
        else (s, 0, Some (Some e))
    | None =>
        let '(s, err) := BeginMessage s op in
        match err with
        | Some None => WriteFrom_loop (S fuel) s cur r 0
        | _ => (s, 0, err)
        end
    end.

(** Control frames bypass the queue. *)
Definition send (s : wconn) (op : Z) (payload : list Z) : wconn * ret :=
  if negb (fop (frag s) =? 0) && negb (op =? Opcode.Ping) && negb (op =? Opcode.Pong)
     && negb (op =? Opcode.Close) then (s, Some (Some (Ws ErrMessageOpen)))
  else
    let '(s, r) := tx_call s (fun rnd t => Tx.Encode rnd t op payload) in
    match r with
    | Err e => (s, Some (Some e))
    | Ok (header, body) => let '(s, err) := write s header body in (s, Some err)
    end.

Definition Ping (s : wconn) (payload : list Z) : wconn * ret := send s Opcode.Ping payload.
Definition Pong (s : wconn) (payload : list Z) : wconn * ret := send s Opcode.Pong payload.

Definition Close (s : wconn) (code : Z) (reason : list Z) : wconn * ret :=
  let '(s, r) := tx_call s (fun rnd t => Tx.EncodeClose rnd t code reason) in
  match r with
  | Err e => (s, Some (Some e))
  | Ok (header, body) => let '(s, r) := sendFrame s header body in await s r
  end.

Definition CloseSent (s : wconn) : bool := Tx.CloseSent (tx s).

(** The best-effort close of a failing read: straight to the transport. *)
Definition sendClose (s : wconn) (code : Z) : wconn :=
  if Tx.CloseSent (tx s) then s
  else
    let '(s, r) := tx_call s (fun rnd t => Tx.EncodeClose rnd t code []) in
    match r with
    | Ok (header, body) => (write s header body).1
    | Err _ => s
    end.

(** ** Prepared messages *)

Definition Prepare (op : Z) (payload : list Z) : result Prepared :=
  if negb (op =? Opcode.Text) && negb (op =? Opcode.Binary) then Err (Ws ErrProtocol)
  else
    match Enc.Encode Encoder_zero true op payload None with
    | (_, Some e) => Err e
    | (enc, None) =>
        let header := Enc.HeaderBytes enc in
        let frame := header ++ payload in
        Ok {| pop := op; pframe := frame; ppayload := from frame (len header); variants := [] |}
    end.

(** [fill] appends to the buffer it is given. *)
Definition PrepareAppend (op : Z) (fill : list Z -> result (list Z)) : result Prepared :=
  if negb (op =? Opcode.Text) && negb (op =? Opcode.Binary) then Err (Ws ErrProtocol)
  else
    match fill (zeros MaxHeaderSize) with
    | Err e => Err e
    | Ok buf =>
        if len buf <? MaxHeaderSize then Err (Ws ErrProtocol)
        else
          let payload := from buf MaxHeaderSize in
          match Enc.Encode Encoder_zero true op payload None with
          | (_, Some e) => Err e
          | (enc, None) =>
              let header := Enc.HeaderBytes enc in
              let start := MaxHeaderSize - len header in
              let buf := splice buf start header in
              let frame := from buf start in
              Ok {| pop := op; pframe := frame; ppayload := from frame (len header); variants := [] |}
          end
    end.

(** [cp] is the compressor the pool hands out, should one be needed. *)
Definition compressedFor (p : Prepared) (c : Hs.Compression) (cp : Compressor) : Prepared * list Z :=
  let key := (Hs.Level c, Hs.SendWindowBits c) in
  match list_find (fun v => v.1 = key) (variants p) with
  | Some (_, v) => (p, v.2)
  | None =>
      let '(_, _, r) := Cmp.Compress cp (ppayload p) None in
      let frame :=
        match r with
        | Err _ => pframe p
        | Ok bs =>
            match Enc.EncodeCompressed Encoder_zero true (pop p) bs None with
            | (enc, None) => Enc.HeaderBytes enc ++ bs
            | (_, Some _) => pframe p
            end
        end in
      ({| p with variants := variants p ++ [(key, frame)] |}, frame)
  end.

Definition frameFor (s : wconn) (p : Prepared) : wconn * Prepared * list Z * bool :=
  match config (comp s) with
  | None => (s, p, pframe p, false)
  | Some c =>
      if len (ppayload p) <? minSize (comp s) then (s, p, pframe p, false)
      else
        let '(s, cp) := getCompressor s in
        let '(p, frame) := compressedFor p c cp in (s, p, frame, true)
  end.

Definition preparedFrame (s : wconn) (p : Prepared) : wconn * Prepared * result (list Z) :=
  if negb (fop (frag s) =? 0) then (s, p, Err (Ws ErrMessageOpen))
  else if Tx.CloseSent (tx s) then (s, p, Err (Ws ErrClosing))
  else
    let '(s, p, frame, compressed) := frameFor s p in
    let s := if (compressed : bool) && negb (bool_decide (window (comp s) = None))
             then {| s with comp := Cc.notePrepared (comp s) (ppayload p) |} else s in
    (s, p, Ok frame).

Definition WritePrepared (s : wconn) (p : Prepared) : wconn * Prepared * ret :=
  if decide (role s = Client) then
    let '(s, r) := Write s (pop p) (ppayload p) in (s, p, r)
  else
    let '(s, p, r) := preparedFrame s p in
    match r with
    | Err e => (s, p, Some (Some e))
    | Ok frame =>
        match queue s with
        | Some q => let '(s, r) := enqueue s q [] [] (Some frame) in
                    let '(s, r) := await s r in (s, p, r)
        | None =>
            let '(o, err) := net_write (out s) frame in
            ({| s with out := o |}, p, Some err)
        end
    end.

(** ** The connection's side of the queue (ws/queue.go) *)

Definition NewQueue (s : wconn) (limit : Z) : wconn :=
  {| s with queue := Some (match queue s with Some q => Qu.adjust q limit | None => Qu.new limit end) |}.

Definition Send (s : wconn) (q : Queue) (op : Z) (payload : list Z) : wconn * option error :=
  if negb (op =? Opcode.Text) && negb (op =? Opcode.Binary) then (s, Some (Ws ErrProtocol))
  else if negb (fop (frag s) =? 0) then (s, Some (Ws ErrMessageOpen))
  else
    match Qu.reserve q (len payload) with
    | Some e => (s, Some e)
    | None =>
        let '(s, r) := encodeData s op payload in
        match r with
        | Err e => (s, Some e)
        | Ok (header, body) =>
            let '(s, r) := enqueue s q header body None in
            (s, match r with Ok _ => None | Err e => Some e end)
        end
    end.

Definition SendPrepared (s : wconn) (q : Queue) (p : Prepared) : wconn * Prepared * option error :=
  if decide (role s = Client) then
    let '(s, err) := Send s q (pop p) (ppayload p) in (s, p, err)
  else
    match Qu.reserve q (len (ppayload p)) with
    | Some e => (s, p, Some e)
    | None =>
        let '(s, p, r) := preparedFrame s p in
        match r with
        | Err e => (s, p, Some e)
        | Ok frame =>
            let '(s, r) := enqueue s q [] [] (Some frame) in
            (s, p, match r with Ok _ => None | Err e => Some e end)
        end
    end.

(** [Wait], with the writer run as in [await]. *)
Definition Wait (s : wconn) (q : Queue) : wconn * ret := await s (Ok (Some (enqueued q))).

End ops.
End Cw.
