(* ===== verification/WriteSpec.v ===== *)
(** * What a connection sends is what its peer receives

    The write side of a connection against the peer that reads it: over any
    sequence of calls, the bytes handed to the transport are frames the peer
    accepts, and they carry the messages the calls were given, compressed or
    not, direct or queued. *)

From stdpp Require Import prelude.
From S2P Require Import Prelude Words Mask Errors Header Encoder Decoder Close Receiver Stream Refine Wire Traffic Sender Window Compressor Handshake Queue ConnCompress SendFlow ConnWrite.

(** ** The world's promises *)

(** A transport that takes every write whole. *)
Class Reliable (T : Transport) : Prop := tw_all : forall i p, tw i p = (len p, None).

(** A compressed chunk is a slice of bytes of ordinary length. *)
Class FlateBytes (F : Flate) : Prop := flush_bytes : forall fw p fw1 b1 fw2 b2,
  bytes_ok p -> len p < 2 ^ 62 -> Compressor.Write fw p = (fw1, Ok b1) -> Flush fw1 = (fw2, Ok b2) ->
  payload_ok (b1 ++ b2).

(** Random bytes are four bytes; pooled compressors are reset, with the reach
    [cw] their pool is for; pooled arenas are empty. *)
Class WorldOk `{FlateOk} (W : World) (cw : Z) : Prop := {
  rand_ok t : bytes_ok (rand t) /\ len (rand t) = 4;
  pool_ok t : comp_ok (pooledCompressor t) /\ cwindow (pooledCompressor t) = cw /\
              attached (pooledCompressor t) = None /\ mid (pooledCompressor t) = false;
  arena_ok : ab pooledArena = []
}.

Definition peer_role (ro : Role) : Role := match ro with Client => Server | Server => Client end.

(** ** The transport and the queue *)

Section io.
Context {M : Masker} {G : Grow} {F : Flate} {T : Transport} {R : Reliable T} {W : World}.
Context (Harena : ab pooledArena = []).

(** The bytes that wait. *)
Definition queued (q : Queue) : list Z := concat (Qu.frame_of (cur q) <$> segments q).

(** A queue whose writer is not in the middle of a write. *)
Record q_idle (q : Queue) (fq : list frame) : Prop := {
  qi_ranges : Forall (range_ok (cur q)) (segments q);
  qi_frames : Qu.frame_of (cur q) <$> segments q = wire <$> fq;
  qi_flight : flushSegments q = [];
  qi_err : qerr q = None;
  qi_run : running q = false -> segments q = [];
  qi_count : enqueued q = u64 (enqueued q);
  qi_written : qwritten q = u64 (enqueued q - len (segments q));
  qi_size : size q = len (queued q)
}.

(** [fw] has been written and [fq] is queued. *)
Definition io_ok (s : wconn) (fw fq : list frame) : Prop :=
  written (out s) = concat (wire <$> fw) /\
  match queue s with None => fq = [] | Some q => q_idle q fq end.

(** Only the transport and the queue differ. *)
Definition io_same (s s' : wconn) : Prop := s' = {| s with queue := queue s'; out := out s' |}.

Lemma io_same_refl s : io_same s s.
Proof. by destruct s. Qed.

Lemma io_same_trans s1 s2 s3 : io_same s1 s2 -> io_same s2 s3 -> io_same s1 s3.
Proof. unfold io_same. intros H1 H2. destruct s1, s2, s3. cbn in *. congruence. Qed.

Lemma io_same_fields s s' :
  io_same s s' -> tx s' = tx s /\ comp s' = comp s /\ frag s' = frag s /\ role s' = role s /\
  ticks s' = ticks s /\ fragmentSize s' = fragmentSize s.
Proof. unfold io_same. intros ->. done. Qed.

Lemma net_write_all o p :
  net_write o p = ({| written := written o ++ p; calls := calls o + 1 |}, None).
Proof. unfold net_write. rewrite tw_all. by rewrite upto_all. Qed.

Lemma write_all s h b :
  exists s', Cw.write s h b = (s', None) /\ io_same s s' /\ queue s' = queue s /\
    written (out s') = written (out s) ++ h ++ b.
Proof.
  destruct s as [ro v fs t q cc fr o k]. unfold Cw.write. cbn [vectored out].
  destruct (Z.eqb_spec (len b) 0) as [E | E].
  { apply len_0_nil in E. subst b. rewrite net_write_all, app_nil_r. eexists. split; [reflexivity |]. repeat split. }
  destruct v; [rewrite net_write_all; eexists; (split; [reflexivity |]); repeat split |].
  destruct (len b <=? coalesceLimit); [rewrite net_write_all; eexists; (split; [reflexivity |]); repeat split |].
  rewrite net_write_all, net_write_all. eexists. split; [reflexivity |]. split; [reflexivity |]. cbn.
  by rewrite <- app_assoc.
Qed.

Lemma len_wire_pos f : 0 < len (wire f).
Proof. unfold wire, wire_header. rewrite !len_app. change (len [_; _]) with 2. len_lia. Qed.

Lemma enqueue_size_limit q h b ext q' seq :
  Qu.enqueue q pooledArena h b ext = (q', Ok seq) ->
  size q' = size q + (len h + len b + len (default [] ext)) /\ limit q' = limit q.
Proof. unfold Qu.enqueue. destruct (qerr q); [done |]. by destruct ext; intros [= <- _]; destruct (running q). Qed.

(** What [reserve] lets in: any message when nothing waits, else one that
    fits under the limit. *)
Lemma reserve_idle q fq n :
  q_idle q fq ->
  bool_decide (Qu.reserve q n = None) = bool_decide (segments q = []) || (len (queued q) + n <=? limit q).
Proof.
  intros [H1 H2 H3 H4 H5 H6 H7 H8]. unfold Qu.reserve. rewrite H4, H8.
  assert ((len (queued q) =? 0) = bool_decide (segments q = [])) as ->.
  { unfold queued. rewrite H2. destruct (bool_decide_reflect (segments q = [])) as [E | E].
    - rewrite E in H2. symmetry in H2. apply fmap_nil_inv in H2 as ->. done.
    - apply Z.eqb_neq. destruct fq as [| f fq]; [by apply fmap_nil_inv in H2 |].
      cbn [fmap list_fmap concat]. rewrite len_app. pose proof (len_wire_pos f). pose proof (len_nonneg (concat (wire <$> fq))).
      unfold list_fmap, fmap in *. lia. }
  rewrite Z.leb_antisym. by destruct (bool_decide (segments q = [])), (limit q <? _).
Qed.

Lemma enqueue_idle q fq h b ext f :
  q_idle q fq -> (ext <> None -> h ++ b = []) -> default (h ++ b) ext = wire f ->
  exists q', Qu.enqueue q pooledArena h b ext = (q', Ok (enqueued q')) /\ q_idle q' (fq ++ [f]).
Proof.
  intros [H1 H2 H3 H4 H5 H6 H7 H8] Hext E.
  assert (exists q' seq, Qu.enqueue q pooledArena h b ext = (q', Ok seq)) as (q' & seq & Eq).
  { unfold Qu.enqueue. rewrite H4. by eexists _, _. }
  destruct (enqueue_spec pooledArena Harena q h b ext q' seq H1 Eq)
    as (_ & He & Hr & Hn & -> & Hw & Hf & Hs & Hrg & Hfr).
  exists q'. split; [done |]. constructor; try done.
  - rewrite Hfr, H2, fmap_app, E. done.
  - by rewrite Hs.
  - by rewrite Hr.
  - rewrite Hn. unfold u64. by rewrite Z.mod_mod.
  - assert (len (segments q') = len (segments q) + 1) as El.
    { apply (f_equal len) in Hfr. rewrite len_app, !len_map in Hfr. exact Hfr. }
    rewrite Hw, H7, Hn, El. unfold u64. rewrite Zminus_mod_idemp_l. f_equal. lia.
  - destruct (enqueue_size_limit _ _ _ _ _ _ Eq) as [-> _]. unfold queued in *. rewrite Hfr, concat_app, len_app, H8.
    cbn [concat]. rewrite app_nil_r. destruct ext as [x |]; cbn [default] in *.
    + assert (len (h ++ b) = 0) as Hl by (by rewrite Hext). rewrite len_app in Hl. lia.
    + rewrite len_app. change (len []) with 0. lia.
Qed.

(** The writer goroutine, run until it exits, writes what is queued. *)
Lemma run_all s fw fq :
  io_ok s fw fq ->
  io_ok (Cw.run 2 s) (fw ++ fq) [] /\ io_same s (Cw.run 2 s) /\
  forall q, queue s = Some q -> exists q', queue (Cw.run 2 s) = Some q' /\ enqueued q' = enqueued q.
Proof.
  intros [Ho Hq]. cbn [Cw.run]. destruct (queue s) as [q |] eqn:Eq.
  2: { subst fq. rewrite app_nil_r. split; [split; [done |]; by rewrite Eq |]. split; [apply io_same_refl | done]. }
  destruct Hq as [H1 H2 H3 H4 H5 H6 H7 H8].
  assert (segments q = [] -> fq = []) as Hnil.
  { intros E. rewrite E in H2. symmetry in H2. by apply fmap_nil_inv in H2. }
  destruct (running q) eqn:Er; cbn [negb].
  2: { assert (fq = []) as -> by auto. rewrite app_nil_r. split; [split; [done |]; rewrite Eq; constructor; try done; intros _; by apply H5 |].
       split; [apply io_same_refl | intros ? [= <-]; by exists q]. }
  unfold Qu.take. rewrite (bool_decide_eq_true_2 (qerr q = None)), orb_false_r by done.
  destruct (bool_decide_reflect (segments q = [])) as [Es | Es]; cbn [negb].
  - assert (fq = []) as -> by auto. rewrite app_nil_r. split.
    + split; [done |]. by constructor.
    + split; [reflexivity |]. intros ? [= <-]. by eexists.
  - set (q1 := {| q with cur := None; flushing := cur q; segments := []; flushSegments := segments q; size := 0 |}).
    destruct (Qu.flush q1 (vectored s) (out s)) as [o err] eqn:Ef.
    assert (err = None) as ->.
    { unfold Qu.flush in Ef. destruct (flushSegments q1) as [| ? [| ? ?]]; [destruct (vectored s) | |
        destruct (vectored s)]; rewrite net_write_all in Ef; by injection Ef as _ <-. }
    assert (TransportOk T) as HT.
    { split; intros i p; rewrite tw_all; cbn; [pose proof (len_nonneg p) |]; lia. }
    apply flush_ok in Ef. cbn [flushing flushSegments q1] in Ef.
    cbn [Cw.run queue]. unfold Qu.finish, Qu.take. cbn. rewrite Er. cbn. rewrite H4. cbn.
    split; [| split; [reflexivity |]; intros ? [= <-]; by eexists].
    split; [cbn; by rewrite Ef, Ho, H2, fmap_app, concat_app |]. cbn.
    constructor; cbn; try done. rewrite H7. unfold u64. rewrite Zplus_mod_idemp_l.
    f_equal. change (len (@nil segment)) with 0. lia.
Qed.

Lemma await_all s fw fq x :
  io_ok s fw fq -> (forall seq, x = Some seq -> exists q, queue s = Some q /\ seq = enqueued q) ->
  exists s', Cw.await s (Ok x) = (s', Some None) /\ io_same s s' /\
    exists fw' fq', io_ok s' fw' fq' /\ fw' ++ fq' = fw ++ fq.
Proof.
  intros Hio Hx. destruct x as [seq |]; cbn [Cw.await].
  2: { exists s. split; [done |]. split; [apply io_same_refl |]. by exists fw, fq. }
  destruct (Hx seq eq_refl) as (q & Eq & ->). destruct (run_all s fw fq Hio) as (Hio' & Hs & Hq).
  destruct (Hq q Eq) as (q' & Eq' & En). rewrite Eq'. exists (Cw.run 2 s). split; [| split; [done |]].
  - f_equal. pose proof Hio' as [_ Hi]. rewrite Eq' in Hi. destruct Hi as [I1 I2 I3 I4 I5 I6 I7 _].
    unfold Qu.waitLocked. rewrite I4.
    assert (segments q' = []) as Es by (by apply fmap_nil_inv in I2).
    rewrite Es in I7. change (len (@nil segment)) with 0 in I7. rewrite Z.sub_0_r, <- I6 in I7.
    rewrite I7, En, Z.ltb_irrefl. done.
  - exists (fw ++ fq), []. split; [done |]. by rewrite app_nil_r.
Qed.

(** A frame handed to [sendFrame], and then waited for. *)
Lemma sendFrame_all s fw fq h b f :
  io_ok s fw fq -> h ++ b = wire f ->
  exists s' x, Cw.sendFrame s h b = (s', Ok x) /\ io_same s s' /\
    (forall seq, x = Some seq -> exists q, queue s' = Some q /\ seq = enqueued q) /\
    exists fw' fq', io_ok s' fw' fq' /\ fw' ++ fq' = (fw ++ fq) ++ [f].
Proof.
  intros [Ho Hq] E. unfold Cw.sendFrame, Cw.enqueue. destruct (queue s) as [q |] eqn:Eq.
  - destruct (enqueue_idle q fq h b None f Hq ltac:(done) E) as (q' & -> & Hq'). eexists _, _. split; [reflexivity |].
    split; [reflexivity |]. split; [intros ? [= <-]; by exists q' |]. exists fw, (fq ++ [f]).
    split; [by split | by rewrite app_assoc].
  - subst fq. destruct (write_all s h b) as (s' & -> & Hs & Hq' & Hw). eexists _, _. split; [reflexivity |].
    split; [done |]. split; [done |]. exists (fw ++ [f]), []. rewrite !app_nil_r. split; [| done].
    split; [rewrite Hw, Ho, E, fmap_app, concat_app; cbn; by rewrite app_nil_r | by rewrite Hq', Eq].
Qed.
End io.
