(* ===== verification/Delivery.v ===== *)
(** * Delivery: the invariant of the write side, call by call

    [trace] says what the frames submitted so far are worth to the peer,
    [link] ties the connection's state to where the peer then stands, and each
    call keeps both. *)

From stdpp Require Import prelude.
From S2P Require Import Prelude Words Mask Errors Header Encoder Decoder Close Receiver Stream Refine Wire Traffic Sender Window Compressor Handshake Queue ConnCompress SendFlow ConnWrite WriteSpec.

(** A payload an application may send. *)
Definition sendable (p : list Z) : Prop := bytes_ok p /\ len p < 2 ^ 62.

Lemma sendable_payload p : sendable p -> payload_ok p.
Proof. intros [H1 H2]. split; [done | lia]. Qed.

Section delivery.
Context {M : Masker} `{!MaskerOk M} {G : Grow} `{!GrowOk G} {F : Flate} {FO : FlateOk F} {FB : FlateBytes F}.
Context {T : Transport} {R : Reliable T} {W : World} (cw : Z) {WO : WorldOk W cw}.
Context (ro : Role) (cfg : option Hs.Compression) (w0 : option Window).

#[local] Abbreviation pr := (peer_role ro).
#[local] Abbreviation cmp := (negb (bool_decide (cfg = None))).

(** ** What the peer has *)

(** Messages off the wire and what they decode to, with the peer's history
    window before and after. *)
Inductive decoded : list raw_message -> list (Z * list Z) -> option Window -> Prop :=
  | dec_nil : decoded [] [] w0
  | dec_plain rs ms v op p :
      decoded rs ms v -> decoded (rs ++ [(op, false, p)]) (ms ++ [(op, p)]) v
  | dec_comp rs ms v op data p :
      decoded rs ms v -> inflates (Win.dict v) (data ++ sync_tail) p ->
      decoded (rs ++ [(op, true, data)]) (ms ++ [(op, p)]) ((fun v => Win.remember v p) <$> v).

Record trace (fs : list frame) (ms : list (Z * list Z)) (sp : spec) (raws : list raw_message)
    (cur : option raw_message) (peer : option Window) : Prop := {
  tr_ok : Forall frame_ok fs;
  tr_legal : legal_run pr cmp spec_init fs = Some sp;
  tr_asm : assembled fs = (raws, cur);
  tr_dec : decoded raws ms peer
}.

Lemma trace_snoc fs ms sp raws cur peer f ms' raws' cur' peer' :
  trace fs ms sp raws cur peer -> frame_ok f -> may_follow pr cmp sp f = true ->
  asm_step (raws, cur) f = (raws', cur') -> decoded raws' ms' peer' ->
  trace (fs ++ [f]) ms' (step_spec sp f) raws' cur' peer'.
Proof.
  intros [H1 H2 H3 H4] Hf Hm Ha Hd. constructor.
  - apply Forall_app. split; [done | by constructor].
  - by apply legal_run_snoc.
  - by rewrite assembled_snoc, H3.
  - done.
Qed.

Lemma spec_init_at : at_frame spec_init.
Proof. by left. Qed.

Lemma legal_closed sp fs sp' : closed sp = true -> legal_run pr cmp sp fs = Some sp' -> closed sp' = true.
Proof.
  intros Hc. induction fs as [| f fs IH]; cbn; [by intros [= <-] |]. unfold step_spec. rewrite Hc.
  by destruct (may_follow pr cmp sp f).
Qed.

(** A ping or pong written past the queue. *)
Lemma trace_insert fw fq ms sp raws cur peer f :
  trace (fw ++ fq) ms sp raws cur peer -> frame_ok f -> is_ping f ->
  (forall sp1, at_frame sp1 -> (closed sp1 = true -> closed sp = true) -> may_follow pr cmp sp1 f = true) ->
  trace ((fw ++ [f]) ++ fq) ms sp raws cur peer.
Proof.
  intros [H1 H2 H3 H4] Hf Hp Hm. rewrite legal_run_app in H2.
  destruct (legal_run pr cmp spec_init fw) as [sp1 |] eqn:E; [| done].
  apply Forall_app in H1 as [H1 H1']. constructor.
  - rewrite !Forall_app. split_and!; try done. by constructor.
  - apply (legal_run_insert _ _ _ _ _ _ sp1); try done; [apply spec_init_at |].
    apply Hm; [by eapply legal_run_at_frame; [apply spec_init_at |] |].
    intros Hc. by eapply legal_closed.
  - by rewrite assembled_insert.
  - done.
Qed.

(** ** Frames of ours that may follow *)

Definition masked_right (key : option (list Z)) : Prop := is_Some key <-> ro = Client.

Lemma tx_key_right t rnd : Tx.role t = ro -> masked_right (tx_key t rnd).
Proof.
  unfold masked_right, tx_key. intros ->. case_decide; split; intros X; try done; by destruct X.
Qed.

Lemma mask_bit key : masked_right key -> Bool.eqb (bool_decide (is_Some key)) (bool_decide (pr = Server)) = true.
Proof.
  unfold masked_right, peer_role. intros [H1 H2]. destruct ro.
  - rewrite bool_decide_eq_false_2; [done |]. intros X. by apply H1 in X.
  - rewrite bool_decide_eq_true_2; [done |]. by apply H2.
Qed.

Lemma start_follows sp fin rsv op key p :
  s_mode sp = MHead [] -> s_msg sp = 0 -> starts op = true -> masked_right key -> (rsv = true -> cmp = true) ->
  may_follow pr cmp sp (Frame fin rsv op key p) = true.
Proof.
  intros Hm Hs Hop Hk Hr. unfold may_follow, closed, frame_legal, legal, starts in *. rewrite Hm. cbn [f_key f_op f_final f_rsv1 f_data].
  rewrite (mask_bit key Hk), Hop, Hs. cbn [andb Z.eqb negb].
  assert (negb rsv || cmp = true) as -> by (destruct rsv; [by rewrite Hr | done]).
  apply orb_prop in Hop as [->%Z.eqb_eq | ->%Z.eqb_eq]; done.
Qed.

Lemma cont_follows sp fin key p :
  s_mode sp = MHead [] -> s_msg sp <> 0 -> masked_right key ->
  may_follow pr cmp sp (Frame fin false Opcode.Continuation key p) = true.
Proof.
  intros Hm Hs Hk. unfold may_follow, closed, frame_legal, legal. rewrite Hm. cbn [f_key f_op f_final f_rsv1 f_data].
  rewrite (mask_bit key Hk). cbn. by destruct (Z.eqb_spec (s_msg sp) 0).
Qed.

Lemma ctl_follows sp op key p :
  s_mode sp = MHead [] -> op = Opcode.Close /\ validateClose p = None \/ op = Opcode.Ping \/ op = Opcode.Pong ->
  len p <= 125 -> masked_right key -> may_follow pr cmp sp (Frame true false op key p) = true.
Proof.
  intros Hm Hop Hl Hk. unfold may_follow, closed, frame_legal, legal. rewrite Hm. cbn [f_key f_op f_final f_rsv1 f_data].
  rewrite (mask_bit key Hk). apply Z.leb_le in Hl.
  destruct Hop as [[-> Hv] | [-> | ->]]; cbn; rewrite Hl; [| done..]. by rewrite bool_decide_eq_true_2.
Qed.

Lemma pong_follows sp key p :
  at_frame sp -> len p <= 125 -> masked_right key -> may_follow pr cmp sp (Frame true false Opcode.Pong key p) = true.
Proof.
  intros [Hm | Hm] Hl Hk; [apply ctl_follows; auto |]. unfold may_follow, closed. by rewrite Hm.
Qed.

Lemma step_start sp fin rsv op key p :
  s_mode sp = MHead [] -> starts op = true ->
  s_mode (step_spec sp (Frame fin rsv op key p)) = MHead [] /\
  s_msg (step_spec sp (Frame fin rsv op key p)) = if fin then 0 else op.
Proof.
  intros Hm Hop. unfold step_spec, closed, frame_events. rewrite Hm. cbn [f_op f_final f_rsv1 f_data]. rewrite Hop.
  unfold starts in Hop. apply orb_prop in Hop as [->%Z.eqb_eq | ->%Z.eqb_eq]; by destruct fin.
Qed.

Lemma step_cont sp fin key p :
  s_mode sp = MHead [] ->
  s_mode (step_spec sp (Frame fin false Opcode.Continuation key p)) = MHead [] /\
  s_msg (step_spec sp (Frame fin false Opcode.Continuation key p)) = if fin then 0 else s_msg sp.
Proof. intros Hm. unfold step_spec, closed, frame_events. rewrite Hm. by destruct fin. Qed.

Lemma step_close sp key p :
  s_mode sp = MHead [] -> validateClose p = None -> closed (step_spec sp (Frame true false Opcode.Close key p)) = true.
Proof. intros Hm Hv. unfold step_spec, closed, frame_events, end_control. rewrite Hm. cbn. by rewrite Hv. Qed.

(** ** The connection's state *)

Definition base_ok (s : wconn) : Prop :=
  tx_ok (tx s) /\ Tx.role (tx s) = ro /\ role s = ro /\ config (comp s) = cfg.

(** Compression between messages. *)
Definition idle_comp (cc : compressorContext) (peer : option Window) (n : Z) : Prop :=
  win_sync cw cc peer n /\ forall c, cattached cc = Some c -> att_sync cw cc c /\ mid c = false.

(** The open fragmented message, with what has been sent of it. *)
Definition link (s : wconn) (sp : spec) (cur : option raw_message) (peer : option Window)
    (o : option (Z * list Z)) (n : Z) : Prop :=
  s_mode sp = MHead [] /\
  match o with
  | None => fop (frag s) = 0 /\ s_msg sp = 0 /\ cur = None /\ idle_comp (comp s) peer n
  | Some (op, data) =>
      fop (frag s) = op /\ starts op = true /\ compressed (frag s) = cmp /\
      (cmp = true -> cattached (comp s) <> None) /\
      if first (frag s) then data = [] /\ s_msg sp = 0 /\ cur = None /\ idle_comp (comp s) peer n
      else
        s_msg sp = op /\
        exists bs, cur = Some (op, cmp, bs) /\
          if cmp then exists c, cattached (comp s) = Some c /\ mid c = true /\
            strm cw (comp s) c peer data n /\ inflates (Win.dict peer) bs data
          else bs = data /\ idle_comp (comp s) peer n
  end.

Record ghost := Ghost { g_open : option (Z * list Z); g_sent : list (Z * list Z) }.

Definition winv (s : wconn) (fs : list frame) (g : ghost) (n : Z) : Prop :=
  base_ok s /\ exists sp raws cur peer,
    trace fs (g_sent g) sp raws cur peer /\
    if Tx.closeSent (tx s) then closed sp = true else link s sp cur peer (g_open g) n.

(** Only the sender, the compression context and the draws differ. *)
Definition tx_same (s s' : wconn) : Prop :=
  queue s' = queue s /\ out s' = out s /\ frag s' = frag s.

Lemma tx_same_io s s' fw fq : tx_same s s' -> io_ok s fw fq -> io_ok s' fw fq.
Proof. intros (E1 & E2 & _). unfold io_ok. by rewrite E1, E2. Qed.

Lemma io_same_base s s' : io_same s s' -> base_ok s -> base_ok s'.
Proof. intros H. destruct (io_same_fields _ _ H) as (E1 & E2 & _ & E3 & _). unfold base_ok. by rewrite E1, E2, E3. Qed.

(** ** Calls of the sender *)

Lemma tx_call_ok s c :
  base_ok s -> call_ok c -> call_allowed (Tx.closeSent (tx s)) c = true ->
  exists t h b key, Cw.tx_call s (fun rnd t => do_call rnd t c)
      = ({| s with tx := t; ticks := ticks s + 1 |}, Ok (h, b)) /\
    tx_ok t /\ Tx.role t = ro /\ Tx.closeSent t = Tx.closeSent (tx s) || (call_op c =? Opcode.Close) /\
    h ++ b = wire (call_frame c key) /\ frame_ok (call_frame c key) /\ masked_right key.
Proof.
  intros (Ht & Hr & Hro & _) Hc Ha. unfold Cw.tx_call.
  pose proof (do_call_post (rand (ticks s)) (rand_ok _) (tx s) c Ht Hc) as H.
  destruct (do_call (rand (ticks s)) (tx s) c) as [t o]. unfold call_post in H. rewrite Ha in H.
  destruct H as (Ht' & ((h & b & -> & Hw) & Hf & Hr' & _ & Hcl)).
  exists t, h, b, (tx_key (tx s) (rand (ticks s))). split_and!; try done; [congruence | | by apply tx_key_right].
  rewrite Hcl. by destruct c.
Qed.

Lemma tx_call_refused s c :
  base_ok s -> call_ok c -> call_allowed (Tx.closeSent (tx s)) c = false ->
  exists t e, Cw.tx_call s (fun rnd t => do_call rnd t c)
      = ({| s with tx := t; ticks := ticks s + 1 |}, Err e) /\
    tx_ok t /\ Tx.role t = ro /\ Tx.closeSent t = Tx.closeSent (tx s).
Proof.
  intros (Ht & Hr & Hro & _) Hc Ha. unfold Cw.tx_call.
  pose proof (do_call_post (rand (ticks s)) (rand_ok _) (tx s) c Ht Hc) as H.
  destruct (do_call (rand (ticks s)) (tx s) c) as [t o]. unfold call_post in H. rewrite Ha in H.
  destruct H as (Ht' & ((e & ->) & Hr' & Hcl)). exists t, e. split_and!; try done. congruence.
Qed.

(** After a close the sender refuses data whatever it is given. *)
Lemma closed_Encode rnd t op p :
  Tx.closeSent t = true -> starts op = true -> Tx.Encode rnd t op p = (t, Err (Ws ErrClosing)).
Proof.
  intros Hc Hop. unfold Tx.Encode, Tx.encode. rewrite Hc. unfold starts in Hop.
  by apply orb_prop in Hop as [->%Z.eqb_eq | ->%Z.eqb_eq].
Qed.

Lemma closed_EncodeCompressed rnd t op p :
  Tx.closeSent t = true -> starts op = true -> Tx.EncodeCompressed rnd t op p = (t, Err (Ws ErrClosing)).
Proof.
  intros Hc Hop. unfold Tx.EncodeCompressed, Tx.encode. rewrite Hc. unfold starts in Hop.
  by apply orb_prop in Hop as [->%Z.eqb_eq | ->%Z.eqb_eq].
Qed.

Lemma closed_EncodeFragment rnd t op fin p c :
  Tx.closeSent t = true -> exists e, Tx.EncodeFragment rnd t op fin p c = (t, Err e).
Proof.
  intros Hc. unfold Tx.EncodeFragment, Tx.encodeFrame. rewrite Hc.
  destruct (Z.eqb_spec op Opcode.Text) as [-> | _]; [by eexists |].
  destruct (Z.eqb_spec op Opcode.Binary) as [-> | _]; [by eexists |].
  destruct (Z.eqb_spec op Opcode.Continuation) as [-> | _]; by eexists.
Qed.

Lemma chunk_payload_ok c p w final c' w' o :
  sendable p -> Cmp.CompressChunk c p w final = (c', w', Ok o) -> payload_ok o.
Proof.
  intros [Hb Hl]. unfold Cmp.CompressChunk.
  assert (output (Cmp.prime {| c with output := [] |} w) = []) as Eo by (unfold Cmp.prime; by destruct (Cmp.stale _ _)).
  set (c1 := Cmp.prime {| c with output := [] |} w) in *. clearbody c1.
  destruct (Compressor.Write (writer c1) p) as [fw1 [b1 | e]] eqn:E1; [| done].
  cbn [writer]. destruct (Flush fw1) as [fw2 [b2 | e]] eqn:E2; [| done].
  pose proof (flush_bytes _ _ _ _ _ _ Hb Hl E1 E2) as Hp. cbn [output]. rewrite Eo. cbn [app].
  assert (payload_ok (if final then upto (b1 ++ b2) (len (b1 ++ b2) - 4) else b1 ++ b2)) as Hp'.
  { destruct final; [| done]. destruct Hp as [Hp1 Hp2]. split; [by apply bytes_ok_upto |]. rewrite len_upto. lia. }
  destruct w as [[i w] |]; cbn; intros [= <- <- <-]; exact Hp'.
Qed.

(** ** Encoding a message *)

Lemma tagged_snd w : snd <$> Cc.tagged w = w.
Proof. by destruct w. Qed.

Lemma compress_message cc c peer p n :
  0 <= n -> win_sync cw cc peer (1 + n) -> pending cc = [] -> att_sync cw cc c -> mid c = false -> sendable p ->
  exists c' w' body, Cmp.Compress c p (Cc.tagged (window cc)) = (c', Cc.tagged w', Ok body) /\ payload_ok body /\
    inflates (Win.dict peer) (body ++ sync_tail) p /\ mid c' = false /\
    att_sync cw {| cc with window := w' |} c' /\
    win_sync cw {| cc with window := w' |} ((fun v => Win.remember v p) <$> peer) n.
Proof.
  intros Hn Hw Hp Ha Hm Hs. pose proof (start_strm cw cc c peer (1 + n) Hw Hp Ha Hm) as Hst.
  destruct (chunk_strm cw cc c peer [] p true n Hn Hst) as (c' & w' & body & E & Hi & Hm' & Ha' & _ & Hw').
  exists c', w', body. split; [done |]. split; [by eapply chunk_payload_ok |].
  rewrite app_nil_r in Hi. split; [done |]. split; [done |]. split; [done |]. by apply Hw'.
Qed.

Lemma pool_sync t cc : att_sync cw cc (pooledCompressor t) /\ mid (pooledCompressor t) = false.
Proof.
  destruct (pool_ok t) as (H1 & H2 & H3 & H4). split; [| done]. split; [done |]. split; [done |].
  destruct (window cc); [| done]. by rewrite H3.
Qed.

(** What [encodeData] made of a message: the frame, and compression after it. *)
Definition encoded (peer : option Window) (op : Z) (p : list Z) (n : Z) (cc' : compressorContext) (f : frame) : Prop :=
  frame_ok f /\ exists key rsv data, f = Frame true rsv op key data /\ masked_right key /\ (rsv = true -> cmp = true) /\
    if rsv : bool then inflates (Win.dict peer) (data ++ sync_tail) p /\
                idle_comp cc' ((fun v => Win.remember v p) <$> peer) n
    else data = p /\ idle_comp cc' peer n.

Lemma idle_weaken cc peer n m : m <= n -> idle_comp cc peer n -> idle_comp cc peer m.
Proof. intros Hm [H1 H2]. split; [by eapply win_sync_weaken | done]. Qed.

Lemma encode_allowed op p : starts op = true -> call_allowed false (CEncode op p) = true /\ (call_op (CEncode op p) =? Opcode.Close) = false.
Proof. intros Hop. unfold call_allowed, call_op. cbn. rewrite Hop. unfold starts in Hop.
  by apply orb_prop in Hop as [->%Z.eqb_eq | ->%Z.eqb_eq]. Qed.

Lemma encodeData_open s op p peer n :
  0 <= n -> base_ok s -> Tx.closeSent (tx s) = false -> starts op = true -> sendable p ->
  idle_comp (comp s) peer (1 + n) ->
  exists s' h b f, Cw.encodeData s op p = (s', Ok (h, b)) /\ h ++ b = wire f /\ tx_same s s' /\
    base_ok s' /\ Tx.closeSent (tx s') = false /\ encoded peer op p n (comp s') f.
Proof.
  intros Hn Hb Hc Hop Hs [Hw Ha]. pose proof Hb as (_ & _ & Hro & Hcfg). unfold Cw.encodeData.
  destruct (bool_decide (config (comp s) = None) || (len p <? minSize (comp s))) eqn:Ep.
  - destruct (encode_allowed op p Hop) as [Hal Hcl].
    change (fun rnd t => Tx.Encode rnd t op p) with (fun rnd t => do_call rnd t (CEncode op p)).
    destruct (tx_call_ok s (CEncode op p) Hb) as (t & h & b & key & -> & Ht & Hr & Hc' & Hwi & Hf & Hk);
      [by apply sendable_payload | by rewrite Hc |].
    eexists _, h, b, _. split; [reflexivity |]. split; [exact Hwi |]. split; [done |]. split; [done |].
    split; [cbn; by rewrite Hc', Hc, Hcl |]. split; [done |]. exists key, false, p. split_and!; try done.
    apply (idle_weaken _ _ (1 + n)); [lia | by split].
  - apply orb_false_elim in Ep as [Ec _]. apply bool_decide_eq_false in Ec. rewrite Hcfg in Ec.
    destruct (apply_win_sync cw (comp s) peer (1 + n) ltac:(lia) Hw) as [Hw1 Hp1].
    set (cc1 := Cc.applyPending (comp s)) in *.
    assert (forall c, cattached cc1 = Some c -> att_sync cw cc1 c /\ mid c = false) as Ha1.
    { intros c Ec1. destruct (Ha c Ec1) as [Hac Hmc]. split; [| done]. apply apply_att_sync; [apply Hw | | done].
      intros w Ew. eapply win_sync_gen; [| exact Hw | exact Ew]. lia. }
    assert (config cc1 = cfg) as Hcfg1 by done. clearbody cc1.
    set (sel := if bool_decide (cattached cc1 = None) then _ else _).
    assert (exists k q, sel = ({| s with ticks := k |}, pooledCompressor q)) as (k & q & ->).
    { subst sel. unfold Cw.getCompressor. destruct (bool_decide _); [by eexists _, _ |]. exists (ticks s), 0. by destruct s. }
    assert (exists c cc2 sh, Cc.compressorFor cc1 (pooledCompressor q) = (cc2, c, sh) /\ att_sync cw cc1 c /\
      mid c = false /\ window cc2 = window cc1 /\ pending cc2 = pending cc1 /\ pendingBytes cc2 = pendingBytes cc1 /\
      config cc2 = cfg /\ (sh = true -> cattached cc2 = None)) as (c & cc2 & sh & -> & Hac & Hmc & E1 & E2 & E3 & E4 & E5).
    { unfold Cc.compressorFor. destruct (cattached cc1) as [c |] eqn:Ec1.
      - destruct (Ha1 c eq_refl). exists c, cc1, false. by split_and!.
      - destruct (pool_sync q cc1) as [Hpa Hpm].
        destruct (_ || _); eexists _, _, _; (split; [reflexivity |]); by split_and!. }
    destruct (compress_message cc1 c peer p n Hn Hw1 Hp1 Hac Hmc Hs)
      as (c' & w' & body & Ecomp & Hpb & Hinf & Hm' & Ha' & Hw'). rewrite E1, Ecomp, tagged_snd.
    set (cc3 := {| cc2 with window := w'; cattached := _ |}).
    assert (idle_comp cc3 ((fun v => Win.remember v p) <$> peer) n) as Hidle.
    { split.
      - destruct Hw' as [Hp' Hw']. unfold win_sync, pending_ok, owed in *. cbn in *. by rewrite E2, E3.
      - intros c2. subst cc3. cbn. destruct sh; [by rewrite E5 | intros [= <-]; by split]. }
    change (fun rnd t => Tx.EncodeCompressed rnd t op body) with (fun rnd t => do_call rnd t (CCompressed op body)).
    assert (call_allowed false (CCompressed op body) = true /\ (call_op (CCompressed op body) =? Opcode.Close) = false) as [Hal Hcl].
    { unfold call_allowed, call_op. cbn. rewrite Hop. unfold starts in Hop.
      by apply orb_prop in Hop as [->%Z.eqb_eq | ->%Z.eqb_eq]. }
    set (s2 := {| s with ticks := k; comp := cc3 |}).
    match goal with |- context [Cw.tx_call ?x] => change x with s2 end.
    assert (base_ok s2) as Hb2 by (destruct Hb as (B1 & B2 & B3 & _); done).
    destruct (tx_call_ok s2 (CCompressed op body) Hb2) as (t & h & b & key & -> & Ht & Hr & Hc' & Hwi & Hf & Hk);
      [done | cbn; by rewrite Hc |].
    change (tx s2) with (tx s) in Hc'. rewrite Hc, Hcl in Hc'.
    assert (forall cc4, window cc4 = window cc3 -> cattached cc4 = cattached cc3 -> pending cc4 = pending cc3 ->
      pendingBytes cc4 = pendingBytes cc3 ->
      encoded peer op p n cc4 (call_frame (CCompressed op body) key)) as Henc.
    { intros cc4 F1 F2 F3 F4. split; [done |]. exists key, true, body. split_and!; try done.
      - intros _. by rewrite bool_decide_eq_false_2.
      - destruct Hidle as [[I1 I2] I3]. unfold idle_comp, win_sync, att_sync, pending_ok, owed in *.
        by rewrite F1, F2, F3, F4. }
    destruct sh; eexists _, h, b, _; (split; [reflexivity |]); (split; [exact Hwi |]); (split; [done |]);
      (split; [done |]); (split; [exact Hc' |]); apply Henc; done.
Qed.

Lemma encodeData_closed s op p :
  base_ok s -> Tx.closeSent (tx s) = true -> starts op = true ->
  exists s' e, Cw.encodeData s op p = (s', Err e) /\ tx_same s s' /\ base_ok s' /\ Tx.closeSent (tx s') = true.
Proof.
  intros Hb Hc Hop. pose proof Hb as (B1 & B2 & B3 & B4). unfold Cw.encodeData, Cw.tx_call.
  destruct (_ || _).
  { rewrite closed_Encode by done. eexists _, _. split; [reflexivity |]. done. }
  set (cc1 := Cc.applyPending (comp s)). assert (config cc1 = cfg) as Hcfg1 by done. clearbody cc1.
  set (sel := if bool_decide (cattached cc1 = None) then _ else _).
  assert (exists k q, sel = ({| s with ticks := k |}, pooledCompressor q)) as (k & q & ->).
  { subst sel. unfold Cw.getCompressor. destruct (bool_decide _); [by eexists _, _ |]. exists (ticks s), 0. by destruct s. }
  assert (exists c cc2 sh, Cc.compressorFor cc1 (pooledCompressor q) = (cc2, c, sh) /\ config cc2 = cfg)
    as (c & cc2 & sh & -> & E).
  { unfold Cc.compressorFor. destruct (cattached cc1); [by eexists _, _, _ |].
    destruct (_ || _); by eexists _, _, _. }
  destruct (Cmp.Compress c p (Cc.tagged (window cc2))) as [[c' w'] [body | e]].
  - cbn [tx]. rewrite closed_EncodeCompressed by done.
    destruct sh; eexists _, _; (split; [reflexivity |]); done.
  - destruct sh; eexists _, _; (split; [reflexivity |]); done.
Qed.
End delivery.
