(* ===== verification/Calls.v ===== *)
(** * Delivery, continued: every call of the write side

    Each call keeps the invariant of [Delivery], succeeds exactly when its
    contract says, and on success adds to what the peer receives. *)

From stdpp Require Import prelude.
From S2P Require Import Prelude Words Mask Errors Header Encoder Decoder Close Receiver Stream Refine Wire Traffic Sender Window Compressor Handshake Queue ConnCompress SendFlow ConnWrite WriteSpec Delivery.

Section calls.
Context {M : Masker} `{!MaskerOk M} {G : Grow} `{!GrowOk G} {F : Flate} {FO : FlateOk F} {FB : FlateBytes F}.
Context {T : Transport} {R : Reliable T} {W : World} (cw : Z) {WO : WorldOk W cw}.
Context (ro : Role) (cfg : option Hs.Compression) (w0 : option Window).

#[local] Abbreviation pr := (peer_role ro).
#[local] Abbreviation cmp := (negb (bool_decide (cfg = None))).
#[local] Abbreviation winv := (winv cw ro cfg w0).
#[local] Abbreviation base_ok := (base_ok ro cfg).
#[local] Abbreviation link := (link cw cfg).
#[local] Abbreviation trace := (trace ro cfg w0).
#[local] Abbreviation idle_comp := (idle_comp cw).
#[local] Abbreviation encoded := (encoded cw ro cfg).

Definition post (s : wconn) (g : ghost) (n : Z) : Prop :=
  exists fw fq, io_ok s fw fq /\ winv s (fw ++ fq) g n.

Lemma link_same s s' sp cur peer o n :
  comp s' = comp s -> frag s' = frag s -> link s sp cur peer o n -> link s' sp cur peer o n.
Proof. intros E1 E2. unfold Delivery.link. by rewrite E1, E2. Qed.

Lemma winv_io s s' fs g n : io_same s s' -> winv s fs g n -> winv s' fs g n.
Proof.
  intros Hs [Hb (sp & raws & cur & peer & Ht & Hl)]. split; [by eapply io_same_base |].
  destruct (io_same_fields _ _ Hs) as (E1 & E2 & E3 & _). exists sp, raws, cur, peer. split; [done |].
  rewrite E1. destruct (Tx.closeSent (tx s)); [done |]. by apply (link_same s).
Qed.

Lemma strm_weaken cc c peer sofar n m : m <= n -> strm cw cc c peer sofar n -> strm cw cc c peer sofar m.
Proof.
  intros Hm (H1 & H2 & H3 & H4 & H5 & H6). split_and!; try done. destruct (window cc), peer; try done.
  destruct H6 as (? & ? & ? & ? & ? & ? & ?). split_and!; done || lia.
Qed.

Lemma link_weaken s sp cur peer o n m : m <= n -> link s sp cur peer o n -> link s sp cur peer o m.
Proof.
  intros Hm [H1 H2]. split; [done |]. destruct o as [[op data] |].
  - destruct H2 as (E1 & E2 & E3 & E4 & H2). split_and!; try done. destruct (first (frag s)).
    + destruct H2 as (? & ? & ? & ?). split_and!; try done. by eapply idle_weaken.
    + destruct H2 as (? & bs & ? & H2). split; [done |]. exists bs. split; [done |]. destruct (negb _).
      * destruct H2 as (c & ? & ? & ? & ?). exists c. split_and!; try done. by eapply strm_weaken.
      * destruct H2 as [? ?]. split; [done |]. by eapply idle_weaken.
  - destruct H2 as (? & ? & ? & ?). split_and!; try done. by eapply idle_weaken.
Qed.

Lemma winv_weaken s fs g n m : m <= n -> winv s fs g n -> winv s fs g m.
Proof.
  intros Hm [Hb (sp & raws & cur & peer & Ht & Hl)]. split; [done |]. exists sp, raws, cur, peer.
  split; [done |]. destruct (Tx.closeSent (tx s)); [done |]. by eapply link_weaken.
Qed.

Lemma post_weaken s fw fq g n : 0 <= n -> io_ok s fw fq -> winv s (fw ++ fq) g (1 + n) -> post s g n.
Proof. intros. exists fw, fq. split; [done |]. eapply winv_weaken; [| done]. lia. Qed.

(** A frame submitted and waited for. *)
Lemma submit_post s fw fq h b f g n :
  io_ok s fw fq -> h ++ b = wire f -> winv s ((fw ++ fq) ++ [f]) g n ->
  exists s1 x s2, Cw.sendFrame s h b = (s1, Ok x) /\ io_same s s1 /\ post s1 g n /\
    Cw.await s1 (Ok x) = (s2, Some None) /\ io_same s1 s2 /\ post s2 g n.
Proof.
  intros Hio Hw Hinv.
  destruct (sendFrame_all arena_ok s fw fq h b f Hio Hw) as (s1 & x & E1 & Hs1 & Hx & fw1 & fq1 & Hio1 & Ef1).
  destruct (await_all s1 fw1 fq1 x Hio1 Hx) as (s2 & E2 & Hs2 & fw2 & fq2 & Hio2 & Ef2).
  exists s1, x, s2. split_and!; try done.
  - exists fw1, fq1. split; [done |]. rewrite Ef1. by eapply winv_io.
  - exists fw2, fq2. split; [done |]. rewrite Ef2, Ef1. eapply winv_io; [| exact Hinv]. by eapply io_same_trans.
Qed.

(** Without a queue none appears. *)
Lemma submit_direct s h b s1 x s2 r :
  queue s = None -> Cw.sendFrame s h b = (s1, Ok x) -> Cw.await s1 (Ok x) = (s2, r) -> queue s2 = None.
Proof.
  unfold Cw.sendFrame. intros Hq. rewrite Hq. destruct (write_all s h b) as (s' & -> & _ & Hq' & _). intros [= <- <-].
  cbn [Cw.await]. intros [= <- _]. by rewrite Hq'.
Qed.

Lemma starts_nonzero op : starts op = true -> op <> 0.
Proof. unfold starts. intros [->%Z.eqb_eq | ->%Z.eqb_eq]%orb_prop; done. Qed.

Lemma starts_guard op : negb (op =? Opcode.Text) && negb (op =? Opcode.Binary) = negb (starts op).
Proof. unfold starts. by rewrite negb_orb. Qed.

(** Between messages nothing is open. *)
Lemma link_closed_frag s sp cur peer o n :
  link s sp cur peer o n -> fop (frag s) = 0 -> o = None.
Proof.
  intros [_ H] E. destruct o as [[op data] |]; [| done]. destruct H as (H1 & H2 & _).
  apply starts_nonzero in H2. congruence.
Qed.

(** One frame that is a whole message. *)
Lemma message_winv s s1 fs ms n op p f sp raws cur peer :
  trace fs ms sp raws cur peer -> link s sp cur peer None (1 + n) -> starts op = true ->
  base_ok s1 -> Tx.closeSent (tx s1) = false -> fop (frag s1) = 0 -> encoded peer op p n (comp s1) f ->
  winv s1 (fs ++ [f]) (Ghost None (ms ++ [(op, p)])) n.
Proof.
  intros Ht [Hm (Hf & Hmsg & Hcur & _)] Hop Hb Hc Hf1 (Hok & key & rsv & data & -> & Hk & Hrsv & Henc).
  split; [done |]. rewrite Hc. subst cur.
  assert (asm_step (raws, None) (Frame true rsv op key data) = (raws ++ [(op, rsv, data)], None)) as Easm.
  { unfold asm_step. cbn [f_op f_final f_rsv1 f_data]. rewrite Hop. unfold starts in Hop.
    apply orb_prop in Hop as [->%Z.eqb_eq | ->%Z.eqb_eq]; done. }
  destruct (step_start sp true rsv op key data Hm Hop) as [Hm' Hmsg'].
  pose proof (start_follows ro cfg sp true rsv op key data Hm Hmsg Hop Hk Hrsv) as Hmf.
  exists (step_spec sp (Frame true rsv op key data)), (raws ++ [(op, rsv, data)]), None.
  destruct rsv.
  - destruct Henc as [Hinf Hidle]. eexists. split; [eapply trace_snoc; try done |].
    + apply dec_comp; [apply Ht | exact Hinf].
    + by split_and!.
  - destruct Henc as [-> Hidle]. exists peer. split; [eapply trace_snoc; try done |].
    + apply dec_plain, Ht.
    + by split_and!.
Qed.

Lemma Write_idle s fw fq g n op p :
  0 <= n -> io_ok s fw fq -> winv s (fw ++ fq) g (1 + n) -> sendable p ->
  starts op = true -> fop (frag s) = 0 -> Tx.closeSent (tx s) = false ->
  exists s', Cw.Write s op p = (s', Some None) /\ post s' (Ghost None (g_sent g ++ [(op, p)])) n /\
    fop (frag s') = 0 /\ Tx.closeSent (tx s') = false /\ (queue s = None -> queue s' = None).
Proof.
  intros Hn Hio Hinv Hp Hop Hf Hc. pose proof Hinv as [Hb (sp & raws & cur & peer & Ht & Hl)].
  unfold Cw.Write. rewrite starts_guard, Hop, Hf. cbn [negb Z.eqb]. rewrite Hc in Hl.
  pose proof (link_closed_frag _ _ _ _ _ _ Hl Hf) as Ho. rewrite Ho in Hl. pose proof Hl as [_ (_ & _ & _ & Hidle)].
  destruct (encodeData_open cw ro cfg s op p peer n Hn Hb Hc Hop Hp Hidle) as (s' & h & b & f & -> & Hw & Hs & Hb' & Hc' & Henc).
  pose proof Hs as (_ & _ & Ef).
  assert (winv s' ((fw ++ fq) ++ [f]) (Ghost None (g_sent g ++ [(op, p)])) n) as Hinv'.
  { apply (message_winv s s' _ _ _ _ _ _ sp raws cur peer); try done. by rewrite Ef. }
  destruct (submit_post s' fw fq h b f _ n (tx_same_io _ _ _ _ Hs Hio) Hw Hinv')
    as (s1 & x & s2 & E1 & Hs1 & _ & E2 & Hs2 & Hpost). rewrite E1, E2. exists s2. split; [done |]. split; [done |].
  destruct (io_same_fields _ _ (io_same_trans _ _ _ Hs1 Hs2)) as (-> & _ & -> & _). split; [by rewrite Ef |]. split; [done |].
  intros Hq. apply (submit_direct s' h b s1 x s2 (Some None)); [| done..]. by destruct Hs as [-> _].
Qed.

Lemma Write_post s fw fq g n op p :
  0 <= n -> io_ok s fw fq -> winv s (fw ++ fq) g (1 + n) -> sendable p ->
  let '(s', r) := Cw.Write s op p in
  if starts op && (fop (frag s) =? 0) && negb (Tx.closeSent (tx s))
  then r = Some None /\ post s' (Ghost None (g_sent g ++ [(op, p)])) n
  else (exists e, r = Some (Some e)) /\ post s' g n.
Proof.
  intros Hn Hio Hinv Hp. pose proof (post_weaken s fw fq g n Hn Hio Hinv) as Hsame.
  destruct (starts op) eqn:Hop; cbn [andb]; [| unfold Cw.Write; rewrite starts_guard, Hop; by split; [eexists |]].
  destruct (Z.eqb_spec (fop (frag s)) 0) as [Hf | Hf]; cbn [andb].
  2: { unfold Cw.Write. rewrite starts_guard, Hop. destruct (Z.eqb_spec (fop (frag s)) 0); [done |]. by split; [eexists |]. }
  destruct (Tx.closeSent (tx s)) eqn:Hc; cbn [negb].
  - destruct Hinv as [Hb (sp & raws & cur & peer & Ht & Hl)]. unfold Cw.Write. rewrite starts_guard, Hop, Hf. cbn [negb Z.eqb].
    destruct (encodeData_closed ro cfg s op p Hb Hc Hop) as (s' & e & -> & Hs & Hb' & Hc').
    split; [by eexists |]. exists fw, fq. split; [by eapply tx_same_io |]. split; [done |].
    exists sp, raws, cur, peer. by rewrite Hc' in *; rewrite Hc in Hl.
  - by destruct (Write_idle s fw fq g n op p) as (s' & -> & H & _).
Qed.

(** ** Fragmented messages *)

Lemma BeginMessage_post s fw fq g n op :
  0 <= n -> io_ok s fw fq -> winv s (fw ++ fq) g (1 + n) ->
  let '(s', r) := Cw.BeginMessage s op in
  if starts op && (fop (frag s) =? 0) && negb (Tx.closeSent (tx s))
  then r = Some None /\ post s' (Ghost (Some (op, [])) (g_sent g)) n
  else (exists e, r = Some (Some e)) /\ post s' g n.
Proof.
  intros Hn Hio Hinv. pose proof Hinv as [Hb (sp & raws & cur & peer & Ht & Hl)].
  pose proof (post_weaken s fw fq g n Hn Hio Hinv) as Hsame. unfold Cw.BeginMessage, Tx.CloseSent. rewrite starts_guard.
  destruct (starts op) eqn:Hop; cbn [negb andb]; [| by split; [eexists |]].
  destruct (Z.eqb_spec (fop (frag s)) 0) as [Hf | Hf]; cbn [negb andb]; [| by split; [eexists |]].
  destruct (Tx.closeSent (tx s)) eqn:Hc; cbn [negb]; [by split; [eexists |] |].
  pose proof (link_closed_frag _ _ _ _ _ _ Hl Hf) as Ho. rewrite Ho in Hl.
  assert (link s sp cur peer None n) as [Hm (_ & Hmsg & Hcur & Hidle)] by (eapply link_weaken; [| exact Hl]; lia).
  pose proof Hb as (B1 & B2 & B3 & B4). cbn [compressed comp]. rewrite B4.
  destruct (cmp && bool_decide (cattached (comp s) = None)) eqn:Eh.
  - apply andb_prop in Eh as [_ Eatt]. apply bool_decide_eq_true in Eatt. unfold Cw.getCompressor.
    split; [done |]. exists fw, fq. split; [exact Hio |]. split; [done |]. exists sp, raws, cur, peer.
    split; [done |]. cbn [tx]. rewrite Hc. split; [done |]. cbn [g_open frag fop compressed first comp cattached].
    split_and!; try done. destruct Hidle as [Hi1 Hi2]. split; [exact Hi1 |]. cbn [cattached].
    intros c [= <-]. by apply pool_sync.
  - split; [done |]. exists fw, fq. split; [exact Hio |]. split; [done |]. exists sp, raws, cur, peer.
    split; [done |]. cbn [tx]. rewrite Hc. split; [done |]. cbn [g_open frag fop compressed first comp].
    split_and!; try done. intros Ecm Eatt. rewrite Ecm, Eatt in Eh. done.
Qed.

(** What [endFragmented] leaves. *)
Lemma endFragmented_spec s err :
  exists s', Cw.endFragmented s err = (s', err) /\ fop (frag s') = 0 /\ tx s' = tx s /\ role s' = role s /\
    queue s' = queue s /\ out s' = out s /\
    (comp s' = comp s \/ comp s' = Cc.releaseCompressor (comp s)).
Proof.
  unfold Cw.endFragmented. cbn [heldCompressor frag comp]. destruct (heldCompressor (frag s)).
  - destruct (_ || _); eexists; (split; [reflexivity |]); split_and!; try done; auto.
  - eexists. split; [reflexivity |]. split_and!; try done. by left.
Qed.

Lemma idle_release cc peer n : idle_comp cc peer n -> idle_comp (Cc.releaseCompressor cc) peer n.
Proof. intros [H1 H2]. split; [exact H1 |]. intros c Hc. discriminate Hc. Qed.

Lemma strm_apply cc c peer sofar n :
  strm cw cc c peer sofar n -> strm cw (Cc.applyPending cc) c peer sofar n.
Proof.
  intros (H1 & H2 & H3 & H4 & H5 & H6).
  assert (window (Cc.applyPending cc) = window cc) as Ew by (rewrite window_apply, H1; by destruct (window cc)).
  unfold strm. rewrite Ew. by split_and!.
Qed.

(** The compressor's part of a fragment: ready to continue after [data]. *)
Lemma link_strm s sp cur peer op data n :
  0 <= n -> cmp = true -> link s sp cur peer (Some (op, data)) n ->
  exists c, cattached (comp s) = Some c /\ strm cw (Cc.applyPending (comp s)) c peer data n.
Proof.
  intros Hn Hcm [Hm (Hf & Hop & Hco & Hatt & H)]. destruct (cattached (comp s)) as [c |] eqn:Ec; [| by destruct Hatt].
  exists c. split; [done |]. destruct (first (frag s)).
  - destruct H as (-> & _ & _ & Hidle & Ha). destruct (Ha c Ec) as [Hac Hmc].
    destruct (apply_win_sync cw (comp s) peer n Hn Hidle) as [Hw1 Hp1].
    apply start_strm; try done. apply apply_att_sync; [apply Hidle | | done].
    intros w Ew. eapply win_sync_gen; [exact Hn | exact Hidle | exact Ew].
  - destruct H as (_ & bs & _ & H). rewrite Hcm in H. destruct H as (c' & Ec' & _ & Hst & _).
    assert (c' = c) as -> by congruence. by apply strm_apply.
Qed.

(** One frame of the open message, compressed or not, before it is encoded. *)
Lemma compress_fragment_open s sp cur peer op data n p final :
  0 <= n -> base_ok s -> sendable p -> link s sp cur peer (Some (op, data)) (1 + n) ->
  exists s' bytes, Cw.compress_fragment s p final = (s', Ok bytes) /\ payload_ok bytes /\
    tx_same s s' /\ tx s' = tx s /\ base_ok s' /\
    if cmp then
      exists c body, cattached (comp s') = Some c /\ bytes = (if final : bool then body else body ++ sync_tail) /\
        inflates (Win.dict peer ++ data) (body ++ sync_tail) p /\ mid c = negb final /\ att_sync cw (comp s') c /\
        (final = false -> strm cw (comp s') c peer (data ++ p) n) /\
        (final = true -> win_sync cw (comp s') ((fun v => Win.remember v (data ++ p)) <$> peer) n)
    else bytes = p /\ comp s' = comp s.
Proof.
  intros Hn Hb Hp Hl. pose proof Hb as (B1 & B2 & B3 & B4). pose proof Hl as [Hm (Hf & Hop & Hco & Hatt & H)].
  unfold Cw.compress_fragment. rewrite Hco. destruct cmp eqn:Ecm; cbn [negb].
  - destruct (link_strm s sp cur peer op data (1 + n) ltac:(lia) Ecm Hl) as (c & Ec & Hst).
    change (cattached (Cc.applyPending (comp s))) with (cattached (comp s)). rewrite Ec.
    destruct (chunk_strm cw (Cc.applyPending (comp s)) c peer data p final n Hn Hst)
      as (c' & w' & body & E & Hinf & Hm' & Ha & H1 & H2).
    pose proof (chunk_payload_ok _ _ _ _ _ _ _ Hp E) as Hpb. rewrite E, tagged_snd.
    eexists _, _. split; [reflexivity |]. split; [done |]. split; [done |]. split; [done |]. split; [done |].
    exists c', body. by split_and!.
  - exists s, p. split_and!; try done. by apply sendable_payload.
Qed.

(** The frame a fragment goes out in, whatever its payload. *)
Definition fragment_frame (s : wconn) (final : bool) (key : option (list Z)) (bytes : list Z) : frame :=
  let op := if first (frag s) then fop (frag s) else Opcode.Continuation in
  Frame final (cmp && negb (op =? Opcode.Continuation)) op key bytes.

Lemma fragment_step s sp raws cur peer op data n final key bytes :
  link s sp cur peer (Some (op, data)) n -> masked_right ro key ->
  let f := fragment_frame s final key bytes in
  may_follow pr cmp sp f = true /\ s_mode (step_spec sp f) = MHead [] /\
  s_msg (step_spec sp f) = (if final then 0 else op) /\
  exists bs, asm_step (raws, cur) f =
      (if final then (raws ++ [(op, cmp, bs ++ bytes)], None) else (raws, Some (op, cmp, bs ++ bytes))) /\
    (cmp = true -> forall b q, inflates (Win.dict peer ++ data) b q -> inflates (Win.dict peer) (bs ++ b) (data ++ q)) /\
    (cmp = false -> bs = data).
Proof.
  intros [Hm (Hf & Hop & Hco & Hatt & H)] Hk. unfold fragment_frame. pose proof (starts_nonzero op Hop) as Hnz.
  destruct (first (frag s)).
  - destruct H as (-> & Hmsg & -> & _). rewrite Hf. change Opcode.Continuation with 0.
    destruct (Z.eqb_spec op 0) as [| _]; [done |]. cbn [negb]. rewrite andb_true_r.
    split; [by apply start_follows |]. destruct (step_start sp final cmp op key bytes Hm Hop) as [-> ->].
    split; [done |]. split; [done |]. exists []. split_and!; [| | done].
    + unfold asm_step. cbn [f_op f_final f_rsv1 f_data]. rewrite Hop. unfold starts in Hop.
      apply orb_prop in Hop as [->%Z.eqb_eq | ->%Z.eqb_eq]; by destruct final.
    + intros _ b q. by rewrite app_nil_r.
  - destruct H as (Hmsg & bs & -> & H). rewrite andb_false_r.
    split; [apply cont_follows; congruence |]. destruct (step_cont sp final key bytes Hm) as [-> ->].
    split; [done |]. split; [by rewrite Hmsg |]. exists bs. split; [by destruct final |]. split.
    + intros Hcm b q Hi. rewrite Hcm in H. destruct H as (c & _ & _ & _ & Hbs). by apply inflates_app.
    + intros Hcm. rewrite Hcm in H. by destruct H.
Qed.

(** The ghost after a fragment of the open message. *)
Definition fragment_ghost (g : ghost) (p : list Z) (final : bool) : ghost :=
  match g_open g with
  | Some (op, data) =>
      if final then Ghost None (g_sent g ++ [(op, data ++ p)]) else Ghost (Some (op, data ++ p)) (g_sent g)
  | None => g
  end.

(** The invariant once the frame is submitted and the fragment state moved on. *)
Lemma fragment_winv s s1 s2 fs g op data sp raws cur peer n p final key bytes :
  0 <= n -> trace fs (g_sent g) sp raws cur peer -> g_open g = Some (op, data) ->
  link s sp cur peer (Some (op, data)) (1 + n) ->
  (if cmp then
      exists c body, cattached (comp s1) = Some c /\ bytes = (if final : bool then body else body ++ sync_tail) /\
        inflates (Win.dict peer ++ data) (body ++ sync_tail) p /\ mid c = negb final /\ att_sync cw (comp s1) c /\
        (final = false -> strm cw (comp s1) c peer (data ++ p) n) /\
        (final = true -> win_sync cw (comp s1) ((fun v => Win.remember v (data ++ p)) <$> peer) n)
    else bytes = p /\ comp s1 = comp s) ->
  masked_right ro key -> frame_ok (fragment_frame s final key bytes) ->
  base_ok s2 -> Tx.closeSent (tx s2) = false ->
  (if final then fop (frag s2) = 0 /\ (comp s2 = comp s1 \/ comp s2 = Cc.releaseCompressor (comp s1))
   else comp s2 = comp s1 /\ fop (frag s2) = op /\ compressed (frag s2) = cmp /\ first (frag s2) = false) ->
  winv s2 (fs ++ [fragment_frame s final key bytes]) (fragment_ghost g p final) n.
Proof.
  intros Hn Ht Hg Hl Hc Hk Hf Hb Hcl Hfr. unfold fragment_ghost. rewrite Hg.
  destruct (fragment_step s sp raws cur peer op data (1 + n) final key bytes Hl Hk)
    as (Hmf & Hmode & Hmsg & bs & Easm & Hinf & Hbs).
  pose proof Hl as [_ (_ & Hop & _ & _ & Hrest)].
  assert (cmp = false -> idle_comp (comp s) peer n) as Hidle0.
  { intros E. apply (idle_weaken _ _ _ (1 + n)); [lia |]. destruct (first (frag s)); [apply Hrest |].
    destruct Hrest as (_ & ? & _ & Hrest). rewrite E in Hrest. apply Hrest. }
  split; [done |]. rewrite Hcl. destruct final.
  - assert (exists peer', decoded w0 (raws ++ [(op, cmp, bs ++ bytes)]) (g_sent g ++ [(op, data ++ p)]) peer' /\
      idle_comp (comp s1) peer' n) as (peer' & Hd & Hidle).
    { pose proof (tr_dec _ _ _ _ _ _ _ _ _ Ht) as Hd. destruct cmp eqn:Ecm.
      - destruct Hc as (c & body & Ea & -> & Hi & Hm & Has & _ & Hws). eexists. split.
        + apply dec_comp; [exact Hd |]. rewrite <- app_assoc. by apply Hinf.
        + split; [by apply Hws |]. intros c' Ec'. assert (c' = c) as -> by congruence. by split.
      - destruct Hc as [-> Ecc]. rewrite Hbs by done. exists peer. split; [by apply dec_plain |].
        rewrite Ecc. by apply Hidle0. }
    eexists _, _, _, peer'. split; [by eapply trace_snoc |].
    split; [done |]. cbn. destruct Hfr as [Hf0 Hcc]. split_and!; try done.
    destruct Hcc as [-> | ->]; [done | by apply idle_release].
  - eexists _, _, _, peer. split; [by eapply trace_snoc; try done; apply Ht |].
    destruct Hfr as (E1 & E2 & E3 & E4). split; [done |]. cbn. rewrite E1, E2, E3, E4.
    split; [done |]. split; [done |]. split; [done |]. destruct cmp eqn:Ecm.
    + destruct Hc as (c & body & Ea & -> & Hi & Hm & Has & Hst & _). split; [by rewrite Ea |]. split; [done |].
      eexists. split; [reflexivity |]. exists c. split_and!; try done; [by apply Hst |].
      by apply Hinf.
    + destruct Hc as [-> Ecc]. split; [done |]. split; [done |]. eexists. split; [reflexivity |].
      rewrite Hbs by done. split; [done |]. rewrite Ecc. by apply Hidle0.
Qed.

Lemma fragment_fail_spec s e :
  exists s', Cw.fragment_fail s e = (s', Err e) /\ tx s' = tx s /\ role s' = role s /\ queue s' = queue s /\
    out s' = out s /\ config (comp s') = config (comp s).
Proof.
  unfold Cw.fragment_fail. destruct (endFragmented_spec s (Some e)) as (s' & -> & _ & E1 & E2 & E3 & E4 & E5).
  exists s'. split_and!; try done. by destruct E5 as [-> | ->].
Qed.

Lemma fragment_closed s p final :
  base_ok s -> Tx.closeSent (tx s) = true ->
  exists s' e, Cw.fragment s p final = (s', Err e) /\ base_ok s' /\ tx s' = tx s /\ queue s' = queue s /\ out s' = out s.
Proof.
  intros (B1 & B2 & B3 & B4) Hc. unfold Cw.fragment. destruct (fop (frag s) =? 0); [by eexists s, _ |].
  assert (exists s1 r, Cw.compress_fragment s p final = (s1, r) /\ tx s1 = tx s /\ role s1 = role s /\
    queue s1 = queue s /\ out s1 = out s /\ config (comp s1) = cfg) as (s1 & r & -> & E1 & E2 & E3 & E4 & E5).
  { unfold Cw.compress_fragment. destruct (negb _); [by eexists _, _ |].
    change (cattached (Cc.applyPending (comp s))) with (cattached (comp s)).
    destruct (cattached (comp s)) as [c |]; [| by eexists _, _].
    destruct (Cmp.CompressChunk _ _ _ _) as [[c' w'] r]. by eexists _, _. }
  assert (forall s2 e, tx s2 = tx s -> role s2 = role s -> queue s2 = queue s -> out s2 = out s ->
    config (comp s2) = cfg -> exists s' e', Cw.fragment_fail s2 e = (s', Err e') /\ base_ok s' /\ tx s' = tx s /\
      queue s' = queue s /\ out s' = out s) as Hfail.
  { intros s2 e F1 F2 F3 F4 F5. destruct (fragment_fail_spec s2 e) as (s' & -> & G1 & G2 & G3 & G4 & G5).
    exists s', e. unfold Delivery.base_ok. rewrite G1, G2, G3, G4, G5, F1, F2, F3, F4, F5. by split_and!. }
  destruct r as [bytes | e]; [| by apply Hfail]. unfold Cw.tx_call.
  destruct (closed_EncodeFragment (rand (ticks s1)) (tx s1)
    (if first (frag s) then fop (frag s) else Opcode.Continuation) final bytes (compressed (frag s1))) as [e ->];
    [by rewrite E1 |]. by apply Hfail.
Qed.

Lemma fragment_allowed op final p c :
  starts op = true \/ op = Opcode.Continuation ->
  call_allowed false (CFragment op final p c) = true /\ (call_op (CFragment op final p c) =? Opcode.Close) = false.
Proof.
  unfold call_allowed, call_op, starts. cbn. intros [[->%Z.eqb_eq | ->%Z.eqb_eq]%orb_prop | ->]; done.
Qed.

Lemma writeFragment_post s fw fq g n p final :
  0 <= n -> io_ok s fw fq -> winv s (fw ++ fq) g (1 + n) -> sendable p ->
  let '(s', r) := Cw.writeFragment s p final in
  if negb (fop (frag s) =? 0) && negb (Tx.closeSent (tx s))
  then r = Some None /\ Tx.closeSent (tx s') = false /\ post s' (fragment_ghost g p final) n
  else (exists e, r = Some (Some e)) /\ post s' g n.
Proof.
  intros Hn Hio Hinv Hp. pose proof Hinv as [Hb (sp & raws & cur & peer & Ht & Hl)]. unfold Cw.writeFragment.
  destruct (Tx.closeSent (tx s)) eqn:Hc.
  { rewrite andb_false_r. destruct (fragment_closed s p final Hb Hc) as (s' & e & -> & Hb' & E1 & E2 & E3). cbn.
    split; [by eexists |]. exists fw, fq. unfold io_ok. rewrite E2, E3. split; [exact Hio |]. split; [done |].
    exists sp, raws, cur, peer. by rewrite E1, Hc. }
  rewrite andb_true_r. unfold Cw.fragment. destruct (Z.eqb_spec (fop (frag s)) 0) as [Hf | Hf]; cbn [negb].
  { cbn. split; [by eexists | by eapply post_weaken]. }
  destruct (g_open g) as [[op data] |] eqn:Hg; [| by destruct Hl as [_ (? & _)]].
  destruct (compress_fragment_open s sp cur peer op data n p final Hn Hb Hp Hl)
    as (s1 & bytes & -> & Hpb & Hs1 & Etx & Hb1 & Hcomp).
  pose proof Hl as [_ (Hfop & Hop & Hco & _ & _)]. pose proof Hs1 as (_ & _ & Efr).
  set (op' := if first (frag s) then fop (frag s) else Opcode.Continuation).
  assert (starts op' = true \/ op' = Opcode.Continuation) as Hop'.
  { subst op'. destruct (first (frag s)); [left; by rewrite Hfop | by right]. }
  destruct (fragment_allowed op' final bytes (compressed (frag s1)) Hop') as [Hal Hcl].
  change (fun rnd t => Tx.EncodeFragment rnd t op' final bytes (compressed (frag s1)))
    with (fun rnd t => do_call rnd t (CFragment op' final bytes (compressed (frag s1)))).
  destruct (tx_call_ok cw ro cfg s1 (CFragment op' final bytes (compressed (frag s1))) Hb1 Hpb)
    as (t & h & b & key & -> & Ht' & Hr' & Hc' & Hw & Hfo & Hk); [by rewrite Etx, Hc |].
  assert (call_frame (CFragment op' final bytes (compressed (frag s1))) key = fragment_frame s final key bytes) as Ef.
  { unfold call_frame, fragment_frame. by rewrite Efr, Hco. }
  rewrite Ef in *. rewrite Etx, Hc, Hcl in Hc'.
  set (s2 := {| s1 with tx := t; ticks := ticks s1 + 1 |}).
  assert (io_ok s2 fw fq) as Hio2 by (apply (tx_same_io s); done).
  destruct (sendFrame_all arena_ok s2 fw fq h b _ Hio2 Hw) as (s3 & x & -> & Hs3 & Hx & fw3 & fq3 & Hio3 & Efs).
  destruct (io_same_fields _ _ Hs3) as (F1 & F2 & F3 & F4 & _).
  set (s4 := {| s3 with frag := _ |}).
  assert (exists s5, (if final then let '(s, _) := Cw.endFragmented s4 None in (s, Ok x) else (s4, Ok x)) = (s5, Ok x) /\
    winv s5 ((fw ++ fq) ++ [fragment_frame s final key bytes]) (fragment_ghost g p final) n /\
    queue s5 = queue s3 /\ out s5 = out s3 /\ tx s5 = tx s3) as (s5 & -> & Hinv5 & Eq5 & Eo5 & Et5).
  { destruct Hb1 as (B1 & B2 & B3 & B4). destruct final.
    - destruct (endFragmented_spec s4 None) as (s5 & -> & G1 & G2 & G3 & G4 & G5 & G6). exists s5. split; [done |].
      split; [| done]. change (comp s4) with (comp s3) in G6. change (tx s4) with (tx s3) in G2.
      change (role s4) with (role s3) in G3. rewrite F1 in G2. rewrite F2 in G6. rewrite F4 in G3.
      eapply (fragment_winv s s1); try done.
      + split_and!; [by rewrite G2 | by rewrite G2 | by rewrite G3 |]. by destruct G6 as [-> | ->].
      + by rewrite G2.
    - exists s4. split; [done |]. split; [| done]. eapply (fragment_winv s s1); try done.
      + split_and!; [change (tx s4) with (tx s3); by rewrite F1 | change (tx s4) with (tx s3); by rewrite F1
          | change (role s4) with (role s3); by rewrite F4 | change (comp s4) with (comp s3); by rewrite F2].
      + change (tx s4) with (tx s3). by rewrite F1.
      + split_and!; [done | cbn; by rewrite F3; cbn; rewrite Efr | cbn; by rewrite F3; cbn; rewrite Efr | done]. }
  assert (io_ok s5 fw3 fq3) as Hio5 by (unfold io_ok; by rewrite Eq5, Eo5).
  destruct (await_all s5 fw3 fq3 x Hio5) as (s6 & -> & Hs6 & fw6 & fq6 & Hio6 & Efs6); [by rewrite Eq5 |].
  split; [done |]. split; [destruct (io_same_fields _ _ Hs6) as (-> & _); by rewrite Et5, F1 |].
  exists fw6, fq6. split; [done |]. rewrite Efs6, Efs. by eapply winv_io.
Qed.

(** ** Control frames *)

(** They leave the window alone. *)
Lemma send_ping_keeps s fw fq g n op p :
  io_ok s fw fq -> winv s (fw ++ fq) g n -> sendable p -> op = Opcode.Ping \/ op = Opcode.Pong ->
  let '(s', r) := Cw.send s op p in
  (if (negb (Tx.closeSent (tx s)) || (op =? Opcode.Pong)) && (len p <=? 125)
   then r = Some None else exists e, r = Some (Some e)) /\
  Tx.closeSent (tx s') = Tx.closeSent (tx s) /\ frag s' = frag s /\ queue s' = queue s /\ post s' g n.
Proof.
  intros Hio Hinv Hp Hop. pose proof Hinv as [Hb (sp & raws & cur & peer & Ht & Hl)].
  unfold Cw.send. replace (_ && _ && _ && _) with false.
  2: { destruct Hop as [-> | ->]; by destruct (fop (frag s) =? 0). }
  assert (call_allowed (Tx.closeSent (tx s)) (CEncode op p) =
    (negb (Tx.closeSent (tx s)) || (op =? Opcode.Pong)) && (len p <=? 125)) as Eal.
  { unfold call_allowed, call_op. cbn. f_equal. destruct Hop as [-> | ->]; cbn; by rewrite orb_false_r. }
  rewrite <- Eal.
  change (fun rnd t => Tx.Encode rnd t op p) with (fun rnd t => do_call rnd t (CEncode op p)).
  pose proof Hb as (B1 & B2 & B3 & B4). destruct (call_allowed _ _) eqn:Ha.
  - destruct (tx_call_ok cw ro cfg s (CEncode op p) Hb (sendable_payload p Hp) Ha)
      as (t & h & b & key & -> & Ht' & Hr' & Hc' & Hw & Hf & Hk).
    assert ((call_op (CEncode op p) =? Opcode.Close) = false) as Hcl by (by destruct Hop as [-> | ->]).
    rewrite Hcl, orb_false_r in Hc'.
    set (s1 := {| s with tx := t; ticks := ticks s + 1 |}).
    destruct (write_all s1 h b) as (s2 & -> & Hs2 & Eq & Ew). split; [done |].
    destruct (io_same_fields _ _ Hs2) as (Et & _ & Efr & _). rewrite Et. split; [exact Hc' |]. split; [exact Efr |]. split; [exact Eq |].
    exists (fw ++ [call_frame (CEncode op p) key]), fq. destruct Hio as [Hio1 Hio2]. split.
    + split; [rewrite Ew, Hw; cbn [out s1]; rewrite Hio1, fmap_app, concat_app; cbn; by rewrite app_nil_r |].
      rewrite Eq. exact Hio2.
    + eapply winv_io; [exact Hs2 |]. split; [done |]. exists sp, raws, cur, peer. cbn [tx s1]. rewrite Hc'. split.
      * symmetry in Eal. apply andb_prop in Eal as [Hor Hle%Z.leb_le]. apply trace_insert; try done.
        intros sp1 Hat Hclo. cbn. destruct Hop as [-> | ->]; [| by apply pong_follows].
        apply ctl_follows; try done; [| by right; left]. destruct Hat as [Hm | Hm]; [done |].
        assert (closed sp = true) as Hcs by (apply Hclo; unfold closed; by rewrite Hm).
        destruct (Tx.closeSent (tx s)); [done |]. destruct Hl as [Hm' _]. unfold closed in Hcs. by rewrite Hm' in Hcs.
      * destruct (Tx.closeSent (tx s)); [done |]. by apply (link_same s).
  - destruct (tx_call_refused cw ro cfg s (CEncode op p) Hb (sendable_payload p Hp) Ha)
      as (t & e & -> & Ht' & Hr' & Hc'). split; [by eexists |]. split; [exact Hc' |]. split; [done |]. split; [done |]. exists fw, fq. split; [exact Hio |].
    split; [done |]. exists sp, raws, cur, peer. split; [done |]. cbn [tx]. rewrite Hc'.
    destruct (Tx.closeSent (tx s)); [done |]. by apply (link_same s).
Qed.

Lemma send_ping_post s fw fq g n op p :
  0 <= n -> io_ok s fw fq -> winv s (fw ++ fq) g (1 + n) -> sendable p -> op = Opcode.Ping \/ op = Opcode.Pong ->
  let '(s', r) := Cw.send s op p in
  (if (negb (Tx.closeSent (tx s)) || (op =? Opcode.Pong)) && (len p <=? 125)
   then r = Some None else exists e, r = Some (Some e)) /\ post s' g n.
Proof.
  intros Hn Hio Hinv Hp Hop. eapply winv_weaken with (m := n) in Hinv; [| lia].
  pose proof (send_ping_keeps s fw fq g n op p Hio Hinv Hp Hop) as H. destruct (Cw.send s op p) as [s' r]. by destruct H as (? & _ & _ & _ & ?).
Qed.

Lemma close_valid code reason :
  call_allowed false (CClose code reason) = true ->
  let p := f_data (call_frame (CClose code reason) None) in validateClose p = None /\ len p <= 125.
Proof.
  unfold call_allowed, call_op. cbn. destruct (code =? 0); [done |].
  intros [_ Hv%bool_decide_eq_true]%andb_prop. split; [done |]. by apply validateClose_len.
Qed.

Lemma Close_keeps s fw fq g n code reason :
  io_ok s fw fq -> winv s (fw ++ fq) g n -> call_ok (CClose code reason) ->
  let '(s', r) := Cw.Close s code reason in
  if call_allowed (Tx.closeSent (tx s)) (CClose code reason)
  then r = Some None /\ Tx.closeSent (tx s') = true /\ post s' g n
  else (exists e, r = Some (Some e)) /\ post s' g n.
Proof.
  intros Hio Hinv Hok.
  pose proof Hinv as [Hb (sp & raws & cur & peer & Ht & Hl)]. pose proof Hb as (B1 & B2 & B3 & B4).
  unfold Cw.Close.
  change (fun rnd t => Tx.EncodeClose rnd t code reason) with (fun rnd t => do_call rnd t (CClose code reason)).
  destruct (call_allowed (Tx.closeSent (tx s)) (CClose code reason)) eqn:Ha.
  - destruct (tx_call_ok cw ro cfg s (CClose code reason) Hb Hok Ha)
      as (t & h & b & key & -> & Ht' & Hr' & Hc' & Hw & Hf & Hk). rewrite orb_true_r in Hc'.
    assert (Tx.closeSent (tx s) = false) as Hc.
    { unfold call_allowed in Ha. apply andb_prop in Ha as [Ha _]. by destruct (Tx.closeSent (tx s)). }
    rewrite Hc in *. destruct (close_valid code reason Ha) as [Hv Hle]. destruct Hl as [Hm Hl].
    set (s1 := {| s with tx := t; ticks := ticks s + 1 |}).
    assert (winv s1 ((fw ++ fq) ++ [call_frame (CClose code reason) key]) g n) as Hinv1.
    { split; [done |]. exists (step_spec sp (call_frame (CClose code reason) key)), raws, cur, peer.
      cbn [tx s1]. rewrite Hc'. split; [| by apply step_close].
      eapply trace_snoc; try done; [| apply Ht]. apply ctl_follows; try done. by left. }
    destruct (submit_post s1 fw fq h b _ g n Hio Hw Hinv1) as (s2 & x & s3 & -> & Hs2 & _ & -> & Hs3 & Hpost).
    split; [done |]. split; [| done]. destruct (io_same_fields _ _ (io_same_trans _ _ _ Hs2 Hs3)) as (-> & _). done.
  - destruct (tx_call_refused cw ro cfg s (CClose code reason) Hb Hok Ha) as (t & e & -> & Ht' & Hr' & Hc').
    split; [by eexists |]. exists fw, fq. split; [exact Hio |]. split; [done |]. exists sp, raws, cur, peer.
    split; [done |]. cbn [tx]. rewrite Hc'. destruct (Tx.closeSent (tx s)); [done |]. by apply (link_same s).
Qed.
Lemma Close_post s fw fq g n code reason :
  0 <= n -> io_ok s fw fq -> winv s (fw ++ fq) g (1 + n) -> call_ok (CClose code reason) ->
  let '(s', r) := Cw.Close s code reason in
  if call_allowed (Tx.closeSent (tx s)) (CClose code reason)
  then r = Some None /\ Tx.closeSent (tx s') = true /\ post s' g n
  else (exists e, r = Some (Some e)) /\ post s' g n.
Proof. intros Hn Hio Hinv. apply (Close_keeps s fw fq); [done |]. eapply winv_weaken; [| exact Hinv]. lia. Qed.

(** The close of a failing read, with no queue for it to overtake. *)
Lemma sendClose_keeps s fw g n code :
  io_ok s fw [] -> winv s (fw ++ []) g n -> queue s = None -> 0 <= code < 2 ^ 16 -> post (Cw.sendClose s code) g n.
Proof.
  intros Hio Hinv Hq Hcode.
  pose proof (Close_keeps s fw [] g n code [] Hio Hinv (conj Hcode (Forall_nil_2 _))) as H.
  unfold Cw.sendClose, Tx.CloseSent. destruct (Tx.closeSent (tx s)) eqn:Hc; [by exists fw, [] |].
  unfold Cw.Close in H. destruct (Cw.tx_call s _) as [s1 [[h b] | e]] eqn:E.
  - assert (queue s1 = None) as Hq1 by (unfold Cw.tx_call in E; destruct (Tx.EncodeClose _ _ _ _); injection E as <- _; exact Hq).
    unfold Cw.sendFrame in H. rewrite Hq1 in H. destruct (write_all s1 h b) as (s2 & Ew & _). rewrite Ew in H |- *.
    cbn [Cw.await] in H. case_match; [by destruct H as (_ & _ & H) | by destruct H as [_ H]].
  - cbn iota in H. case_match; [by destruct H as (_ & _ & H) | by destruct H as [_ H]].
Qed.
End calls.
