(* ===== verification/Conversation.v ===== *)
(** * Conversations: whole runs of the write side

    Prepared messages and the queue's own sends, then any sequence of calls,
    and what the peer's receiver makes of the bytes. *)

From stdpp Require Import prelude.
From S2P Require Import Prelude Words Mask Errors Header Encoder Decoder Close Receiver Stream Refine Pump Wire Traffic Sender Window Compressor Handshake Queue ConnCompress SendFlow ConnWrite WriteSpec Delivery Calls.

Lemma bytes_ok_wire f : frame_ok f -> bytes_ok (wire f).
Proof.
  intros (Hop & Hk & Hb & Hl). unfold wire, wire_header. rewrite !bytes_ok_app.
  pose proof (length_code_range (len (f_data f)) (len_nonneg _)). split_and!.
  - apply Forall_cons. split; [| apply Forall_cons; split; [| by apply Forall_nil]];
      unfold is_byte, flag; repeat case_match; lia.
  - unfold length_ext. repeat case_match; [by apply Forall_nil | apply bytes_ok_be_put..].
  - unfold key_bytes. destruct (f_key f); [apply Hk | by apply Forall_nil].
  - unfold masked_data. destruct (f_key f); [apply mask_ref_bytes; [apply Hk | done] | done].
Qed.

(** ** Prepared messages *)

Section prepared.
Context {M : Masker} `{!MaskerOk M} {G : Grow} `{!GrowOk G} {F : Flate} {FO : FlateOk F} {FB : FlateBytes F}.

(** A compressed variant any peer decodes, whatever its history. *)
Definition variant_ok (p : Prepared) (bs : list Z) : Prop :=
  exists body, bs = wire (Frame true true (pop p) None body) /\ payload_ok body /\
    forall h, inflates h (body ++ sync_tail) (ppayload p).

Definition prepared_ok (p : Prepared) : Prop :=
  starts (pop p) = true /\ sendable (ppayload p) /\
  pframe p = wire (Frame true false (pop p) None (ppayload p)) /\
  Forall (fun v => variant_ok p v.2) (variants p).

Lemma starts_cases op : starts op = true -> op = Opcode.Text \/ op = Opcode.Binary.
Proof. unfold starts. intros [->%Z.eqb_eq | ->%Z.eqb_eq]%orb_prop; auto. Qed.

Lemma plain_header op p e :
  starts op = true -> payload_ok p ->
  exists e', Enc.Encode e true op p None = (e', None) /\
    Enc.HeaderBytes e' = wire_header (Frame true false op None p).
Proof.
  intros Hop%starts_cases Hp.
  pose proof (Encode_ok e true op p None Hp I ltac:(by destruct Hop as [-> | ->])) as H.
  destruct (Enc.Encode e true op p None) as [e' err]. destruct H as (-> & _ & Hr & Hl & _).
  exists e'. split; [done |]. by eapply acc_bytes.
Qed.

Lemma Prepare_ok op p pm :
  sendable p -> Cw.Prepare op p = Ok pm -> prepared_ok pm /\ pop pm = op /\ ppayload pm = p.
Proof.
  intros Hs. unfold Cw.Prepare. rewrite starts_guard. destruct (starts op) eqn:Hop; [| done]. cbn [negb].
  destruct (plain_header op p Encoder_zero Hop (sendable_payload p Hs)) as (e & -> & ->).
  rewrite from_app_len. intros E. injection E as <-. by split_and!.
Qed.

Lemma PrepareAppend_ok op fill buf pm :
  fill (zeros MaxHeaderSize) = Ok buf -> sendable (from buf MaxHeaderSize) ->
  Cw.PrepareAppend op fill = Ok pm ->
  prepared_ok pm /\ pop pm = op /\ ppayload pm = from buf MaxHeaderSize.
Proof.
  intros Hfill Hs. unfold Cw.PrepareAppend. rewrite starts_guard, Hfill.
  destruct (starts op) eqn:Hop; [| done]. cbn [negb].
  destruct (Z.ltb_spec (len buf) MaxHeaderSize) as [| Hlen]; [done |].
  set (p := from buf MaxHeaderSize) in *.
  destruct (plain_header op p Encoder_zero Hop (sendable_payload p Hs)) as (e & -> & ->).
  set (f := Frame true false op None p). pose proof (len_wire_header_range f I) as Hr.
  assert (from (splice buf (MaxHeaderSize - len (wire_header f)) (wire_header f)) (MaxHeaderSize - len (wire_header f))
          = wire f) as ->.
  { unfold splice. rewrite from_app_ge by (rewrite len_upto; unfold MaxHeaderSize in *; lia).
    rewrite len_upto, Z.min_l, Z.max_r by (unfold MaxHeaderSize in *; lia).
    rewrite Z.sub_diag, from_0 by lia. unfold wire. f_equal. cbn. subst p. f_equal. lia. }
  unfold wire. change (masked_data f) with p. rewrite from_app_len. intros E. injection E as <-.
  by split_and!.
Qed.

Lemma compressedFor_ok p c cp p' bs :
  prepared_ok p -> comp_ok cp -> mid cp = false -> Cw.compressedFor p c cp = (p', bs) ->
  prepared_ok p' /\ variant_ok p bs /\ pop p' = pop p /\ ppayload p' = ppayload p.
Proof.
  intros Hp Hcp Hm. pose proof Hp as (Hop & Hs & Hfr & Hv). unfold Cw.compressedFor.
  destruct (list_find _ _) as [[i v] |] eqn:Ef.
  - apply list_find_Some in Ef as (Hi & _ & _). intros [= <- <-]. split; [done |]. split; [| done].
    by eapply (Forall_lookup_1 (fun v => variant_ok p v.2)).
  - clear Ef. unfold Cmp.Compress.
    destruct (CompressChunk_spec cp (ppayload p) None true Hcp) as (c' & o & body & Ec & -> & _ & _ & _ & _ & _ & _ & Hi).
    pose proof (chunk_payload_ok _ _ _ _ _ _ _ Hs Ec) as Hpb. rewrite Ec.
    pose proof (EncodeCompressed_ok Encoder_zero true (pop p) body None Hpb I) as He.
    destruct (Enc.EncodeCompressed Encoder_zero true (pop p) body None) as [e err].
    assert (negb (pop p =? Opcode.Continuation) = true) as Enz.
    { pose proof (starts_nonzero _ Hop). change Opcode.Continuation with 0. by destruct (Z.eqb_spec (pop p) 0). }
    rewrite Enz in He.
    destruct He as (-> & _ & Hr & Hl & _); [destruct (starts_cases _ Hop); auto |].
    intros [= <- <-]. assert (variant_ok p (Enc.HeaderBytes e ++ body)) as Hvar.
    { exists body. split; [unfold wire, Enc.HeaderBytes; cbn [masked_data f_key f_data]; f_equal; by eapply acc_bytes |].
      split; [done |]. intros h. apply Hi. unfold base, Cmp.stale. rewrite Hm. cbn. apply reaches_nil. }
    split; [| done]. split_and!; try done. cbn. apply Forall_app. split; [exact Hv | by constructor].
Qed.
End prepared.

Section runs.
Context {M : Masker} `{!MaskerOk M} {G : Grow} `{!GrowOk G} {F : Flate} {FO : FlateOk F} {FB : FlateBytes F}.
Context {T : Transport} {R : Reliable T} {W : World} (cw : Z) {WO : WorldOk W cw}.
Context (ro : Role) (cfg : option Hs.Compression) (w0 : option Window).

#[local] Abbreviation pr := (peer_role ro).
#[local] Abbreviation cmp := (negb (bool_decide (cfg = None))).
#[local] Abbreviation winv := (winv cw ro cfg w0).
#[local] Abbreviation post := (post cw ro cfg w0).

Lemma plain_frame_ok op rsv p : starts op = true -> payload_ok p -> frame_ok (Frame true rsv op None p).
Proof. intros [-> | ->]%starts_cases Hp; split; cbn; try done; lia. Qed.

(** A server's prepared message, ready to go. *)
Lemma preparedFrame_open s p peer n :
  0 <= n -> base_ok ro cfg s -> ro = Server -> Tx.closeSent (tx s) = false -> fop (frag s) = 0 ->
  prepared_ok p -> idle_comp cw (comp s) peer (1 + n) ->
  exists s' p' f, Cw.preparedFrame s p = (s', p', Ok (wire f)) /\ tx_same s s' /\ tx s' = tx s /\
    base_ok ro cfg s' /\ prepared_ok p' /\ encoded cw ro cfg peer (pop p) (ppayload p) n (comp s') f.
Proof.
  intros Hn Hb Hro Hc Hf Hp Hidle. pose proof Hp as (Hop & Hs & Hfr & _). pose proof Hb as (B1 & B2 & B3 & B4).
  unfold Cw.preparedFrame, Tx.CloseSent. rewrite Hf, Hc. cbn [Z.eqb negb].
  assert (masked_right ro None) as Hk by (subst ro; split; [by intros [] | done]).
  assert (forall cc, idle_comp cw cc peer n ->
    encoded cw ro cfg peer (pop p) (ppayload p) n cc (Frame true false (pop p) None (ppayload p))) as Hplain.
  { intros cc Hi. split; [by apply plain_frame_ok; [| apply sendable_payload] |]. by exists None, false, (ppayload p). }
  assert (idle_comp cw (comp s) peer n) as Hidle' by (apply (idle_weaken _ _ _ (1 + n)); [lia | done]).
  unfold Cw.frameFor. rewrite B4. destruct cfg as [c |] eqn:Ecfg.
  2: { eexists _, _, _. rewrite Hfr. split; [reflexivity |]. split_and!; try done. by apply Hplain. }
  destruct (len (ppayload p) <? minSize (comp s)).
  { eexists _, _, _. rewrite Hfr. split; [reflexivity |]. split_and!; try done. by apply Hplain. }
  unfold Cw.getCompressor. destruct (pool_ok (ticks s)) as (P1 & P2 & P3 & P4).
  destruct (Cw.compressedFor p c (pooledCompressor (ticks s))) as [p' bs] eqn:Ecf.
  destruct (compressedFor_ok p c _ p' bs Hp P1 P4 Ecf) as (Hp' & (body & -> & Hpb & Hinf) & Epop & Epay).
  rewrite Epay. cbn [comp andb].
  assert (forall cc, idle_comp cw cc ((fun v => Win.remember v (ppayload p)) <$> peer) n ->
    encoded cw ro (Some c) peer (pop p) (ppayload p) n cc (Frame true true (pop p) None body)) as Hcomp.
  { intros cc Hi. split; [by apply plain_frame_ok |]. exists None, true, body. split_and!; try done. }
  destruct (window (comp s)) as [w |] eqn:Ew; cbn [bool_decide negb].
  - rewrite bool_decide_eq_false_2 by done. cbn [negb]. eexists _, p', _. split; [reflexivity |].
    split; [done |]. split; [done |]. destruct Hidle as [Hw Ha].
    destruct (prepared_sync cw (comp s) w peer (ppayload p) n Hn Ew Hw) as [Hw' Ha'].
    assert (config (Cc.notePrepared (comp s) (ppayload p)) = config (comp s) /\
            cattached (Cc.notePrepared (comp s) (ppayload p)) = cattached (comp s)) as [Ec1 Ec2].
    { unfold Cc.notePrepared. rewrite Ew. destruct (_ <=? _); [done |].
      assert (forall k a b, config (Cc.drop_covered k a b (comp s)) = config (comp s) /\
        cattached (Cc.drop_covered k a b (comp s)) = cattached (comp s)) as Hd.
      { intros k a b. generalize (comp s). induction k as [| k IH]; intros cc; [done |]. cbn [Cc.drop_covered].
        destruct (_ && _); [| done]. destruct (IH (Cc.dropOldestPending cc)) as [-> ->]. done. }
      destruct (Hd (length (pending (comp s))) (Win.Size w) (len (ppayload p))) as [D1 D2].
      by destruct (_ =? _). }
    split; [split_and!; try done; cbn; by rewrite Ec1 |]. split; [done |]. apply Hcomp. cbn [comp].
    split; [done |]. rewrite Ec2. intros c0 Hc0. destruct (Ha c0 Hc0). split; [by apply Ha' | done].
  - rewrite bool_decide_eq_true_2 by done. cbn [negb]. eexists _, p', _. split; [reflexivity |].
    split_and!; try done. apply Hcomp. cbn [comp]. destruct Hidle' as [[H1 H2] H3]. split; [| done].
    split; [done |]. rewrite Ew in *. by destruct peer.
Qed.

(** A frame put into the queue, and perhaps waited for. *)
Lemma enqueue_post s q fw fq h b ext f g n :
  queue s = Some q -> io_ok s fw fq -> (ext <> None -> h ++ b = []) -> default (h ++ b) ext = wire f ->
  winv s ((fw ++ fq) ++ [f]) g n ->
  exists s1 seq, Cw.enqueue s q h b ext = (s1, Ok (Some seq)) /\ post s1 g n /\
    exists s2, Cw.await s1 (Ok (Some seq)) = (s2, Some None) /\ post s2 g n.
Proof.
  intros Eq [Ho Hq] Hext Hw Hinv. rewrite Eq in Hq. unfold Cw.enqueue.
  destruct (enqueue_idle arena_ok q fq h b ext f Hq Hext Hw) as (q' & -> & Hq').
  set (s1 := {| s with queue := Some q' |}). assert (io_ok s1 fw (fq ++ [f])) as Hio1 by (by split).
  assert (winv s1 (fw ++ fq ++ [f]) g n) as Hinv1 by (rewrite app_assoc; by apply (winv_io _ _ _ _ s)).
  exists s1, (enqueued q'). split; [done |]. split; [by exists fw, (fq ++ [f]) |].
  destruct (await_all s1 fw (fq ++ [f]) (Some (enqueued q')) Hio1) as (s2 & E2 & Hs2 & fw2 & fq2 & Hio2 & Ef2).
  { intros seq [= <-]. by exists q'. }
  exists s2. split; [done |]. exists fw2, fq2. split; [done |]. rewrite Ef2. by apply (winv_io _ _ _ _ s1).
Qed.

Lemma WritePrepared_post s fw fq g n p :
  0 <= n -> io_ok s fw fq -> winv s (fw ++ fq) g (1 + n) -> prepared_ok p ->
  let '(s', p', r) := Cw.WritePrepared s p in
  prepared_ok p' /\
  if (fop (frag s) =? 0) && negb (Tx.closeSent (tx s))
  then r = Some None /\ post s' (Ghost None (g_sent g ++ [(pop p, ppayload p)])) n
  else (exists e, r = Some (Some e)) /\ post s' g n.
Proof.
  intros Hn Hio Hinv Hp. pose proof Hp as (Hop & Hs & _ & _).
  pose proof Hinv as [Hb (sp & raws & cur & peer & Ht & Hl)]. unfold Cw.WritePrepared.
  destruct (decide (role s = Client)) as [Hro | Hro].
  { pose proof (Write_post cw ro cfg w0 s fw fq g n (pop p) (ppayload p) Hn Hio Hinv Hs) as Hwp.
    rewrite Hop in Hwp. destruct (Cw.Write s (pop p) (ppayload p)) as [s' r]. by split. }
  assert (ro = Server) as Ero by (destruct Hb as (_ & _ & B & _); destruct ro; congruence).
  destruct (Z.eqb_spec (fop (frag s)) 0) as [Hf | Hf]; cbn [andb].
  2: { unfold Cw.preparedFrame. destruct (Z.eqb_spec (fop (frag s)) 0); [done |]. cbn. split; [done |].
       split; [by eexists | by eapply post_weaken]. }
  destruct (Tx.closeSent (tx s)) eqn:Hc; cbn [negb].
  { unfold Cw.preparedFrame, Tx.CloseSent. rewrite Hf, Hc. cbn. split; [done |].
    split; [by eexists | by eapply post_weaken]. }
  pose proof (link_closed_frag _ _ _ _ _ _ _ _ Hl Hf) as Ho. rewrite Ho in Hl.
  pose proof Hl as [_ (_ & _ & _ & Hidle)].
  destruct (preparedFrame_open s p peer n Hn Hb Ero Hc Hf Hp Hidle) as (s' & p' & f & -> & Hs' & Etx & Hb' & Hp' & Henc).
  assert (winv s' ((fw ++ fq) ++ [f]) (Ghost None (g_sent g ++ [(pop p, ppayload p)])) n) as Hinv'.
  { apply (message_winv cw ro cfg w0 s s' _ _ _ _ _ _ sp raws cur peer); try done; [by rewrite Etx |].
    destruct Hs' as (_ & _ & ->). done. }
  pose proof (tx_same_io _ _ _ _ Hs' Hio) as Hio'.
  destruct (queue s') as [q |] eqn:Eq.
  - destruct (enqueue_post s' q fw fq [] [] (Some (wire f)) f _ n Eq Hio' (fun _ => eq_refl) eq_refl Hinv')
      as (s1 & seq & -> & _ & s2 & -> & Hpost). by split.
  - rewrite net_write_all. split; [done |]. split; [done |]. destruct Hio' as [Ho1 Ho2]. rewrite Eq in Ho2.
    exists (fw ++ [f]), []. split.
    + split; cbn; [by rewrite Ho1, fmap_app, concat_app; cbn; rewrite app_nil_r | by rewrite ?Eq].
    + subst fq. rewrite !app_nil_r in *. by apply (winv_io _ _ _ _ s').
Qed.

(** ** The queue's own sends *)

Lemma Send_post s q fw fq g n op p :
  0 <= n -> queue s = Some q -> io_ok s fw fq -> winv s (fw ++ fq) g (1 + n) -> sendable p ->
  let '(s', r) := Cw.Send s q op p in
  if starts op && (fop (frag s) =? 0) && bool_decide (Qu.reserve q (len p) = None) && negb (Tx.closeSent (tx s))
  then r = None /\ post s' (Ghost None (g_sent g ++ [(op, p)])) n
  else (exists e, r = Some e) /\ post s' g n.
Proof.
  intros Hn Eq Hio Hinv Hp. pose proof Hinv as [Hb (sp & raws & cur & peer & Ht & Hl)].
  pose proof (post_weaken cw ro cfg w0 s fw fq g n Hn Hio Hinv) as Hsame. unfold Cw.Send. rewrite starts_guard.
  destruct (starts op) eqn:Hop; cbn [negb andb]; [| by split; [eexists |]].
  destruct (Z.eqb_spec (fop (frag s)) 0) as [Hf | Hf]; cbn [negb andb]; [| by split; [eexists |]].
  destruct (Qu.reserve q (len p)) as [e |]; cbn [andb]; [by split; [eexists |] |].
  rewrite bool_decide_eq_true_2 by done. cbn [andb].
  destruct (Tx.closeSent (tx s)) eqn:Hc; cbn [negb].
  - destruct (encodeData_closed ro cfg s op p Hb Hc Hop) as (s' & e & -> & Hs & Hb' & Hc').
    split; [by eexists |]. exists fw, fq. split; [by eapply tx_same_io |]. split; [done |].
    exists sp, raws, cur, peer. by rewrite Hc'.
  - pose proof (link_closed_frag _ _ _ _ _ _ _ _ Hl Hf) as Ho. rewrite Ho in Hl.
    pose proof Hl as [_ (_ & _ & _ & Hidle)].
    destruct (encodeData_open cw ro cfg s op p peer n Hn Hb Hc Hop Hp Hidle) as (s' & h & b & f & -> & Hw & Hs & Hb' & Hc' & Henc).
    assert (winv s' ((fw ++ fq) ++ [f]) (Ghost None (g_sent g ++ [(op, p)])) n) as Hinv'.
    { apply (message_winv cw ro cfg w0 s s' _ _ _ _ _ _ sp raws cur peer); try done. destruct Hs as (_ & _ & ->). done. }
    assert (queue s' = Some q) as Eq' by (destruct Hs as (-> & _); done).
    destruct (enqueue_post s' q fw fq h b None f _ n Eq' (tx_same_io _ _ _ _ Hs Hio) ltac:(done) Hw Hinv')
      as (s1 & seq & -> & Hpost & _). by split.
Qed.

Lemma SendPrepared_post s q fw fq g n p :
  0 <= n -> queue s = Some q -> io_ok s fw fq -> winv s (fw ++ fq) g (1 + n) -> prepared_ok p ->
  let '(s', p', r) := Cw.SendPrepared s q p in
  prepared_ok p' /\
  if (fop (frag s) =? 0) && bool_decide (Qu.reserve q (len (ppayload p)) = None) && negb (Tx.closeSent (tx s))
  then r = None /\ post s' (Ghost None (g_sent g ++ [(pop p, ppayload p)])) n
  else (exists e, r = Some e) /\ post s' g n.
Proof.
  intros Hn Eq Hio Hinv Hp. pose proof Hp as (Hop & Hs & _ & _).
  pose proof Hinv as [Hb (sp & raws & cur & peer & Ht & Hl)].
  pose proof (post_weaken cw ro cfg w0 s fw fq g n Hn Hio Hinv) as Hsame. unfold Cw.SendPrepared.
  destruct (decide (role s = Client)) as [Hro | Hro].
  { pose proof (Send_post s q fw fq g n (pop p) (ppayload p) Hn Eq Hio Hinv Hs) as Hwp.
    rewrite Hop in Hwp. destruct (Cw.Send s q (pop p) (ppayload p)) as [s' r]. by split. }
  assert (ro = Server) as Ero by (destruct Hb as (_ & _ & B & _); destruct ro; congruence).
  destruct (Qu.reserve q (len (ppayload p))) as [e |].
  { rewrite bool_decide_eq_false_2, andb_false_r by done. split; [done |]. by split; [eexists |]. }
  rewrite bool_decide_eq_true_2, andb_true_r by done.
  destruct (Z.eqb_spec (fop (frag s)) 0) as [Hf | Hf]; cbn [andb].
  2: { unfold Cw.preparedFrame. destruct (Z.eqb_spec (fop (frag s)) 0); [done |]. split; [done |]. by split; [eexists |]. }
  destruct (Tx.closeSent (tx s)) eqn:Hc; cbn [negb].
  { unfold Cw.preparedFrame, Tx.CloseSent. rewrite Hf, Hc. cbn. split; [done |]. by split; [eexists |]. }
  pose proof (link_closed_frag _ _ _ _ _ _ _ _ Hl Hf) as Ho. rewrite Ho in Hl.
  pose proof Hl as [_ (_ & _ & _ & Hidle)].
  destruct (preparedFrame_open s p peer n Hn Hb Ero Hc Hf Hp Hidle) as (s' & p' & f & -> & Hs' & Etx & Hb' & Hp' & Henc).
  assert (winv s' ((fw ++ fq) ++ [f]) (Ghost None (g_sent g ++ [(pop p, ppayload p)])) n) as Hinv'.
  { apply (message_winv cw ro cfg w0 s s' _ _ _ _ _ _ sp raws cur peer); try done; [by rewrite Etx |].
    destruct Hs' as (_ & _ & ->). done. }
  assert (queue s' = Some q) as Eq' by (destruct Hs' as (-> & _); done).
  destruct (enqueue_post s' q fw fq [] [] (Some (wire f)) f _ n Eq' (tx_same_io _ _ _ _ Hs' Hio) (fun _ => eq_refl) eq_refl Hinv')
    as (s1 & seq & -> & Hpost & _). by split.
Qed.

Lemma NewQueue_post s fw fq g n lim :
  io_ok s fw fq -> winv s (fw ++ fq) g n ->
  io_ok (Cw.NewQueue s lim) fw fq /\ winv (Cw.NewQueue s lim) (fw ++ fq) g n /\
  exists q, queue (Cw.NewQueue s lim) = Some q.
Proof.
  intros [Ho Hq] Hinv. split; [| split; [by apply (winv_io _ _ _ _ s) | by eexists]].
  split; [done |]. unfold Cw.NewQueue. cbn [queue]. destruct (queue s) as [q |].
  - unfold Qu.adjust. destruct (0 <? lim); [| done]. destruct Hq as [H1 H2 H3 H4 H5 H6 H7 H8]. by constructor.
  - subst fq. by constructor.
Qed.
End runs.

(** ** Sequences of calls *)

(** The calls an application makes; [OSend] and [OSendPrepared] look the
    connection's queue up with [NewQueue] first, and [ORun] lets the writer
    goroutine run. *)
Inductive wop :=
  | OWrite (op : Z) (p : list Z)
  | OBegin (op : Z)
  | OFragment (p : list Z) (final : bool)
  | OPing (p : list Z)
  | OPong (p : list Z)
  | OClose (code : Z) (reason : list Z)
  | OPrepared (p : Prepared)
  | OSend (limit op : Z) (p : list Z)
  | OSendPrepared (limit : Z) (p : Prepared)
  | ORun.

Section conversation.
Context {M : Masker} {G : Grow} {F : Flate} {T : Transport} {W : World}.

Definition do_op (s : wconn) (o : wop) : wconn * ret :=
  match o with
  | OWrite op p => Cw.Write s op p
  | OBegin op => Cw.BeginMessage s op
  | OFragment p final => Cw.writeFragment s p final
  | OPing p => Cw.Ping s p
  | OPong p => Cw.Pong s p
  | OClose code reason => Cw.Close s code reason
  | OPrepared p => let '(s, _, r) := Cw.WritePrepared s p in (s, r)
  | OSend limit op p =>
      let s := Cw.NewQueue s limit in
      match queue s with
      | Some q => let '(s, e) := Cw.Send s q op p in (s, Some e)
      | None => (s, None)
      end
  | OSendPrepared limit p =>
      let s := Cw.NewQueue s limit in
      match queue s with
      | Some q => let '(s, _, e) := Cw.SendPrepared s q p in (s, Some e)
      | None => (s, None)
      end
  | ORun => (Cw.run 2 s, Some None)
  end.

Fixpoint do_ops (s : wconn) (os : list wop) : wconn * list ret :=
  match os with
  | [] => (s, [])
  | o :: os => let '(s, r) := do_op s o in let '(s, rs) := do_ops s os in (s, r :: rs)
  end.

(** Which calls a connection accepts. *)
Definition idle (s : wconn) : bool := (fop (frag s) =? 0) && negb (Tx.closeSent (tx s)).

(** A queued message needs room: an empty queue takes any, a nonempty one what
    keeps the bytes that wait within its limit, which a positive argument of
    [NewQueue] has just set. *)
Definition room (s : wconn) (lim : Z) (p : list Z) : bool :=
  match queue s with
  | None => true
  | Some q =>
      bool_decide (segments q = []) || (len (queued q) + len p <=? (if 0 <? lim then lim else limit q))
  end.

(** The limit of the queue after some calls: what the last call that named a
    positive one said, 1 MiB if none did. *)
Definition name_limit (l : option Z) (o : wop) : option Z :=
  match o with
  | OSend lim _ _ | OSendPrepared lim _ => Some (if 0 <? lim then lim else default (2 ^ 20) l)
  | _ => l
  end.

Definition accepts (s : wconn) (o : wop) : bool :=
  match o with
  | OWrite op _ | OBegin op => starts op && idle s
  | OFragment _ _ => negb (fop (frag s) =? 0) && negb (Tx.closeSent (tx s))
  | OPing p => negb (Tx.closeSent (tx s)) && (len p <=? 125)
  | OPong p => len p <=? 125
  | OClose code reason => call_allowed (Tx.closeSent (tx s)) (CClose code reason)
  | OPrepared p => idle s
  | OSend limit op p => starts op && room s limit p && idle s
  | OSendPrepared limit p => room s limit (ppayload p) && idle s
  | ORun => true
  end.

Definition succeeded (r : ret) : bool := bool_decide (r = Some None).

(** The messages a run of calls has sent: whole ones, and the fragments of
    the open one. *)
Definition ghost_step (g : ghost) (o : wop * ret) : ghost :=
  if negb (succeeded o.2) then g
  else match o.1 with
  | OWrite op p | OSend _ op p => Ghost None (g_sent g ++ [(op, p)])
  | OPrepared p | OSendPrepared _ p => Ghost None (g_sent g ++ [(pop p, ppayload p)])
  | OBegin op => Ghost (Some (op, [])) (g_sent g)
  | OFragment p final => fragment_ghost g p final
  | _ => g
  end.

Definition sent_messages (os : list wop) (rs : list ret) : list (Z * list Z) :=
  g_sent (foldl ghost_step (Ghost None []) (zip os rs)).
End conversation.

Definition wop_ok `{FlateOk} (o : wop) : Prop :=
  match o with
  | OWrite _ p | OSend _ _ p | OFragment p _ | OPing p | OPong p => sendable p
  | OClose code reason => call_ok (CClose code reason)
  | OPrepared p | OSendPrepared _ p => prepared_ok p
  | OBegin _ | ORun => True
  end.

(** What has been sent is messages: an opcode of data, and bytes. *)
Definition message_ok (m : Z * list Z) : Prop := starts m.1 = true /\ bytes_ok m.2.

Section sent.
Context {M : Masker} {G : Grow} {F : Flate} {FO : FlateOk F} {T : Transport} {W : World}.

Lemma do_op_starts s o op p :
  (o = OWrite op p \/ o = OBegin op \/ exists lim, o = OSend lim op p) -> succeeded (do_op s o).2 = true -> starts op = true.
Proof.
  intros Ho. destruct (starts op) eqn:E; [done |].
  destruct Ho as [-> | [-> | [lim ->]]]; cbn [do_op]; [unfold Cw.Write | unfold Cw.BeginMessage | case_match; [unfold Cw.Send |]];
    rewrite ?starts_guard, ?E; done.
Qed.

Lemma ghost_step_ok s o g :
  wop_ok o -> (Forall message_ok (g_sent g) /\ match g_open g with Some m => message_ok m | None => True end) ->
  let g' := ghost_step g (o, (do_op s o).2) in
  (Forall message_ok (g_sent g') /\ match g_open g' with Some m => message_ok m | None => True end) /\
  (length (g_sent g') <= S (length (g_sent g)))%nat.
Proof.
  intros Ho [Hs Hg] g'. subst g'. unfold ghost_step. cbn [fst snd].
  destruct (succeeded (do_op s o).2) eqn:E; cbn [negb]; [| by split; [| lia]].
  assert (forall m, message_ok m -> (Forall message_ok (g_sent g ++ [m]) /\ True) /\ (length (g_sent g ++ [m]) <= S (length (g_sent g)))%nat) as Hadd.
  { intros m Hm. split; [split; [| done]; apply Forall_app; by split; [| constructor] | rewrite length_app; cbn; lia]. }
  destruct o as [op p | op | p final | p | p | code reason | p | lim op p | lim p |]; cbn [wop_ok] in Ho;
    try (by split; [| lia]).
  - apply Hadd. split; [eapply do_op_starts; [| exact E]; auto | apply Ho].
  - split; [| cbn; lia]. split; [done |]. split; [eapply (do_op_starts _ _ op []); [| exact E]; auto | apply Forall_nil_2].
  - unfold fragment_ghost. destruct (g_open g) as [[op data] |] eqn:Eg; [| rewrite Eg; by split; [| lia]].
    destruct Hg as [H1 H2]. assert (message_ok (op, data ++ p)) as Hm by (split; [done | apply bytes_ok_app; by split; [| apply Ho]]).
    destruct final; [by apply Hadd | by split; [| cbn; lia]].
  - apply Hadd. split; [apply Ho | apply Ho].
  - apply Hadd. split; [eapply do_op_starts; [| exact E]; eauto | apply Ho].
  - apply Hadd. split; [apply Ho | apply Ho].
Qed.

Lemma sent_messages_ok s os :
  Forall wop_ok os -> let sent := sent_messages os (do_ops s os).2 in
  Forall message_ok sent /\ (length sent <= length os)%nat.
Proof.
  intros Hos. unfold sent_messages.
  assert (forall g, Forall message_ok (g_sent g) /\ match g_open g with Some m => message_ok m | None => True end ->
    let g' := foldl ghost_step g (zip os (do_ops s os).2) in
    Forall message_ok (g_sent g') /\ (length (g_sent g') <= length (g_sent g) + length os)%nat) as H; [| by apply H].
  revert s. induction Hos as [| o os Ho _ IH]; intros s g Hg; cbn [do_ops]; [split; [apply Hg | cbn; lia] |].
  pose proof (ghost_step_ok s o g Ho Hg) as [H1 H2]. destruct (do_op s o) as [s1 r]. cbn [snd] in *.
  specialize (IH s1 _ H1). destruct (do_ops s1 os) as [s2 rs]. cbn [snd zip zip_with foldl length] in *.
  destruct IH as [IH1 IH2]. split; [exact IH1 |]. etransitivity; [exact IH2 | lia].
Qed.
End sent.

Section theorem.
Context {M : Masker} `{!MaskerOk M} {G : Grow} `{!GrowOk G} {F : Flate} {FO : FlateOk F} {FB : FlateBytes F}.
Context {T : Transport} {R : Reliable T} {W : World} (cw : Z) {WO : WorldOk W cw}.
Context (ro : Role) (cfg : option Hs.Compression) (w0 : option Window).

#[local] Abbreviation pr := (peer_role ro).
#[local] Abbreviation cmp := (negb (bool_decide (cfg = None))).
#[local] Abbreviation winv := (winv cw ro cfg w0).
#[local] Abbreviation post := (post cw ro cfg w0).

Lemma room_reserve s fw fq lim p q :
  io_ok s fw fq -> queue (Cw.NewQueue s lim) = Some q -> bool_decide (Qu.reserve q (len p) = None) = room s lim p.
Proof.
  intros [_ Hq]. unfold Cw.NewQueue, room. cbn [queue]. intros [= <-]. destruct (queue s) as [q |]; [| done].
  assert (q_idle (Qu.adjust q lim) fq) as Hi.
  { unfold Qu.adjust. destruct (0 <? lim); [| done]. destruct Hq. by constructor. }
  rewrite (reserve_idle _ _ _ Hi). unfold Qu.adjust, queued. by destruct (0 <? lim).
Qed.

Lemma succeeded_ok : succeeded (Some None) = true.
Proof. done. Qed.

Lemma succeeded_err r : (exists e : error, r = Some (Some e)) -> succeeded r = false.
Proof. by intros [e ->]. Qed.

Definition op_post (s s' : wconn) (o : wop) (r : ret) (g : ghost) (n : Z) : Prop :=
  r <> None /\ succeeded r = accepts s o /\ post s' (ghost_step g (o, r)) n.

Lemma op_post_of s s' o r g n (a : bool) g' :
  accepts s o = a ->
  (if a then r = Some None /\ post s' g' n else (exists e, r = Some (Some e)) /\ post s' g n) ->
  ghost_step g (o, Some None) = g' -> op_post s s' o r g n.
Proof.
  intros Ha H Hg. destruct a.
  - destruct H as [-> H]. split; [done |]. split; [done |]. subst g'. exact H.
  - destruct H as [[e ->] H]. by split.
Qed.

Lemma do_op_post s fw fq g n o :
  0 <= n -> io_ok s fw fq -> winv s (fw ++ fq) g (1 + n) -> wop_ok o ->
  let '(s', r) := do_op s o in op_post s s' o r g n.
Proof.
  intros Hn Hio Hinv Ho. destruct o as [op p | op | p final | p | p | code reason | p | lim op p | lim p |]; cbn [do_op wop_ok] in *.
  - pose proof (Write_post cw ro cfg w0 s fw fq g n op p Hn Hio Hinv Ho) as H.
    destruct (Cw.Write s op p) as [s' r]. rewrite <- andb_assoc in H. by eapply op_post_of.
  - pose proof (BeginMessage_post cw ro cfg w0 s fw fq g n op Hn Hio Hinv) as H.
    destruct (Cw.BeginMessage s op) as [s' r]. rewrite <- andb_assoc in H. by eapply op_post_of.
  - pose proof (writeFragment_post cw ro cfg w0 s fw fq g n p final Hn Hio Hinv Ho) as H.
    destruct (Cw.writeFragment s p final) as [s' r]. eapply op_post_of; [done | | done]. cbn.
    destruct (_ && _); [| done]. by destruct H as (? & _ & ?).
  - pose proof (send_ping_post cw ro cfg w0 s fw fq g n Opcode.Ping p Hn Hio Hinv Ho ltac:(by left)) as H.
    unfold Cw.Ping. destruct (Cw.send s Opcode.Ping p) as [s' r]. rewrite orb_false_r in H. destruct H as [H1 H2].
    eapply op_post_of; [done | | done]. cbn. by destruct (_ && _).
  - pose proof (send_ping_post cw ro cfg w0 s fw fq g n Opcode.Pong p Hn Hio Hinv Ho ltac:(by right)) as H.
    unfold Cw.Pong. destruct (Cw.send s Opcode.Pong p) as [s' r]. rewrite orb_true_r in H. destruct H as [H1 H2].
    eapply op_post_of; [done | | done]. cbn. cbn [andb] in H1. by destruct (_ <=? _).
  - pose proof (Close_post cw ro cfg w0 s fw fq g n code reason Hn Hio Hinv Ho) as H.
    destruct (Cw.Close s code reason) as [s' r]. eapply op_post_of; [done | | done]. cbn.
    destruct (call_allowed _ _); [| done]. by destruct H as (? & _ & ?).
  - pose proof (WritePrepared_post cw ro cfg w0 s fw fq g n p Hn Hio Hinv Ho) as H.
    destruct (Cw.WritePrepared s p) as [[s' p'] r]. destruct H as [_ H]. by eapply op_post_of.
  - destruct (NewQueue_post cw ro cfg w0 s fw fq g (1 + n) lim Hio Hinv) as (Hio1 & Hinv1 & q & Eq). rewrite Eq.
    pose proof (Send_post cw ro cfg w0 _ q fw fq g n op p Hn Eq Hio1 Hinv1 Ho) as H.
    destruct (Cw.Send (Cw.NewQueue s lim) q op p) as [s' e].
    apply (op_post_of _ _ _ _ _ _ (starts op && (fop (frag s) =? 0) && bool_decide (Qu.reserve q (len p) = None) &&
      negb (Tx.closeSent (tx s))) (Ghost None (g_sent g ++ [(op, p)]))); [| | done].
    + cbn [accepts]. rewrite (room_reserve s fw fq lim p q Hio Eq). unfold idle.
      destruct (starts op), (room s lim p), (fop (frag s) =? 0); done.
    + cbn in H. destruct (_ && _ && _ && _); [by destruct H as [-> ?] |]. destruct H as [[x ->] H]. by split; [eexists |].
  - destruct (NewQueue_post cw ro cfg w0 s fw fq g (1 + n) lim Hio Hinv) as (Hio1 & Hinv1 & q & Eq). rewrite Eq.
    pose proof (SendPrepared_post cw ro cfg w0 _ q fw fq g n p Hn Eq Hio1 Hinv1 Ho) as H.
    destruct (Cw.SendPrepared (Cw.NewQueue s lim) q p) as [[s' p'] e]. destruct H as [_ H].
    apply (op_post_of _ _ _ _ _ _ ((fop (frag s) =? 0) && bool_decide (Qu.reserve q (len (ppayload p)) = None) &&
      negb (Tx.closeSent (tx s))) (Ghost None (g_sent g ++ [(pop p, ppayload p)]))); [| | done].
    + cbn [accepts]. rewrite (room_reserve s fw fq lim (ppayload p) q Hio Eq). unfold idle.
      destruct (room s lim (ppayload p)), (fop (frag s) =? 0); done.
    + cbn in H. destruct (_ && _ && _); [by destruct H as [-> ?] |]. destruct H as [[x ->] H]. by split; [eexists |].
  - destruct (run_all s fw fq Hio) as (Hio' & Hs & _). split; [done |]. split; [done |].
    exists (fw ++ fq), []. split; [done |]. rewrite app_nil_r. eapply winv_io; [done |].
    eapply winv_weaken; [| exact Hinv]. lia.
Qed.

Lemma do_ops_post os s fw fq g n :
  0 <= n -> io_ok s fw fq -> winv s (fw ++ fq) g (len os + n) -> Forall wop_ok os ->
  let '(s', rs) := do_ops s os in
  Forall (fun r => r <> None) rs /\ post s' (foldl ghost_step g (zip os rs)) n.
Proof.
  revert s fw fq g. induction os as [| o os IH]; intros s fw fq g Hn Hio Hinv Hos; cbn [do_ops].
  { split; [constructor |]. exists fw, fq. split; [done |]. eapply winv_weaken; [| exact Hinv]. change (len (@nil wop)) with 0. lia. }
  apply Forall_cons in Hos as [Ho Hos]. rewrite len_cons, <- Z.add_assoc in Hinv. pose proof (len_nonneg os).
  pose proof (do_op_post s fw fq g (len os + n) o ltac:(lia) Hio Hinv Ho) as H1.
  destruct (do_op s o) as [s1 r]. destruct H1 as (Hr & _ & fw1 & fq1 & Hio1 & Hinv1).
  specialize (IH s1 fw1 fq1 _ Hn Hio1 Hinv1 Hos). destruct (do_ops s1 os) as [s2 rs]. destruct IH as [IH1 IH2].
  split; [by constructor | exact IH2].
Qed.

(** Everything the run put on the wire or into the queue is legal traffic. *)
Lemma post_wire s g n :
  post s g n -> exists fs sp peer,
    written (out (Cw.run 2 s)) = concat (wire <$> fs) /\ Forall frame_ok fs /\
    legal_run pr cmp spec_init fs = Some sp /\ decoded w0 (assembled fs).1 (g_sent g) peer.
Proof.
  intros (fw & fq & Hio & _ & sp & raws & cur & peer & [H1 H2 H3 H4] & _).
  destruct (run_all s fw fq Hio) as ([Ho _] & _). exists (fw ++ fq), sp, peer. by rewrite H3.
Qed.

Lemma bytes_ok_wires fs : Forall frame_ok fs -> bytes_ok (concat (wire <$> fs)).
Proof.
  intros H. induction H as [| f fs Hf _ IH]; [constructor |]. cbn [fmap list_fmap concat].
  apply bytes_ok_app. split; [by apply bytes_ok_wire | exact IH].
Qed.

Lemma bytes_ok_concat chunks : bytes_ok (concat chunks) -> Forall bytes_ok chunks.
Proof.
  induction chunks as [| c l IH]; [constructor |]. cbn. intros [? ?]%bytes_ok_app. constructor; auto.
Qed.

(** And it reaches the peer. *)
Lemma post_receives s g n r0 chunks :
  post s g n -> concat chunks = written (out (Cw.run 2 s)) ->
  exists r evs peer, receive_all (Rx.Init r0 pr cmp) chunks = Some (r, evs) /\
    Forall (fun e => is_failure e = false) evs /\ decoded w0 (received evs) (g_sent g) peer.
Proof.
  intros (fs & sp & peer & Hw & H1 & H2 & H3)%post_wire Ech. rewrite Hw in Ech.
  assert (Forall bytes_ok chunks) as Hb by (apply bytes_ok_concat; rewrite Ech; by apply bytes_ok_wires).
  destruct (Init_ok r0 pr cmp) as (Hok & Hq & Hv & Hr & Hc).
  destruct (receive_all_post (Rx.Init r0 pr cmp) chunks Hok Hq Hb) as (r & evs & E & _ & _ & Hrun).
  exists r, evs, peer. split; [done |]. rewrite Hr, Hc, Hv, Ech in Hrun.
  rewrite (run_seq pr cmp spec_init fs sp spec_init_at H1 H2) in Hrun. injection Hrun as _ <-. split.
  - by eapply seq_events_no_failure; [apply spec_init_at |].
  - by rewrite (received_assembled pr cmp fs sp H2).
Qed.
End theorem.
