(* ===== verification/StreamWrite.v ===== *)
(** * WriteFrom: streaming a reader as one message

    The loop of [WriteFrom], fragment by fragment, over the invariant of
    [Delivery]. *)

From stdpp Require Import prelude.
From S2P Require Import Prelude Words Mask Errors Header Encoder Decoder Close Receiver Stream Refine Pump Wire Traffic Sender Window Compressor Handshake Queue ConnCompress SendFlow ConnWrite WriteSpec Delivery Calls Conversation.

(** ** The fragment size never changes *)

Section size.
Context {M : Masker} {G : Grow} {F : Flate} {T : Transport} {W : World}.

Lemma write_size s h b : fragmentSize (Cw.write s h b).1 = fragmentSize s.
Proof.
  unfold Cw.write. destruct (len b =? 0); [by destruct (net_write _ _) |].
  destruct (vectored s); [by destruct (net_write _ _) |].
  destruct (_ <=? _); [by destruct (net_write _ _) |].
  destruct (net_write (out s) h) as [o [e |]]; [done |]. by destruct (net_write _ _).
Qed.

Lemma sendFrame_size s h b : fragmentSize (Cw.sendFrame s h b).1 = fragmentSize s.
Proof.
  unfold Cw.sendFrame, Cw.enqueue. destruct (queue s) as [q |]; [by destruct (Qu.enqueue _ _ _ _ _) |].
  pose proof (write_size s h b) as H. by destruct (Cw.write s h b).
Qed.

Lemma run_size fuel s : fragmentSize (Cw.run fuel s) = fragmentSize s.
Proof.
  revert s. induction fuel as [| fuel IH]; intros s; cbn [Cw.run]; [done |].
  destruct (queue s) as [q |]; [| done]. destruct (negb _); [done |].
  destruct (Qu.take q) as [q1 work]. destruct (negb _); [done |].
  destruct (Qu.flush _ _ _) as [o err]. by rewrite IH.
Qed.

Lemma await_size s r : fragmentSize (Cw.await s r).1 = fragmentSize s.
Proof. destruct r as [[seq |] | e]; cbn; [apply (run_size 2) | done | done]. Qed.

Lemma endFragmented_size s e : fragmentSize (Cw.endFragmented s e).1 = fragmentSize s.
Proof. unfold Cw.endFragmented. cbn. destruct (heldCompressor _); [by destruct (_ || _) | done]. Qed.

Lemma fail_size s e : fragmentSize (Cw.fragment_fail s e).1 = fragmentSize s.
Proof. unfold Cw.fragment_fail. pose proof (endFragmented_size s (Some e)) as H. by destruct (Cw.endFragmented _ _). Qed.

Lemma writeFragment_size s p final : fragmentSize (Cw.writeFragment s p final).1 = fragmentSize s.
Proof.
  unfold Cw.writeFragment. destruct (Cw.fragment s p final) as [s' r] eqn:E. rewrite await_size.
  change s' with (s', r).1. rewrite <- E. clear. unfold Cw.fragment. destruct (_ =? 0); [done |].
  assert (fragmentSize (Cw.compress_fragment s p final).1 = fragmentSize s) as H1.
  { unfold Cw.compress_fragment. destruct (negb _); [done |]. destruct (cattached _); [| done].
    by destruct (Cmp.CompressChunk _ _ _ _) as [[? ?] ?]. }
  destruct (Cw.compress_fragment s p final) as [s1 [bytes | e]]; cbn in H1; [| by rewrite fail_size].
  unfold Cw.tx_call. destruct (Tx.EncodeFragment _ _ _ _ _ _) as [t [[h b] | e]]; [| by rewrite fail_size].
  match goal with |- context [Cw.sendFrame ?x h b] => pose proof (sendFrame_size x h b) as H2;
    destruct (Cw.sendFrame x h b) as [s2 [seq | e]] end; cbn in H2; [| rewrite fail_size; congruence].
  destruct final; [| cbn; congruence].
  match goal with |- context [Cw.endFragmented ?x None] => pose proof (endFragmented_size x None) as H3;
    destruct (Cw.endFragmented x None) end. cbn in *. congruence.
Qed.

Lemma BeginMessage_size s op :
  fragmentSize (Cw.BeginMessage s op).1 = fragmentSize s /\ tx (Cw.BeginMessage s op).1 = tx s.
Proof.
  unfold Cw.BeginMessage. destruct (_ && _); [done |]. destruct (negb _); [done |].
  destruct (Tx.CloseSent _); [done |]. by destruct (_ && _).
Qed.

Lemma encodeData_size s op p : fragmentSize (Cw.encodeData s op p).1 = fragmentSize s.
Proof.
  unfold Cw.encodeData, Cw.tx_call, Cw.getCompressor. destruct (_ || _); [by destruct (Tx.Encode _ _ _ _) |].
  set (sel := if bool_decide _ then _ else _).
  assert (fragmentSize sel.1 = fragmentSize s) as H by (subst sel; by destruct (bool_decide _)).
  destruct sel as [s1 pc]. cbn in H. destruct (Cc.compressorFor _ _) as [[cc c] sh].
  destruct (Cmp.Compress _ _ _) as [[c' w'] [bs | e]]; [destruct (Tx.EncodeCompressed _ _ _ _) |]; by destruct sh.
Qed.

Lemma sent_size s h b :
  fragmentSize (let '(s, r) := Cw.sendFrame s h b in Cw.await s r).1 = fragmentSize s.
Proof.
  pose proof (sendFrame_size s h b) as H. destruct (Cw.sendFrame s h b) as [s1 r]. by rewrite await_size.
Qed.

Lemma Write_size s op p : fragmentSize (Cw.Write s op p).1 = fragmentSize s.
Proof.
  unfold Cw.Write. destruct (_ && _); [done |]. destruct (negb _); [done |].
  pose proof (encodeData_size s op p) as H. destruct (Cw.encodeData s op p) as [s1 [[h b] | e]]; [| done].
  cbn in H. by rewrite sent_size.
Qed.

Lemma send_size s op p : fragmentSize (Cw.send s op p).1 = fragmentSize s.
Proof.
  unfold Cw.send, Cw.tx_call. destruct (_ && _); [done |]. destruct (Tx.Encode _ _ _ _) as [t [[h b] | e]]; [| done].
  match goal with |- context [Cw.write ?x h b] => pose proof (write_size x h b) as H; by destruct (Cw.write x h b) end.
Qed.

Lemma Close_size s code reason : fragmentSize (Cw.Close s code reason).1 = fragmentSize s.
Proof.
  unfold Cw.Close, Cw.tx_call. destruct (Tx.EncodeClose _ _ _ _) as [t [[h b] | e]]; [| done]. by rewrite sent_size.
Qed.

Lemma preparedFrame_size s p : fragmentSize (Cw.preparedFrame s p).1.1 = fragmentSize s.
Proof.
  unfold Cw.preparedFrame, Cw.frameFor, Cw.getCompressor. destruct (negb _); [done |]. destruct (Tx.CloseSent _); [done |].
  destruct (config (comp s)) as [c |]; [| done]. destruct (_ <? _); [done |].
  destruct (Cw.compressedFor _ _ _) as [p' fr]. by destruct (_ && _).
Qed.

Lemma enqueue_size s q h b ext : fragmentSize (Cw.enqueue s q h b ext).1 = fragmentSize s.
Proof. unfold Cw.enqueue. by destruct (Qu.enqueue _ _ _ _ _). Qed.

Lemma WritePrepared_size s p : fragmentSize (Cw.WritePrepared s p).1.1 = fragmentSize s.
Proof.
  unfold Cw.WritePrepared. destruct (decide _).
  { pose proof (Write_size s (pop p) (ppayload p)) as H. by destruct (Cw.Write _ _ _). }
  pose proof (preparedFrame_size s p) as H. destruct (Cw.preparedFrame s p) as [[s1 p1] [fr | e]]; [| done].
  cbn in H. destruct (queue s1) as [q |]; [| by destruct (net_write _ _)].
  pose proof (enqueue_size s1 q [] [] (Some fr)) as H2. destruct (Cw.enqueue s1 q [] [] (Some fr)) as [s2 r].
  pose proof (await_size s2 r) as H3. destruct (Cw.await s2 r). cbn in *. congruence.
Qed.

Lemma Send_size s q op p : fragmentSize (Cw.Send s q op p).1 = fragmentSize s.
Proof.
  unfold Cw.Send. destruct (_ && _); [done |]. destruct (negb _); [done |]. destruct (Qu.reserve _ _); [done |].
  pose proof (encodeData_size s op p) as H. destruct (Cw.encodeData s op p) as [s1 [[h b] | e]]; [| done].
  pose proof (enqueue_size s1 q h b None) as H2. destruct (Cw.enqueue s1 q h b None). cbn in *. congruence.
Qed.

Lemma SendPrepared_size s q p : fragmentSize (Cw.SendPrepared s q p).1.1 = fragmentSize s.
Proof.
  unfold Cw.SendPrepared. destruct (decide _).
  { pose proof (Send_size s q (pop p) (ppayload p)) as H. by destruct (Cw.Send _ _ _ _). }
  destruct (Qu.reserve _ _); [done |].
  pose proof (preparedFrame_size s p) as H. destruct (Cw.preparedFrame s p) as [[s1 p1] [fr | e]]; [| done].
  pose proof (enqueue_size s1 q [] [] (Some fr)) as H2. destruct (Cw.enqueue s1 q [] [] (Some fr)). cbn in *. congruence.
Qed.

Lemma do_op_size s o : fragmentSize (do_op s o).1 = fragmentSize s.
Proof.
  destruct o; cbn [do_op]; [apply Write_size | apply BeginMessage_size | apply writeFragment_size | apply send_size | apply send_size | apply Close_size | | | | apply (run_size 2)].
  - pose proof (WritePrepared_size s p) as H. by destruct (Cw.WritePrepared s p) as [[? ?] ?].
  - destruct (queue _) as [q |]; [| done]. pose proof (Send_size (Cw.NewQueue s limit) q op p) as H.
    by destruct (Cw.Send _ _ _ _).
  - destruct (queue _) as [q |]; [| done]. pose proof (SendPrepared_size (Cw.NewQueue s limit) q p) as H.
    by destruct (Cw.SendPrepared _ _ _) as [[? ?] ?].
Qed.

Lemma do_ops_size s os : fragmentSize (do_ops s os).1 = fragmentSize s.
Proof.
  revert s. induction os as [| o os IH]; intros s; [done |]. cbn [do_ops].
  pose proof (do_op_size s o) as H. destruct (do_op s o) as [s1 r]. specialize (IH s1).
  destruct (do_ops s1 os) as [s2 rs]. cbn in *. congruence.
Qed.

(** *** The queue's limit changes only when [NewQueue] is given one *)

Definition queue_limit (s : wconn) : option Z := limit <$> queue s.

Lemma write_queue s h b : queue (Cw.write s h b).1 = queue s.
Proof.
  unfold Cw.write. destruct (len b =? 0); [by destruct (net_write _ _) |].
  destruct (vectored s); [by destruct (net_write _ _) |].
  destruct (_ <=? _); [by destruct (net_write _ _) |].
  destruct (net_write (out s) h) as [o [e |]]; [done |]. by destruct (net_write _ _).
Qed.

Lemma Qenqueue_limit q h b ext : limit (Qu.enqueue q pooledArena h b ext).1 = limit q.
Proof. unfold Qu.enqueue. destruct (qerr q); [done |]. by destruct ext; cbv zeta; destruct (running q). Qed.

Lemma enqueue_limit s q h b ext : queue s = Some q -> queue_limit (Cw.enqueue s q h b ext).1 = queue_limit s.
Proof.
  intros Eq. unfold Cw.enqueue, queue_limit. pose proof (Qenqueue_limit q h b ext) as H.
  destruct (Qu.enqueue _ _ _ _ _) as [q' r]. cbn in *. by rewrite Eq, H.
Qed.

Lemma sendFrame_limit s h b : queue_limit (Cw.sendFrame s h b).1 = queue_limit s.
Proof.
  unfold Cw.sendFrame. destruct (queue s) as [q |] eqn:Eq; [by apply enqueue_limit |].
  unfold queue_limit. pose proof (write_queue s h b) as H. destruct (Cw.write s h b). cbn in *. by rewrite H.
Qed.

Lemma run_limit fuel s : queue_limit (Cw.run fuel s) = queue_limit s.
Proof.
  revert s. induction fuel as [| fuel IH]; intros s; cbn [Cw.run]; [done |].
  destruct (queue s) as [q |] eqn:Eq; [| done]. destruct (negb _); [done |].
  assert (limit (Qu.take q).1 = limit q) as H1 by (unfold Qu.take; by destruct (_ || _)).
  destruct (Qu.take q) as [q1 work]. cbn in H1. unfold queue_limit in *. rewrite Eq.
  destruct (negb _); [cbn; by rewrite H1 |]. destruct (Qu.flush _ _ _) as [o err].
  rewrite IH. cbn. rewrite <- H1. unfold Qu.finish. by destruct err.
Qed.

Lemma await_limit s r : queue_limit (Cw.await s r).1 = queue_limit s.
Proof. destruct r as [[seq |] | e]; cbn; [apply (run_limit 2) | done | done]. Qed.

Lemma sent_limit s h b : queue_limit (let '(s, r) := Cw.sendFrame s h b in Cw.await s r).1 = queue_limit s.
Proof. pose proof (sendFrame_limit s h b) as H. destruct (Cw.sendFrame s h b). by rewrite await_limit. Qed.

Lemma endFragmented_queue s e : queue (Cw.endFragmented s e).1 = queue s.
Proof. unfold Cw.endFragmented. cbn. destruct (heldCompressor _); [by destruct (_ || _) | done]. Qed.

Lemma fail_queue s e : queue (Cw.fragment_fail s e).1 = queue s.
Proof. unfold Cw.fragment_fail. pose proof (endFragmented_queue s (Some e)) as H. by destruct (Cw.endFragmented _ _). Qed.

Lemma compress_fragment_queue s p final : queue (Cw.compress_fragment s p final).1 = queue s.
Proof.
  unfold Cw.compress_fragment. destruct (negb _); [done |]. destruct (cattached _); [| done].
  by destruct (Cmp.CompressChunk _ _ _ _) as [[? ?] ?].
Qed.

Lemma writeFragment_limit s p final : queue_limit (Cw.writeFragment s p final).1 = queue_limit s.
Proof.
  unfold Cw.writeFragment. destruct (Cw.fragment s p final) as [s' r] eqn:E. rewrite await_limit.
  change s' with (s', r).1. rewrite <- E. clear. unfold Cw.fragment. destruct (_ =? 0); [done |].
  pose proof (compress_fragment_queue s p final) as H1.
  destruct (Cw.compress_fragment s p final) as [s1 [bytes | e]]; cbn in H1;
    [| unfold queue_limit; by rewrite fail_queue, H1].
  unfold Cw.tx_call. destruct (Tx.EncodeFragment _ _ _ _ _ _) as [t [[h b] | e]];
    [| unfold queue_limit; rewrite fail_queue; cbn; by rewrite H1].
  match goal with |- context [Cw.sendFrame ?x h b] => pose proof (sendFrame_limit x h b) as H2;
    destruct (Cw.sendFrame x h b) as [s2 [seq | e]] end; unfold queue_limit in *; cbn in H2; rewrite H1 in H2;
    [| by rewrite fail_queue].
  destruct final; [| done].
  match goal with |- context [Cw.endFragmented ?x None] => pose proof (endFragmented_queue x None) as H3;
    destruct (Cw.endFragmented x None) end. cbn in *. by rewrite H3.
Qed.

Lemma BeginMessage_queue s op : queue (Cw.BeginMessage s op).1 = queue s.
Proof.
  unfold Cw.BeginMessage. destruct (_ && _); [done |]. destruct (negb _); [done |].
  destruct (Tx.CloseSent _); [done |]. by destruct (_ && _).
Qed.

Lemma encodeData_keeps_queue s op p : queue (Cw.encodeData s op p).1 = queue s.
Proof.
  unfold Cw.encodeData, Cw.tx_call, Cw.getCompressor. destruct (_ || _); [by destruct (Tx.Encode _ _ _ _) |].
  set (sel := if bool_decide _ then _ else _).
  assert (queue sel.1 = queue s) as H by (subst sel; by destruct (bool_decide _)).
  destruct sel as [s1 pc]. cbn in H. destruct (Cc.compressorFor _ _) as [[cc c] sh].
  destruct (Cmp.Compress _ _ _) as [[c' w'] [bs | e]]; [destruct (Tx.EncodeCompressed _ _ _ _) |]; by destruct sh.
Qed.

Lemma Write_limit s op p : queue_limit (Cw.Write s op p).1 = queue_limit s.
Proof.
  unfold Cw.Write. destruct (_ && _); [done |]. destruct (negb _); [done |].
  pose proof (encodeData_keeps_queue s op p) as H. destruct (Cw.encodeData s op p) as [s1 [[h b] | e]]; cbn in H;
    [rewrite sent_limit |]; unfold queue_limit; cbn; by rewrite H.
Qed.

Lemma send_keeps_queue s op p : queue (Cw.send s op p).1 = queue s.
Proof.
  unfold Cw.send, Cw.tx_call. destruct (_ && _); [done |]. destruct (Tx.Encode _ _ _ _) as [t [[h b] | e]]; [| done].
  match goal with |- context [Cw.write ?x h b] => pose proof (write_queue x h b) as H; by destruct (Cw.write x h b) end.
Qed.

Lemma Close_limit s code reason : queue_limit (Cw.Close s code reason).1 = queue_limit s.
Proof.
  unfold Cw.Close, Cw.tx_call. destruct (Tx.EncodeClose _ _ _ _) as [t [[h b] | e]]; [| done]. by rewrite sent_limit.
Qed.

Lemma preparedFrame_queue s p : queue (Cw.preparedFrame s p).1.1 = queue s.
Proof.
  unfold Cw.preparedFrame, Cw.frameFor, Cw.getCompressor. destruct (negb _); [done |]. destruct (Tx.CloseSent _); [done |].
  destruct (config (comp s)) as [c |]; [| done]. destruct (_ <? _); [done |].
  destruct (Cw.compressedFor _ _ _) as [p' fr]. by destruct (_ && _).
Qed.

Lemma WritePrepared_limit s p : queue_limit (Cw.WritePrepared s p).1.1 = queue_limit s.
Proof.
  unfold Cw.WritePrepared. destruct (decide _).
  { pose proof (Write_limit s (pop p) (ppayload p)) as H. by destruct (Cw.Write _ _ _). }
  pose proof (preparedFrame_queue s p) as H. destruct (Cw.preparedFrame s p) as [[s1 p1] [fr | e]];
    cbn in H; [| unfold queue_limit; cbn; by rewrite H].
  assert (queue_limit s1 = queue_limit s) as H1 by (unfold queue_limit; by rewrite H).
  destruct (queue s1) as [q |] eqn:Eq; [| destruct (net_write _ _); unfold queue_limit; cbn; by rewrite <- H].
  pose proof (enqueue_limit s1 q [] [] (Some fr) Eq) as H2. destruct (Cw.enqueue s1 q [] [] (Some fr)) as [s2 r].
  pose proof (await_limit s2 r) as H3. destruct (Cw.await s2 r). cbn in *. congruence.
Qed.

Lemma Send_limit s q op p : queue s = Some q -> queue_limit (Cw.Send s q op p).1 = queue_limit s.
Proof.
  intros Eq. unfold Cw.Send. destruct (_ && _); [done |]. destruct (negb _); [done |]. destruct (Qu.reserve _ _); [done |].
  pose proof (encodeData_keeps_queue s op p) as H. destruct (Cw.encodeData s op p) as [s1 [[h b] | e]]; cbn in H;
    [| unfold queue_limit; cbn; by rewrite H].
  pose proof (enqueue_limit s1 q h b None ltac:(congruence)) as H2. destruct (Cw.enqueue s1 q h b None). cbn in *.
  rewrite H2. unfold queue_limit. by rewrite H.
Qed.

Lemma SendPrepared_limit s q p : queue s = Some q -> queue_limit (Cw.SendPrepared s q p).1.1 = queue_limit s.
Proof.
  intros Eq. unfold Cw.SendPrepared. destruct (decide _).
  { pose proof (Send_limit s q (pop p) (ppayload p) Eq) as H. by destruct (Cw.Send _ _ _ _). }
  destruct (Qu.reserve _ _); [done |].
  pose proof (preparedFrame_queue s p) as H. destruct (Cw.preparedFrame s p) as [[s1 p1] [fr | e]];
    cbn in H; [| unfold queue_limit; cbn; by rewrite H].
  pose proof (enqueue_limit s1 q [] [] (Some fr) ltac:(congruence)) as H2. destruct (Cw.enqueue s1 q [] [] (Some fr)).
  cbn in *. rewrite H2. unfold queue_limit. by rewrite H.
Qed.

Lemma NewQueue_limit s lim :
  queue_limit (Cw.NewQueue s lim) = Some (if 0 <? lim then lim else default (2 ^ 20) (queue_limit s)).
Proof.
  unfold Cw.NewQueue, queue_limit. cbn. destruct (queue s) as [q |]; cbn; unfold Qu.adjust; [by destruct (0 <? lim) |].
  by rewrite Z.leb_antisym; destruct (0 <? lim).
Qed.

Lemma do_op_limit s o : queue_limit (do_op s o).1 = name_limit (queue_limit s) o.
Proof.
  destruct o as [op p | op | p final | p | p | code reason | p | lim op p | lim p |]; cbn [do_op name_limit].
  - apply Write_limit.
  - unfold queue_limit. by rewrite BeginMessage_queue.
  - apply writeFragment_limit.
  - unfold queue_limit, Cw.Ping. by rewrite send_keeps_queue.
  - unfold queue_limit, Cw.Pong. by rewrite send_keeps_queue.
  - apply Close_limit.
  - pose proof (WritePrepared_limit s p) as H. by destruct (Cw.WritePrepared s p) as [[? ?] ?].
  - rewrite <- (NewQueue_limit s lim). destruct (queue (Cw.NewQueue s lim)) as [q |] eqn:Eq; [| done].
    pose proof (Send_limit _ q op p Eq) as H. by destruct (Cw.Send _ _ _ _).
  - rewrite <- (NewQueue_limit s lim). destruct (queue (Cw.NewQueue s lim)) as [q |] eqn:Eq; [| done].
    pose proof (SendPrepared_limit _ q p Eq) as H. by destruct (Cw.SendPrepared _ _ _) as [[? ?] ?].
  - apply (run_limit 2).
Qed.

Lemma do_ops_limit s os : queue_limit (do_ops s os).1 = foldl name_limit (queue_limit s) os.
Proof.
  revert s. induction os as [| o os IH]; intros s; [done |]. cbn [do_ops foldl].
  pose proof (do_op_limit s o) as H. destruct (do_op s o) as [s1 r]. specialize (IH s1).
  destruct (do_ops s1 os) as [s2 rs]. cbn [fst] in *. by rewrite IH, H.
Qed.
End size.

Section loop.
Context {M : Masker} `{!MaskerOk M} {G : Grow} `{!GrowOk G} {F : Flate} {FO : FlateOk F} {FB : FlateBytes F}.
Context {T : Transport} {R : Reliable T} {W : World} (cw : Z) {WO : WorldOk W cw}.
Context (ro : Role) (cfg : option Hs.Compression) (w0 : option Window).

#[local] Abbreviation winv := (winv cw ro cfg w0).
#[local] Abbreviation post := (post cw ro cfg w0).

(** A fragment of an open message is always taken. *)
Lemma fragment_ok s g n p final op data :
  0 <= n -> post s g (1 + n) -> sendable p -> Tx.closeSent (tx s) = false -> g_open g = Some (op, data) ->
  exists s', Cw.writeFragment s p final = (s', Some None) /\ Tx.closeSent (tx s') = false /\
    fragmentSize s' = fragmentSize s /\ post s' (fragment_ghost g p final) n.
Proof.
  intros Hn (fw & fq & Hio & Hinv) Hp Hc Hg.
  pose proof (writeFragment_post cw ro cfg w0 s fw fq g n p final Hn Hio Hinv Hp) as H.
  pose proof (writeFragment_size s p final) as Hsz. destruct (Cw.writeFragment s p final) as [s' r].
  destruct Hinv as [_ (sp & raws & cur & peer & _ & Hl)]. rewrite Hc in *. rewrite Hg in Hl.
  destruct Hl as [_ (Hf & Hop & _)]. apply starts_nonzero in Hop. rewrite Hf in H.
  destruct (Z.eqb_spec op 0); [done |]. cbn in H. destruct H as (-> & H1 & H2). by exists s'.
Qed.

Definition ends_message (e : error) : Prop := e = Io EOF \/ e = Io ErrUnexpectedEOF.

Lemma sendable_from p i : sendable p -> sendable (from p i).
Proof. intros [H1 H2]. split; [by apply bytes_ok_from |]. rewrite len_from. pose proof (len_nonneg p). lia. Qed.

Lemma sendable_upto p i : sendable p -> sendable (upto p i).
Proof. intros [H1 H2]. split; [by apply bytes_ok_upto |]. rewrite len_upto. lia. Qed.

Lemma WriteFrom_loop_post fuel s g op data cur r total n :
  0 <= n -> (length (content r) < fuel)%nat -> 0 < fragmentSize s -> post s g (len (content r) + 2 + n) ->
  Tx.closeSent (tx s) = false -> g_open g = Some (op, data) -> sendable cur -> sendable (content r) ->
  ends_message (ending r) ->
  exists s', Cw.WriteFrom_loop fuel s cur r total = (s', total + len cur + len (content r), Some None) /\
    post s' (Ghost None (g_sent g ++ [(op, data ++ cur ++ content r)])) n /\
    Tx.closeSent (tx s') = false /\ fragmentSize s' = fragmentSize s.
Proof.
  revert s g data cur r total. induction fuel as [| fuel IH]; intros s g data cur r total Hn Hfu Hsz Hpost Hc Hg Hcur Hr He; [lia |].
  cbn [Cw.WriteFrom_loop]. unfold ReadFull. pose proof (len_nonneg (content r)) as Hl0.
  destruct (Z.leb_spec (fragmentSize s) (len (content r))) as [Hle | Hlt].
  - destruct (fragment_ok s g (len (content r) + 1 + n) cur false op data) as (s1 & -> & Hc1 & Hs1 & Hp1); try done; [lia | |].
    { by replace (1 + (len (content r) + 1 + n)) with (len (content r) + 2 + n) by lia. }
    unfold fragment_ghost in Hp1. rewrite Hg in Hp1.
    destruct (IH s1 (Ghost (Some (op, data ++ cur)) (g_sent g)) (data ++ cur) (upto (content r) (fragmentSize s))
      {| content := from (content r) (fragmentSize s); ending := ending r |} (total + len cur))
      as (s2 & -> & Hp2 & Hc2 & Hs2); cbn [content ending g_open g_sent]; try done.
    + unfold from, len in *. rewrite length_drop. lia.
    + by rewrite Hs1.
    + destruct Hp1 as (fw & fq & H1 & H2). exists fw, fq. split; [done |]. eapply winv_weaken; [| exact H2].
      rewrite len_from. lia.
    + by apply sendable_upto.
    + by apply sendable_from.
    + exists s2. split; [f_equal; f_equal; rewrite len_upto, len_from; lia |].
      cbn [content g_sent] in Hp2. rewrite upto_from, <- app_assoc in Hp2. split; [exact Hp2 |]. split; [done | congruence].
  - assert (from (content r) (fragmentSize s) = []) as Efrom by (apply from_all; lia).
    set (e := if bool_decide (ending r = Io EOF) && negb (len (content r) =? 0) then Io ErrUnexpectedEOF else ending r).
    assert (ends_message e) as Hee by (subst e; destruct (_ && _); [by right | done]).
    assert (negb (bool_decide (e = Io EOF)) && negb (bool_decide (e = Io ErrUnexpectedEOF)) = false) as ->.
    { destruct Hee as [-> | ->]; done. }
    destruct (fragment_ok s g (1 + n) cur (bool_decide (e = Io EOF)) op data) as (s1 & -> & Hc1 & Hs1 & Hp1); try done; [lia | |].
    { destruct Hpost as (fw & fq & H1 & H2). exists fw, fq. split; [done |]. eapply winv_weaken; [| exact H2]. lia. }
    unfold fragment_ghost in Hp1. rewrite Hg in Hp1.
    destruct (bool_decide_reflect (e = Io EOF)) as [Ee | Ee].
    + assert (content r = []) as Econ.
      { apply len_0_nil. subst e. destruct (Z.eqb_spec (len (content r)) 0) as [| N]; [done |].
        destruct He as [E | E]; rewrite E in Ee; done. }
      rewrite Econ. exists s1. split; [f_equal; f_equal; change (len (@nil Z)) with 0; lia |]. rewrite app_nil_r.
      split; [| done]. destruct Hp1 as (fw & fq & H1 & H2). exists fw, fq. split; [done |]. eapply winv_weaken; [| exact H2]. lia.
    + destruct (fragment_ok s1 (Ghost (Some (op, data ++ cur)) (g_sent g)) n (content r) true op (data ++ cur))
        as (s2 & -> & Hc2 & Hs2 & Hp2); try done.
      exists s2. split; [done |]. unfold fragment_ghost in Hp2. cbn in Hp2. rewrite <- app_assoc in Hp2.
      split; [exact Hp2 |]. split; [done | congruence].
Qed.

Lemma WriteFrom_post s fw fq g op r n :
  0 <= n -> io_ok s fw fq -> winv s (fw ++ fq) g (len (content r) + 3 + n) -> 0 < fragmentSize s ->
  starts op = true -> idle s = true -> sendable (content r) -> ends_message (ending r) ->
  exists s', Cw.WriteFrom s op r = (s', len (content r), Some None) /\
    post s' (Ghost None (g_sent g ++ [(op, content r)])) n /\
    Tx.closeSent (tx s') = false /\ fragmentSize s' = fragmentSize s.
Proof.
  intros Hn Hio Hinv Hsz Hop Hid Hr He. unfold Cw.WriteFrom, ReadFull. rewrite starts_guard, Hop. cbn [negb].
  pose proof (len_nonneg (content r)) as Hl0. unfold idle in Hid.
  destruct (Z.leb_spec (fragmentSize s) (len (content r))) as [Hle | Hlt].
  - pose proof (BeginMessage_post cw ro cfg w0 s fw fq g (len (content r) + 2 + n) op ltac:(lia) Hio) as H.
    destruct (BeginMessage_size s op) as [Hs1 Ht1]. destruct (Cw.BeginMessage s op) as [s1 res]. cbn in Hs1, Ht1.
    rewrite Hop in H. cbn [andb] in H. rewrite Hid in H.
    destruct H as [-> Hp]; [by replace (1 + (len (content r) + 2 + n)) with (len (content r) + 3 + n) by lia |].
    apply andb_prop in Hid as [_ Hcl%negb_true_iff].
    destruct (WriteFrom_loop_post (S (length (content r))) s1 (Ghost (Some (op, [])) (g_sent g)) op []
      (upto (content r) (fragmentSize s)) {| content := from (content r) (fragmentSize s); ending := ending r |} 0 n)
      as (s2 & -> & Hp2 & Hc2 & Hs2); cbn [content ending g_open g_sent]; try done.
    + unfold from. rewrite length_drop. lia.
    + by rewrite Hs1.
    + destruct Hp as (fw' & fq' & H1 & H2). exists fw', fq'. split; [done |]. eapply winv_weaken; [| exact H2].
      rewrite len_from. lia.
    + by rewrite Ht1.
    + by apply sendable_upto.
    + by apply sendable_from.
    + exists s2. split; [f_equal; f_equal; rewrite len_upto, len_from; lia |].
      cbn [app content g_sent] in Hp2. rewrite upto_from in Hp2. split; [exact Hp2 |]. split; [done | congruence].
  - set (e := if bool_decide (ending r = Io EOF) && negb (len (content r) =? 0) then Io ErrUnexpectedEOF else ending r).
    assert (ends_message e) as Hee 
      by (subst e; destruct (bool_decide (ending r = Io EOF) && negb (len (content r) =? 0)); [by right | done]).
    assert (bool_decide (e = Io EOF) || bool_decide (e = Io ErrUnexpectedEOF) = true) as ->.
    { destruct Hee as [-> | ->]; done. }
    apply andb_prop in Hid as [Hf%Z.eqb_eq Hcl%negb_true_iff]. pose proof (Write_size s op (content r)) as Hws.
    destruct (Write_idle cw ro cfg w0 s fw fq g n op (content r) Hn Hio ltac:(eapply winv_weaken; [| exact Hinv]; lia) Hr Hop Hf Hcl)
      as (s1 & E & Hp1 & _ & Hc1 & _). rewrite E in Hws |- *. exists s1. split; [done |]. split; [exact Hp1 |]. by split.
Qed.
End loop.
