(* ===== verification/Sending.v ===== *)
(** * Sending: the theorems on the write side of a connection *)

From stdpp Require Import prelude.
From S2P Require Import Prelude Words Mask Errors Header Encoder Decoder Close Receiver Stream Refine Pump Wire Traffic Sender Window Compressor Handshake Queue ConnCompress SendFlow ConnWrite WriteSpec Delivery Calls Conversation StreamWrite.

(** ** New connections *)

(** The window the connection's compressors reach back through. *)
Definition reach (cfg : Config) : Z :=
  match cCompression cfg with
  | Some c => Win.Size (Window_new (Hs.SendWindowBits c))
  | None => windowSize
  end.

Definition compressing (cfg : Config) : bool := negb (bool_decide (cCompression cfg = None)).

(** The window of a peer that keeps history for this direction, of [bits]. *)
Definition peer_window (cfg : Config) (bits : Z) : option Window :=
  match cCompression cfg with Some c => window_for (Hs.SendContextTakeover c) bits | None => None end.

(** What a pool gets is what [WorldOk] says of what it hands out. *)
Lemma newCompressor_pooled `{FlateOk} cfg c comp :
  cCompression cfg = Some c -> validBits (Hs.SendWindowBits c) = true -> Cc.newCompressor c = Ok comp ->
  comp_ok comp /\ cwindow comp = reach cfg /\ attached comp = None /\ mid comp = false.
Proof.
  intros Ec Hb. unfold Cc.newCompressor, reach, Win.Size. rewrite Ec. cbn [Bits Window_new].
  generalize dependent (Hs.SendWindowBits c). intros b Hb. unfold validBits in Hb.
  destruct (Z.eqb_spec b 0) as [E0 | N0]; cbn [negb andb]; [rewrite E0 |].
  - unfold Cmp.NewCompressor. destruct (NewWriter _) as [w |] eqn:E; [| done]. intros [= <-].
    split_and!; try done. by eapply new_reach.
  - cbn [orb] in Hb. apply andb_prop in Hb as [H1%Z.leb_le H2%Z.leb_le].
    destruct (Z.eqb_spec b 15) as [E15 | N15]; cbn [negb]; [rewrite E15 |].
    + unfold Cmp.NewCompressor. destruct (NewWriter _) as [w |] eqn:E; [| done]. intros [= <-].
      split_and!; try done. by eapply new_reach.
    + unfold Cmp.NewCompressorWindow. destruct ((b <? 8) || (15 <? b)); [done |].
      destruct (NewWriterWindow _) as [w |] eqn:E; [| done]. intros [= <-].
      split_and!; try done; [by eapply new_window_reach |]. cbn.
      apply Z.leb_le in H1, H2. by rewrite H1, H2.
Qed.

Lemma putCompressor_pooled `{FlateOk} comp n :
  comp_ok comp -> cwindow comp = n ->
  let c := Cc.putCompressor comp in comp_ok c /\ cwindow c = n /\ attached c = None /\ mid c = false.
Proof. intros Hc Hn. split_and!; try done. unfold comp_ok. cbn. by rewrite reset_reach. Qed.

Section new.
Context {M : Masker} `{!MaskerOk M} {G : Grow} `{!GrowOk G} {F : Flate} {FO : FlateOk F} {FB : FlateBytes F}.
Context {T : Transport} {R : Reliable T} {W : World}.

Lemma new_io cfg vectored : io_ok (newWrite cfg vectored) [] [].
Proof. done. Qed.

Lemma new_winv cfg vectored bits n :
  0 <= n < 2 ^ 64 -> reach cfg <= Win.Size (Window_new bits) ->
  winv (reach cfg) (cRole cfg) (cCompression cfg) (peer_window cfg bits) (newWrite cfg vectored) [] (Ghost None []) n.
Proof.
  intros Hn Hr. split.
  { split; [split; [done | apply bytes_ok_zeros] |]. split_and!; try done.
    cbn. unfold newComp. by destruct (cCompression cfg). }
  exists spec_init, [], None, (peer_window cfg bits). split; [constructor; [constructor | done | done | constructor] |].
  split; [done |]. cbn. split_and!; try done. unfold idle_comp, win_sync, newComp, peer_window, reach in *.
  destruct (cCompression cfg) as [c |]; [| by split].
  destruct (Hs.SendContextTakeover c); cbn; [| by split].
  split; [| done]. unfold pending_ok, owed. cbn. pose proof (Size_pos (Window_new (Hs.SendWindowBits c))) as Hsz.
  split_and!; try done; try lia.
  - assert (forall (b : bool) i, (if b then from (@nil Z) i else []) = []) as E
      by (intros [] i; unfold from; by rewrite ?drop_nil).
    rewrite !E. cbn [app]. unfold lastn, from. rewrite !drop_nil. done.
  - change (len (@nil (list Z))) with 0. lia.
Qed.
End new.

(** ** Properties *)

(** C16. What a connection sends is what its peer receives.  Over a transport
    that takes every write, any sequence of writes, fragments, prepared
    messages, queued sends, pings, pongs and a close, with or without
    compression, context takeover and a queue, puts bytes on the wire which
    the peer's receiver, however its reads cut them, accepts without failing;
    and the messages it reassembles decode, one by one against its own history
    window, to exactly the messages the successful calls were given, in order. *)
Theorem conversation {M : Masker} `{!MaskerOk M} {G : Grow} `{!GrowOk G} {F : Flate} {FO : FlateOk F}
    {FB : FlateBytes F} {T : Transport} {R : Reliable T} {W : World} cfg {WO : WorldOk W (reach cfg)}
    vectored bits os r0 chunks :
  reach cfg <= Win.Size (Window_new bits) -> Forall wop_ok os -> len os < 2 ^ 64 ->
  let '(s, rs) := do_ops (newWrite cfg vectored) os in
  concat chunks = written (out (Cw.run 2 s)) ->
  exists r evs peer,
    receive_all (Rx.Init r0 (peer_role (cRole cfg)) (compressing cfg)) chunks = Some (r, evs) /\
    Forall (fun e => is_failure e = false) evs /\
    decoded (peer_window cfg bits) (received evs) (sent_messages os rs) peer.
Proof.
  intros Hr Hos Hlen. pose proof (len_nonneg os) as Hpos.
  pose proof (new_winv cfg vectored bits (len os + 0) ltac:(lia) Hr) as Hinv.
  pose proof (do_ops_post (reach cfg) (cRole cfg) (cCompression cfg) (peer_window cfg bits) os _ [] [] _ 0
    ltac:(lia) (new_io cfg vectored) Hinv Hos) as H.
  destruct (do_ops (newWrite cfg vectored) os) as [s rs]. destruct H as [_ Hpost]. intros Ech.
  exact (post_receives (reach cfg) (cRole cfg) (cCompression cfg) (peer_window cfg bits) s _ 0 r0 chunks Hpost Ech).
Qed.

(** C17. Calls keep their contract.  After any sequence of calls, the next one
    returns (a synchronous send never waits forever), and succeeds exactly
    when it should: data messages with a valid opcode, no open fragmented
    message and no close sent; fragments with a message open; pings of at most
    125 bytes before the close, pongs also after it; one valid close; queued
    sends when nothing waits, whatever their size, or when the bytes that wait
    and the message are within the limit, which is the last one [NewQueue] was
    given, or 1 MiB. *)
Theorem call_contract {M : Masker} `{!MaskerOk M} {G : Grow} `{!GrowOk G} {F : Flate} {FO : FlateOk F}
    {FB : FlateBytes F} {T : Transport} {R : Reliable T} {W : World} cfg {WO : WorldOk W (reach cfg)}
    vectored os o :
  Forall wop_ok os -> wop_ok o -> len os + 1 < 2 ^ 64 ->
  let '(s, rs) := do_ops (newWrite cfg vectored) os in
  let '(s', r) := do_op s o in
  Forall (fun r => r <> None) rs /\ r <> None /\ succeeded r = accepts s o /\
  limit <$> queue s = foldl name_limit None os.
Proof.
  intros Hos Ho Hlen. pose proof (do_ops_limit (newWrite cfg vectored) os) as Hlim. pose proof (len_nonneg os) as Hpos.
  assert (exists bits, reach cfg <= Win.Size (Window_new bits)) as [bits Hr].
  { exists 15. unfold reach. destruct (cCompression cfg) as [c |]; [apply Size_pos | done]. }
  pose proof (new_winv cfg vectored bits (len os + 1) ltac:(lia) Hr) as Hinv.
  pose proof (do_ops_post (reach cfg) (cRole cfg) (cCompression cfg) (peer_window cfg bits) os _ [] [] _ 1
    ltac:(lia) (new_io cfg vectored) Hinv Hos) as H.
  destruct (do_ops (newWrite cfg vectored) os) as [s rs]. destruct H as [Hrs (fw & fq & Hio & Hw)].
  pose proof (do_op_post (reach cfg) (cRole cfg) (cCompression cfg) (peer_window cfg bits) s fw fq _ 0 o
    ltac:(lia) Hio Hw Ho) as H. destruct (do_op s o) as [s' r]. destruct H as (H1 & H2 & _). by split_and!.
Qed.

(** A connection between messages after some calls, and a reader that ends
    with what [WriteFrom] takes for the end of the content. *)
Lemma WriteFrom_run {M : Masker} `{!MaskerOk M} {G : Grow} `{!GrowOk G} {F : Flate} {FO : FlateOk F}
    {FB : FlateBytes F} {T : Transport} {R : Reliable T} {W : World} cfg {WO : WorldOk W (reach cfg)}
    vectored bits os op rd :
  reach cfg <= Win.Size (Window_new bits) -> 0 <= FragmentSize cfg -> Forall wop_ok os -> starts op = true ->
  sendable (content rd) -> ends_message (ending rd) -> len os + len (content rd) + 3 < 2 ^ 64 ->
  let '(s, rs) := do_ops (newWrite cfg vectored) os in
  idle s = true ->
  exists s', Cw.WriteFrom s op rd = (s', len (content rd), Some None) /\
    post (reach cfg) (cRole cfg) (cCompression cfg) (peer_window cfg bits) s'
      (Ghost None (sent_messages os rs ++ [(op, content rd)])) 0.
Proof.
  intros Hr Hfs Hos Hop Hc He Hlen. pose proof (len_nonneg os) as Hpos. pose proof (len_nonneg (content rd)) as Hpos'.
  pose proof (new_winv cfg vectored bits (len os + (len (content rd) + 3 + 0)) ltac:(lia) Hr) as Hinv.
  pose proof (do_ops_post (reach cfg) (cRole cfg) (cCompression cfg) (peer_window cfg bits) os _ [] [] _
    (len (content rd) + 3 + 0) ltac:(lia) (new_io cfg vectored) Hinv Hos) as H.
  pose proof (do_ops_size (newWrite cfg vectored) os) as Hsz.
  destruct (do_ops (newWrite cfg vectored) os) as [s rs]. destruct H as [_ (fw & fq & Hio & Hw)]. intros Hid.
  destruct (WriteFrom_post (reach cfg) (cRole cfg) (cCompression cfg) (peer_window cfg bits) s fw fq _ op rd 0 ltac:(done) Hio Hw)
    as (s' & E & Hpost & _); try done; [| by exists s'].
  cbn in Hsz. rewrite Hsz. unfold Or. destruct (Z.eqb_spec (FragmentSize cfg) 0); [done | lia].
Qed.

(** [WriteFrom] sends a reader's whole content as one message: on a
    connection between messages it returns the length of the content and no
    error, and the peer receives, after what was sent before, one message with
    exactly that content, whatever the fragment size. *)
Theorem WriteFrom_delivers {M : Masker} `{!MaskerOk M} {G : Grow} `{!GrowOk G} {F : Flate} {FO : FlateOk F}
    {FB : FlateBytes F} {T : Transport} {R : Reliable T} {W : World} cfg {WO : WorldOk W (reach cfg)}
    vectored bits os op rd r0 chunks :
  reach cfg <= Win.Size (Window_new bits) -> 0 <= FragmentSize cfg -> Forall wop_ok os -> starts op = true ->
  sendable (content rd) -> ending rd = Io EOF -> len os + len (content rd) + 3 < 2 ^ 64 ->
  let '(s, rs) := do_ops (newWrite cfg vectored) os in
  idle s = true ->
  let '(s', n, ret) := Cw.WriteFrom s op rd in
  n = len (content rd) /\ ret = Some None /\
  (concat chunks = written (out (Cw.run 2 s')) ->
   exists r evs peer,
     receive_all (Rx.Init r0 (peer_role (cRole cfg)) (compressing cfg)) chunks = Some (r, evs) /\
     Forall (fun e => is_failure e = false) evs /\
     decoded (peer_window cfg bits) (received evs) (sent_messages os rs ++ [(op, content rd)]) peer).
Proof.
  intros Hr Hfs Hos Hop Hc He Hlen.
  pose proof (WriteFrom_run cfg vectored bits os op rd Hr Hfs Hos Hop Hc (or_introl He) Hlen) as H.
  destruct (do_ops (newWrite cfg vectored) os) as [s rs]. intros Hid. destruct (H Hid) as (s' & -> & Hpost).
  split; [done |]. split; [done |]. intros Ech.
  exact (post_receives (reach cfg) (cRole cfg) (cCompression cfg) (peer_window cfg bits) s' _ 0 r0 chunks Hpost Ech).
Qed.

(** C39. A read error that [WriteFrom] does not report: a reader that fails
    with [io.ErrUnexpectedEOF] of its own, as a cut-off body or archive does,
    is taken for one at its end.  The call returns no error, and the peer
    receives the truncated content as a complete message. *)
Theorem WriteFrom_hides_truncation {M : Masker} `{!MaskerOk M} {G : Grow} `{!GrowOk G} {F : Flate} {FO : FlateOk F}
    {FB : FlateBytes F} {T : Transport} {R : Reliable T} {W : World} cfg {WO : WorldOk W (reach cfg)}
    vectored bits os op rd r0 chunks :
  reach cfg <= Win.Size (Window_new bits) -> 0 <= FragmentSize cfg -> Forall wop_ok os -> starts op = true ->
  sendable (content rd) -> ending rd = Io ErrUnexpectedEOF -> len os + len (content rd) + 3 < 2 ^ 64 ->
  let '(s, rs) := do_ops (newWrite cfg vectored) os in
  idle s = true ->
  let '(s', n, ret) := Cw.WriteFrom s op rd in
  ret = Some None /\
  (concat chunks = written (out (Cw.run 2 s')) ->
   exists r evs peer,
     receive_all (Rx.Init r0 (peer_role (cRole cfg)) (compressing cfg)) chunks = Some (r, evs) /\
     decoded (peer_window cfg bits) (received evs) (sent_messages os rs ++ [(op, content rd)]) peer).
Proof.
  intros Hr Hfs Hos Hop Hc He Hlen.
  pose proof (WriteFrom_run cfg vectored bits os op rd Hr Hfs Hos Hop Hc (or_intror He) Hlen) as H.
  destruct (do_ops (newWrite cfg vectored) os) as [s rs]. intros Hid. destruct (H Hid) as (s' & -> & Hpost).
  split; [done |]. intros Ech.
  destruct (post_receives (reach cfg) (cRole cfg) (cCompression cfg) (peer_window cfg bits) s' _ 0 r0 chunks Hpost Ech)
    as (r & evs & peer & E & _ & Hd). by exists r, evs, peer.
Qed.

(** C40. A protocol failure's close frame overtakes the queue: [sendClose]
    writes straight to the transport, so frames that were queued before it are
    written after it, although nothing but pongs may follow a close frame. *)
Theorem sendClose_overtakes {M : Masker} `{!MaskerOk M} {G : Grow} `{!GrowOk G} {F : Flate} {FO : FlateOk F}
    {T : Transport} {R : Reliable T} {W : World} cw {WO : WorldOk W cw} ro cfg s fw fq code :
  base_ok ro cfg s -> io_ok s fw fq -> Tx.closeSent (tx s) = false ->
  0 <= code < 2 ^ 16 -> validCloseCode code = true ->
  exists key,
    written (out (Cw.run 2 (Cw.sendClose s code)))
      = concat (wire <$> fw ++ [call_frame (CClose code []) key] ++ fq) /\
    forall f fs, fq = f :: fs -> f_op f <> Opcode.Pong ->
      legal_run (peer_role ro) (negb (bool_decide (cfg = None))) spec_init
        (fw ++ [call_frame (CClose code []) key] ++ fq) = None.
Proof.
  intros Hb Hio Hc Hcode Hv.
  assert (code <> 0) as Hnz by (intros ->; discriminate Hv).
  assert (validateClose (close_payload code []) = None) as Hval.
  { unfold validateClose. rewrite close_payload_code, close_payload_reason, close_payload_len, Hv by done. done. }
  assert (call_allowed false (CClose code []) = true) as Ha.
  { unfold call_allowed. cbn. destruct (Z.eqb_spec code 0); [done |]. cbn. by rewrite bool_decide_eq_true_2. }
  unfold Cw.sendClose, Tx.CloseSent. rewrite Hc.
  change (fun rnd t => Tx.EncodeClose rnd t code []) with (fun rnd t => do_call rnd t (CClose code [])).
  destruct (tx_call_ok cw ro cfg s (CClose code []) Hb) as (t & h & b & key & -> & _ & _ & _ & Hw & _ & _);
    [split; [done | constructor] | by rewrite Hc |].
  set (s1 := {| s with tx := t; ticks := ticks s + 1 |}).
  destruct (write_all s1 h b) as (s2 & -> & _ & Eq & Ew). cbn [fst].
  exists key. set (f := call_frame (CClose code []) key) in *.
  assert (io_ok s2 (fw ++ [f]) fq) as Hio2.
  { destruct Hio as [Ho Hq]. split; [| rewrite Eq; exact Hq]. rewrite Ew, Hw. cbn [out s1].
    rewrite Ho, fmap_app, concat_app. cbn. by rewrite app_nil_r. }
  split.
  - destruct (run_all s2 (fw ++ [f]) fq Hio2) as ([-> _] & _). by rewrite <- app_assoc.
  - intros f1 fs -> Hf1. rewrite legal_run_app. destruct (legal_run _ _ spec_init fw) as [sp |] eqn:E; [| done].
    pose proof (legal_run_at_frame _ _ _ _ _ spec_init_at E) as Hat. cbn [app legal_run].
    match goal with |- context [if may_follow ?a ?b sp f then _ else _] => destruct (may_follow a b sp f); [| done] end.
    assert (closed (step_spec sp f) = true) as Hcl.
    { destruct Hat as [Hm | Hm].
      - subst f. cbn. destruct (Z.eqb_spec code 0); [done |]. by apply step_close.
      - unfold step_spec, closed. by rewrite Hm, ?Hm. }
    unfold may_follow at 1. rewrite Hcl. by destruct (Z.eqb_spec (f_op f1) Opcode.Pong).
Qed.

(** ** A world for the witnesses *)

#[local] Existing Instance swar_masker.
#[local] Existing Instance double_growth.
#[local] Existing Instance double_growth_ok.
#[local] Existing Instance raw_flate.
#[local] Existing Instance raw_flate_ok.
#[local] Existing Instance perfect.

Lemma raw_flate_bytes : FlateBytes raw_flate.
Proof.
  intros fw p fw1 b1 fw2 b2 Hb Hl [= <- <-] [= <- <-]. split.
  - apply bytes_ok_app. split; [done |]. apply (bool_decide_unpack _). vm_compute. exact I.
  - rewrite len_app. change (len sync_tail) with 4. lia.
Qed.

Lemma perfect_reliable : Reliable perfect.
Proof. done. Qed.

#[local] Existing Instance raw_flate_bytes.
#[local] Existing Instance perfect_reliable.

Definition demo_world : World := {|
  rand _ := [1; 2; 3; 4];
  pooledCompressor _ := mkCompressor raw_flate ([], windowSize) [] windowSize None 0 false;
  pooledArena := arena_new
|}.

#[local] Existing Instance demo_world.

Lemma demo_world_ok : WorldOk demo_world windowSize.
Proof.
  split; [intros t | intros t | done].
  - split; [apply (bool_decide_unpack _); vm_compute; exact I | done].
  - by split_and!.
Qed.

#[local] Existing Instance demo_world_ok.

(** A server that compresses everything with context takeover. *)
Definition demo_config : Config :=
  mkConfig Server 0 0 4 false (Some (Hs.mkCompression 6 1 true true 15 15)) false [].

Definition demo_ops : list wop :=
  [OWrite Opcode.Text [72; 105]; OPing [7]; OBegin Opcode.Binary; OFragment [1; 2] false; OPong [];
   OFragment [3] true; OWrite 5 []; OSend 0 Opcode.Binary [9; 9]; OClose 1000 []; OWrite Opcode.Text [1]].

Lemma demo_ops_ok : Forall wop_ok demo_ops.
Proof.
  repeat (apply Forall_cons; split; [| try apply Forall_nil]);
    try (split; [apply (bool_decide_unpack _); vm_compute; exact I | reflexivity]); try exact I; try done.
  split; [done | constructor].
Qed.

(** Bytes as a peer might read them: in two pieces. *)
Definition halves (b : list Z) : list (list Z) := [upto b 7; from b 7].

Lemma concat_halves b : concat (halves b) = b.
Proof. unfold halves. cbn [concat]. by rewrite app_nil_r, upto_from. Qed.

Lemma conversation_witness :
  let '(s, rs) := do_ops (newWrite demo_config true) demo_ops in
  exists r evs peer,
    receive_all (Rx.Init Rx.zero Client true) (halves (written (out (Cw.run 2 s)))) = Some (r, evs) /\
    Forall (fun e => is_failure e = false) evs /\
    decoded (Some (Window_new 15)) (received evs)
      [(Opcode.Text, [72; 105]); (Opcode.Binary, [1; 2; 3]); (Opcode.Binary, [9; 9])] peer.
Proof.
  pose proof (fun ch => conversation demo_config true 15 demo_ops Rx.zero ch ltac:(vm_compute; discriminate)
    demo_ops_ok ltac:(vm_compute; reflexivity)) as H.
  assert (sent_messages demo_ops (do_ops (newWrite demo_config true) demo_ops).2
    = [(Opcode.Text, [72; 105]); (Opcode.Binary, [1; 2; 3]); (Opcode.Binary, [9; 9])]) as Es
    by (vm_compute; reflexivity).
  destruct (do_ops (newWrite demo_config true) demo_ops) as [s rs]. cbn [snd] in Es.
  rewrite <- Es. apply H. apply concat_halves.
Defined.

(** An empty queue takes a message past its limit; the frame waiting, the next
    one is refused until the writer has run. *)
Definition room_ops : list wop := [OSend 5 Opcode.Binary [1; 2; 3; 4; 5; 6]; ORun; OSend 0 Opcode.Binary [9; 9]].

Lemma room_ops_ok : Forall wop_ok room_ops.
Proof.
  repeat (apply Forall_cons; split; [| try apply Forall_nil]); try exact I;
    (split; [apply (bool_decide_unpack _); vm_compute; exact I | reflexivity]).
Qed.

Example room_calls :
  let '(s, rs) := do_ops (newWrite demo_config true) room_ops in
  let '(_, r1) := do_op s (OSend 0 Opcode.Binary [7]) in
  let '(_, r2) := do_op s (OSend 0 Opcode.Binary [7; 7]) in
  let '(_, r3) := do_op (Cw.run 2 s) (OSend 0 Opcode.Binary [7; 7]) in
  rs = [Some None; Some None; Some None] /\
  r1 = Some None /\ r2 = Some (Some (Ws ErrQueueFull)) /\ r3 = Some None.
Proof. vm_compute. by split_and!. Qed.

Lemma call_contract_witness :
  let '(s, rs) := do_ops (newWrite demo_config true) room_ops in
  let '(s', r) := do_op s (OSend 0 Opcode.Binary [7; 7]) in
  Forall (fun r => r <> None) rs /\ r <> None /\ succeeded r = accepts s (OSend 0 Opcode.Binary [7; 7]) /\
  limit <$> queue s = foldl name_limit None room_ops.
Proof.
  apply (call_contract demo_config true room_ops (OSend 0 Opcode.Binary [7; 7]) room_ops_ok).
  - split; [apply (bool_decide_unpack _); vm_compute; exact I | reflexivity].
  - vm_compute. reflexivity.
Defined.

Definition demo_reader (e : error) : reader := mkReader [1; 2; 3; 4; 5; 6; 7; 8; 9] e.

Lemma WriteFrom_delivers_witness :
  let '(s', n, ret) := Cw.WriteFrom (newWrite demo_config false) Opcode.Binary (demo_reader (Io EOF)) in
  n = 9 /\ ret = Some None.
Proof.
  pose proof (WriteFrom_delivers demo_config false 15 [] Opcode.Binary (demo_reader (Io EOF)) Rx.zero []
    ltac:(vm_compute; discriminate) ltac:(vm_compute; discriminate) (Forall_nil_2 _) eq_refl
    ltac:(split; [apply (bool_decide_unpack _); vm_compute; exact I | reflexivity]) eq_refl eq_refl) as H.
  cbn [do_ops] in H. specialize (H eq_refl).
  destruct (Cw.WriteFrom (newWrite demo_config false) Opcode.Binary (demo_reader (Io EOF))) as [[s' n] r].
  destruct H as (H1 & H2 & _). split; [exact H1 | exact H2].
Defined.

Lemma WriteFrom_hides_truncation_witness :
  let '(s', n, ret) := Cw.WriteFrom (newWrite demo_config false) Opcode.Binary (demo_reader (Io ErrUnexpectedEOF)) in
  ret = Some None.
Proof.
  pose proof (WriteFrom_hides_truncation demo_config false 15 [] Opcode.Binary (demo_reader (Io ErrUnexpectedEOF)) Rx.zero []
    ltac:(vm_compute; discriminate) ltac:(vm_compute; discriminate) (Forall_nil_2 _) eq_refl
    ltac:(split; [apply (bool_decide_unpack _); vm_compute; exact I | reflexivity]) eq_refl eq_refl) as H.
  cbn [do_ops] in H. specialize (H eq_refl).
  destruct (Cw.WriteFrom (newWrite demo_config false) Opcode.Binary (demo_reader (Io ErrUnexpectedEOF))) as [[s' n] r].
  exact (proj1 H).
Defined.

(** A server with one frame queued. *)
Definition queued_server : wconn :=
  (do_op (newWrite (mkConfig Server 0 0 0 false None false []) true) (OSend 0 Opcode.Text [65])).1.

Lemma sendClose_overtakes_witness :
  exists key,
    written (out (Cw.run 2 (Cw.sendClose queued_server 1002)))
      = concat (wire <$> [] ++ [call_frame (CClose 1002 []) key] ++ [Frame true false Opcode.Text None [65]]).
Proof.
  assert (base_ok Server None queued_server) as Hb.
  { split_and!; try reflexivity. apply (bool_decide_unpack _). vm_compute. exact I. }
  assert (io_ok queued_server [] [Frame true false Opcode.Text None [65]]) as Hio.
  { split; [reflexivity |]. vm_compute. constructor; try reflexivity; [| discriminate].
    apply Forall_cons. split; [| by apply Forall_nil]. vm_compute. split; [split |]; discriminate. }
  destruct (sendClose_overtakes windowSize Server None queued_server [] [Frame true false Opcode.Text None [65]] 1002
    Hb Hio eq_refl ltac:(lia) eq_refl) as (key & E & _). by exists key.
Defined.
