(* ===== verification/ConnRead.v ===== *)
(** * The read side of a connection (ws/conn_read.go, ws/control.go, and the
      receive half of ws/conn_compress.go)

    [Cr.conn] is the read-side half of Go's [Conn] around the write side of
    [ConnWrite].  The transport is what it will do: [incoming] lists the
    results of the reads to come, after which every read is [io.EOF]; a result
    longer than the buffer of a read is delivered over several.  Borrowed
    slices are their contents: a chunk or a payload is used before the buffer
    it was borrowed from is read into again.

    An operation is a computation in [Cr.io], which threads the connection and
    stops at the first error, as the code's [if err != nil] returns do.
    Loops take [fuel]; [None] is a call that has not returned. *)

From stdpp Require Import prelude gmap.
From S2P Require Import Prelude Mask Errors Header Encoder Decoder Utf8 Close Receiver Sender Bufpool Window Compressor Decompressor Handshake Queue ConnCompress ConnWrite.

(** [ControlHandler]: it may write to the connection but not read from it. *)
Record Handler `{Flate} := mkHandler {
  OnPing : wconn -> list Z -> wconn * ret;
  OnPong : wconn -> list Z -> wconn * ret;
  OnClose : wconn -> Z -> list Z -> wconn * ret
}.

(** What the pools hand out to the read side: a decompressor that was reset,
    and the capacity of a message buffer. *)
Class ReadWorld `{Inflater} := {
  pooledDecompressor : Z -> Dz.Decompressor;
  pooledMessage : Z -> Z
}.

(** Results of transport reads to come. *)
Definition script : Type := list (list Z * option error).

Section handler.
Context `{Masker} `{Grow} {F : Flate} `{Transport} {W : World}.

(** [DefaultControlHandler] *)
Definition DefaultControlHandler : Handler := {|
  OnPing := Cw.Pong;
  OnPong s _ := (s, Some None);
  OnClose s code _ :=
    let code := if code =? NoStatus then 0 else code in
    let '(s, r) := Cw.Close s code [] in (s, match r with None => None | Some _ => Some None end)
|}.
End handler.

(** A slice that may be appended to: contents and capacity. *)
Definition buffer : Type := list Z * Z.

(** [msgBuf]: [mlarge] is the capacity of the size-class buffer [mb] lives in,
    [mhome] that of the small one set aside. *)
Record msgBuf := mkMsgBuf { mb : buffer; mlarge : option Z; mhome : Z }.

Module Cr.

Record conn `{Flate} `{Inflater} := mkConn {
  wr : wconn;
  handler : option Handler;
  limit : Z;
  validateUTF8 : bool;
  rx : Rx.receiver;
  bufLen : Z;
  msg : option msgBuf;
  msgHint : Z;
  inMessage : bool;
  readErr : option error;
  dec : option Dz.Decompressor;
  rwindow : option Z;
  mem : windows;
  dstreaming : bool;
  large : bool;
  srcErr : option error;
  incoming : script;
  draws : Z
}.

(** ** Computations on a connection *)

Section io.
Context `{Flate} `{Inflater}.

Definition io (A : Type) : Type := conn -> option (conn * result A).

Definition pure {A} (a : A) : io A := fun c => Some (c, Ok a).
Definition throw {A} (e : error) : io A := fun c => Some (c, Err e).
Definition bind {A B} (m : io A) (k : A -> io B) : io B := fun c =>
  match m c with
  | None => None
  | Some (c, Err e) => Some (c, Err e)
  | Some (c, Ok a) => k a c
  end.
Definition get {A} (f : conn -> A) : io A := fun c => Some (c, Ok (f c)).
Definition put (f : conn -> conn) : io unit := fun c => Some (f c, Ok tt).

(** The result with its error, for code that looks at it. *)
Definition try {A} (m : io A) : io (result A) := fun c =>
  match m c with None => None | Some (c, r) => Some (c, Ok r) end.

Definition hang {A} : io A := fun _ => None.

Definition rx_call {A} (f : Rx.receiver -> Rx.receiver * A) : io A := fun c =>
  let '(r, a) := f (rx c) in Some ({| c with rx := r |}, Ok a).

End io.

Declare Scope io_scope.
Delimit Scope io_scope with io.
Notation "'let!' x := m 'in' k" := (bind m (fun x => k))
  (at level 10, x name, m at level 100, k at level 200) : io_scope.
Notation "'let!' ' p := m 'in' k" := (bind m (fun x => match x with p => k end))
  (at level 10, p pattern, m at level 100, k at level 200) : io_scope.
Notation "m ;;; k" := (bind m (fun _ => k)) (at level 199, right associativity) : io_scope.
#[local] Open Scope io_scope.

Section ops.
Context `{M : Masker} `{G : Grow} `{F : Flate} `{I : Inflater} `{T : Transport} `{W : World} `{RW : ReadWorld}.
Implicit Types (c : conn).

(** ** The transport *)

(** One [Read] of the transport into a buffer of [n] bytes. *)
Definition transport_read (s : script) (n : Z) : script * (list Z * option error) :=
  match s with
  | [] => ([], ([], Some (Io EOF)))
  | (d, e) :: s => if len d <=? n then (s, (d, e)) else ((from d n, e) :: s, (upto d n, None))
  end.

Fixpoint read_tries (tries : nat) (n : Z) : io (list Z) := fun c =>
  match tries with
  | O => Some (c, Err (Io ErrNoProgress))
  | S tries =>
      let '(s, (d, err)) := transport_read (incoming c) n in
      let c := {| c with incoming := s |} in
      if negb (len d =? 0) then Some (c, Ok d)
      else if bool_decide (err = Some (Io EOF)) && negb (Rx.Idle (rx c))
      then Some (c, Err (Io ErrUnexpectedEOF))
      else match err with Some e => Some (c, Err e) | None => read_tries tries n c end
  end.

Definition read (n : Z) : io (list Z) := read_tries 100 n.

(** ** Failures and control frames *)

Definition fail {A} (err : error) : io A := fun c =>
  let c := match err with WsError code _ => {| c with wr := Cw.sendClose (wr c) code |} | _ => c end in
  Some ({| c with readErr := Some err; inMessage := false; dstreaming := false |}, Err err).

(** A call of the handler. *)
Definition handle (f : wconn -> wconn * ret) : conn -> option (conn * option error) := fun c =>
  let '(s, r) := f (wr c) in
  match r with None => None | Some err => Some ({| c with wr := s |}, err) end.

Definition handleControl : io unit := fun c =>
  let h := default DefaultControlHandler (handler c) in
  let payload := Rx.ControlPayload (rx c) in
  let op := Rx.ControlOpcode (rx c) in
  '(c, err) ←
    (if op =? Opcode.Ping then handle (fun s => OnPing h s payload) c
     else if op =? Opcode.Pong then handle (fun s => OnPong h s payload) c
     else if op =? Opcode.Close then
       let '(code, reason) := parseClose payload in
       '(c, err) ← handle (fun s => OnClose h s code reason) c;
       Some (c, match err with None => Some (CloseError code reason) | Some e => Some e end)
     else Some (c, None));
  match err with
  | None => Some (c, Ok tt)
  | Some e => Some ({| c with readErr := err; inMessage := false; dstreaming := false |}, Err e)
  end.

(** ** Frames *)

Definition fill : io unit :=
  put (fun c => {| c with rx := Rx.Preserve (rx c) |}) ;;;
  let! n := get bufLen in
  let! b := read n in
  put (fun c => {| c with rx := Rx.Feed (rx c) b |}).

Fixpoint nextFrame (fuel : nat) : io unit :=
  match fuel with
  | O => hang
  | S fuel =>
      let! '(kind, err) := rx_call Rx.Next in
      match err with
      | Some e => fail e
      | None =>
          match kind with
          | dataFrame => pure tt
          | controlFrame => handleControl ;;; nextFrame fuel
          | needInput => fill ;;; nextFrame fuel
          end
      end
  end.

(** ** The message buffer *)

(** The small slice [msg] is when there is a buffer: empty, of its capacity. *)
Definition growMsg (msg' : buffer) (n : Z) : io buffer := fun c =>
  let '(c, m, msg') :=
    match msg c with
    | Some m => (c, m, msg')
    | None =>
        let cap := pooledMessage (draws c) in
        let m := {| mb := ([], cap); mlarge := None; mhome := 0 |} in
        ({| c with msg := Some m; draws := draws c + 1 |}, m, ([], cap))
    end in
  let '(b, cap) := msg' in
  let need := len b + n in
  if need <=? cap then Some (c, Ok msg')
  else if need <=? poolKeep then
    let msg' := (b, Z.min (Z.max need (2 * cap)) poolKeep) in
    Some ({| c with msg := Some {| m with mb := msg' |} |}, Ok msg')
  else
    let grown := get_cap (Z.max need (msgHint c)) in
    let m := match mlarge m with Some _ => m | None => {| m with mhome := cap |} end in
    Some ({| c with msg := Some {| mb := (b, grown); mlarge := Some grown; mhome := mhome m |} |},
          Ok (b, grown)).

Definition set_msg (b : buffer) : io unit :=
  put (fun c => {| c with msg := (fun m => {| m with mb := b |}) <$> msg c |}).

Definition appendMsg (msg' : buffer) (chunk : list Z) : io buffer :=
  let! rem := get (fun c => Rx.remaining (rx c)) in
  let! '(b, cap) := growMsg msg' (len chunk + rem) in
  set_msg (b ++ chunk, cap) ;;;
  pure (b ++ chunk, cap).

(** What goes back to the pool of small buffers. *)
Definition pooled_back (m : msgBuf) : buffer :=
  match mlarge m with Some _ => ([], mhome m) | None => ([], (mb m).2) end.

Definition releaseMsg : io unit := put (fun c => {| c with msg := None |}).

(** [c.msg.b[:0]], or nil. *)
Definition empty_msg (c : conn) : buffer := match msg c with Some m => ([], (mb m).2) | None => ([], 0) end.

(** The length of the slice [staging] returns. *)
Definition staging : io Z :=
  let! b := get empty_msg in
  let! n := get (fun c => fragmentSize (wr c)) in
  growMsg b n ;;;
  pure n.

(** ** Reading past the read buffer *)

Definition readInto (msg' : buffer) (n : Z) : io buffer :=
  let! '(b, cap) := growMsg msg' n in
  let! got := read n in
  put (fun c => {| c with rx := Rx.Feed (rx c) got |}) ;;;
  let! '(chunk, _, err) := rx_call (fun r => Rx.PayloadN r (len got)) in
  match err with Some e => fail e | None => pure (b ++ chunk, cap) end.

Definition readDirect (n : Z) : io (list Z) :=
  let! got := read n in
  put (fun c => {| c with rx := Rx.Feed (rx c) got |}) ;;;
  let! '(chunk, _, err) := rx_call (fun r => Rx.PayloadN r (len got)) in
  match err with Some e => fail e | None => pure chunk end.

(** ** Decompression (ws/conn_compress.go) *)

Definition acquireDecompressor : io Dz.Decompressor := fun c =>
  match dec c with
  | Some d => Some (c, Ok d)
  | None =>
      let d := pooledDecompressor (draws c) in
      Some ({| c with dec := Some d; draws := draws c + 1 |}, Ok d)
  end.

Definition releaseDecompressor : io unit := put (fun c =>
  match dec c with
  | None => c
  | Some d =>
      let '(_, h) := if large c then Dz.ReleaseOutput d (mem c) else Dz.Reset d (mem c) in
      {| c with dec := None; large := false; mem := h |}
  end).

Definition decompress (fuel : nat) (payload : list Z) : io (list Z) :=
  let! d := acquireDecompressor in
  fun c =>
  '(d, h, r) ← Dz.Decompress fuel d (mem c) payload (limit c) (rwindow c);
  let c := {| c with dec := Some d; mem := h |} in
  match r with
  | Err e =>
      if bool_decide (e = Deflate ErrMessageTooLarge') then fail (WsError 1009 (Ws ErrMessageTooLarge)) c
      else fail (WsError 1007 (Ws ErrInvalidData)) c
  | Ok out => Some ({| c with large := poolKeep <? len out |}, Ok out)
  end.

(** The next chunk of the message, over frames and control frames. *)
Fixpoint nextChunk (fuel : nat) : io (list Z) :=
  match fuel with
  | O => hang
  | S fuel =>
      let! '(chunk, done, err) := rx_call Rx.Payload in
      match err with
      | Some e => fail e
      | None =>
          if negb (len chunk =? 0) then pure chunk
          else if negb done then fill ;;; nextChunk fuel
          else
            let! more := get (fun c => Rx.MessageOpen (rx c)) in
            if negb more then throw (Io EOF)
            else nextFrame fuel ;;; nextChunk fuel
      end
  end.

(** [chunkSource] *)
Definition chunkSource (fuel : nat) : ChunkSource conn := fun c =>
  '(c, r) ← nextChunk fuel c;
  Some (match r with
        | Err e => if bool_decide (e = Io EOF) then c else {| c with srcErr := Some e |}
        | Ok _ => c
        end, r).

(** The decompressor is out of the connection while it runs: [nextChunk] does
    not look at it. *)
Definition inflate (fuel : nat) (n : Z) : io (list Z) :=
  let! d := acquireDecompressor in
  fun c =>
  let '(d, c, err) :=
    if dstreaming c then (d, c, None)
    else
      let '(d, h, err) := Dz.Begin d (mem c) (rwindow c) in
      (d, {| c with dec := Some d; mem := h; dstreaming := bool_decide (err = None) |}, err) in
  match err with
  | Some _ => fail (WsError 1007 (Ws ErrInvalidData)) c
  | None =>
      '(d, h, c, r) ← Dz.Read (CS := chunkSource fuel) fuel d (mem c) c n;
      let c := {| c with dec := Some d; mem := h |} in
      match r with
      | Ok out => Some (c, Ok out)
      | Err e =>
          if bool_decide (e = Io EOF) then
            Some ({| c with dstreaming := false; inMessage := false |}, Err (Io EOF))
          else
            match readErr c with
            | Some e' => Some (c, Err e')
            | None =>
                if bool_decide (srcErr c = Some e) then
                  Some ({| c with readErr := Some e; inMessage := false; dstreaming := false |}, Err e)
                else fail (WsError 1007 (Ws ErrInvalidData)) c
            end
      end
  end.

(** ** Reading messages *)

(** The first loop of [discard]: inflating to the end. *)
Fixpoint drain (fuel fuel' : nat) (n : Z) : io unit :=
  match fuel' with
  | O => hang
  | S fuel' =>
      let! r := try (inflate fuel n) in
      match r with
      | Ok _ => drain fuel fuel' n
      | Err e => if bool_decide (e = Io EOF) then pure tt else throw e
      end
  end.

(** The second: skipping what is left. *)
Fixpoint skip (fuel : nat) : io unit :=
  match fuel with
  | O => hang
  | S fuel =>
      let! open := get inMessage in
      if negb open then pure tt
      else
        let! '(chunk, done, err) := rx_call Rx.Payload in
        match err with
        | Some e => fail e
        | None =>
            if negb done then
              (if len chunk =? 0 then fill else pure tt) ;;; skip fuel
            else
              let! more := get (fun c => Rx.MessageOpen (rx c)) in
              if negb more then put (fun c => {| c with inMessage := false |})
              else nextFrame fuel ;;; skip fuel
        end
  end.

Definition discard (fuel : nat) : io unit :=
  let! inflating := get (fun c =>
    inMessage c && Rx.MessageCompressed (rx c) && negb (bool_decide (rwindow c = None))) in
  (if inflating then let! n := staging in drain fuel fuel n else pure tt) ;;;
  put (fun c => {| c with dstreaming := false |}) ;;;
  skip fuel.

Definition NextMessage (fuel : nat) : io Z :=
  let! err := get readErr in
  match err with
  | Some e => throw e
  | None =>
      discard fuel ;;;
      releaseDecompressor ;;;
      releaseMsg ;;;
      nextFrame fuel ;;;
      put (fun c => {| c with inMessage := true |}) ;;;
      get (fun c => Hdr.Opcode (Rx.header (rx c)))
  end.

(** The inner loop of [assemble], a frame's payload: [inl] is the early return
    of a message that arrived in one chunk. *)
Fixpoint frame_payload (fuel : nat) (msg' : buffer) : io (list Z + buffer) :=
  match fuel with
  | O => hang
  | S fuel =>
      let! '(chunk, done, err) := rx_call Rx.Payload in
      let! open := get (fun c => Rx.MessageOpen (rx c)) in
      match err with
      | Some e => fail e
      | None =>
          if done && (len msg'.1 =? 0) && negb open then
            put (fun c => {| c with msgHint := 0 |}) ;;;
            pure (inl chunk)
          else if negb (len chunk =? 0) || done then
            let! msg' := appendMsg msg' chunk in
            if (done : bool) then pure (inr msg') else frame_payload fuel msg'
          else
            let! remaining := get (fun c => Rx.remaining (rx c)) in
            let! n := get bufLen in
            if n <=? remaining then
              let! msg' := readInto msg' remaining in frame_payload fuel msg'
            else fill ;;; frame_payload fuel msg'
      end
  end.

Fixpoint assemble_loop (fuel fuel' : nat) (msg' : buffer) : io (list Z) :=
  match fuel' with
  | O => hang
  | S fuel' =>
      let! n := get (fun c => Hdr.PayloadLen (Rx.header (rx c))) in
      let! lim := get limit in
      if u64 (lim - len msg'.1) <? n then fail (WsError 1009 (Ws ErrMessageTooLarge))
      else
        let! r := frame_payload fuel msg' in
        match r with
        | inl chunk => pure chunk
        | inr msg' =>
            let! more := get (fun c => Rx.MessageOpen (rx c)) in
            if negb more then
              put (fun c => {| c with msgHint := len msg'.1 |}) ;;;
              pure msg'.1
            else nextFrame fuel ;;; assemble_loop fuel fuel' msg'
        end
  end.

Definition assemble (fuel : nat) : io (list Z) := assemble_loop fuel fuel ([], 0).

Definition finishMessage (fuel : nat) (op : Z) (payload : list Z) : io (Z * list Z) :=
  put (fun c => {| c with inMessage := false |}) ;;;
  let! comp := get (fun c => Rx.MessageCompressed (rx c)) in
  let! payload := (if (comp : bool) then decompress fuel payload else pure payload) in
  let! check := get validateUTF8 in
  if (op =? Opcode.Text) && check && negb (Utf8.Valid payload)
  then fail (WsError 1007 (Ws ErrInvalidUTF8))
  else pure (op, payload).

Definition ReadMessage (fuel : nat) : io (Z * list Z) :=
  let! op := NextMessage fuel in
  let! payload := assemble fuel in
  finishMessage fuel op payload.

(** ** Reading in chunks *)

Fixpoint Read_loop (fuel : nat) (n : Z) : io (list Z) :=
  match fuel with
  | O => hang
  | S fuel =>
      let! '(chunk, done, err) := rx_call (fun r => Rx.PayloadN r n) in
      match err with
      | Some e => fail e
      | None =>
          if negb (len chunk =? 0) then pure chunk
          else if negb done then
            let! r := get (fun c => Rx.remaining (rx c)) in
            let! b := get bufLen in
            let m := if r <? n then r else n in
            if b <=? m then readDirect m
            else fill ;;; Read_loop fuel n
          else
            let! more := get (fun c => Rx.MessageOpen (rx c)) in
            if negb more then
              put (fun c => {| c with inMessage := false |}) ;;;
              throw (Io EOF)
            else nextFrame fuel ;;; Read_loop fuel n
      end
  end.

(** [n] is the length of [b]; the result what was copied into it. *)
Definition Read (fuel : nat) (n : Z) : io (list Z) :=
  let! err := get readErr in
  match err with
  | Some e => throw e
  | None =>
      let! open := get inMessage in
      if negb open then throw (Io EOF)
      else if n =? 0 then pure []
      else
        let! comp := get (fun c => Rx.MessageCompressed (rx c)) in
        if (comp : bool) then inflate fuel n else Read_loop fuel n
  end.

(** What the i-th write to an [io.Writer] does.  (Not a [Transport]: an
    instance would be taken for the connection's.) *)
Definition sink_writes : Type := Z -> list Z -> Z * option error.

(** [WriteTo]: [sink] is what writes to [w] do and [o] what it has taken.  The
    results are the total and the error. *)

Definition sink_write (sink : sink_writes) (o : net) (total : Z) (chunk : list Z)
    : net * Z * option error :=
  let '(n, err) := sink (calls o) chunk in
  let o := {| written := written o ++ upto chunk n; calls := calls o + 1 |} in
  (o, total + n,
   match err with Some e => Some e | None => if n =? len chunk then None else Some (Io ErrShortWrite) end).

Fixpoint WriteTo_inflating (fuel fuel' : nat) (sink : sink_writes) (o : net) (n total : Z)
    : io (net * Z * option error) :=
  match fuel' with
  | O => hang
  | S fuel' =>
      let! r := try (inflate fuel n) in
      match r with
      | Err e => pure (o, total, if bool_decide (e = Io EOF) then None else Some e)
      | Ok b =>
          let '(o, total, err) := sink_write sink o total b in
          match err with
          | Some e => pure (o, total, Some e)
          | None => WriteTo_inflating fuel fuel' sink o n total
          end
      end
  end.

(** The chunk of one turn of the second loop, and whether the frame is done;
    [None] is a [continue] after filling. *)
Definition next_piece : io (option (list Z * bool)) :=
  let! '(chunk, done, err) := rx_call Rx.Payload in
  match err with
  | Some e => fail e
  | None =>
      if (len chunk =? 0) && negb done then
        let! remaining := get (fun c => Rx.remaining (rx c)) in
        let! b := get bufLen in
        if remaining <? b then fill ;;; pure None
        else
          let! staging := get empty_msg in
          let! f := get (fun c => fragmentSize (wr c)) in
          let! '(chunk, _) := readInto staging (Z.min remaining f) in
          let! rem := get (fun c => Rx.remaining (rx c)) in
          pure (Some (chunk, rem =? 0))
      else pure (Some (chunk, done))
  end.

Fixpoint WriteTo_loop (fuel fuel' : nat) (sink : sink_writes) (o : net) (total : Z)
    : io (net * Z * option error) :=
  match fuel' with
  | O => hang
  | S fuel' =>
      let! r := try next_piece in
      match r with
      | Err e => pure (o, total, Some e)
      | Ok None => WriteTo_loop fuel fuel' sink o total
      | Ok (Some (chunk, done)) =>
          let '(o, total, err) :=
            if negb (len chunk =? 0) then sink_write sink o total chunk else (o, total, None) in
          match err with
          | Some e => pure (o, total, Some e)
          | None =>
              if negb done then WriteTo_loop fuel fuel' sink o total
              else
                let! more := get (fun c => Rx.MessageOpen (rx c)) in
                if negb more then
                  put (fun c => {| c with inMessage := false |}) ;;;
                  pure (o, total, None)
                else
                  let! r := try (nextFrame fuel) in
                  match r with
                  | Err e => pure (o, total, Some e)
                  | Ok _ => WriteTo_loop fuel fuel' sink o total
                  end
          end
      end
  end.

Definition WriteTo (fuel : nat) (sink : sink_writes) (o : net) : io (net * Z * option error) :=
  let! err := get readErr in
  match err with
  | Some e => pure (o, 0, Some e)
  | None =>
      let! open := get inMessage in
      if negb open then pure (o, 0, None)
      else
        let! comp := get (fun c => Rx.MessageCompressed (rx c)) in
        if (comp : bool) then let! n := staging in WriteTo_inflating fuel fuel sink o n 0
        else WriteTo_loop fuel fuel sink o 0
  end.

(** ** [NewConn] *)

Definition NewConn (cfg : Config) (h : option Handler) (vectored : bool) (s : script) : result conn :=
  if negb (validConfig cfg) then Err (Ws ErrInvalidConfig)
  else
    let w := match cCompression cfg with
             | Some comp => window_for (Hs.ReceiveContextTakeover comp) (Hs.ReceiveWindowBits comp)
             | None => None
             end in
    Ok {| wr := newWrite cfg vectored; handler := h; limit := Or (MaxMessageSize cfg) DefaultMaxMessageSize;
          validateUTF8 := ValidateUTF8 cfg;
          rx := Rx.Init Rx.zero (cRole cfg) (negb (bool_decide (cCompression cfg = None)));
          bufLen := Or (ReadBufferSize cfg) DefaultReadBufferSize; msg := None; msgHint := 0;
          inMessage := false; readErr := None; dec := None; rwindow := (fun _ => 0) <$> w;
          mem := match w with Some w => {[ 0 := w ]} | None => ∅ end; dstreaming := false; large := false;
          srcErr := None; incoming := s; draws := 0 |}.

End ops.
End Cr.
