(* ===== verification/Reading.v ===== *)
(** * Reading frames from the transport

    What [fill] and [nextFrame] do, said of the events that the bytes still to
    come mean ([Stream]), so that neither the read buffer nor the way the
    transport cuts the stream appears any more. *)

From stdpp Require Import prelude gmap.
From S2P Require Import Prelude Mask Errors Header Encoder Decoder Utf8 Close Receiver Stream Refine Pump Sender Bufpool Window Compressor Decompressor Handshake Queue ConnCompress ConnWrite ConnRead.

Import Cr.

(** ** Reading events

    The same reading, of a list of events: what the operations of [Cr] are
    proved to do.  [Took]: the operation's result, with the write side and the
    events after it; [Stopped]: the connection is over with that error;
    [Starved]: the events ran out first. *)

Inductive took `{Flate} (A : Type) :=
  | Took (w : wconn) (a : A) (evs : list event)
  | Stopped (w : wconn) (e : error)
  | Starved (w : wconn)
  | Hangs.
Arguments Took {_ A}.
Arguments Stopped {_ A}.
Arguments Starved {_ A}.
Arguments Hangs {_ A}.

(** A data frame's header: FIN, opcode, RSV1, length. *)
Definition head : Type := bool * Z * bool * Z.

Section events.
Context {M : Masker} {G : Grow} {F : Flate} {T : Transport} {W : World}.

(** What the handler does about a control frame. *)
Definition reply (h : Handler) (w : wconn) (op : Z) (payload : list Z) : wconn * ret :=
  if op =? Opcode.Ping then OnPing h w payload
  else if op =? Opcode.Pong then OnPong h w payload
  else if op =? Opcode.Close then
    let '(code, reason) := parseClose payload in
    let '(w, r) := OnClose h w code reason in
    (w, match r with Some None => Some (Some (CloseError code reason)) | _ => r end)
  else (w, Some None).

(** A protocol failure's close frame. *)
Definition closing (w : wconn) (e : error) : wconn :=
  match e with WsError code _ => Cw.sendClose w code | _ => w end.

Fixpoint to_frame (h : Handler) (w : wconn) (evs : list event) : took head :=
  match evs with
  | [] => Starved w
  | EvFrame fin op rsv n :: evs => Took w (fin, op, rsv, n) evs
  | EvControl op payload :: evs =>
      let '(w, r) := reply h w op payload in
      match r with
      | None => Hangs
      | Some (Some e) => Stopped w e
      | Some None => to_frame h w evs
      end
  | EvFail e :: _ => Stopped (closing w e) e
  | EvData _ :: _ => Hangs
  end.

(** The next [n] payload bytes. *)
Fixpoint take_data (n : nat) (evs : list event) : option (list Z * list event) :=
  match n, evs with
  | O, _ => Some ([], evs)
  | S n, EvData b :: evs => '(bs, evs) ← take_data n evs; Some (b :: bs, evs)
  | S _, _ => None
  end.

(** The rest of a message from the header of one of its frames, [msg] being
    what came before, within [lim]. *)
Fixpoint gather (fuel : nat) (h : Handler) (lim : Z) (w : wconn) (msg : list Z) (fin : bool) (n : Z)
    (evs : list event) : took (list Z) :=
  if lim - len msg <? n
  then let e := WsError 1009 (Ws ErrMessageTooLarge) in Stopped (closing w e) e
  else
    match take_data (Z.to_nat n) evs with
    | None => Starved w
    | Some (data, evs) =>
        if fin then Took w (msg ++ data) evs
        else
          match fuel with
          | O => Hangs
          | S fuel =>
              match to_frame h w evs with
              | Took w (fin, _, _, n) evs => gather fuel h lim w (msg ++ data) fin n evs
              | Stopped w e => Stopped w e
              | Starved w => Starved w
              | Hangs => Hangs
              end
          end
    end.

(** A whole message as it is on the wire. *)
Definition raw_read (h : Handler) (lim : Z) (w : wconn) (evs : list event) : took (Z * bool * list Z) :=
  match to_frame h w evs with
  | Took w (fin, op, rsv, n) evs =>
      match gather (S (length evs)) h lim w [] fin n evs with
      | Took w p evs => Took w (op, rsv, p) evs
      | Stopped w e => Stopped w e
      | Starved w => Starved w
      | Hangs => Hangs
      end
  | Stopped w e => Stopped w e
  | Starved w => Starved w
  | Hangs => Hangs
  end.
End events.

(** ** What the transport will deliver

    [segment k s]: the bytes of the reads to come up to the first failing one,
    its error, and the reads after it; [k] empty reads are still tolerated. *)
Fixpoint segment (k : nat) (s : script) : list Z * error * script :=
  match s with
  | [] => ([], match k with O => Io ErrNoProgress | _ => Io EOF end, [])
  | (d, e) :: s' =>
      match k with
      | O => ([], Io ErrNoProgress, s)
      | S k =>
          if len d =? 0 then
            match e with Some e => ([], e, s') | None => segment k s' end
          else let '(b, e, s'') := segment 100 s' in (d ++ b, e, s'')
      end
  end.

Definition script_ok (s : script) : Prop := Forall (fun x => bytes_ok x.1) s.

Section transport.
Context {M : Masker} `{!MaskerOk M} {G : Grow} {F : Flate} {I : Inflater} {T : Transport} {W : World} {RW : ReadWorld}.
Implicit Types (c : conn).

Lemma segment_ok k s :
  script_ok s -> let '(b, e, s') := segment k s in bytes_ok b /\ script_ok s'.
Proof.
  intros Hs. revert k. induction Hs as [| [d e] s Hd Hs IH]; intros [| k]; cbn [segment];
    try (split; [apply Forall_nil_2 | try done; by constructor]).
  destruct (len d =? 0).
  - destruct e; [by split; [constructor |] | apply IH].
  - specialize (IH 100%nat). destruct (segment 100 s) as [[b e'] s']. destruct IH as [Hb Hs'].
    split; [by apply bytes_ok_app | done].
Qed.

Section bind.
Context {A B : Type} (m : io A) (k : A -> io B) (c : conn).

Lemma bind_ok c' a : m c = Some (c', Ok a) -> bind m k c = k a c'.
Proof. unfold bind. by intros ->. Qed.

Lemma bind_err c' e : m c = Some (c', Err e) -> bind m k c = Some (c', Err e).
Proof. unfold bind. by intros ->. Qed.

Lemma bind_hang : m c = None -> bind m k c = None.
Proof. unfold bind. by intros ->. Qed.
End bind.

Lemma bind_get {A B} (f : conn -> A) (k : A -> io B) c : bind (get f) k c = k (f c) c.
Proof. done. Qed.

Lemma bind_put {B} (f : conn -> conn) (k : unit -> io B) c : bind (put f) k c = k tt (f c).
Proof. done. Qed.

Lemma bind_pure {A B} (a : A) (k : A -> io B) c : bind (pure a) k c = k a c.
Proof. done. Qed.

Lemma bind_rx {A B} (f : Rx.receiver -> Rx.receiver * A) r a (k : A -> io B) c :
  f (rx c) = (r, a) -> bind (rx_call f) k c = k a {| c with rx := r |}.
Proof. intros E. unfold bind, rx_call. by rewrite E. Qed.

(** The error a read ends with. *)
Definition ended (r : Rx.receiver) (e : error) : error :=
  if bool_decide (e = Io EOF) && negb (Rx.Idle r) then Io ErrUnexpectedEOF else e.

Lemma read_tries_post k n c :
  0 < n ->
  let '(b, e, s') := segment k (incoming c) in
  if bool_decide (b = []) then
    read_tries k n c = Some ({| c with incoming := s' |}, Err (ended (rx c) e))
  else exists d b' s1, b = d ++ b' /\ d <> [] /\ len d <= n /\ segment 100 s1 = (b', e, s') /\
    (script_ok (incoming c) -> script_ok s1 /\ bytes_ok d) /\
    read_tries k n c = Some ({| c with incoming := s1 |}, Ok d).
Proof.
  intros Hn. revert c. induction k as [| k IH]; intros c.
  { destruct c as [? ? ? ? ? ? ? ? ? ? ? ? ? ? ? ? inc ?]. by destruct inc as [| [d e] s]. }
  cbn [read_tries]. destruct (incoming c) as [| [d e] s] eqn:Ei.
  { cbn [segment transport_read]. rewrite bool_decide_eq_true_2 by done. unfold ended.
    change (negb (len [] =? 0)) with false. cbn. by destruct (Rx.Idle (rx c)). }
  cbn [segment transport_read]. destruct (Z.eqb_spec (len d) 0) as [Ed | Ed].
  - rewrite Ed. destruct (Z.leb_spec 0 n); [| lia]. apply len_0_nil in Ed. subst d.
    change (negb (len [] =? 0)) with false. cbn [negb]. destruct e as [e |].
    + rewrite bool_decide_eq_true_2 by done. unfold ended. cbn [rx].
      destruct (bool_decide_reflect (e = Io EOF)) as [-> | He].
      * rewrite bool_decide_eq_true_2 by done. cbn [andb]. by destruct (negb (Rx.Idle (rx c))).
      * rewrite bool_decide_eq_false_2 by congruence. done.
    + rewrite bool_decide_eq_false_2 by done. cbn [andb].
      specialize (IH {| c with incoming := s |}). cbn [incoming rx] in IH.
      destruct (segment k s) as [[b e'] s']. destruct (bool_decide (b = [])); [exact IH |].
      destruct IH as (d' & b' & s1 & X1 & X2 & X3 & X4 & X5 & X6). exists d', b', s1. split_and!; try done.
      intros Hs. apply X5. by inversion Hs.
  - assert (d <> []) as Hd by (by intros ->). destruct (segment 100 s) as [[b e'] s'] eqn:Es.
    rewrite bool_decide_eq_false_2 by (destruct d; done).
    assert (len (upto d n) <> 0) as Hu.
    { pose proof (len_nonneg d). rewrite len_upto. lia. }
    destruct (Z.leb_spec (len d) n) as [Hl | Hl].
    + destruct (Z.eqb_spec (len d) 0); [done |]. cbn [negb]. exists d, b, s. split_and!; try done.
      intros Hs. inversion Hs. by split.
    + destruct (Z.eqb_spec (len (upto d n)) 0); [done |]. cbn [negb].
      exists (upto d n), (from d n ++ b), ((from d n, e) :: s). split_and!; try done.
      * by rewrite app_assoc, upto_from.
      * by intros E; rewrite E in Hu.
      * len_lia.
      * cbn [segment]. rewrite Es. destruct (Z.eqb_spec (len (from d n)) 0) as [E | _]; [| done].
        rewrite len_from in E. lia.
      * intros Hs. inversion Hs as [| ? ? Hd1 Hs1]. split; [constructor; [cbn in *; eauto with ews | done] | cbn in *; eauto with ews].
Qed.

Lemma transport_read_post n c :
  0 < n ->
  let '(b, e, s') := segment 100 (incoming c) in
  if bool_decide (b = []) then
    read n c = Some ({| c with incoming := s' |}, Err (ended (rx c) e))
  else exists d b' s1, b = d ++ b' /\ d <> [] /\ len d <= n /\ segment 100 s1 = (b', e, s') /\
    (script_ok (incoming c) -> script_ok s1 /\ bytes_ok d) /\
    read n c = Some ({| c with incoming := s1 |}, Ok d).
Proof. apply read_tries_post. Qed.

(** ** The receiver between calls *)

Definition live (r : Rx.receiver) : Prop :=
  rx_ok r /\ Rx.failed r = None /\ Rx.closeReceived r = false.

(** What the bytes [b] mean to the receiver, after those it holds. *)
Definition ahead (r : Rx.receiver) (b : list Z) : spec * list event :=
  run (Rx.role r) (Rx.compression r) (abs r) (Decoder.pending (Rx.dec r) ++ b).

Lemma Feed_live r d b :
  live r -> bytes_ok d ->
  let r' := Rx.Feed (Rx.Preserve r) d in
  live r' /\ Rx.remaining r' = Rx.remaining r /\ Rx.messageOpcode r' = Rx.messageOpcode r /\
  Rx.compressed r' = Rx.compressed r /\ Rx.header r' = Rx.header r /\
  Rx.role r' = Rx.role r /\ Rx.compression r' = Rx.compression r /\
  Decoder.pending (Rx.dec r') = Decoder.pending (Rx.dec r) ++ d /\
  ahead r' b = ahead r (d ++ b).
Proof.
  intros (Hok & Hf & Hc) Hd. cbv zeta.
  assert (rx_ok (Rx.Preserve r)) as Hok1 by (by eapply rx_step_ok; [| apply step_preserve]).
  assert (rx_ok (Rx.Feed (Rx.Preserve r) d)) as Hok2 by (by eapply rx_step_ok; [| apply step_feed]).
  assert (Decoder.pending (Rx.dec (Rx.Preserve r)) = Decoder.pending (Rx.dec r) /\
          Decoder.remaining (Rx.dec (Rx.Preserve r)) = Decoder.remaining (Rx.dec r)) as [Ep Er].
  { unfold Rx.Preserve, Dec.Preserve. cbn. by case_match. }
  destruct (Feed_dec (Rx.dec (Rx.Preserve r)) d) as [E1 E2]. rewrite Ep in E2. rewrite Er in E1.
  revert Hok2. unfold Rx.Feed. cbn [Rx.failed Rx.closeReceived Rx.Preserve]. rewrite Hf, Hc.
  rewrite bool_decide_eq_true_2 by done. cbn [andb negb]. intros Hok2.
  split; [by split_and! |]. do 6 (split; [done |]). split; [exact E2 |].
  unfold ahead. cbn [Rx.dec Rx.role Rx.compression]. rewrite E2, <- app_assoc.
  f_equal. unfold abs, abs_mode, rx_key, Rx.ControlPayload. cbn. cbn in E1. by rewrite E1, Hf, Hc.
Qed.

(** Everything but the receiver, what is to come and the write side. *)
Definition moved c (r : Rx.receiver) (s : script) (w : wconn) : conn :=
  {| c with rx := r; incoming := s; wr := w |}.

Lemma moved_moved c r s w r' s' w' : moved (moved c r s w) r' s' w' = moved c r' s' w'.
Proof. done. Qed.

Lemma moved_self c : moved c (rx c) (incoming c) (wr c) = c.
Proof. by destruct c. Qed.

Lemma Preserve_live r b :
  live r -> live (Rx.Preserve r) /\ ahead (Rx.Preserve r) b = ahead r b /\ Rx.Idle (Rx.Preserve r) = Rx.Idle r.
Proof.
  intros (Hok & Hf & Hc).
  assert (rx_ok (Rx.Preserve r)) as Hok1 by (by eapply rx_step_ok; [| apply step_preserve]).
  unfold ahead, Rx.Idle, abs, abs_mode, Rx.Preserve, Dec.Preserve, Dec.Buffered. split; [done |].
  destruct r as [? ? [p sc rem] ? ? ? ? ? ? ? ? ? ? ? ? ?]. cbn in *. split; destruct (len p =? 0) eqn:E; cbn; rewrite ?E; done.
Qed.

(** Filling the buffer: more of the same stream, or the transport's error. *)
Lemma fill_post c :
  live (rx c) -> script_ok (incoming c) -> 0 < bufLen c ->
  let '(b, e, s') := segment 100 (incoming c) in
  if bool_decide (b = []) then
    let r := Rx.Preserve (rx c) in
    fill c = Some (moved c r s' (wr c), Err (ended (rx c) e)) /\ live r /\ (forall x, ahead r x = ahead (rx c) x)
  else exists d b' s1 r, b = d ++ b' /\ d <> [] /\ segment 100 s1 = (b', e, s') /\ script_ok s1 /\
    fill c = Some (moved c r s1 (wr c), Ok tt) /\ live r /\ ahead r b' = ahead (rx c) b /\
    Rx.remaining r = Rx.remaining (rx c) /\ Rx.messageOpcode r = Rx.messageOpcode (rx c) /\
    Rx.compressed r = Rx.compressed (rx c) /\ Rx.role r = Rx.role (rx c) /\ Rx.compression r = Rx.compression (rx c) /\
    Rx.header r = Rx.header (rx c).
Proof.
  intros Hl Hs Hb. set (c1 := {| c with rx := Rx.Preserve (rx c) |}).
  pose proof (transport_read_post (bufLen c) c1 Hb) as Hr. change (incoming c1) with (incoming c) in Hr.
  assert (fill c = bind (read (bufLen c)) (fun b => put (fun c => {| c with rx := Rx.Feed (rx c) b |})) c1) as -> by done.
  destruct (segment 100 (incoming c)) as [[b e] s']. destruct (bool_decide (b = [])).
  - unfold bind. rewrite Hr. cbv zeta.
    destruct (Preserve_live (rx c) [] Hl) as (Hl1 & _ & Hi). unfold ended. cbn [rx c1]. rewrite Hi.
    split; [done |]. split; [done |].
    intros x. by apply Preserve_live.
  - destruct Hr as (d & b' & s1 & -> & Hd & _ & Hseg & Hok & E). destruct (Hok Hs) as [Hs1 Hbd].
    unfold bind. rewrite E. destruct (Feed_live (rx c) d b' Hl Hbd) as (F1 & F2 & F3 & F4 & F5 & F6 & F7 & _ & F9).
    exists d, b', s1, (Rx.Feed (Rx.Preserve (rx c)) d). split_and!; try done.
Qed.

(** ** A data frame's header *)

Lemma finishControl_kind r : (Rx.finishControl r).2.1 <> dataFrame.
Proof.
  unfold Rx.finishControl. destruct (_ =? _); [| done]. destruct (validateClose _); [| done].
  by destruct (Rx.fail r _ _).
Qed.

Lemma gather_kind r : (Rx.gather r).2.1 <> dataFrame.
Proof.
  unfold Rx.gather. destruct (Dec.Payload _) as [d [c fin]].
  match goal with |- context [if Rx.masked ?x then ?a else ?b] => generalize (if Rx.masked x then a else b) end.
  intros r1. destruct (negb fin); [done | apply finishControl_kind].
Qed.

(** What the first data frame of a message, or the next one, sets. *)
Definition header_facts (r r' : Rx.receiver) : Prop :=
  let h := Rx.header r' in
  let s := starts (Hdr.Opcode h) in
  Rx.remaining r' = Hdr.PayloadLen h /\ s = (Rx.messageOpcode r =? 0) /\
  Rx.compressed r' = (if s then Hdr.RSV1 h else Rx.compressed r) /\
  Rx.messageOpcode r' = (if (Rx.remaining r' =? 0) && Hdr.Final h then 0
                         else if s then Hdr.Opcode h else Rx.messageOpcode r) /\
  (Hdr.RSV1 h = true -> Rx.compression r = true /\ s = true).

Lemma accept_facts r h n r' :
  Rx.accept r h n = (r', None) -> (Opcode.Close <=? Hdr.Opcode h) = false ->
  let s := starts (Hdr.Opcode h) in
  s = (Rx.messageOpcode r =? 0) /\ Rx.header r' = Rx.header r /\ Rx.compression r' = Rx.compression r /\
  Rx.compressed r' = (if s then Hdr.RSV1 h else Rx.compressed r) /\
  Rx.messageOpcode r' = (if s then Hdr.Opcode h else Rx.messageOpcode r) /\
  (Hdr.RSV1 h = true -> Rx.compression r = true /\ s = true).
Proof.
  unfold Rx.accept, starts. destruct (_ || _ || _); [done |].
  destruct ((Hdr.Opcode h =? Opcode.Text) || (Hdr.Opcode h =? Opcode.Binary)) eqn:Es.
  - destruct (Rx.messageOpcode r =? 0), (Hdr.RSV1 h) eqn:E1, (Rx.compression r) eqn:E2; cbn; intros [= <-] _; by split_and!.
  - destruct (Z.eqb_spec (Hdr.Opcode h) Opcode.Continuation) as [Eo | Eo].
    + destruct (Rx.messageOpcode r =? 0) eqn:Em, (Hdr.RSV1 h) eqn:E1; cbn; intros [= <-] _; by split_and!.
    + destruct ((Hdr.Opcode h =? Opcode.Close) || (Hdr.Opcode h =? Opcode.Ping) || (Hdr.Opcode h =? Opcode.Pong)) eqn:Ec.
      * intros _ Hle. rewrite !orb_true_iff, !Z.eqb_eq in Ec. by destruct Ec as [[E | E] | E]; rewrite E in Hle.
      * done.
Qed.

Lemma Next_data r r' e :
  Rx.Next r = (r', (dataFrame, e)) -> header_facts r r'.
Proof.
  unfold Rx.Next. destruct (Rx.failed r); [done |]. destruct (negb (Rx.remaining r =? 0)); [done |].
  destruct (Rx.closeReceived r); [done |]. cbn [Rx.Next_loop].
  assert (forall r e, Rx.gather r <> (r', (dataFrame, e))) as Hg.
  { intros r0 e0 E. apply (gather_kind r0). by rewrite E. }
  assert (forall r e, Rx.finishControl r <> (r', (dataFrame, e))) as Hc.
  { intros r0 e0 E. apply (finishControl_kind r0). by rewrite E. }
  unfold Rx.turn at 1. destruct (Rx.controlOpen r); [cbn; by intros ?%Hg |].
  destruct (Dec.NextHeaderInto (Rx.dec r) (Rx.header r)) as [[d h] [ok [err |]]]; [done |].
  destruct ok; cbn [negb]; [| done].
  destruct (Rx.accept _ h _) as [r1 [err |]] eqn:Ea; [done |].
  destruct (Opcode.Close <=? Hdr.Opcode h) eqn:Eop.
  - destruct (_ =? 0); cbn [default].
    + cbn. by intros ?%Hc.
    + unfold Rx.turn. cbn [Rx.controlOpen]. cbn. by intros ?%Hg.
  - destruct (accept_facts _ _ _ _ Ea Eop) as (F1 & F2 & F3 & F4 & F5 & F6). cbn in F1, F2, F3, F4, F5, F6.
    cbn [default from_option id]. intros [= <- <-]. unfold header_facts, Rx.finishFrame. cbn [Rx.remaining Rx.header].
    rewrite F2. destruct (Z.eqb_spec (Hdr.PayloadLen h) 0) as [E0 | E0]; [destruct (Hdr.Final h) eqn:Ef |];
      cbn [Rx.remaining Rx.header Rx.compressed Rx.messageOpcode]; rewrite ?F2, ?Ef, ?E0;
      destruct (Z.eqb_spec (Hdr.PayloadLen h) 0); try done; split_and!; try done; by rewrite ?E0.
Qed.

(** Control frames and waiting leave the open message alone. *)
Definition same_message (r r' : Rx.receiver) : Prop :=
  Rx.messageOpcode r' = Rx.messageOpcode r /\ Rx.compressed r' = Rx.compressed r /\
  Rx.remaining r' = Rx.remaining r /\ Rx.compression r' = Rx.compression r /\ Rx.role r' = Rx.role r.

Lemma finishControl_message r r' k : Rx.finishControl r = (r', (k, None)) -> same_message r r'.
Proof.
  unfold Rx.finishControl. destruct (_ =? _); [| intros [= <- <-]; by split_and!].
  destruct (validateClose _); [by destruct (Rx.fail r _ _) |]. intros [= <- <-]. by split_and!.
Qed.

Lemma gather_message r r' k : Rx.gather r = (r', (k, None)) -> same_message r r'.
Proof.
  unfold Rx.gather. destruct (Dec.Payload _) as [d [c fin]]. cbn [Rx.masked].
  destruct (Rx.masked r); cbn.
  - destruct fin; cbn; [intros E%finishControl_message; exact E |]. intros [= <- <-]. by split_and!.
  - destruct fin; cbn; [intros E%finishControl_message; exact E |]. intros [= <- <-]. by split_and!.
Qed.

Lemma accept_control r h n r' :
  Rx.accept r h n = (r', None) -> (Opcode.Close <=? Hdr.Opcode h) = true -> r' = r.
Proof.
  unfold Rx.accept. destruct (_ || Hdr.RSV2 h || _); [done |].
  destruct ((Hdr.Opcode h =? Opcode.Text) || (Hdr.Opcode h =? Opcode.Binary)) eqn:Es.
  { rewrite orb_true_iff, !Z.eqb_eq in Es. by destruct Es as [-> | ->]. }
  destruct (Hdr.Opcode h =? Opcode.Continuation).
  - destruct (_ || Hdr.RSV1 h); [done |]. by intros [= <-].
  - destruct (_ || (Hdr.Opcode h =? Opcode.Pong)); [| done]. destruct (_ || (125 <? n)); [done |]. by intros [= <-].
Qed.

Lemma Next_message r r' k :
  Rx.Next r = (r', (k, None)) -> k <> dataFrame -> same_message r r'.
Proof.
  unfold Rx.Next. destruct (Rx.failed r); [done |]. destruct (negb (Rx.remaining r =? 0)); [done |].
  destruct (Rx.closeReceived r); [by intros [= <- <-] _; split_and! |]. cbn [Rx.Next_loop].
  unfold Rx.turn at 1. destruct (Rx.controlOpen r); [cbn; by intros E%gather_message |].
  destruct (Dec.NextHeaderInto (Rx.dec r) (Rx.header r)) as [[d h] [ok [err |]]]; [done |].
  destruct ok; cbn [negb]; [| by intros [= <- <-] _; split_and!].
  destruct (Rx.accept _ h _) as [r1 [err |]] eqn:Ea; [done |].
  destruct (Opcode.Close <=? Hdr.Opcode h) eqn:Eop; [| by intros [= <- <-]].
  apply accept_control in Ea; [| done]. subst r1.
  destruct (_ =? 0); cbn [default].
  - cbn. intros E%finishControl_message _. exact E.
  - unfold Rx.turn. cbn [Rx.controlOpen]. cbn. intros E%gather_message _. exact E.
Qed.

(** Only a close frame, well formed, ends what may be received. *)
Lemma finishControl_closed r r' k :
  Rx.closeReceived r = false -> Rx.finishControl r = (r', (k, None)) ->
  k = controlFrame /\ Rx.closeReceived r' = (Rx.controlOpcode r' =? Opcode.Close).
Proof.
  intros Hc. unfold Rx.finishControl. destruct (Rx.controlOpcode r =? Opcode.Close) eqn:E.
  - destruct (validateClose _); [by destruct (Rx.fail r _ _) |]. intros [= <- <-]. cbn. by rewrite E.
  - intros [= <- <-]. by rewrite E.
Qed.

Definition closes (k : frameKind) (r : Rx.receiver) : Prop :=
  match k with
  | controlFrame => Rx.closeReceived r = (Rx.controlOpcode r =? Opcode.Close)
  | _ => Rx.closeReceived r = false
  end.

Lemma gather_closed r r' k :
  Rx.closeReceived r = false -> Rx.gather r = (r', (k, None)) -> closes k r'.
Proof.
  intros Hc. unfold Rx.gather. destruct (Dec.Payload _) as [d [c fin]]. cbn [Rx.masked].
  destruct (Rx.masked r); cbn.
  - destruct fin; cbn; [intros [-> E]%finishControl_closed; done |]. by intros [= <- <-].
  - destruct fin; cbn; [intros [-> E]%finishControl_closed; done |]. by intros [= <- <-].
Qed.

Lemma accept_closed r h n r' :
  Rx.closeReceived r = false -> Rx.accept r h n = (r', None) -> Rx.closeReceived r' = false.
Proof. intros Hc. unfold Rx.accept. by repeat case_match; intros [= <-]. Qed.

Lemma Next_closed r r' k :
  Rx.closeReceived r = false -> Rx.Next r = (r', (k, None)) -> closes k r'.
Proof.
  intros Hc. unfold Rx.Next. destruct (Rx.failed r); [done |]. destruct (negb (Rx.remaining r =? 0)); [done |].
  rewrite Hc. cbn [Rx.Next_loop]. unfold Rx.turn at 1.
  destruct (Rx.controlOpen r); [cbn; by intros E%gather_closed |].
  destruct (Dec.NextHeaderInto (Rx.dec r) (Rx.header r)) as [[d h] [ok [err |]]]; [done |].
  destruct ok; cbn [negb]; [| by intros [= <- <-]].
  destruct (Rx.accept _ h _) as [r1 [err |]] eqn:Ea; [done |]. apply accept_closed in Ea; [| done].
  destruct (Opcode.Close <=? Hdr.Opcode h).
  - destruct (_ =? 0); cbn [default].
    + cbn. by intros [-> E]%finishControl_closed.
    + unfold Rx.turn. cbn [Rx.controlOpen]. cbn. by intros E%gather_closed.
  - cbn [default from_option id]. intros [= <- <-]. cbn. destruct (_ =? 0); [| done].
    unfold Rx.finishFrame. by destruct (Hdr.Final _).
Qed.

(** ** [nextFrame] *)

(** The connection after a failure. *)
Definition over c (e : error) : conn :=
  {| c with readErr := Some e; inMessage := false; dstreaming := false |}.

Definition hd (c : conn) : Handler := default DefaultControlHandler (handler c).

Lemma fail_over {A} (e : error) c : fail (A := A) e c = Some (over {| c with wr := closing (wr c) e |} e, Err e).
Proof. by destruct c, e. Qed.

Lemma handleControl_reply c :
  handleControl c =
  let '(w, r) := reply (hd c) (wr c) (Rx.ControlOpcode (rx c)) (Rx.ControlPayload (rx c)) in
  match r with
  | None => None
  | Some None => Some ({| c with wr := w |}, Ok tt)
  | Some (Some e) => Some (over {| c with wr := w |} e, Err e)
  end.
Proof.
  unfold handleControl, reply, handle, hd. cbv zeta.
  destruct (Rx.ControlOpcode (rx c) =? Opcode.Ping).
  { destruct (OnPing _ _ _) as [w [[e |] |]]; done. }
  destruct (Rx.ControlOpcode (rx c) =? Opcode.Pong).
  { destruct (OnPong _ _ _) as [w [[e |] |]]; done. }
  destruct (Rx.ControlOpcode (rx c) =? Opcode.Close); [| by destruct c].
  destruct (parseClose _) as [code reason]. by destruct (OnClose _ _ _ _) as [w [[e |] |]].
Qed.

(** What the connection will be given: the events of the bytes to come, the
    error that ends them, and the reads after it. *)
Definition expects c (sp : spec) (evs : list event) (e : error) (s' : script) (n : nat) : Prop :=
  live (rx c) /\ script_ok (incoming c) /\ 0 < bufLen c /\
  exists b, segment 100 (incoming c) = (b, e, s') /\ ahead (rx c) b = (sp, evs) /\ (length b <= n)%nat.

(** Nothing more to come of the segment. *)
Definition starved c (r : Rx.receiver) sp : Prop := live r /\ ahead r [] = (sp, []) /\ same_message (rx c) r.

Lemma same_message_refl r : same_message r r.
Proof. by split_and!. Qed.

Lemma same_message_trans r1 r2 r3 : same_message r1 r2 -> same_message r2 r3 -> same_message r1 r3.
Proof. intros (? & ? & ? & ? & ?) (? & ? & ? & ? & ?). split_and!; congruence. Qed.

Lemma expects_intro c b sp evs e s' n :
  live (rx c) -> script_ok (incoming c) -> 0 < bufLen c -> segment 100 (incoming c) = (b, e, s') ->
  ahead (rx c) b = (sp, evs) -> (length b <= n)%nat -> expects c sp evs e s' n.
Proof. intros. split; [done |]. split; [done |]. split; [done |]. by exists b. Qed.

Lemma expects_weaken c sp evs e s' n m : (n <= m)%nat -> expects c sp evs e s' n -> expects c sp evs e s' m.
Proof. intros Hm (? & ? & ? & b & ? & ? & ?). split_and!; try done. exists b. split_and!; try done. lia. Qed.

(** Filling, said of the events: the stream is the same, or it is over. *)
Lemma fill_expects c sp evs e s' n :
  expects c sp evs e s' n ->
  (exists r, fill c = Some (moved c r s' (wr c), Err (ended r e)) /\ live r /\ ahead (rx c) [] = (sp, evs) /\
    ahead r [] = (sp, evs) /\ same_message (rx c) r) \/
  (exists r s m, fill c = Some (moved c r s (wr c), Ok tt) /\ expects (moved c r s (wr c)) sp evs e s' m /\
    (m < n)%nat /\ same_message (rx c) r /\ Rx.header r = Rx.header (rx c)).
Proof.
  intros (Hl & Hs & Hb & b & Hseg & Hah & Hn). pose proof (fill_post c Hl Hs Hb) as Hp. rewrite Hseg in Hp.
  case_bool_decide as E.
  - subst b. destruct Hp as (X1 & X2 & X3). left. exists (Rx.Preserve (rx c)).
    destruct (Preserve_live (rx c) [] Hl) as (_ & _ & Hi). unfold ended in *. rewrite Hi. by split_and!; rewrite ?X3.
  - destruct Hp as (d & b' & s1 & r & -> & X2 & X3 & X4 & X5 & X6 & X7 & X8 & X9 & X10 & X11 & X12 & X13). right.
    exists r, s1, (length b'). split; [done |]. split.
    + split_and!; try done. exists b'. split_and!; try done. by rewrite <- Hah.
    + split; [| by split_and!]. rewrite length_app in Hn. destruct d; [done |]. cbn in Hn. lia.
Qed.

Lemma header_facts_same r1 r2 r : same_message r1 r2 -> header_facts r2 r -> header_facts r1 r.
Proof. intros (E1 & E2 & E3 & E4 & E5). unfold header_facts. by rewrite E1, E2, E4. Qed.

Lemma ahead_emit r0 r ev b sp evs :
  Rx.role r = Rx.role r0 -> Rx.compression r = Rx.compression r0 ->
  after (Rx.role r0) (Rx.compression r0) (after (Rx.role r0) (Rx.compression r0) (abs r, ev) (Decoder.pending (Rx.dec r))) b
    = (sp, evs) ->
  exists evs', evs = ev ++ evs' /\ ahead r b = (sp, evs').
Proof.
  intros E1 E2. rewrite after_after. unfold after, ahead. rewrite E1, E2.
  destruct (run _ _ _ _) as [s1 e1]. intros [= -> <-]. by exists e1.
Qed.

Lemma nextFrame_post fuel c sp evs e s' n :
  expects c sp evs e s' n -> Rx.remaining (rx c) = 0 -> (length evs + n < fuel)%nat ->
  match to_frame (hd c) (wr c) evs with
  | Took w (fin, op, rsv, k) evs' =>
      exists r s, nextFrame fuel c = Some (moved c r s w, Ok tt) /\ expects (moved c r s w) sp evs' e s' n /\
        frame_event r = EvFrame fin op rsv k /\ header_facts (rx c) r /\ Rx.compression r = Rx.compression (rx c) /\
        (length evs' < length evs)%nat
  | Stopped w x => exists r s, nextFrame fuel c = Some (over (moved c r s w) x, Err x)
  | Starved w => exists r, nextFrame fuel c = Some (moved c r s' w, Err (ended r e)) /\ starved c r sp
  | Hangs => nextFrame fuel c = None
  end.
Proof.
  revert c evs n. induction fuel as [| fuel IH]; intros c evs n (Hl & Hs & Hb & b & Hseg & Hah & Hn) Hr Hf; [lia |].
  cbn [nextFrame]. pose proof Hl as (Hok & Hfa & Hcl).
  pose proof (Next_post (rx c) Hok Hfa Hcl Hr) as Hp.
  destruct (Rx.Next (rx c)) as [r [k x]] eqn:En. destruct Hp as (Hok1 & Hro & Hco & Hp).
  assert (rx_call Rx.Next c = Some ({| c with rx := r |}, Ok (k, x))) as E by (unfold rx_call; by rewrite En).
  rewrite (bind_ok _ _ _ _ _ E). cbv beta iota.
  assert (ahead (rx c) b = after (Rx.role (rx c)) (Rx.compression (rx c))
    (run (Rx.role (rx c)) (Rx.compression (rx c)) (abs (rx c)) (Decoder.pending (Rx.dec (rx c)))) b) as Hab
    by (unfold ahead; by rewrite run_app).
  destruct x as [x |].
  { destruct k; [| done | done]. destruct Hp as [HX Hf']. rewrite HX, Hah in Hab. unfold after in Hab.
    rewrite run_dead in Hab by (unfold abs, abs_mode; by rewrite Hf'). injection Hab as -> ->.
    cbn [app to_frame]. exists r, (incoming c). by rewrite fail_over. }
  pose proof (Next_closed _ _ _ Hcl En) as Hcl1.
  assert (forall b, after (Rx.role (rx c)) (Rx.compression (rx c)) (run (Rx.role (rx c)) (Rx.compression (rx c)) (abs r) (Decoder.pending (Rx.dec r))) b = ahead r b) as Ha.
  { intros b'. unfold ahead. by rewrite run_app, Hro, Hco. }
  destruct k; cbn [closes] in Hcl1.
  - destruct Hp as (HX & Hq & Hf'). rewrite HX, Ha, Hah in Hab. rewrite Hfa in Hf'.
    pose proof (Next_message _ _ _ En ltac:(done)) as Hm.
    set (c1 := {| c with rx := r |}).
    assert (expects c1 sp evs e s' n) as He1.
    { apply (expects_intro _ b); done. }
    change (hd c) with (hd c1). change (wr c) with (wr c1).
    destruct (fill_expects c1 sp evs e s' n He1) as [(r1 & X1 & X2 & X3 & X4 & X5) | (r1 & s1 & m & X1 & X2 & X3 & X4 & X5)].
    + rewrite (bind_err _ _ _ _ _ X1). unfold ahead in X3. rewrite app_nil_r in X3. change (rx c1) with r in X3.
      assert (evs = []) as ->.
      { rewrite Hro, Hco in X3. rewrite X3 in Hq. done. }
      cbn [to_frame]. exists r1. split; [done |]. split; [done |]. split; [done |]. by eapply same_message_trans.
    + rewrite (bind_ok _ _ _ _ _ X1).
      assert (Rx.remaining r1 = 0) as Hr1 by (destruct Hm as (_ & _ & Hm & _), X4 as (_ & _ & X4 & _); cbn in X4; congruence).
      pose proof (IH (moved c1 r1 s1 (wr c1)) evs m X2 Hr1 ltac:(lia)) as Hi.
      change (hd (moved c1 r1 s1 (wr c1))) with (hd c1) in Hi. cbn [wr moved] in Hi.
      pose proof (same_message_trans _ _ _ Hm X4) as Hm1. cbn [rx moved] in Hi.
      destruct (to_frame (hd c1) (wr c1) evs) as [w [[[fin op] rsv] k] evs' | w x | w |]; [| done | | done].
      * destruct Hi as (r2 & s2 & Y1 & Y2 & Y3 & Y4 & Y5 & Y6). exists r2, s2. split; [exact Y1 |].
        split; [eapply expects_weaken; [| exact Y2]; lia |]. split; [exact Y3 |].
        split; [by eapply header_facts_same |]. split; [| done]. rewrite Y5. by destruct Hm1 as (_ & _ & _ & ? & _).
      * destruct Hi as (r2 & Y1 & Y2 & Y3 & Y4). exists r2. split; [exact Y1 |]. split; [done |]. split; [done |].
        by eapply same_message_trans.
  - pose proof (Next_data _ _ _ En) as Hh. destruct Hp as (HX & Hf' & _). rewrite HX, Hah in Hab. symmetry in Hab.
    destruct (ahead_emit _ _ _ _ _ _ Hro Hco Hab) as (evs' & -> & Ha'). cbn [app to_frame].
    exists r, (incoming c). split; [done |]. split; [by apply (expects_intro _ b) |].
    split; [done |]. split; [done |]. split; [done | cbn; lia].
  - destruct Hp as (HX & Hf'). rewrite HX, Hah in Hab. symmetry in Hab.
    destruct (ahead_emit _ _ _ _ _ _ Hro Hco Hab) as (evs' & -> & Ha'). cbn [app to_frame].
    pose proof (Next_message _ _ _ En ltac:(done)) as Hm.
    set (c1 := {| c with rx := r |}). pose proof (handleControl_reply c1) as Hc1.
    change (hd c1) with (hd c) in Hc1. cbn [wr rx c1] in Hc1. unfold Rx.ControlOpcode in Hc1.
    destruct (reply (hd c) (wr c) (Rx.controlOpcode r) (Rx.ControlPayload r)) as [w [[x |] |]] eqn:Er.
    + rewrite (bind_err _ _ _ _ _ Hc1). by exists r, (incoming c).
    + rewrite (bind_ok _ _ _ _ _ Hc1). assert (Rx.closeReceived r = false) as Hcl2.
      { rewrite Hcl1. destruct (Rx.controlOpcode r =? Opcode.Close) eqn:Eo; [| done]. exfalso.
        unfold reply in Er. apply Z.eqb_eq in Eo. rewrite Eo in Er. cbn in Er.
        destruct (parseClose _) as [code reason]. by destruct (OnClose _ _ _ _) as [? [[|] |]]. }
      set (c2 := {| c1 with wr := w |}).
      assert (expects c2 sp evs' e s' n) as He2 by (by apply (expects_intro _ b)).
      assert (Rx.remaining r = 0) as Hr2 by (destruct Hm as (_ & _ & Hm & _); congruence).
      cbn [length app] in Hf. pose proof (IH c2 evs' n He2 Hr2 ltac:(lia)) as Hi.
      change (hd c2) with (hd c) in Hi. cbn [wr c2] in Hi. change (rx c2) with r in Hi.
      destruct (to_frame (hd c) w evs') as [w1 [[[fin op] rsv] k] evs1 | w1 x | w1 |]; [| done | | done].
      * destruct Hi as (r2 & s2 & Y1 & Y2 & Y3 & Y4 & Y5 & Y6). exists r2, s2. split; [exact Y1 |].
        split; [exact Y2 |]. split; [exact Y3 |]. split; [by eapply header_facts_same |].
        split; [by rewrite Y5 | cbn; lia].
      * destruct Hi as (r2 & Y1 & Y2 & Y3 & Y4). exists r2. split; [exact Y1 |]. split; [done |]. split; [done |].
        by eapply same_message_trans.
    + by rewrite (bind_hang _ _ _ Hc1).
Qed.
End transport.
