(* ===== verification/Assembling.v ===== *)
(** * Assembling messages

    What [assemble] and [ReadMessage] do, said of events: a message comes out
    whole and in order however its frames are cut, whether its payload went
    through the read buffer, straight into the message buffer, or was borrowed
    from where it arrived. *)

From stdpp Require Import prelude gmap.
From S2P Require Import Prelude Mask Errors Header Encoder Decoder Utf8 Close Receiver Stream Refine Pump Sender Bufpool Window Compressor Decompressor Handshake Queue ConnCompress ConnWrite ConnRead Reading.

Import Cr.

(** ** Payload and the receiver *)

Section pieces.
Context {M : Masker} `{!MaskerOk M}.

(** The receiver after [chunk] of the open frame. *)
Record piece (r r' : Rx.receiver) (chunk : list Z) : Prop := {
  piece_remaining : Rx.remaining r' = Rx.remaining r - len chunk;
  piece_header : Rx.header r' = Rx.header r;
  piece_compressed : Rx.compressed r' = Rx.compressed r;
  piece_compression : Rx.compression r' = Rx.compression r;
  piece_opcode : Rx.messageOpcode r' =
    if (Rx.remaining r' =? 0) && Hdr.Final (Rx.header r) then 0 else Rx.messageOpcode r
}.

(** The message is open unless its last frame has been read to the end. *)
Definition at_payload (r : Rx.receiver) : Prop :=
  (Rx.messageOpcode r =? 0) = (Rx.remaining r =? 0) && Hdr.Final (Rx.header r).

Lemma header_at_payload r0 r : header_facts r0 r -> at_payload r.
Proof.
  intros (E1 & E2 & _ & E4 & _). unfold at_payload. rewrite E4.
  destruct ((Rx.remaining r =? 0) && _); [done |].
  destruct (starts (Hdr.Opcode (Rx.header r))) eqn:Es; [| done].
  unfold starts in Es. rewrite orb_true_iff, !Z.eqb_eq in Es. by destruct Es as [-> | ->].
Qed.

Lemma PayloadN_piece r k :
  live r -> Rx.remaining r <> 0 -> 0 <= k -> at_payload r ->
  let '(r', (chunk, fin, e)) := Rx.PayloadN r k in
  e = None /\ piece r r' chunk /\ at_payload r' /\ live r' /\ fin = (Rx.remaining r' =? 0) /\
  len chunk = Z.min (Z.min k (len (Decoder.pending (Rx.dec r)))) (Rx.remaining r) /\
  Decoder.pending (Rx.dec r') = from (Decoder.pending (Rx.dec r)) (len chunk) /\
  forall b, ahead r b = let '(sp, evs) := ahead r' b in (sp, (EvData <$> chunk) ++ evs).
Proof.
  intros (Hok & Hf & Hc) Hr Hk Hat. pose proof (PayloadN_post r k Hok Hf Hc Hr Hk) as Hp.
  rewrite PayloadN_live in * by done. destruct (Dec.PayloadN (Rx.dec r) k) as [d [c dn]].
  assert (forall x, let '(r', (chunk, fin, e)) := Rx.consumed x c dn in fin = dn /\ Rx.header r' = Rx.header x /\
    Rx.compressed r' = Rx.compressed x /\ Rx.compression r' = Rx.compression x /\
    Rx.messageOpcode r' = if dn && Hdr.Final (Rx.header x) then 0 else Rx.messageOpcode x) as Hx.
  { intros x. unfold Rx.consumed, Rx.finishFrame. destruct (negb (len c =? 0)); [destruct (Rx.masked x) |]; [| |]; destruct dn; cbn;
      destruct (Hdr.Final (Rx.header x)); by split_and!. }
  specialize (Hx {| r with Rx.dec := d |}).
  destruct (Rx.consumed _ c dn) as [r' [[chunk fin] e]].
  destruct Hx as (-> & E1 & E2 & E3 & E4). destruct Hp as (-> & Hok' & Ho & Hcp & Hf' & Hc' & Hl & Hrm & Hfin & Hpd & Hrun).
  cbn in E1, E2, E3, E4. rewrite Hfin in E4.
  split; [done |]. split; [by constructor |]. split.
  { unfold at_payload in *. rewrite E4, E1. destruct ((Rx.remaining r' =? 0) && Hdr.Final (Rx.header r)) eqn:E; [done |]. rewrite Hat.
    by destruct (Z.eqb_spec (Rx.remaining r) 0). }
  split; [by split |]. split; [done |]. split; [done |]. split; [done |].
  intros b. unfold ahead. rewrite run_app, Hrun, after_after, Ho, Hcp. unfold after. by destruct (run _ _ _ _).
Qed.

(** Bytes read straight into the message buffer. *)
Lemma Feed_piece r d :
  live r -> Rx.remaining r <> 0 -> at_payload r -> Decoder.pending (Rx.dec r) = [] -> bytes_ok d ->
  len d <= Rx.remaining r ->
  let '(r', (chunk, fin, e)) := Rx.PayloadN (Rx.Feed r d) (len d) in
  e = None /\ piece r r' chunk /\ at_payload r' /\ live r' /\ fin = (Rx.remaining r' =? 0) /\ len chunk = len d /\
  Decoder.pending (Rx.dec r') = [] /\
  forall b, ahead r (d ++ b) = let '(sp, evs) := ahead r' b in (sp, (EvData <$> chunk) ++ evs).
Proof.
  intros Hl Hr Hat Hpd Hd Hle.
  assert (Rx.Preserve r = r) as Hpr.
  { unfold Rx.Preserve, Dec.Preserve. rewrite Hpd. by destruct r. }
  pose proof (fun b => Feed_live r d b Hl Hd) as Hfeed. cbv zeta in Hfeed. rewrite Hpr in Hfeed.
  destruct (Hfeed []) as (F1 & F2 & F3 & F4 & F5 & F6 & F7 & F8 & _). rewrite Hpd in F8. cbn [app] in F8.
  assert (at_payload (Rx.Feed r d)) as Hat' by (unfold at_payload; by rewrite F2, F3, F5).
  pose proof (len_nonneg d).
  pose proof (PayloadN_piece (Rx.Feed r d) (len d) F1 ltac:(congruence) ltac:(done) Hat') as Hp.
  destruct (Rx.PayloadN _ _) as [r' [[chunk fin] e]]. destruct Hp as (-> & [] & X3 & X4 & X5 & X6 & X7 & X8).
  rewrite F8, F2 in X6. assert (len chunk = len d) as El by lia.
  split; [done |]. split; [by constructor; rewrite <- ?F2, <- ?F3, <- ?F4, <- ?F5, <- ?F7 |]. split; [done |]. split; [done |]. split; [done |].
  split; [done |]. split.
  - rewrite X7, F8, El. rewrite from_all; [done | lia].
  - intros b. destruct (Hfeed b) as (_ & _ & _ & _ & _ & _ & _ & _ & F9). rewrite <- F9. apply X8.
Qed.
End pieces.

Lemma take_data_app chunk k evs :
  take_data (length chunk + k) ((EvData <$> chunk) ++ evs) =
  '(bs, evs) ← take_data k evs; Some (chunk ++ bs, evs).
Proof.
  induction chunk as [| b chunk IH]; cbn.
  - by destruct (take_data k evs) as [[? ?] |].
  - change (list_fmap _ _ EvData chunk) with (EvData <$> chunk). rewrite IH.
    by destruct (take_data k evs) as [[? ?] |].
Qed.

Lemma take_data_length n evs bs evs' : take_data n evs = Some (bs, evs') -> length bs = n.
Proof.
  revert evs bs. induction n as [| n IH]; intros evs bs; cbn; [by intros [= <- _] |].
  destruct evs as [| [] evs]; try done. destruct (take_data n evs) as [[bs' e'] |] eqn:E; [| done].
  intros [= <- <-]. cbn. f_equal. by apply (IH evs).
Qed.

Section assembling.
Context {M : Masker} `{!MaskerOk M} {G : Grow} {F : Flate} {I : Inflater} {T : Transport} {W : World} {RW : ReadWorld}.
Implicit Types (c : conn).

(** What reading the payload of an open frame may change. *)
Definition progress c c' : Prop :=
  exists r s w m k d, c' = {| c with rx := r; incoming := s; wr := w; msg := m; msgHint := k; draws := d |}.

Lemma progress_refl c : progress c c.
Proof. exists (rx c), (incoming c), (wr c), (msg c), (msgHint c), (draws c). by destruct c. Qed.

Lemma progress_trans c1 c2 c3 : progress c1 c2 -> progress c2 c3 -> progress c1 c3.
Proof. intros (? & ? & ? & ? & ? & ? & ->) (r & s & w & m & k & d & ->). by exists r, s, w, m, k, d. Qed.

Lemma progress_moved c r s w : progress c (moved c r s w).
Proof. by exists r, s, w, (msg c), (msgHint c), (draws c). Qed.

Lemma progress_same c c' : progress c c' ->
  hd c' = hd c /\ limit c' = limit c /\ validateUTF8 c' = validateUTF8 c /\ readErr c' = readErr c /\
  dec c' = dec c /\ rwindow c' = rwindow c /\ mem c' = mem c /\ large c' = large c.
Proof. by intros (? & ? & ? & ? & ? & ? & ->). Qed.

(** What was gathered is in the message buffer. *)
Definition held c (b : list Z) : Prop := b <> [] -> msg c <> None.

Definition grown c (m : msgBuf) (d : Z) : conn := {| c with msg := Some m; draws := d |}.

Lemma progress_grown c m d : progress c (grown c m d).
Proof. by exists (rx c), (incoming c), (wr c), (Some m), (msgHint c), d. Qed.

Lemma growMsg_post b cap n c :
  held c b -> exists m d cap', growMsg (b, cap) n c = Some (grown c m d, Ok (b, cap')).
Proof.
  intros Hh. unfold growMsg, grown. destruct (msg c) as [m |] eqn:Em.
  - repeat case_match; eexists _, (draws c), _; try done.
    destruct c; cbn in *. by subst.
  - assert (b = []) as -> by (unfold held in Hh; destruct b; [done | by destruct (Hh ltac:(done))]).
    repeat case_match; by eexists _, _, _.
Qed.

Lemma appendMsg_post b cap chunk c :
  held c b -> exists m d cap', appendMsg (b, cap) chunk c = Some (grown c m d, Ok (b ++ chunk, cap')).
Proof.
  intros Hh. destruct (growMsg_post b cap (len chunk + Rx.remaining (rx c)) c Hh) as (m & d & cap' & E).
  unfold appendMsg, bind at 1, get. unfold bind at 1. rewrite E. cbv beta iota.
  by eexists _, _, _.
Qed.

Lemma expects_grown c m d sp evs e s' n : expects c sp evs e s' n -> expects (grown c m d) sp evs e s' n.
Proof. done. Qed.

Lemma held_grown c m d b : held (grown c m d) b.
Proof. done. Qed.

Record in_frame (r r' : Rx.receiver) : Prop := {
  inframe_header : Rx.header r' = Rx.header r;
  inframe_compressed : Rx.compressed r' = Rx.compressed r;
  inframe_compression : Rx.compression r' = Rx.compression r
}.

Lemma inframe_refl r : in_frame r r.
Proof. done. Qed.

Lemma inframe_trans r1 r2 r3 : in_frame r1 r2 -> in_frame r2 r3 -> in_frame r1 r3.
Proof. intros [? ? ?] [? ? ?]. split; congruence. Qed.

(** The next chunk of the open frame, from what is buffered. *)
Lemma PayloadN_expects c sp evs e s' n k :
  expects c sp evs e s' n -> Rx.remaining (rx c) <> 0 -> 0 <= k -> at_payload (rx c) ->
  exists r chunk evs', let c' := {| c with rx := r |} in
    rx_call (fun r => Rx.PayloadN r k) c = Some (c', Ok (chunk, Rx.remaining r =? 0, None)) /\
    expects c' sp evs' e s' n /\ evs = (EvData <$> chunk) ++ evs' /\ at_payload r /\ in_frame (rx c) r /\
    Rx.remaining r = Rx.remaining (rx c) - len chunk /\
    len chunk = Z.min (Z.min k (len (Decoder.pending (Rx.dec (rx c))))) (Rx.remaining (rx c)) /\
    Decoder.pending (Rx.dec r) = from (Decoder.pending (Rx.dec (rx c))) (len chunk).
Proof.
  intros (Hl & Hs & Hb & b & Hseg & Hah & Hn) Hr Hk Hat.
  pose proof (PayloadN_piece (rx c) k Hl Hr Hk Hat) as Hp. unfold rx_call.
  destruct (Rx.PayloadN (rx c) k) as [r [[chunk fin] x]]. destruct Hp as (-> & [] & X3 & X4 & -> & X6 & X7 & X8).
  specialize (X8 b). rewrite Hah in X8. destruct (ahead r b) as [sp1 evs1] eqn:Ea. injection X8 as <- ->.
  exists r, chunk, evs1. split; [done |]. split; [by apply (expects_intro _ b) |]. by split_and!.
Qed.

(** A read past the buffer. *)
Lemma read_payload c sp evs e s' n k :
  expects c sp evs e s' n -> Rx.remaining (rx c) <> 0 -> at_payload (rx c) ->
  Decoder.pending (Rx.dec (rx c)) = [] -> 0 < k <= Rx.remaining (rx c) ->
  (evs = [] /\ read k c = Some ({| c with incoming := s' |}, Err (ended (rx c) e))) \/
  (exists got s r chunk evs' m,
    read k c = Some ({| c with incoming := s |}, Ok got) /\
    Rx.PayloadN (Rx.Feed (rx c) got) (len got) = (r, (chunk, Rx.remaining r =? 0, None)) /\
    evs = (EvData <$> chunk) ++ evs' /\ chunk <> [] /\
    expects {| c with rx := r; incoming := s |} sp evs' e s' m /\ (m < n)%nat /\ at_payload r /\ in_frame (rx c) r /\
    Rx.remaining r = Rx.remaining (rx c) - len chunk /\ len chunk <= k).
Proof.
  intros (Hl & Hs & Hb & b & Hseg & Hah & Hn) Hr Hat Hpd Hk.
  pose proof (transport_read_post k c ltac:(lia)) as Hp. rewrite Hseg in Hp. case_bool_decide as E.
  - left. split; [| done]. subst b. unfold ahead in Hah. rewrite Hpd in Hah. cbn in Hah. by injection Hah.
  - right. destruct Hp as (d & b' & s1 & -> & Hd & Hle & Hseg1 & Hok & Hread). destruct (Hok Hs) as [Hs1 Hbd].
    pose proof (Feed_piece (rx c) d Hl Hr Hat Hpd Hbd ltac:(lia)) as Hf.
    destruct (Rx.PayloadN _ _) as [r [[chunk fin] x]] eqn:Ep. destruct Hf as (-> & [] & X3 & X4 & -> & X6 & X7 & X8).
    specialize (X8 b'). rewrite Hah in X8. destruct (ahead r b') as [sp1 evs1] eqn:Ea. injection X8 as <- ->.
    exists d, s1, r, chunk, evs1, (length b'). rewrite length_app in Hn.
    assert (chunk <> []) by (intros ->; rewrite len_nil in X6; by destruct d).
    split; [done |]. split; [done |]. split; [done |]. split; [done |].
    split; [by apply (expects_intro _ b') |]. destruct d; [done |]. cbn in Hn. split_and!; try done; lia.
Qed.

(** [readInto]: the chunk lands in the message buffer. *)
Lemma readInto_post c sp evs e s' n k b cap :
  expects c sp evs e s' n -> Rx.remaining (rx c) <> 0 -> at_payload (rx c) -> held c b ->
  Decoder.pending (Rx.dec (rx c)) = [] -> 0 < k <= Rx.remaining (rx c) ->
  (evs = [] /\ exists c', readInto (b, cap) k c = Some (c', Err (ended (rx c') e)) /\ progress c c' /\
    wr c' = wr c /\ incoming c' = s') \/
  (exists c' chunk cap' evs' m, readInto (b, cap) k c = Some (c', Ok (b ++ chunk, cap')) /\ progress c c' /\
    wr c' = wr c /\ evs = (EvData <$> chunk) ++ evs' /\ chunk <> [] /\ expects c' sp evs' e s' m /\ (m < n)%nat /\
    at_payload (rx c') /\ in_frame (rx c) (rx c') /\ Rx.remaining (rx c') = Rx.remaining (rx c) - len chunk /\
    len chunk <= k /\ held c' (b ++ chunk)).
Proof.
  intros He Hr Hat Hh Hpd Hk. unfold readInto.
  destruct (growMsg_post b cap k c Hh) as (mm & d & cap' & Eg). rewrite (bind_ok _ _ _ _ _ Eg). cbv beta iota.
  destruct (read_payload (grown c mm d) sp evs e s' n k He Hr Hat Hpd Hk)
    as [[-> E] | (got & s & r & chunk & evs' & m & E & Ep & -> & X1 & X2 & X3 & X4 & X5 & X6 & X7)].
  - left. split; [done |]. rewrite (bind_err _ _ _ _ _ E).
    match type of E with _ = Some (?x, _) => exists x end. split; [done |].
    split; [by exists (rx c), s', (wr c), (Some mm), (msgHint c), d | done].
  - right. rewrite (bind_ok _ _ _ _ _ E), bind_put. cbv beta. erewrite bind_rx by exact Ep. cbv beta iota. eexists _, chunk, cap', evs', m. split; [done |].
    split; [by exists r, s, (wr c), (Some mm), (msgHint c), d |]. by split_and!.
Qed.

(** What reading the rest of a frame's payload comes to. *)
Definition frame_done c (sp : spec) (evs : list event) (e : error) (s' : script) (n : nat) (b : list Z)
    (res : option (conn * result (list Z + buffer))) : Prop :=
  match take_data (Z.to_nat (Rx.remaining (rx c))) evs with
  | None => exists c', res = Some (c', Err (ended (rx c') e)) /\ progress c c' /\ wr c' = wr c /\ incoming c' = s'
  | Some (data, evs') => exists c' x, res = Some (c', Ok x) /\ progress c c' /\
      wr c' = wr c /\ expects c' sp evs' e s' n /\ in_frame (rx c) (rx c') /\ Rx.remaining (rx c') = 0 /\
      at_payload (rx c') /\ (length evs' <= length evs)%nat /\
      match x with
      | inl chunk => b = [] /\ chunk = data /\ Rx.MessageOpen (rx c') = false
      | inr (b', _) => b' = b ++ data /\ held c' b'
      end
  end.

Lemma frame_more c c1 sp evs e s' n m b chunk res :
  progress c c1 -> wr c1 = wr c -> in_frame (rx c) (rx c1) -> 0 <= Rx.remaining (rx c1) ->
  Rx.remaining (rx c) = Rx.remaining (rx c1) + len chunk -> (m <= n)%nat ->
  frame_done c1 sp evs e s' m (b ++ chunk) res -> frame_done c sp ((EvData <$> chunk) ++ evs) e s' n b res.
Proof.
  intros Hre Hw Hk H0 Hr Hm. unfold frame_done.
  replace (Z.to_nat (Rx.remaining (rx c))) with (length chunk + Z.to_nat (Rx.remaining (rx c1)))%nat
    by (unfold len in *; lia).
  rewrite take_data_app. destruct (take_data _ evs) as [[data evs'] |]; cbn [mbind option_bind].
  - intros (c' & x & X1 & X2 & X3 & X4 & X5 & X6 & X7 & X8 & X9). exists c', x.
    split; [done |]. split; [by eapply progress_trans |]. split; [congruence |]. split; [by eapply expects_weaken |].
    split; [by eapply inframe_trans |]. split; [done |]. split; [done |]. split; [rewrite length_app; lia |].
    destruct x as [ck | [b' cap']].
    + destruct X9 as (E & -> & X9). apply app_eq_nil in E as [-> ->]. by split_and!.
    + destruct X9 as [-> X9]. by rewrite app_assoc.
  - intros (c' & X1 & X2 & X3 & X4). exists c'. split; [done |]. split; [by eapply progress_trans |]. split; [congruence | done].
Qed.

Lemma live_remaining r : live r -> 0 <= Rx.remaining r < 2 ^ 63.
Proof.
  intros (Hok & Hf & Hc). pose proof (ok_phase r Hok) as Hp. pose proof (ok_dec r Hok) as [_ Hd].
  rewrite Hf, Hc in Hp. destruct (Z.eqb_spec (Rx.remaining r) 0); cbn [negb] in Hp; lia.
Qed.

Lemma frame_payload_post fuel c sp evs e s' n b cap :
  expects c sp evs e s' n -> at_payload (rx c) -> held c b -> (length evs + n < fuel)%nat ->
  frame_done c sp evs e s' n b (frame_payload fuel (b, cap) c).
Proof.
  revert c evs n b cap. induction fuel as [| fuel IH]; intros c evs n b cap He Hat Hh Hf; [lia |].
  cbn [frame_payload]. pose proof He as (Hl & _ & Hbuf & _).
  pose proof (live_remaining _ Hl) as Hrc. destruct (Z.eqb_spec (Rx.remaining (rx c)) 0) as [Hr | Hr].
  { (* an empty frame *)
    assert (rx_call Rx.Payload c = Some (c, Ok ([], true, None))) as E.
    { destruct Hl as (_ & Hfa & _). unfold rx_call, Rx.Payload, Rx.PayloadN. rewrite Hfa, Hr. by destruct c. }
    rewrite (bind_ok _ _ _ _ _ E). cbv beta iota. rewrite bind_get. cbn [andb fst].
    unfold frame_done. rewrite Hr. cbn [take_data Z.to_nat]. change (len []) with 0. cbn [Z.eqb negb orb].
    destruct ((len b =? 0) && negb (Rx.MessageOpen (rx c))) eqn:Eb.
    - apply andb_prop in Eb as [Eb Ho]. apply Z.eqb_eq, len_0_nil in Eb. subst b.
      eexists _, (inl []). split; [done |].
      split; [by exists (rx c), (incoming c), (wr c), (msg c), 0, (draws c) |]. apply negb_true_iff in Ho.
      split; [done |]. split; [done |]. split; [done |]. split; [done |]. split; [done |]. split; [lia | by split_and!].
    - destruct (appendMsg_post b cap [] c Hh) as (mm & d & cap' & Eg). rewrite (bind_ok _ _ _ _ _ Eg). cbv beta iota.
      rewrite !app_nil_r. eexists _, (inr (b, cap')). split; [done |]. split; [apply progress_grown |].
      split; [done |]. split; [done |]. split; [done |]. split; [done |]. split; [done |]. split; [lia | by rewrite app_nil_r]. }
  destruct (PayloadN_expects c sp evs e s' n (Dec.Buffered (Rx.dec (rx c))) He Hr (len_nonneg _) Hat)
    as (r & chunk & evs' & E & He1 & -> & Hat1 & Hk1 & Hr1 & Hl1 & Hp1).
  change (rx_call (fun r => Rx.PayloadN r _) c) with (rx_call Rx.Payload c) in E.
  rewrite (bind_ok _ _ _ _ _ E). cbv beta iota. rewrite bind_get. cbn [rx fst].
  set (c1 := {| c with rx := r |}) in *. change (Rx.MessageOpen (rx c1)) with (Rx.MessageOpen r).
  assert (progress c c1) as Hre by (by exists r, (incoming c), (wr c), (msg c), (msgHint c), (draws c)).
  pose proof He1 as (Hl1' & _). pose proof (live_remaining _ Hl1') as Hr0. cbn [rx c1] in Hr0.
  assert (Rx.remaining (rx c) = Rx.remaining (rx c1) + len chunk) as Hrem by (cbn [rx c1]; lia).
  destruct (Z.eqb_spec (Rx.remaining r) 0) as [E0 | N0].
  { destruct ((len b =? 0) && negb (Rx.MessageOpen r)) eqn:Eb.
    - apply andb_prop in Eb as [Eb Ho]. apply Z.eqb_eq, len_0_nil in Eb. subst b. apply negb_true_iff in Ho.
      unfold frame_done. cbn [rx c1] in Hrem.
      replace (Z.to_nat (Rx.remaining (rx c))) with (length chunk + 0)%nat by (unfold len in *; lia).
      rewrite take_data_app. cbn [take_data mbind option_bind andb]. rewrite app_nil_r, Ho.
      eexists _, (inl chunk). split; [done |].
      split; [by exists r, (incoming c), (wr c), (msg c), 0, (draws c) |].
      split; [done |]. split; [done |]. split; [done |]. split; [done |]. split; [done |].
      split; [rewrite length_app; lia | done].
    - rewrite orb_true_r. cbn [andb]. rewrite Eb. cbv iota.
      eapply (frame_more _ c1 _ _ _ _ n n); [done | done | done | lia | done | done |].
      unfold frame_done. cbn [rx c1]. rewrite E0. cbn [take_data Z.to_nat].
      destruct (appendMsg_post b cap chunk c1 Hh) as (mm & d & cap' & Eg). rewrite (bind_ok _ _ _ _ _ Eg). cbv beta iota.
      eexists _, (inr (b ++ chunk, cap')). split; [done |].
      split; [apply progress_grown |]. rewrite app_nil_r. by split_and!. }
  cbn [andb]. rewrite orb_false_r. destruct (Z.eqb_spec (len chunk) 0) as [Ec | Nc]; cbn [negb].
  - apply len_0_nil in Ec. subst chunk. rewrite bind_get, bind_get.
    change (Rx.remaining (rx c1)) with (Rx.remaining r). change (bufLen c1) with (bufLen c).
    assert (Decoder.pending (Rx.dec r) = []) as Hpr.
    { rewrite Hp1. apply from_all. unfold Dec.Buffered in Hl1. rewrite len_nil in *. lia. }
    destruct (Z.leb_spec (bufLen c) (Rx.remaining r)) as [Hle | Hlt].
    + destruct (readInto_post c1 sp evs' e s' n (Rx.remaining r) b cap He1 N0 Hat1 Hh Hpr ltac:(lia))
        as [(-> & c' & E1 & X1 & X2 & X3) | (c' & ck & cap' & evs1 & m & E1 & X1 & X2 & -> & X4 & X5 & X6 & X7 & X8 & X9 & X10 & X11)].
      * rewrite (bind_err _ _ _ _ _ E1). unfold frame_done.
        destruct (Z.to_nat (Rx.remaining (rx c))) eqn:Ez; [lia |]. cbn.
        exists c'. split; [done |]. split; [exact (progress_trans _ _ _ Hre X1) |]. by split; [rewrite X2 |].
      * rewrite (bind_ok _ _ _ _ _ E1).
        assert (length evs1 < length ((EvData <$> ck) ++ evs1))%nat as Hlt
          by (rewrite length_app, length_fmap; destruct ck; [done | cbn; lia]).
        cbn [app fmap list_fmap]. pose proof (live_remaining _ (proj1 X5)).
        eapply (frame_more _ c' _ _ _ _ n m).
        { exact (progress_trans _ _ _ Hre X1). } { by rewrite X2. } { exact (inframe_trans _ _ _ Hk1 X8). } { lia. }
        { cbn [rx c1] in *. rewrite len_nil in *. lia. } { lia. }
        apply IH; [done | done | done |]. cbn [app fmap list_fmap] in Hf. lia.
    + destruct (fill_expects c1 sp evs' e s' n He1) as [(r1 & E1 & X1 & X2 & X3 & X4) | (r1 & s1 & m & E1 & X1 & X2 & X3 & X4)].
      * rewrite (bind_err _ _ _ _ _ E1). unfold ahead in X2. cbn [rx c1] in X2. rewrite Hpr in X2. cbn in X2.
        injection X2 as _ <-. unfold frame_done. destruct (Z.to_nat (Rx.remaining (rx c))) eqn:Ez; [lia |]. cbn.
        exists (moved c1 r1 s' (wr c)). split; [done |]. split; [eapply progress_trans; [exact Hre | apply progress_moved] | done].
      * rewrite (bind_ok _ _ _ _ _ E1). destruct X3 as (Y1 & Y2 & Y3 & Y4 & Y5). cbn [rx c1] in Y1, Y2, Y3, Y4, X4.
        change (@nil Z) with (@nil Z ++ []). 
        eapply (frame_more _ (moved c1 r1 s1 (wr c1)) _ _ _ _ n m).
        { eapply progress_trans; [exact Hre | apply progress_moved]. } { done. }
        { eapply inframe_trans; [exact Hk1 |]. by constructor. } { cbn [rx moved]. lia. }
        { cbn [rx moved c1 app] in *. rewrite len_nil in *. lia. } { lia. }
        cbn [app]. rewrite app_nil_r. apply IH; [done | | done |].
        { unfold at_payload in *. cbn [rx moved c1] in *. congruence. }
        cbn [app fmap list_fmap] in Hf. lia.
  - destruct (appendMsg_post b cap chunk c1 Hh) as (mm & d & cap' & Eg). rewrite (bind_ok _ _ _ _ _ Eg). cbv beta iota.
    eapply (frame_more _ (grown c1 mm d) _ _ _ _ n n).
    { eapply progress_trans; [exact Hre | apply progress_grown]. } { done. } { done. } { exact (proj1 Hr0). } { exact Hrem. } { done. }
    apply IH; [done | done | done |]. rewrite length_app, length_fmap in Hf. destruct chunk; [done |]. cbn in Hf. lia.
Qed.

Lemma to_frame_shorter h w evs w' f evs' : to_frame h w evs = Took w' f evs' -> (length evs' < length evs)%nat.
Proof.
  revert w. induction evs as [| [] evs IH]; intros w; cbn [to_frame]; try done.
  - intros [= _ _ <-]. cbn. lia.
  - destruct (reply _ _ _ _) as [? [[|] |]]; try done. intros E%IH. cbn. lia.
Qed.

Lemma take_data_shorter n evs bs evs' : take_data n evs = Some (bs, evs') -> (length evs' <= length evs)%nat.
Proof.
  revert evs bs. induction n as [| n IH]; intros evs bs; cbn; [by intros [= _ <-] |].
  destruct evs as [| [] evs]; try done. destruct (take_data n evs) as [[bs' e'] |] eqn:E; [| done].
  intros [= _ <-]. apply IH in E. cbn. lia.
Qed.

Lemma gather_shorter g h lim w b fin k evs w' p evs' :
  gather g h lim w b fin k evs = Took w' p evs' -> (length evs' <= length evs)%nat.
Proof.
  revert w b fin k evs. induction g as [| g IH]; intros w b fin k evs; cbn [gather]; (destruct (_ <? k); [done |]);
    destruct (take_data (Z.to_nat k) evs) as [[data evs1] |] eqn:Et; try done; apply take_data_shorter in Et;
    destruct fin; try done; try (intros [= _ _ <-]; done).
  destruct (to_frame h w evs1) as [w1 [[[fin op] rsv] k1] evs2 | | |] eqn:Ef; try done. apply to_frame_shorter in Ef.
  intros E%IH. lia.
Qed.

(** What assembling the rest of a message comes to. *)
Definition message_done c (sp : spec) (e : error) (s' : script) (n : nat) (t : took (list Z))
    (res : option (conn * result (list Z))) : Prop :=
  match t with
  | Took w p evs => exists c', res = Some (c', Ok p) /\ progress c c' /\ wr c' = w /\ expects c' sp evs e s' n /\
      Rx.remaining (rx c') = 0 /\ Rx.MessageOpen (rx c') = false /\ Rx.compressed (rx c') = Rx.compressed (rx c) /\
      Rx.compression (rx c') = Rx.compression (rx c)
  | Stopped w x => exists c', res = Some (over c' x, Err x) /\ progress c c' /\ wr c' = w
  | Starved w => exists c', res = Some (c', Err (ended (rx c') e)) /\ progress c c' /\ wr c' = w /\ incoming c' = s'
  | Hangs => res = None
  end.

Lemma message_more c c1 sp e s' n t res :
  progress c c1 -> Rx.compressed (rx c1) = Rx.compressed (rx c) -> Rx.compression (rx c1) = Rx.compression (rx c) ->
  message_done c1 sp e s' n t res -> message_done c sp e s' n t res.
Proof.
  intros Hre Hc Hc'. destruct t as [w p evs | w x | w |]; cbn; [| | | done].
  - intros (c' & X1 & X2 & X3 & X4 & X5 & X6 & X7 & X8). exists c'.
    split; [done |]. split; [exact (progress_trans _ _ _ Hre X2) |]. split_and!; try done; congruence.
  - intros (c' & X1 & X2 & X3). exists c'. split; [done |]. split; [exact (progress_trans _ _ _ Hre X2) | done].
  - intros (c' & X1 & X2 & X3 & X4). exists c'. split; [done |]. split; [exact (progress_trans _ _ _ Hre X2) | done].
Qed.

Lemma assemble_loop_post fuel fuel' g c sp evs e s' n b cap :
  expects c sp evs e s' n -> at_payload (rx c) -> Rx.remaining (rx c) = Hdr.PayloadLen (Rx.header (rx c)) ->
  held c b -> (length evs + n < fuel)%nat -> (length evs < fuel')%nat -> (length evs < g)%nat ->
  limit c < 2 ^ 63 -> len b <= limit c ->
  message_done c sp e s' n
    (gather g (hd c) (limit c) (wr c) b (Hdr.Final (Rx.header (rx c))) (Rx.remaining (rx c)) evs)
    (assemble_loop fuel fuel' (b, cap) c).
Proof.
  revert g c evs b cap. induction fuel' as [| fuel' IH]; intros g c evs b cap He Hat Hh0 Hh Hf Hf' Hg Hlim Hb; [lia |].
  destruct g as [| g]; [lia |]. cbn [assemble_loop gather].
  rewrite bind_get, bind_get. cbn [fst]. rewrite <- Hh0.
  pose proof (len_nonneg b). unfold u64. rewrite (Z.mod_small (limit c - len b)) by lia.
  destruct (Z.ltb_spec (limit c - len b) (Rx.remaining (rx c))) as [Hbig | Hfit].
  { rewrite fail_over. cbn [message_done]. eexists. split; [done |]. split; [| done].
    by eexists (rx c), (incoming c), _, (msg c), (msgHint c), (draws c). }
  pose proof (frame_payload_post fuel c sp evs e s' n b cap He Hat Hh Hf) as Hp. unfold frame_done in Hp.
  pose proof (live_remaining _ (proj1 He)) as Hrem.
  destruct (take_data (Z.to_nat (Rx.remaining (rx c))) evs) as [[data evs'] |] eqn:Et.
  2: { destruct Hp as (c' & E & X1 & X2 & X3). rewrite (bind_err _ _ _ _ _ E). by exists c'. }
  destruct Hp as (c' & x & E & X1 & X2 & X3 & X4 & X5 & X6 & X7 & X8). rewrite (bind_ok _ _ _ _ _ E). cbv beta.
  assert (Rx.MessageOpen (rx c') = negb (Hdr.Final (Rx.header (rx c)))) as Hopen.
  { unfold Rx.MessageOpen. unfold at_payload in X6. rewrite X6, X5, (inframe_header _ _ X4). done. }
  assert (len data = Rx.remaining (rx c)) as Hld.
  { unfold len. rewrite (take_data_length _ _ _ _ Et). lia. }
  destruct (progress_same _ _ X1) as (Ehd & Elim & _).
  destruct x as [ck | [b' cap']].
  - destruct X8 as (-> & -> & Ho). rewrite Hopen in Ho. apply negb_false_iff in Ho. rewrite Ho.
    cbn [message_done app]. exists c'. split; [done |]. split; [done |]. split; [done |]. split; [done |]. split; [done |].
    split; [by rewrite Hopen, Ho | split; apply X4].
  - destruct X8 as [-> Hh']. rewrite bind_get, Hopen, negb_involutive.
    destruct (Hdr.Final (Rx.header (rx c))) eqn:Efin.
    + rewrite bind_put. cbn [message_done]. eexists. split; [done |].
      split; [eapply progress_trans; [exact X1 |]; by eexists (rx c'), (incoming c'), (wr c'), (msg c'), _, (draws c') |].
      split; [done |]. split; [done |]. split; [done |]. split; [exact Hopen | split; apply X4].
    + pose proof (nextFrame_post fuel c' sp evs' e s' n X3 X5 ltac:(lia)) as Hn. rewrite Ehd, X2 in Hn.
      destruct (to_frame (hd c) (wr c) evs') as [w [[[fin op] rsv] k] evs1 | w x | w |]; cbn [message_done].
      * destruct Hn as (r & s1 & E1 & Y1 & Y2 & Y3 & Y4 & Y5). rewrite (bind_ok _ _ _ _ _ E1).
        destruct Y3 as (Z1 & Z2 & Z3 & Z4 & Z5).
        assert (Rx.compressed r = Rx.compressed (rx c')) as Ec.
        { rewrite Z3, Z2. unfold Rx.MessageOpen in Hopen. by apply negb_true_iff in Hopen as ->. }
        injection Y2 as <- _ _ <-. rewrite <- Z1.
        eapply (message_more _ (moved c' r s1 w)).
        { eapply progress_trans; [exact X1 | apply progress_moved]. } { cbn [rx moved]. rewrite Ec. apply X4. }
        { cbn [rx moved]. rewrite Y4. apply X4. }
        rewrite <- Ehd, <- Elim.
        apply (IH g (moved c' r s1 w) evs1 (b ++ data) cap');
          [done | apply (header_at_payload (rx c')); by split_and! | done | done | lia | lia | lia | by rewrite <- Elim in Hlim |].
        rewrite len_app, Hld. cbn [limit moved]. rewrite Elim. lia.
      * destruct Hn as (r & s1 & E1). rewrite (bind_err _ _ _ _ _ E1). exists (moved c' r s1 w). split; [done |].
        split; [eapply progress_trans; [exact X1 | apply progress_moved] | done].
      * destruct Hn as (r & E1 & _). rewrite (bind_err _ _ _ _ _ E1). exists (moved c' r s' w). split; [done |].
        split; [eapply progress_trans; [exact X1 | apply progress_moved] | done].
      * by rewrite (bind_hang _ _ _ Hn).
Qed.

(** ** From between messages *)

(** What [NextMessage] gives back before it waits for a frame. *)
Definition freed c : conn :=
  match dec c with
  | None => c
  | Some d =>
      let '(_, h) := if large c then Dz.ReleaseOutput d (mem c) else Dz.Reset d (mem c) in
      {| c with dec := None; large := false; mem := h |}
  end.

Definition waiting c : conn :=
  let c := {| c with dstreaming := false |} in
  let c := freed c in
  {| c with msg := None |}.

Definition entered c : conn := {| c with inMessage := true |}.

Lemma freed_same c :
  let c' := freed c in
  wr c' = wr c /\ handler c' = handler c /\ limit c' = limit c /\ validateUTF8 c' = validateUTF8 c /\ rx c' = rx c /\
  bufLen c' = bufLen c /\ readErr c' = readErr c /\ rwindow c' = rwindow c /\ incoming c' = incoming c /\ inMessage c' = inMessage c.
Proof.
  unfold freed. destruct (dec c); [| by split_and!]. cbv zeta.
  destruct (if large c then _ else _) as [d' h]. by split_and!.
Qed.

Lemma waiting_same c :
  let c' := waiting c in
  wr c' = wr c /\ handler c' = handler c /\ limit c' = limit c /\ validateUTF8 c' = validateUTF8 c /\ rx c' = rx c /\
  bufLen c' = bufLen c /\ readErr c' = readErr c /\ rwindow c' = rwindow c /\ incoming c' = incoming c /\ inMessage c' = inMessage c.
Proof. apply (freed_same {| c with dstreaming := false |}). Qed.

Lemma NextMessage_waiting fuel c :
  (0 < fuel)%nat -> readErr c = None -> inMessage c = false ->
  NextMessage fuel c = bind (nextFrame fuel) (fun _ =>
    bind (put entered) (fun _ => get (fun c => Hdr.Opcode (Rx.header (rx c))))) (waiting c).
Proof.
  intros Hf He Hi. destruct fuel as [| fuel]; [lia |]. unfold NextMessage. rewrite bind_get, He.
  assert (discard (S fuel) c = Some ({| c with dstreaming := false |}, Ok tt)) as Ed.
  { unfold discard. rewrite bind_get, Hi. cbn [andb]. rewrite bind_pure, bind_put. cbn [skip]. rewrite bind_get.
    change (inMessage {| c with dstreaming := false |}) with (inMessage c). by rewrite Hi. }
  rewrite (bind_ok _ _ _ _ _ Ed). cbv beta. unfold releaseDecompressor, releaseMsg. by rewrite !bind_put.
Qed.

(** Between messages, with nothing wrong. *)
Definition between c : Prop :=
  readErr c = None /\ inMessage c = false /\ Rx.remaining (rx c) = 0 /\ Rx.MessageOpen (rx c) = false /\
  0 <= limit c < 2 ^ 63.

(** A whole message as it is on the wire, for [finishMessage] to finish. *)
Lemma ReadMessage_raw fuel c sp evs e s' n :
  between c -> expects c sp evs e s' n -> (length evs + n < fuel)%nat ->
  let c0 := waiting c in
  match raw_read (hd c) (limit c) (wr c) evs with
  | Took w (op, rsv, p) evs' => exists c', ReadMessage fuel c = finishMessage fuel op p c' /\
      progress (entered c0) c' /\ wr c' = w /\ expects c' sp evs' e s' n /\ Rx.remaining (rx c') = 0 /\
      Rx.MessageOpen (rx c') = false /\ Rx.MessageCompressed (rx c') = rsv /\ (length evs' < length evs)%nat /\
      Rx.compression (rx c') = Rx.compression (rx c) /\ (rsv = true -> Rx.compression (rx c) = true)
  | Stopped w x => exists c', ReadMessage fuel c = Some (over c' x, Err x) /\ wr c' = w /\
      (progress c0 c' \/ progress (entered c0) c')
  | Starved w => exists c', ReadMessage fuel c = Some (c', Err (ended (rx c') e)) /\ wr c' = w /\ incoming c' = s' /\
      (progress c0 c' \/ progress (entered c0) c')
  | Hangs => ReadMessage fuel c = None
  end.
Proof.
  intros (Hre & Him & Hrm & Hmo & Hlim) He Hf c0. unfold ReadMessage, raw_read.
  destruct (waiting_same c) as (S1 & S2 & S3 & S4 & S5 & S6 & S7 & S8 & S9 & S10). fold c0 in S1, S2, S3, S4, S5, S6, S7, S8, S9, S10.
  assert (expects c0 sp evs e s' n) as He0.
  { destruct He as (E1 & E2 & E3 & b & E4 & E5 & E6). apply (expects_intro _ b); by rewrite ?S5, ?S6, ?S9. }
  assert (Rx.remaining (rx c0) = 0) as Hr0 by (by rewrite S5).
  pose proof (nextFrame_post fuel c0 sp evs e s' n He0 Hr0 Hf) as Hn.
  assert (hd c0 = hd c) as Eh by (unfold hd; by rewrite S2). rewrite Eh, S1 in Hn.
  pose proof (NextMessage_waiting fuel c ltac:(lia) Hre Him) as En. fold c0 in En.
  destruct (to_frame (hd c) (wr c) evs) as [w [[[fin op] rsv] k] evs1 | w x | w |].
  - destruct Hn as (r & s1 & E1 & Y1 & Y2 & Y3 & Y4 & Y5). rewrite (bind_ok _ _ _ _ _ E1), bind_put in En.
    cbv beta in En. set (c1 := entered (moved c0 r s1 w)) in *.
    assert (NextMessage fuel c = Some (c1, Ok op)) as En' by (rewrite En; injection Y2 as _ <- _ _; done).
    rewrite (bind_ok _ _ _ _ _ En'). pose proof (header_at_payload _ _ Y3) as Hat.
    destruct Y3 as (Z1 & Z2 & Z3 & Z4 & Z5).
    assert (Rx.compressed r = rsv) as Erc.
    { rewrite Z3, Z2, S5. unfold Rx.MessageOpen in Hmo. apply negb_false_iff in Hmo as ->. by injection Y2. }
    injection Y2 as <- _ Hrs <-. rewrite <- Z1.
    pose proof (assemble_loop_post fuel fuel (S (length evs1)) c1 sp evs1 e s' n [] 0 Y1 Hat Z1 ltac:(by intros []) ltac:(lia)
      ltac:(lia) ltac:(lia)) as Ha.
    change (limit c1) with (limit c0) in Ha. change (hd c1) with (hd c0) in Ha. change (wr c1) with w in Ha.
    change (rx c1) with r in Ha. rewrite S3, Eh in Ha. specialize (Ha ltac:(lia) ltac:(rewrite len_nil; lia)).
    unfold assemble. unfold message_done in Ha.
    assert (progress (entered c0) c1) as Hpr by (by exists r, s1, w, (msg c0), (msgHint c0), (draws c0)).
    destruct (gather _ _ _ _ _ _ _ _) as [w2 p evs2 | w2 x | w2 |] eqn:Eg.
    + destruct Ha as (c' & E2 & X1 & X2 & X3 & X4 & X5 & X6 & X7). rewrite (bind_ok _ _ _ _ _ E2). exists c'.
      split; [done |]. split; [exact (progress_trans _ _ _ Hpr X1) |]. split; [done |]. split; [done |]. split; [done |].
      split; [done |]. split; [by unfold Rx.MessageCompressed; rewrite X6 |].
      apply gather_shorter in Eg. split; [lia |]. split; [by rewrite X7, <- S5 |].
      rewrite <- S5. intros ->. by apply Z5.
    + destruct Ha as (c' & E2 & X1 & X2). rewrite (bind_err _ _ _ _ _ E2). exists c'. split; [done |]. split; [done |].
      right. exact (progress_trans _ _ _ Hpr X1).
    + destruct Ha as (c' & E2 & X1 & X2 & X3). rewrite (bind_err _ _ _ _ _ E2). exists c'. split; [done |]. split; [done |].
      split; [done |]. right. exact (progress_trans _ _ _ Hpr X1).
    + by rewrite (bind_hang _ _ _ Ha).
  - destruct Hn as (r & s1 & E1). rewrite (bind_err _ _ _ _ _ E1) in En. rewrite (bind_err _ _ _ _ _ En).
    exists (moved c0 r s1 w). split; [done |]. split; [done |]. left. apply progress_moved.
  - destruct Hn as (r & E1 & _). rewrite (bind_err _ _ _ _ _ E1) in En. rewrite (bind_err _ _ _ _ _ En).
    exists (moved c0 r s' w). split; [done |]. split; [done |]. split; [done |]. left. apply progress_moved.
  - rewrite (bind_hang _ _ _ Hn) in En. by rewrite (bind_hang _ _ _ En).
Qed.
End assembling.
