(* ===== verification/Upgrade.v ===== *)
(** * The opening handshake over HTTP (transport/serve.go, transport/upgrade.go)

    The server's side from the bytes of a request to the connection handed to
    the handler: [bufio.Reader] over what the transport's reads give, the
    request parser, the replies, and [bufferedConn], which gives the bytes read
    past the request before the transport's.

    The accept loop is [Listen]'s; deadlines and the handler's goroutine are not
    modelled; which transport errors are [net.Error]s is the parameter [net_error]. *)

From stdpp Require Import prelude gmap strings.
From S2P Require Import Prelude Errors Strings Sha1 Handshake ConnRead.

Definition crlf : list Z := [13; 10].

Module Up.

(** ** [bufio.Reader] *)

Definition bufSize : Z := Z.shiftl 4 10.

(** [pending]: read and not yet given; [rerr] an error to report once it is;
    [src] what the transport's reads will give. *)
Record breader := mkReader { pending : list Z; rerr : option error; src : script }.

Definition newReader (s : script) : breader := {| pending := []; rerr := None; src := s |}.

Fixpoint fill (tries : nat) (r : breader) : breader :=
  match tries with
  | O => {| r with rerr := Some (Io ErrNoProgress) |}
  | S tries =>
      let '(s, (d, e)) := Cr.transport_read (src r) (bufSize - len (pending r)) in
      let r := {| r with pending := pending r ++ d; src := s |} in
      match e with
      | Some _ => {| r with rerr := e |}
      | None => if len d =? 0 then fill tries r else r
      end
  end.

Inductive slice_error := BufferFull | ReadFailed (e : error).

(** [ReadSlice('\n')]: each turn but the last reads at least a byte. *)
Fixpoint ReadSlice (fuel : nat) (r : breader) : option (breader * list Z * option slice_error) :=
  match fuel with
  | O => None
  | S fuel =>
      match cut 10 (pending r) with
      | (line, rest, true) => Some ({| r with pending := rest |}, line ++ [10], None)
      | (_, _, false) =>
          match rerr r with
          | Some e => Some ({| r with pending := []; rerr := None |}, pending r, Some (ReadFailed e))
          | None =>
              if bufSize <=? len (pending r) then Some ({| r with pending := [] |}, pending r, Some BufferFull)
              else ReadSlice fuel (fill 100 r)
          end
      end
  end.

(** ** The request *)

(** The errors of [readRequest]; [Failed] is one of the transport's. *)
Inductive parse_error := errHeadTooLarge | errBadRequestLine | errBadHeaderLine | Failed (e : error).

Definition readLine (fuel : nat) (r : breader) (limit : Z) : option (breader * Z * (list Z + parse_error)) :=
  '(r, line, err) ← ReadSlice fuel r;
  Some match err with
       | Some BufferFull => (r, limit, inr errHeadTooLarge)
       | Some (ReadFailed e) => (r, limit, inr (Failed (if bool_decide (e = Io EOF) then Io ErrUnexpectedEOF else e)))
       | None =>
           let limit := limit - len line in
           if limit <? 0 then (r, limit, inr errHeadTooLarge)
           else (r, limit, inl (trim_right [[13]; [10]] line))
       end.

Definition canonical_step (st : list Z * bool) (c : Z) : list Z * bool :=
  let '(b, upper) := st in
  let c' := if upper && (97 <=? c) && (c <=? 122) then c - 97 + 65
            else if negb upper && (65 <=? c) && (c <=? 90) then c - 65 + 97
            else c in
  (b ++ [c'], c =? 45).

Definition canonicalHeader (name : list Z) : list Z := (foldl canonical_step ([], true) name).1.

Record Request := mkRequest {
  Method : list Z; Path : list Z; Host : list Z; Header : gmap (list Z) (list Z)
}.

(** What one header line adds to the request. *)
Definition addHeader (req : Request) (name value : list Z) : Request :=
  let name := canonicalHeader name in
  let value := TrimSpace value in
  if bool_decide (name = str "Host") then {| req with Host := value |}
  else
    let value := match Header req !! name with Some prev => prev ++ str ", " ++ value | None => value end in
    {| req with Header := <[name := value]> (Header req) |}.

Fixpoint readHeaders (fuel line_fuel : nat) (r : breader) (limit : Z) (req : Request)
    : option (breader * (Request + parse_error)) :=
  match fuel with
  | O => None
  | S fuel =>
      '(r, limit, line) ← readLine line_fuel r limit;
      match line with
      | inr e => Some (r, inr e)
      | inl [] => Some (r, inl req)
      | inl line =>
          let '(name, value, ok) := cut 58 line in
          if negb ok || bool_decide (name = []) || existsb (fun b => (b =? 32) || (b =? 9)) name
          then Some (r, inr errBadHeaderLine)
          else readHeaders fuel line_fuel r limit (addHeader req name value)
      end
  end.

Definition readRequest (fuel line_fuel : nat) (r : breader) (limit : Z) : option (breader * (Request + parse_error)) :=
  '(r, limit, line) ← readLine line_fuel r limit;
  match line with
  | inr e => Some (r, inr e)
  | inl line =>
      let '(method, rest, ok) := cut 32 line in
      let '(path, version, ok2) := cut 32 rest in
      if negb ok || negb ok2 || bool_decide (method = []) || bool_decide (path = [])
         || negb (bool_decide (version = str "HTTP/1.1"))
      then Some (r, inr errBadRequestLine)
      else readHeaders fuel line_fuel r limit {| Method := method; Path := path; Host := []; Header := ∅ |}
  end.

(** ** Replies *)

Definition responseBytes (resp : Hs.Response) : list Z :=
  let b := str "HTTP/1.1 101 Switching Protocols" ++ crlf ++ str "Upgrade: websocket" ++ crlf
           ++ str "Connection: Upgrade" ++ crlf ++ str "Sec-WebSocket-Accept: " in
  let b := b ++ Hs.pAccept resp ++ crlf in
  let b := if bool_decide (Hs.pExtensions resp = []) then b
           else b ++ str "Sec-WebSocket-Extensions: " ++ Hs.pExtensions resp ++ crlf in
  let b := if bool_decide (Hs.pProtocol resp = []) then b
           else b ++ str "Sec-WebSocket-Protocol: " ++ Hs.pProtocol resp ++ crlf in
  b ++ crlf.

Definition statusText (status : Z) : list Z :=
  if status =? 400 then str "Bad Request"
  else if status =? 403 then str "Forbidden"
  else if status =? 404 then str "Not Found"
  else if status =? 426 then str "Upgrade Required"
  else if status =? 431 then str "Request Header Fields Too Large"
  else str "Error".

(** What [writeErrorWith] writes. *)
Definition errorBytes (status : Z) (msg extra : list Z) : list Z :=
  let msg := if bool_decide (msg = []) then statusText status else msg in
  str "HTTP/1.1 " ++ Itoa status ++ str " " ++ statusText status ++ crlf ++ extra
  ++ str "Content-Type: text/plain; charset=utf-8" ++ crlf ++ str "Content-Length: " ++ Itoa (len msg + 1)
  ++ crlf ++ str "Connection: close" ++ crlf ++ crlf ++ msg ++ [10].

(** [err.Error()] of the errors of package handshake, the only ones
    [Negotiate] gives ([Negotiate_errors]). *)
Definition error_text (err : error) : list Z :=
  match err with
  | Handshake ErrNotWebSocket => str "ews/handshake: not a WebSocket upgrade"
  | Handshake ErrBadVersion => str "ews/handshake: unsupported WebSocket version"
  | Handshake ErrBadKey => str "ews/handshake: invalid Sec-WebSocket-Key"
  | Handshake ErrBadExtension => str "ews/handshake: invalid Sec-WebSocket-Extensions"
  | Handshake ErrBadAccept => str "ews/handshake: Sec-WebSocket-Accept mismatch"
  | Handshake ErrBadStatus => str "ews/handshake: unexpected response status"
  | Handshake ErrBadProtocol => str "ews/handshake: unexpected subprotocol"
  | Handshake ErrInvalidOptions => str "ews/handshake: invalid options"
  | _ => []
  end.

(** ** The connection handed over *)

(** [bufferedConn]: [held] is what its reader has buffered, [None] once the
    reader has been dropped (or never was). *)
Record conn := mkConn { held : option (list Z); socket : script }.

Definition Read (c : conn) (n : Z) : conn * (list Z * option error) :=
  match held c with
  | Some b =>
      if len b =? 0 then
        let '(s, x) := Cr.transport_read (socket c) n in ({| held := None; socket := s |}, x)
      else
        let m := Z.min n (len b) in ({| c with held := Some (from b m) |}, (upto b m, None))
  | None => let '(s, x) := Cr.transport_read (socket c) n in ({| c with socket := s |}, x)
  end.

(** [c = conn], or [&bufferedConn{conn, br}] when there is something buffered. *)
Definition handOver (r : breader) : conn :=
  if len (pending r) =? 0 then {| held := None; socket := src r |}
  else {| held := Some (pending r); socket := src r |}.

(** ** [Server.serve] *)

(** [sAccept] is the [Accept] hook. *)
Record Server := mkServer { sHandshake : Hs.Options; sMaxHeaderBytes : Z; sAccept : option (Request -> Z) }.

Definition maxHeaderBytes (s : Server) : Z :=
  if 0 <? sMaxHeaderBytes s then sMaxHeaderBytes s else Z.shiftl 8 10.

(** The replies written (or tried), and what the handler is called with if it is; in
    every other case the connection has been closed. *)
Record outcome := mkOutcome { written : list (list Z); handed : option (conn * Hs.Result * Request) }.

Section serve.
Context (net_error : Z -> bool).

Definition isNetErr (err : error) : bool :=
  match err with Io EOF | Io ErrUnexpectedEOF => true | Other n => net_error n | _ => false end.

Definition refuse (status : Z) (msg extra : list Z) : outcome :=
  {| written := [errorBytes status msg extra]; handed := None |}.

Definition handshake_request (req : Request) : Hs.Request :=
  let h name := default [] (Header req !! str name) in
  {| Hs.Method := Method req; Hs.qUpgrade := h "Upgrade"; Hs.qConnection := h "Connection";
     Hs.qVersion := h "Sec-Websocket-Version"; Hs.Key := h "Sec-Websocket-Key";
     Hs.qExtensions := h "Sec-Websocket-Extensions"; Hs.qProtocols := h "Sec-Websocket-Protocol" |}.

(** [sends] is what writing the response to the transport returns. *)
Definition serve (fuel line_fuel : nat) (s : Server) (incoming : script) (sends : option error) : option outcome :=
  '(r, req) ← readRequest fuel line_fuel (newReader incoming) (maxHeaderBytes s);
  Some match req with
       | inr errHeadTooLarge => refuse 431 (str "request head too large") []
       | inr (Failed e) =>
           if isNetErr e then {| written := []; handed := None |} else refuse 400 (str "malformed request") []
       | inr _ => refuse 400 (str "malformed request") []
       | inl req =>
           let status := match sAccept s with Some f => f req | None => 0 end in
           if negb (status =? 0) then refuse status [] []
           else
             match Hs.Negotiate (handshake_request req) (sHandshake s) with
             | Err err =>
                 let status := Hs.StatusCode err in
                 let extra := if status =? 426 then str "Sec-WebSocket-Version: " ++ Hs.Version ++ crlf else [] in
                 refuse status (error_text err) extra
             | Ok (resp, res) =>
                 {| written := [responseBytes resp];
                    handed := match sends with Some _ => None | None => Some (handOver r, res, req) end |}
             end
       end.

End serve.

(** ** [Upgrade] (transport/upgrade.go)

    The request is its method and header, names canonical; [extra] the header
    set on the [http.ResponseWriter], in the order its map is ranged over;
    [hijack] what [Hijack] returns, if there is a [Hijacker]: an error with its
    text, or the connection with its buffered reader. *)

Definition reserved (name : list Z) : bool :=
  let l := ToLower name in
  bool_decide (l = str "upgrade") || bool_decide (l = str "connection") || bool_decide (l = str "content-length")
  || bool_decide (l = str "transfer-encoding") || bool_decide (l = str "content-type")
  || bool_decide (is_Some (strip_prefix (str "sec-websocket-") l)).

Inductive upgrade_error := Refused (e : error) | ErrNotHijackable | HijackFailed (e : error) | WriteFailed (e : error).

(** [http.Error], with the version header set or not, or bytes on the
    hijacked connection. *)
Inductive reply := HttpError (status : Z) (msg : list Z) (version : bool) | Raw (b : list Z).

Definition http_header : Type := gmap (list Z) (list (list Z)).

Definition Get (h : http_header) (name : string) : list Z := default [] (h !! str name ≫= head).
Definition Values (h : http_header) (name : string) : list (list Z) := default [] (h !! str name).

Definition upgrade_request (method : list Z) (h : http_header) : Hs.Request :=
  {| Hs.Method := method; Hs.qUpgrade := Get h "Upgrade"; Hs.qConnection := join (str ", ") (Values h "Connection");
     Hs.qVersion := Get h "Sec-Websocket-Version"; Hs.Key := Get h "Sec-Websocket-Key";
     Hs.qExtensions := join (str ", ") (Values h "Sec-Websocket-Extensions");
     Hs.qProtocols := join (str ", ") (Values h "Sec-Websocket-Protocol") |}.

Definition upgradeBytes (resp : Hs.Response) (extra : list (list Z * list (list Z))) : list Z :=
  let b := str "HTTP/1.1 101 Switching Protocols" ++ crlf ++ str "Upgrade: websocket" ++ crlf
           ++ str "Connection: Upgrade" ++ crlf ++ str "Sec-WebSocket-Accept: " in
  let b := b ++ Hs.pAccept resp ++ crlf in
  let b := if bool_decide (Hs.pExtensions resp = []) then b
           else b ++ str "Sec-WebSocket-Extensions: " ++ Hs.pExtensions resp ++ crlf in
  let b := if bool_decide (Hs.pProtocol resp = []) then b
           else b ++ str "Sec-WebSocket-Protocol: " ++ Hs.pProtocol resp ++ crlf in
  let line name v := name ++ str ": " ++ v ++ crlf in
  b ++ concat ((fun '(name, values) => if reserved name then [] else concat (line name <$> values)) <$> extra) ++ crlf.

Definition Upgrade (method : list Z) (h : http_header) (extra : list (list Z * list (list Z)))
    (hijack : option (error * list Z + breader)) (sends : option error) (opts : Hs.Options)
    : reply * (conn * Hs.Result + upgrade_error) :=
  match Hs.Negotiate (upgrade_request method h) opts with
  | Err err =>
      let status := Hs.StatusCode err in
      (HttpError status (error_text err) (status =? 426), inr (Refused err))
  | Ok (resp, res) =>
      match hijack with
      | None => (HttpError 500 (str "ews: response writer does not support hijacking") false, inr ErrNotHijackable)
      | Some (inl (err, text)) => (HttpError 500 text false, inr (HijackFailed err))
      | Some (inr r) =>
          (Raw (upgradeBytes resp extra),
           match sends with Some e => inr (WriteFailed e) | None => inl (handOver r, res) end)
      end
  end.
End Up.

Import Up.

(** ** Lemmas: lines *)

(** A line's text: no line break in it. *)
Definition text (l : list Z) : Prop := (10 ∉ l) /\ (13 ∉ l).

Lemma text_app l k : text (l ++ k) <-> text l /\ text k.
Proof. unfold text. rewrite !not_elem_of_app. tauto. Qed.

Lemma trim_crlf l : text l -> trim_right [[13]; [10]] (l ++ crlf) = l.
Proof.
  intros [H1 H2]. unfold trim_right, trim_left. rewrite reverse_app. change (reverse crlf) with [10; 13].
  change (@reverse Z <$> [[13]; [10]]) with [[13]; [10]]. cbn [app length strip_all strip_one strip_prefix Z.eqb Pos.eqb].
  enough (forall fuel, strip_all fuel [[13]; [10]] (reverse l) = reverse l) as E by (rewrite E; apply reverse_involutive).
  intros fuel. destruct fuel; [done |]. cbn [strip_all]. destruct (reverse l) as [| b k] eqn:E; [done |].
  assert (b ∈ l) as Hb by (rewrite <- elem_of_reverse, E; left). cbn [strip_one strip_prefix].
  destruct (Z.eqb_spec 13 b); [by subst |]. by destruct (Z.eqb_spec 10 b); [subst |].
Qed.

(** [Negotiate] fails with the errors of package handshake only. *)
Lemma Negotiate_errors req opts e : Hs.Negotiate req opts = Err e -> exists x, e = Handshake x.
Proof.
  assert (forall ps x, Hs.parseParams ps = Err x -> exists y, x = Handshake y) as Hpp.
  { intros ps. induction ps as [| p ps IH]; intros x; cbn [Hs.parseParams]; [done |].
    repeat case_match; intros; simplify_eq; eauto. }
  assert (forall os x, Hs.parseOffers os = Err x -> exists y, x = Handshake y) as Hpo.
  { intros os. induction os as [| o os IH]; intros x; cbn [Hs.parseOffers]; [done |].
    repeat case_match; intros; simplify_eq; eauto. }
  unfold Hs.Negotiate, Hs.validOptions, Hs.parseExtensions.
  repeat case_match; intros; simplify_eq; eauto.
Qed.
