(* ===== verification/Dial.v ===== *)
(** * The client's opening handshake (transport/dial.go)

    [Dial] from the URL to the connection.  What the standard library's calls
    give back is [network]: the URL parsed, the TCP and TLS connections as what
    their reads will give, what [http.ReadResponse] makes of the reader; what
    the code makes of it is modelled: the scheme, the address dialed, the
    header sent, the verdict on the response, and what becomes of the socket. *)

From stdpp Require Import prelude gmap strings.
From S2P Require Import Prelude Errors Strings Sha1 Handshake ConnRead Upgrade.

Import Up.

Module Dl.

(** ** The address (net/url, net) *)

Record URL := mkURL { Scheme : list Z; uHost : list Z; RequestURI : list Z }.

(** Around the last [sep]. *)
Definition split_last (sep : Z) (l : list Z) : option (list Z * list Z) :=
  match cut sep (reverse l) with
  | (after, before, true) => Some (reverse before, reverse after)
  | _ => None
  end.

(** [net.SplitHostPort]; [None] is an error. *)
Definition SplitHostPort (hostport : list Z) : option (list Z * list Z) :=
  match split_last 58 hostport with
  | None => None
  | Some (before, port) =>
      let bracketed := match hostport with b :: _ => b =? 91 | [] => false end in
      let '(inside, _, closed) := cut 93 hostport in
      if bracketed && (negb closed || negb (len inside + 1 =? len before)) then None
      else
        let host := if bracketed then from inside 1 else before in
        let '(j, k) := if bracketed then (1, len inside + 1) else (0, 0) in
        if negb bracketed && bool_decide (58 ∈ host) then None
        else if bool_decide (91 ∈ from hostport j) || bool_decide (93 ∈ from hostport k) then None
        else Some (host, port)
  end.

(** [URL.Hostname]: without a numeric port and without brackets. *)
Definition Hostname (host : list Z) : list Z :=
  let host :=
    match split_last 58 host with
    | Some (before, port) => if forallb (fun b => (48 <=? b) && (b <=? 57)) port then before else host
    | None => host
    end in
  match host, last host with
  | 91 :: rest, Some 93 => upto rest (len rest - 1)
  | _, _ => host
  end.

Definition JoinHostPort (host port : list Z) : list Z :=
  if bool_decide (58 ∈ host) || bool_decide (37 ∈ host) then [91] ++ host ++ str "]:" ++ port
  else host ++ [58] ++ port.

Definition address (useTLS : bool) (host : list Z) : list Z :=
  match SplitHostPort host with
  | Some _ => host
  | None => JoinHostPort (Hostname host) (if useTLS then str "443" else str "80")
  end.

(** The scheme's meaning: over TLS or not. *)
Definition scheme_tls (scheme : list Z) : option bool :=
  if bool_decide (scheme = str "ws") || bool_decide (scheme = str "http") then Some false
  else if bool_decide (scheme = str "wss") || bool_decide (scheme = str "https") then Some true
  else None.

(** ** The header *)

(** The bytes of a header name ([net/textproto]). *)
Definition token_char (b : Z) : bool :=
  ((48 <=? b) && (b <=? 57)) || ((65 <=? b) && (b <=? 90)) || ((97 <=? b) && (b <=? 122))
  || bool_decide (b ∈ str "!#$%&'*+-.^_`|~").

(** [http.CanonicalHeaderKey] *)
Definition CanonicalHeaderKey (name : list Z) : list Z :=
  if forallb token_char name then canonicalHeader name else name.

(** The request's header: the caller's, in the order its map is ranged over,
    then the handshake's. *)
Definition requestHeader (hreq : Hs.Request) (extra : list (list Z * list (list Z))) : http_header :=
  let h := foldl (fun (h : http_header) '(k, v) => <[CanonicalHeaderKey k := v]> h) ∅ extra in
  let h := <[str "Upgrade" := [Hs.qUpgrade hreq]]> h in
  let h := <[str "Connection" := [Hs.qConnection hreq]]> h in
  let h := <[str "Sec-Websocket-Version" := [Hs.qVersion hreq]]> h in
  let h := <[str "Sec-Websocket-Key" := [Hs.Key hreq]]> h in
  let h := delete (str "Sec-Websocket-Extensions") h in
  let h := delete (str "Sec-Websocket-Protocol") h in
  let h := if bool_decide (Hs.qExtensions hreq = []) then h
           else <[str "Sec-Websocket-Extensions" := [Hs.qExtensions hreq]]> h in
  if bool_decide (Hs.qProtocols hreq = []) then h
  else <[str "Sec-Websocket-Protocol" := [Hs.qProtocols hreq]]> h.

(** ** [Dial] *)

Record response := mkResponse { StatusCode : Z; rHeader : http_header }.

(** The fields [Confirm] is given. *)
Definition confirm_response (resp : response) : Hs.Response :=
  let get := Get (rHeader resp) in
  {| Hs.Status := StatusCode resp; Hs.pUpgrade := get "Upgrade"; Hs.pConnection := get "Connection";
     Hs.pAccept := get "Sec-Websocket-Accept"; Hs.pExtensions := get "Sec-Websocket-Extensions";
     Hs.pProtocol := get "Sec-Websocket-Protocol" |}.

(** [CallFailed] is an error of a call, as it is. *)
Inductive dial_error :=
  | CallFailed (e : error)
  | UnsupportedScheme (scheme : list Z)
  | HandshakeError (Status : Z) (Header : http_header) (Err : error).

(** [DialOptions]: the header in the order its map is ranged over, the server
    name of [TLSConfig]. *)
Record DialOptions := mkDialOptions {
  oHandshake : Hs.Options; oHeader : list (list Z * list (list Z)); ServerName : list Z
}.

(** What the standard library's calls return; [ctxErr] is [ctx.Err()] once one
    of them has failed. *)
Record network := mkNetwork {
  Parse : URL + error;
  DialContext : list Z -> script + error;
  TLSHandshake : list Z -> script -> script + error;
  NewRequestWithContext : option error;
  Write : option error;
  ReadResponse : breader -> breader * (response + error);
  ctxErr : option error
}.

(** What was dialed, under what name TLS was asked for, the request sent, and
    whether the socket has been closed. *)
Record dialed := mkDialed {
  dialedTo : option (list Z);
  tlsName : option (list Z);
  sent : option (list Z * list Z * http_header);
  shut : bool;
  outcome : (Up.conn * Hs.Result) + dial_error
}.

Definition refused (e : dial_error) : dialed :=
  {| dialedTo := None; tlsName := None; sent := None; shut := false; outcome := inr e |}.

Definition Dial (nw : network) (rnd : list Z) (opts : DialOptions) : dialed :=
  match Parse nw with
  | inr err => refused (CallFailed err)
  | inl u =>
      match scheme_tls (Scheme u) with
      | None => refused (UnsupportedScheme (Scheme u))
      | Some useTLS =>
          match Hs.NewRequest rnd (oHandshake opts) with
          | Err err => refused (CallFailed err)
          | Ok hreq =>
              let addr := address useTLS (uHost u) in
              match DialContext nw addr with
              | inr err => {| dialedTo := Some addr; tlsName := None; sent := None; shut := false; outcome := inr (CallFailed err) |}
              | inl s =>
                  let name := if bool_decide (ServerName opts = []) then Hostname (uHost u) else ServerName opts in
                  let d := {| dialedTo := Some addr; tlsName := if useTLS then Some name else None; sent := None;
                              shut := false; outcome := inr (CallFailed (Io EOF)) |} in
                  let fail (d : dialed) (err : dial_error) :=
                    {| d with shut := true;
                       outcome := inr (match ctxErr nw with Some e => CallFailed e | None => err end) |} in
                  match (if useTLS then TLSHandshake nw name s else inl s) with
                  | inr err => fail d (CallFailed err)
                  | inl s =>
                      match NewRequestWithContext nw with
                      | Some err => fail d (CallFailed err)
                      | None =>
                          let d := {| d with sent := Some (Hs.Method hreq, RequestURI u, requestHeader hreq (oHeader opts)) |} in
                          match Write nw with
                          | Some err => fail d (CallFailed err)
                          | None =>
                              match ReadResponse nw (newReader s) with
                              | (_, inr err) => fail d (CallFailed err)
                              | (r, inl resp) =>
                                  match Hs.Confirm hreq (confirm_response resp) (oHandshake opts) with
                                  | Err err => fail d (HandshakeError (StatusCode resp) (rHeader resp) err)
                                  | Ok res => {| d with outcome := inl (handOver r, res) |}
                                  end
                              end
                          end
                      end
                  end
              end
          end
      end
  end.

(** ** The deadline

    When the context ends during the handshake a goroutine of
    [context.AfterFunc] sets a deadline in the past; at the end [Dial] stops it
    and clears the deadline.  [stop] keeps the goroutine from starting, but does
    not wait for one that has. *)
Inductive after_func := Waiting | Started | Finished | Stopped.
Inductive counter := Confirmed | AfterStop | Returned.

Record deadlines := mkDeadlines { watcher : after_func; at_ : counter; expired : bool }.

Definition cancel (d : deadlines) : deadlines :=
  {| d with watcher := match watcher d with Waiting => Started | w => w end |}.

Inductive deadline_step : deadlines -> deadlines -> Prop :=
  | step_cancel d : deadline_step d (cancel d)
  | step_watcher d : watcher d = Started -> deadline_step d {| d with watcher := Finished; expired := true |}
  | step_stop d : at_ d = Confirmed ->
      deadline_step d {| d with watcher := match watcher d with Waiting => Stopped | w => w end; at_ := AfterStop |}
  | step_clear d : at_ d = AfterStop -> deadline_step d {| d with at_ := Returned; expired := false |}.

End Dl.

Import Dl.

Example addresses :
  address false (str "example.com") = str "example.com:80" /\ address true (str "example.com") = str "example.com:443" /\
  address true (str "example.com:8080") = str "example.com:8080" /\ address false (str "[::1]") = str "[::1]:80" /\
  address true (str "[fe80::1%eth0]:9") = str "[fe80::1%eth0]:9" /\ Hostname (str "[::1]:80") = str "::1".
Proof. vm_compute. done. Qed.

(** A context that ends as the handshake does can leave the connection [Dial]
    returns with its deadline in the past. *)
Lemma Dial_returns_expired :
  exists d, rtc deadline_step (mkDeadlines Waiting Confirmed false) d /\ at_ d = Returned /\ expired d = true.
Proof.
  exists (mkDeadlines Finished Returned true). split; [| done].
  eapply rtc_l; [apply step_cancel |]. eapply rtc_l; [by apply step_stop |].
  eapply rtc_l; [by apply step_clear |]. eapply rtc_l; [by apply step_watcher |]. apply rtc_refl.
Qed.
