(* ===== verification/Bounded.v ===== *)
(** * The read side, whatever the transport does

    A triple for the read side's computations: from a well-formed connection,
    over any transport, peer and handler, a call that returns leaves a
    well-formed one, and its result is of the shape its caller relies on.
    Errors keep the invariant too. *)

From stdpp Require Import prelude gmap.
From S2P Require Import Prelude Mask Errors Header Encoder Decoder Utf8 Close Receiver Stream Refine Pump Sender Bufpool Window Compressor Decompressor Stored Handshake Queue ConnCompress ConnWrite ConnRead Reading.

Import Cr.
#[local] Open Scope io_scope.

(** ** The receiver and the inflater *)

Section parts.
Context {M : Masker} `{!MaskerOk M}.

Lemma rx_remaining r : rx_ok r -> 0 <= Rx.remaining r < 2 ^ 63.
Proof.
  intros Hok. pose proof (ok_phase r Hok) as Hp. pose proof (ok_dec r Hok) as [_ Hd].
  destruct (Rx.failed r); [lia |]. destruct (Rx.closeReceived r); [lia |].
  destruct (Z.eqb_spec (Rx.remaining r) 0); [lia |]. cbn [negb] in Hp. destruct Hp as (<- & _). exact Hd.
Qed.

Lemma consumed_bytes r c f :
  bytes_ok (Rx.maskKey r) -> len (Rx.maskKey r) = 4 -> 0 <= Rx.maskOffset r < 4 -> bytes_ok c ->
  bytes_ok (Rx.consumed r c f).2.1.1.
Proof.
  intros Hk1 Hk2 Ho Hc. unfold Rx.consumed. destruct (negb (len c =? 0)); [| done].
  destruct (Rx.masked r); [| done]. rewrite Mask_eq by (done || lia). by apply mask_ref_bytes.
Qed.

(** A chunk of payload: bytes, within what was asked for and what remains. *)
Lemma PayloadN_chunk r n :
  rx_ok r -> let '(r', (chunk, _, _)) := Rx.PayloadN r n in
  rx_ok r' /\ bytes_ok chunk /\ len chunk <= Z.max 0 n /\ Rx.remaining r' = Rx.remaining r - len chunk.
Proof.
  intros Hok. pose proof (PayloadN_ok r n Hok) as Hok'. destruct (Rx.failed r) eqn:Hf.
  { unfold Rx.PayloadN in *. rewrite Hf in *. split; [done |]. split; [constructor |]. change (len []) with 0. lia. }
  destruct (decide (Rx.remaining r = 0)) as [Hr | Hr].
  { unfold Rx.PayloadN in *. rewrite Hf, Hr in *. split; [done |]. split; [constructor |]. change (len []) with 0. lia. }
  assert (Rx.closeReceived r = false) as Hc.
  { pose proof (ok_phase r Hok) as Hp. rewrite Hf in Hp. destruct (Rx.closeReceived r); tauto. }
  assert (forall m, 0 <= m -> let '(r', (chunk, _, _)) := Rx.PayloadN r m in
    rx_ok r' /\ bytes_ok chunk /\ len chunk <= m /\ Rx.remaining r' = Rx.remaining r - len chunk) as H.
  { intros m Hm. pose proof (PayloadN_post r m Hok Hf Hc Hr Hm) as H. unfold payload_post in H.
    assert (let '(_, (chunk, _, _)) := Rx.PayloadN r m in bytes_ok chunk) as Hb.
    { rewrite PayloadN_live by done. pose proof (ok_dec r Hok) as Hd. rewrite PayloadN_cases by done.
      pose proof (ok_key r Hok) as [Hk1 Hk2]. pose proof (ok_off r Hok) as Ho. destruct Hd as [Hd _].
      destruct (_ =? 0); cbn zeta beta iota;
        match goal with |- context [Rx.consumed ?x ?c ?f] =>
          pose proof (consumed_bytes x c f Hk1 Hk2 Ho) as Hb; destruct (Rx.consumed x c f) as [? [[? ?] ?]] end;
        apply Hb; [by constructor | eauto with ews]. }
    destruct (Rx.PayloadN r m) as [r' [[c f] e]]. destruct H as (-> & H1 & _ & _ & _ & _ & H2 & H3 & _).
    split; [done |]. split; [done |]. lia. }
  destruct (Z.leb_spec 0 n) as [Hn | Hn].
  - specialize (H n Hn). destruct (Rx.PayloadN r n) as [r' [[c f] e]]. rewrite Z.max_r by lia. exact H.
  - rewrite PayloadN_neg by lia. specialize (H 0 ltac:(lia)). rewrite Z.max_l by lia.
    destruct (Rx.PayloadN r 0) as [r' [[c f] e]]. exact H.
Qed.
End parts.

(** What the decompressor's source keeps, reading keeps; and no read gives
    more than was asked for. *)
Section source.
Context {I : Inflater} {IO : InflaterOk I} {G : Grow} {St : Type} {CS : ChunkSource St} (K : St -> Prop).
Context (HK : forall σ σ' r, K σ -> NextChunk σ = Some (σ', r) -> K σ').
Implicit Types (d : Dz.Decompressor) (σ : St).

Lemma fill_keeps fuel m σ m' σ' r : K σ -> Dz.fill fuel m σ = Some (m', σ', r) -> K σ'.
Proof using HK.
  revert m σ. induction fuel as [| fuel IH]; intros m σ Hk; cbn [Dz.fill].
  { destruct (_ && _); [done | by intros [= _ <- _]]. }
  destruct (_ && _); [| by intros [= _ <- _]].
  destruct (NextChunk σ) as [[σ1 r1] |] eqn:E; [| done]. cbn [mbind option_bind]. specialize (HK _ _ _ Hk E).
  destruct r1 as [c | e]; [by apply IH |]. destruct (bool_decide _); by intros [= _ <- _].
Qed.

Lemma call_keeps fuel fuel' u d σ d' σ' out err :
  K σ -> Dz.call fuel fuel' u d σ = Some (d', σ', (out, err)) -> K σ' /\ len out <= space u.
Proof using HK IO.
  revert u d σ. induction fuel' as [| fuel' IH]; intros u d σ Hk; cbn [Dz.call]; [done |].
  destruct (move u) as [r o e | k | n k] eqn:Em.
  - intros [= <- <- <- <-]. split; [done |]. by apply (move_return u r o e).
  - destruct (move_byte u k Em) as [Hs _]. destruct (Dz.source_ReadByte fuel d σ) as [[[d1 σ1] r1] |] eqn:E; [| done].
    cbn [mbind option_bind]. rewrite <- (Hs r1). apply IH. unfold Dz.source_ReadByte in E.
    destruct (Dz.streaming d); [| destruct (Dz.slice_ReadByte _); by injection E as _ <- _].
    destruct (Dz.mr_ReadByte _ _ _) as [[[m1 σ2] r2] |] eqn:E2; [| done]. injection E as _ <- _. unfold Dz.mr_ReadByte in E2.
    destruct (Dz.fill _ _ _) as [[[m3 σ3] r3] |] eqn:E3; [| done]. apply fill_keeps in E3; [| done]. cbn [mbind option_bind] in E2.
    destruct r3 as [[] |]; [| destruct (negb _) |]; by injection E2 as _ <- _.
  - destruct (move_bytes u n k Em) as (_ & Hs & _). destruct (Dz.source_Read fuel d σ n) as [[[d1 σ1] r1] |] eqn:E; [| done].
    cbn [mbind option_bind]. rewrite <- (Hs r1). apply IH. unfold Dz.source_Read in E.
    destruct (Dz.streaming d); [| destruct (Dz.slice_Read _ _); by injection E as _ <- _].
    destruct (Dz.mr_Read _ _ _ _) as [[[m1 σ2] r2] |] eqn:E2; [| done]. injection E as _ <- _. unfold Dz.mr_Read in E2.
    destruct (n =? 0); [by injection E2 as _ <- _ |].
    destruct (Dz.fill _ _ _) as [[[m3 σ3] r3] |] eqn:E3; [| done]. apply fill_keeps in E3; [| done]. cbn [mbind option_bind] in E2.
    destruct r3 as [[] |]; by injection E2 as _ <- _.
Qed.

Lemma Read_keeps fuel d h σ n d' h' σ' r :
  K σ -> Dz.Read fuel d h σ n = Some (d', h', σ', r) ->
  K σ' /\ match r with Ok out => 0 <= n -> len out <= n | Err _ => True end.
Proof using HK IO.
  intros Hk. unfold Dz.Read. destruct (negb (Dz.active d)); [by intros [= _ _ <- <-] |].
  destruct (Dz.done d). { destruct (Dz.finish d h true). by intros [= _ _ <- <-]. }
  enough (forall fuel' d h σ, K σ -> Dz.Read_loop fuel fuel' d h σ n = Some (d', h', σ', r) ->
    K σ' /\ match r with Ok out => 0 <= n -> len out <= n | Err _ => True end) as H by (apply H; exact Hk).
  clear d h σ Hk. intros fuel'. induction fuel' as [| fuel' IH]; intros d h σ Hk; cbn [Dz.Read_loop]; [done |].
  destruct (Dz.reader d) as [rd |]; [| done].
  destruct (Dz.call fuel fuel (ReadCall rd n) d σ) as [[[d1 σ1] [out err]] |] eqn:E; [| done]. cbn [mbind option_bind].
  apply call_keeps in E as [Hk1 Hl]; [| done].
  assert (0 <= n -> len out <= n) as Hl' by (intros Hn; by rewrite space_call in Hl). clear Hl.
  destruct (Dz.keep d1 h out) as [d2 h2]. unfold Dz.fail. destruct err as [e |].
  - destruct (bool_decide (e = Io EOF)).
    + destruct (Dz.exhausted d2).
      * destruct (len out =? 0); [destruct (Dz.finish d2 h2 true) |]; by intros [= _ _ <- <-].
      * destruct (Dz.dict d2 h2 out) as [[d3 h3] D]. destruct (Dz.reader d3) as [rd3 |]; [| done].
        destruct (ResetReader rd3 D) as [r4 [e4 |]].
        -- destruct (Dz.finish _ _ _). by intros [= _ _ <- <-].
        -- destruct (negb _); [by intros [= _ _ <- <-] | by apply IH].
    + destruct (Dz.finish _ _ _). by intros [= _ _ <- <-].
  - destruct (len out =? 0); [destruct (Dz.finish _ _ _) |]; by intros [= _ _ <- <-].
Qed.
End source.

(** [Decompress] gives at most [maxSize] bytes. *)
Lemma Decompress_within `{Inflater} `{Grow} fuel d h pay maxSize w d' h' out :
  Dz.Decompress fuel d h pay maxSize w = Some (d', h', Ok out) -> len out <= maxSize.
Proof.
  unfold Dz.Decompress. destruct (maxSize <? 0); [done |]. destruct (Dz.begin d h false pay w) as [[d1 h1] [e |]]; [done |].
  match goal with |- Dz.Decompress_loop _ _ ?x _ _ = _ -> _ => generalize x end.
  generalize fuel at 2. intros fuel'. revert h1. clear d h d1. intros h d. revert d h.
  induction fuel' as [| fuel' IH]; intros d h; cbn [Dz.Decompress_loop]; [done |].
  destruct (Dz.Read _ _ _ _ _) as [[[[d1 h1] σ] r] |]; [| done]. cbn [mbind option_bind Dz.output].
  set (o := Dz.output d1 ++ _). destruct (Z.ltb_spec maxSize (len o)); [destruct (Dz.finish _ _ _); done |].
  destruct (_ || _); [by intros [= _ _ <-] |]. destruct r as [x | e]; [apply IH | done].
Qed.

(** ** The triple *)

(** A message buffer's slice is within its capacity; a small buffer is one the
    pool of small ones may have, a large one lives past [poolKeep], with the
    small one set aside. *)
Definition msg_ok (m : msgBuf) : Prop :=
  bytes_ok (mb m).1 /\ len (mb m).1 <= (mb m).2 /\
  match mlarge m with
  | None => (mb m).2 <= poolKeep
  | Some k => (mb m).2 = k /\ poolKeep < k /\ 0 <= mhome m <= poolKeep
  end.

(** The pool of small message buffers has small buffers. *)
Class PoolOk `(RW : ReadWorld) : Prop := pooled_message i : 0 <= pooledMessage i <= poolKeep.

Section triple.
Context {F : Flate} {I : Inflater} (lim : Z) (utf8 : bool).
Implicit Types (c : conn).

Record conn_ok c : Prop := {
  c_rx : rx_ok (rx c);
  c_in : script_ok (incoming c);
  c_buf : 0 < bufLen c;
  c_limit : limit c = lim /\ 0 <= lim < 2 ^ 63;
  c_utf8 : validateUTF8 c = utf8;
  c_msg : forall m, msg c = Some m -> msg_ok m
}.

Definition triple {A} (P : conn -> Prop) (m : io A) (Q : A -> conn -> Prop) : Prop :=
  forall c, conn_ok c -> P c ->
  match m c with
  | Some (c', Ok a) => conn_ok c' /\ Q a c'
  | Some (c', Err _) => conn_ok c'
  | None => True
  end.

Lemma triple_weaken {A} (P P' : conn -> Prop) (m : io A) (Q Q' : A -> conn -> Prop) :
  triple P m Q -> (forall c, conn_ok c -> P' c -> P c) -> (forall a c, conn_ok c -> Q a c -> Q' a c) -> triple P' m Q'.
Proof.
  intros H H1 H2 c Hc Hp. specialize (H c Hc (H1 c Hc Hp)). destruct (m c) as [[c' [a | e]] |]; [| done | done].
  destruct H as [Hc' Hq]. split; [done | by apply H2].
Qed.

Lemma triple_bind {A B} P (m : io A) Q (k : A -> io B) R :
  triple P m Q -> (forall a, triple (Q a) (k a) R) -> triple P (bind m k) R.
Proof.
  intros H1 H2 c Hc Hp. unfold bind. specialize (H1 c Hc Hp). destruct (m c) as [[c' [a | e]] |]; [| done | done].
  destruct H1 as [Hc' Hq]. by apply H2.
Qed.

Lemma triple_pure {A} (a : A) (P : conn -> Prop) (Q : A -> conn -> Prop) : (forall c, conn_ok c -> P c -> Q a c) -> triple P (pure a) Q.
Proof. intros H c Hc Hp. split; [done | by apply H]. Qed.

Lemma triple_throw {A} e P (Q : A -> conn -> Prop) : triple P (throw e) Q.
Proof. by intros c Hc _. Qed.

Lemma triple_hang {A} P (Q : A -> conn -> Prop) : triple P hang Q.
Proof. by intros c _ _. Qed.

Lemma triple_get {A B} (f : conn -> A) (P : conn -> Prop) (k : A -> io B) Q :
  (forall a, triple (fun c => P c /\ f c = a) (k a) Q) -> triple P (bind (get f) k) Q.
Proof. intros H c Hc Hp. by apply (H (f c)). Qed.

Lemma triple_put (f : conn -> conn) (P Q : conn -> Prop) :
  (forall c, conn_ok c -> P c -> conn_ok (f c) /\ Q (f c)) -> triple P (put f) (fun _ => Q).
Proof. intros H c Hc Hp. by apply H. Qed.

Lemma triple_try {A} P (m : io A) Q :
  triple P m Q -> triple P (try m) (fun r c => match r with Ok a => Q a c | Err _ => True end).
Proof. intros H c Hc Hp. specialize (H c Hc Hp). unfold try. by destruct (m c) as [[c' [a | e]] |]. Qed.

Lemma triple_case {A} (b : bool) P (m1 m2 : io A) Q :
  (b = true -> triple P m1 Q) -> (b = false -> triple P m2 Q) -> triple P (if b then m1 else m2) Q.
Proof. destruct b; auto. Qed.

(** What holds before the computation runs. *)
Lemma triple_fact {A} (R : Prop) P (m : io A) Q :
  (forall c, conn_ok c -> P c -> R) -> (R -> triple P m Q) -> triple P m Q.
Proof. intros H1 H2 c Hc Hp. exact (H2 (H1 c Hc Hp) c Hc Hp). Qed.

(** A change of what the invariant does not look at. *)
Lemma conn_ok_same c c' :
  conn_ok c -> rx c' = rx c -> incoming c' = incoming c -> bufLen c' = bufLen c -> limit c' = limit c ->
  validateUTF8 c' = validateUTF8 c -> msg c' = msg c -> conn_ok c'.
Proof. intros [H1 H2 H3 H4 H5 H6] E1 E2 E3 E4 E5 E6. constructor; by rewrite ?E1, ?E2, ?E3, ?E4, ?E5, ?E6. Qed.

Lemma conn_ok_rx c r : conn_ok c -> rx_ok r -> conn_ok {| c with rx := r |}.
Proof. intros [H1 H2 H3 H4 H5 H6] Hr. by constructor. Qed.
End triple.

Create HintDb bounded.
#[export] Hint Resolve triple_throw triple_hang : bounded.

(** A computation's steps, each by the triple of what it calls. *)
Ltac next t := eapply triple_bind; [t | cbn beta].

Section reading.
Context {M : Masker} `{!MaskerOk M} {G : Grow} {F : Flate} {I : Inflater} {IO : InflaterOk I}.
Context {T : Transport} {W : World} {RW : ReadWorld} {PO : PoolOk RW} (lim : Z) (utf8 : bool).
Implicit Types (c : conn) (fuel : nat).

#[local] Abbreviation triple := (triple lim utf8).
#[local] Abbreviation conn_ok := (conn_ok lim utf8).

(** The message buffer, and what remains of the frame. *)
Definition here (m : option msgBuf) (k : Z) c : Prop := msg c = m /\ Rx.remaining (rx c) = k.

Lemma read_tr n m k : triple (here m k) (read n) (fun b c => here m k c /\ bytes_ok b /\ 0 < len b <= n).
Proof.
  intros c Hc Hh. unfold read. generalize 100%nat. intros tries. revert c Hc Hh.
  induction tries as [| tries IH]; intros c Hc Hh; cbn [read_tries]; [done |].
  assert (forall s d e, transport_read (incoming c) n = (s, (d, e)) -> script_ok s /\ bytes_ok d /\ (len d <> 0 -> len d <= n)) as Hr.
  { pose proof (c_in _ _ _ Hc) as Hs. unfold transport_read, script_ok in *. intros s d e.
    destruct (incoming c) as [| [d0 e0] s0]; [intros [= <- <- _]; by split_and!; [| constructor |] |].
    apply Forall_cons_1 in Hs as [Hd Hs]. cbn in Hd.
    destruct (Z.leb_spec (len d0) n); intros [= <- <- _]; [by split |].
    split_and!; [constructor; [by cbn; eauto with ews | done] | eauto with ews | rewrite len_upto; pose proof (len_nonneg d0); lia]. }
  destruct (transport_read _ _) as [s [d e]]. destruct (Hr _ _ _ eq_refl) as (Hs & Hd & Hl).
  assert (conn_ok {| c with incoming := s |}) as Hc' by (destruct Hc; by constructor).
  pose proof (len_nonneg d). destruct (Z.eqb_spec (len d) 0); cbn [negb]; [| by split_and!; (done || lia)].
  destruct (_ && _); [done |]. destruct e; [done |]. by apply IH.
Qed.

Lemma fail_ok {A} e c : conn_ok c -> exists c', (fail e : io A) c = Some (c', Err e) /\ conn_ok c'.
Proof. intros Hc. unfold fail. eexists. split; [done |]. destruct e; by apply (conn_ok_same _ _ c). Qed.

Lemma fail_tr {A} e P (Q : A -> conn -> Prop) : triple P (fail e) Q.
Proof. intros c Hc _. destruct (fail_ok (A := A) e c Hc) as (c' & -> & H). exact H. Qed.

Lemma handleControl_tr m k : triple (here m k) handleControl (fun _ => here m k).
Proof.
  intros c Hc Hh. pose proof (handleControl_reply c) as E.
  destruct (reply _ _ _ _) as [w [[e |] |]]; rewrite E; [| split | done].
  1, 2: by apply (conn_ok_same _ _ c). done.
Qed.

Lemma Feed_ok r b : rx_ok r -> bytes_ok b -> rx_ok (Rx.Feed r b) /\ Rx.remaining (Rx.Feed r b) = Rx.remaining r.
Proof. intros Hr Hb. split; [eapply rx_step_ok; [exact Hr | by constructor] |]. unfold Rx.Feed. by destruct (_ && _). Qed.

Lemma feed_tr b m k :
  bytes_ok b -> triple (here m k) (put (fun c => {| c with rx := Rx.Feed (rx c) b |})) (fun _ => here m k).
Proof.
  intros Hb. apply triple_put. intros c Hc Hh. destruct (Feed_ok (rx c) b (c_rx _ _ _ Hc) Hb) as [H1 H2].
  split; [by apply conn_ok_rx |]. destruct Hh as [<- <-]. by split.
Qed.

Lemma fill_tr m k : triple (here m k) fill (fun _ => here m k).
Proof.
  unfold fill. next ltac:(apply (triple_put lim utf8 _ (here m k) (here m k))).
  { intros c Hc Hh. split; [apply conn_ok_rx; [done |]; eapply rx_step_ok; [apply Hc | constructor] |].
    destruct Hh as [<- <-]. by split. }
  intros _. apply triple_get. intros n.
  next ltac:(eapply triple_weaken; [apply (read_tr n m k) | by intros c _ [H _] | done]).
  intros b. apply (triple_fact _ _ (bytes_ok b)); [by intros c _ (_ & ? & _) |]. intros Hb.
  eapply triple_weaken; [by apply (feed_tr b m k) | by intros c _ [H _] | done].
Qed.

Lemma PayloadN_tr n m k :
  triple (here m k) (rx_call (fun r => Rx.PayloadN r n))
    (fun x c => here m (k - len x.1.1) c /\ bytes_ok x.1.1 /\ len x.1.1 <= Z.max 0 n /\ 0 <= k - len x.1.1).
Proof.
  intros c Hc [<- <-]. unfold rx_call. pose proof (PayloadN_chunk (rx c) n (c_rx _ _ _ Hc)) as H.
  destruct (Rx.PayloadN (rx c) n) as [r [[chunk f] e]]. destruct H as (H1 & H2 & H3 & H4). pose proof (rx_remaining r H1).
  split; [by apply conn_ok_rx |]. cbn. split_and!; try done. lia.
Qed.

Lemma Payload_tr m k :
  triple (here m k) (rx_call Rx.Payload)
    (fun x c => here m (k - len x.1.1) c /\ bytes_ok x.1.1 /\ 0 <= k - len x.1.1).
Proof.
  intros c Hc Hh. pose proof (PayloadN_tr (Dec.Buffered (Rx.dec (rx c))) m k c Hc Hh) as H. cbv beta in H.
  unfold rx_call, Rx.Payload in *. destruct (Rx.PayloadN _ _) as [r [[chunk f] e]]. destruct H as (H1 & H2 & H3 & _ & H4).
  by split_and!.
Qed.

Lemma Next_tr m :
  triple (fun c => msg c = m) (rx_call Rx.Next)
    (fun x c => msg c = m /\ (x.2 = None -> x.1 = dataFrame -> Rx.remaining (rx c) = Hdr.PayloadLen (Rx.header (rx c)))).
Proof.
  intros c Hc Hm. unfold rx_call. pose proof (Next_ok (rx c) (c_rx _ _ _ Hc)) as Hr.
  destruct (Rx.Next (rx c)) as [r [kind err]] eqn:E. split; [by apply conn_ok_rx |]. split; [done |].
  cbn. intros -> ->. by apply Next_data in E as (H & _).
Qed.

Lemma same_msg_tr (o : io unit) m : (forall k, triple (here m k) o (fun _ => here m k)) -> triple (fun c => msg c = m) o (fun _ c => msg c = m).
Proof.
  intros H c Hc Hm. specialize (H _ c Hc (conj Hm eq_refl)). destruct (o c) as [[c' [a | e]] |]; [| done | done].
  destruct H as [H1 [H2 _]]. done.
Qed.

Lemma nextFrame_tr fuel m :
  triple (fun c => msg c = m) (nextFrame fuel)
    (fun _ c => msg c = m /\ Rx.remaining (rx c) = Hdr.PayloadLen (Rx.header (rx c))).
Proof.
  induction fuel as [| fuel IH]; cbn [nextFrame]; [apply triple_hang |]. next ltac:(apply Next_tr).
  intros [kind [e |]]; [apply fail_tr |]. destruct kind; cbn [fst snd].
  - next ltac:(eapply triple_weaken; [apply (same_msg_tr fill m), fill_tr | by intros c _ [H _] | done]). intros _. exact IH.
  - apply triple_pure. intros c _ [H1 H2]. by auto.
  - next ltac:(eapply triple_weaken; [apply (same_msg_tr handleControl m), handleControl_tr | by intros c _ [H _] | done]). intros _. exact IH.
Qed.

(** ** Message buffers *)

(** A buffer the connection's own stands for. *)
Definition lent (m : option msgBuf) (b : buffer) : Prop :=
  bytes_ok b.1 /\ len b.1 <= b.2 /\ match m with Some m => (mb m).2 = b.2 | None => b = ([], 0) end.

Definition holding (b : buffer) (k : Z) c : Prop := lent (msg c) b /\ Rx.remaining (rx c) = k.

Lemma holding_here {A} b k (o : io A) (Q : A -> conn -> Prop) :
  (forall m, lent m b -> triple (here m k) o Q) -> triple (holding b k) o Q.
Proof. intros H c Hc [Hl Hk]. exact (H _ Hl c Hc (conj eq_refl Hk)). Qed.

Lemma conn_ok_msg c m n : conn_ok c -> msg_ok m -> conn_ok {| c with msg := Some m; draws := n |}.
Proof. intros [H1 H2 H3 H4 H5 H6] Hm. constructor; try done. by intros ? [= <-]. Qed.

(** [growMsg] once there is a buffer. *)
Definition grown (c : conn) (m : msgBuf) (b : buffer) (n : Z) : option (conn * result buffer) :=
  let '(b, cap) := b in
  let need := len b + n in
  if need <=? cap then Some (c, Ok (b, cap))
  else if need <=? poolKeep then
    let msg' := (b, Z.min (Z.max need (2 * cap)) poolKeep) in
    Some ({| c with msg := Some {| m with mb := msg' |} |}, Ok msg')
  else
    let grown := get_cap (Z.max need (msgHint c)) in
    let m := match mlarge m with Some _ => m | None => {| m with mhome := cap |} end in
    Some ({| c with msg := Some {| mb := (b, grown); mlarge := Some grown; mhome := mhome m |} |},
          Ok (b, grown)).

Lemma grown_post c m b n k :
  conn_ok c -> msg c = Some m -> holding b k c ->
  exists c' r, grown c m b n = Some (c', Ok r) /\ conn_ok c' /\ holding r k c' /\ r.1 = b.1 /\ len b.1 + n <= r.2 /\
    is_Some (msg c').
Proof.
  intros Hc Em [Hl Hk]. unfold holding, lent in *. rewrite Em in Hl. destruct Hl as (Hb & Hle & Hcap).
  pose proof (c_msg _ _ _ Hc m Em) as (Hmb & Hml & Hm). destruct b as [b cap]. cbn [fst snd] in *. subst cap.
  pose proof (len_nonneg b) as Hb0. unfold grown. destruct (Z.leb_spec (len b + n) (mb m).2).
  { exists c, (b, (mb m).2). rewrite Em. by split_and!. }
  assert (forall m', msg_ok m' -> conn_ok {| c with msg := Some m' |}) as Hset.
  { intros m' Hm'. pose proof (conn_ok_msg c m' (draws c) Hc Hm') as H'. by destruct c. }
  assert (0 <= (mb m).2) by (pose proof (len_nonneg (mb m).1); lia).
  destruct (Z.leb_spec (len b + n) poolKeep) as [Hs | Hs].
  - assert (mlarge m = None) as El by (destruct (mlarge m); [lia | done]).
    eexists _, _. split; [reflexivity |]. cbn. split; [apply Hset |]; rewrite ?El.
    + split; [exact Hb |]. cbn. split; lia.
    + split_and!; (done || lia).
  - pose proof (get_cap_ge (Z.max (len b + n) (msgHint c))) as Hg.
    eexists _, _. split; [reflexivity |]. cbn. split; [apply Hset |].
    + split; [exact Hb |]. cbn. split; [lia |]. split; [done |]. split; [lia |]. destruct (mlarge m) eqn:El; [apply Hm | cbn; lia].
    + split_and!; (done || lia).
Qed.

Lemma growMsg_tr b n k :
  triple (holding b k) (growMsg b n)
    (fun r c => holding r k c /\ r.1 = b.1 /\ len b.1 + n <= r.2 /\ is_Some (msg c)).
Proof.
  intros c Hc Hh.
  assert (exists c1 m b1, growMsg b n c = grown c1 m b1 n /\ conn_ok c1 /\ msg c1 = Some m /\ holding b1 k c1 /\ b1.1 = b.1)
    as (c1 & m & b1 & -> & Hc1 & Em & Hh1 & E1).
  { pose proof Hh as [Hl Hk]. unfold growMsg, lent in *. destruct (msg c) as [m |] eqn:Em; [exists c, m, b; by destruct b |].
    destruct Hl as (_ & _ & ->). pose proof (pooled_message (draws c)) as Hp.
    set (m := {| mb := ([], pooledMessage (draws c)); mlarge := None; mhome := 0 |}).
    exists {| c with msg := Some m; draws := draws c + 1 |}, m, ([], pooledMessage (draws c)). split; [done |].
    split; [apply conn_ok_msg; [done |]; split; [constructor |]; cbn; change (len []) with 0; lia |].
    split; [done |]. split; [| done]. split; [| done]. split; [constructor |]. cbn. change (len []) with 0. split; [lia | done]. }
  destruct (grown_post c1 m b1 n k Hc1 Em Hh1) as (c' & r & -> & H1 & H2 & H3 & H4 & H5). rewrite E1 in *. by split_and!.
Qed.

Lemma appendMsg_tr b chunk k :
  bytes_ok chunk -> triple (holding b k) (appendMsg b chunk) (fun r c => holding r k c /\ len r.1 = len b.1 + len chunk).
Proof.
  intros Hb. unfold appendMsg. apply triple_get. intros rem.
  apply (triple_fact _ _ (0 <= rem /\ rem = k)); [intros c Hc [[_ <-] <-]; split; [apply rx_remaining, Hc | done] |]. intros [Hr ->].
  pose proof (len_nonneg chunk) as Hlc.
  next ltac:(eapply triple_weaken; [apply (growMsg_tr b (len chunk + k) k) | by intros c _ [H _] | done]).
  intros [b1 cap]. cbn [fst snd].
  apply (triple_fact _ _ (b1 = b.1 /\ len b.1 + (len chunk + k) <= cap /\ bytes_ok b1));
    [intros c _ ([(H1 & _) _] & H2 & H3 & _); cbn in *; by subst |]. intros (-> & Hle & Hbb).
  next ltac:(apply (triple_put lim utf8 _ _ (holding (b.1 ++ chunk, cap) k))).
  - intros c Hc ([Hl Hk] & _ & _ & [m Em]). rewrite Em in Hl. destruct Hl as (_ & _ & Hcap). cbn in Hcap.
    pose proof (c_msg _ _ _ Hc m Em) as (_ & _ & Hm). rewrite Em. cbn [fmap option_fmap option_map].
    assert (msg_ok {| mb := (b.1 ++ chunk, cap); mlarge := mlarge m; mhome := mhome m |}) as Hm'.
    { split; [by apply bytes_ok_app |]. cbn. rewrite len_app. split; [lia |]. by rewrite <- Hcap. }
    split; [pose proof (conn_ok_msg c _ (draws c) Hc Hm') as H'; by destruct c |].
    split; [| done]. cbn. split; [apply Hm' |]. split; [apply Hm' | done].
  - intros _. apply triple_pure. intros c _ H. split; [exact H |]. cbn. by rewrite len_app.
Qed.

Lemma here_holding m b k c : lent m b -> here m k c -> holding b k c.
Proof. by intros Hl [<- <-]. Qed.

(** What a direct read got is payload of the frame. *)
Lemma direct_tr {A} got m k (g : list Z -> A) :
  bytes_ok got ->
  triple (here m k)
    (put (fun c => {| c with rx := Rx.Feed (rx c) got |}) ;;;
     let! '(chunk, _, err) := rx_call (fun r => Rx.PayloadN r (len got)) in
     match err with Some e => fail e | None => pure (g chunk) end)
    (fun a c => exists chunk, a = g chunk /\ here m (k - len chunk) c /\ bytes_ok chunk /\ len chunk <= len got /\ 0 <= k - len chunk).
Proof.
  intros Hb. next ltac:(by apply (feed_tr got m k)). intros _. next ltac:(apply PayloadN_tr).
  intros [[chunk f] [e |]]; [apply fail_tr |]. apply triple_pure. cbn [fst].
  intros c _ (H1 & H2 & H3 & H4). pose proof (len_nonneg got). exists chunk. rewrite Z.max_r in H3 by lia. by split_and!.
Qed.

Lemma readInto_tr b n k :
  triple (holding b k) (readInto b n)
    (fun r c => exists j, holding r (k - j) c /\ len r.1 = len b.1 + j /\ 0 <= k - j).
Proof.
  unfold readInto. next ltac:(apply (growMsg_tr b n k)). intros [b1 cap]. cbn [fst snd].
  apply (triple_fact _ _ (b1 = b.1 /\ len b.1 + n <= cap)); [by intros c _ (_ & H2 & H3 & _) |]. intros (-> & Hle).
  eapply triple_weaken; [apply (holding_here (b.1, cap) k _ (fun r c => exists j, holding r (k - j) c /\ len r.1 = len b.1 + j /\ 0 <= k - j))
    | by intros c _ [H _] | done]. intros m Hl.
  next ltac:(apply (read_tr n m k)). intros got.
  apply (triple_fact _ _ (bytes_ok got /\ 0 < len got <= n)); [by intros c _ (_ & ? & ?) |]. intros (Hb & Hlg).
  eapply triple_weaken; [apply (direct_tr got m k (fun chunk => (b.1 ++ chunk, cap)) Hb) | by intros c _ [H _] |].
  intros r c _ (chunk & -> & [Hm Hk] & Hbc & Hlc & H0). exists (len chunk). cbn. rewrite len_app. split; [| done]. split; [| done].
  rewrite Hm. destruct Hl as (H1 & H2 & H3). cbn in *. split; [by apply bytes_ok_app |]. cbn. rewrite len_app. split; [lia |].
  destruct m; [done |]. injection H3 as _ ->. pose proof (len_nonneg b.1). exfalso. lia.
Qed.

Lemma readDirect_tr n m k :
  triple (here m k) (readDirect n)
    (fun chunk c => here m (k - len chunk) c /\ bytes_ok chunk /\ len chunk <= n /\ 0 <= k - len chunk).
Proof.
  unfold readDirect. next ltac:(apply (read_tr n m k)). intros got.
  apply (triple_fact _ _ (bytes_ok got /\ 0 < len got <= n)); [by intros c _ (_ & ? & ?) |]. intros (Hb & Hlg).
  eapply triple_weaken; [apply (direct_tr got m k (fun chunk => chunk) Hb) | by intros c _ [H _] |].
  intros r c _ (chunk & -> & H1 & H2 & H3 & H4). split_and!; (done || lia).
Qed.

(** ** Decompression *)

#[local] Abbreviation ok := (fun _ : conn => True).

Lemma from_any {A} (o : io A) Q : (forall m k, triple (here m k) o Q) -> triple ok o Q.
Proof. intros H c Hc _. by apply (H (msg c) (Rx.remaining (rx c)) c Hc). Qed.

Lemma to_any {A} (P : conn -> Prop) (o : io A) (Q : A -> conn -> Prop) : triple P o Q -> triple P o (fun _ => ok).
Proof. intros H. by eapply triple_weaken; [exact H | | ]. Qed.

Lemma any_pre {A} (P : conn -> Prop) (o : io A) Q : triple ok o Q -> triple P o Q.
Proof. intros H c Hc _. by apply H. Qed.

Lemma nextFrame_any fuel : triple ok (nextFrame fuel) (fun _ => ok).
Proof. apply from_any. intros m k. eapply triple_weaken; [apply (nextFrame_tr fuel m) | by intros c _ [H _] | done]. Qed.

Lemma fill_any : triple ok fill (fun _ => ok).
Proof. apply from_any. intros m k. eapply to_any, fill_tr. Qed.

Lemma Payload_any : triple ok (rx_call Rx.Payload) (fun x _ => bytes_ok x.1.1).
Proof. apply from_any. intros m k. eapply triple_weaken; [apply Payload_tr | done | by intros a c _ (_ & H & _)]. Qed.

Lemma nextChunk_tr fuel : triple ok (nextChunk fuel) (fun chunk _ => bytes_ok chunk).
Proof.
  induction fuel as [| fuel IH]; cbn [nextChunk]; [apply triple_hang |]. next ltac:(apply Payload_any).
  intros [[chunk f] [e |]]; [apply fail_tr |]. cbn [fst].
  apply (triple_fact _ _ (bytes_ok chunk)); [intros c _ Hb; exact Hb |]. intros Hb. apply any_pre.
  apply triple_case; [by intros _; apply triple_pure |]. intros _. apply triple_case; intros _.
  - next ltac:(apply fill_any). intros _. exact IH.
  - apply triple_get. intros b. apply any_pre.
    apply triple_case; intros _; [apply triple_throw |]. next ltac:(apply nextFrame_any). intros _. exact IH.
Qed.

Lemma chunkSource_keeps fuel c c' r : conn_ok c -> chunkSource fuel c = Some (c', r) -> conn_ok c'.
Proof.
  intros Hc. unfold chunkSource. pose proof (nextChunk_tr fuel c Hc Logic.I) as H.
  destruct (nextChunk fuel c) as [[c1 [chunk | e]] |]; [| | done]; cbn [mbind option_bind]; intros [= <- _]; [apply H |].
  destruct (bool_decide _); [done |]. by apply (conn_ok_same _ _ c1).
Qed.

Lemma acquire_tr r : triple (fun c => rx c = r) acquireDecompressor (fun _ c => rx c = r).
Proof. intros c Hc Hr. unfold acquireDecompressor. destruct (dec c); (split; [| done]); [done |]. by apply (conn_ok_same _ _ c). Qed.

Lemma acquire_any : triple ok acquireDecompressor (fun _ => ok).
Proof. intros c Hc _. pose proof (acquire_tr _ c Hc eq_refl) as H. destruct (acquireDecompressor c) as [[c' [a | e]] |]; [by split; [apply H |] | done | done]. Qed.

Lemma release_tr : triple ok releaseDecompressor (fun _ => ok).
Proof.
  apply triple_put. intros c Hc _. split; [| done]. destruct (dec c); [| done]. destruct (if large c then _ else _).
  by apply (conn_ok_same _ _ c).
Qed.

Lemma decompress_tr fuel p r :
  triple (fun c => rx c = r) (decompress fuel p) (fun out c => rx c = r /\ len out <= lim).
Proof.
  unfold decompress. next ltac:(apply acquire_tr). intros d c Hc Hr.
  destruct (Dz.Decompress _ _ _ _ _ _) as [[[d1 h1] [out | e]] |] eqn:E; cbn [mbind option_bind]; [| | done].
  - split; [by apply (conn_ok_same _ _ c) |]. apply Decompress_within in E. destruct (c_limit _ _ _ Hc) as [<- _]. by split.
  - assert (conn_ok {| c with dec := Some d1; mem := h1 |}) as Hc1 by (by apply (conn_ok_same _ _ c)).
    destruct (bool_decide _); edestruct (fail_ok (A := list Z)) as (c' & -> & H); by eauto.
Qed.

Lemma inflate_tr fuel n : triple ok (inflate fuel n) (fun out _ => 0 <= n -> len out <= n).
Proof.
  unfold inflate. next ltac:(apply acquire_any). intros d c Hc _.
  assert (exists d1 c1 err, conn_ok c1 /\ (if dstreaming c then (d, c, None) else
      let '(d, h, err) := Dz.Begin d (mem c) (rwindow c) in
      (d, {| c with dec := Some d; mem := h; dstreaming := bool_decide (err = None) |}, err)) = (d1, c1, err)) as (d1 & c1 & err & Hc1 & ->).
  { destruct (dstreaming c); [by eexists _, _, _ |]. destruct (Dz.Begin _ _ _) as [[d1 h1] err].
    eexists _, _, _. split; [| done]. by apply (conn_ok_same _ _ c). }
  destruct err as [e |].
  { by destruct (fail_ok (A := list Z) (WsError 1007 (Ws ErrInvalidData)) _ Hc1) as (c' & -> & H). }
  destruct (Dz.Read _ d1 (mem c1) c1 n) as [[[[d2 h2] c2] r] |] eqn:E; cbn [mbind option_bind]; [| done].
  apply (Read_keeps conn_ok) in E as [Hc2 Hl]; [| intros c3 c4 r4 H3 E3; by apply (chunkSource_keeps fuel c3 c4 r4) | done].
  assert (conn_ok {| c2 with dec := Some d2; mem := h2 |}) as Hc3 by (by apply (conn_ok_same _ _ c2)).
  destruct r as [out | e]; [done |]. destruct (bool_decide _); [by apply (conn_ok_same _ _ c2) |]. cbn [readErr srcErr].
  destruct (readErr c2); [done |]. destruct (bool_decide _); [by apply (conn_ok_same _ _ c2) |].
  by destruct (fail_ok (A := list Z) (WsError 1007 (Ws ErrInvalidData)) _ Hc3) as (c' & -> & H).
Qed.

Lemma inflate_any fuel n : triple ok (inflate fuel n) (fun _ => ok).
Proof. eapply to_any, inflate_tr. Qed.

Lemma empty_holding c : conn_ok c -> holding (empty_msg c) (Rx.remaining (rx c)) c.
Proof.
  intros Hc. split; [| done]. unfold empty_msg, lent. destruct (msg c) as [m |] eqn:Em; [| by split_and!; [constructor | |]].
  destruct (c_msg _ _ _ Hc m Em) as (_ & Hl & _). pose proof (len_nonneg (mb m).1).
  split_and!; [constructor | cbn; change (len []) with 0; lia | done].
Qed.

Lemma staging_tr : triple ok staging (fun _ => ok).
Proof.
  intros c Hc _. unfold staging. rewrite !bind_get.
  pose proof (growMsg_tr (empty_msg c) (fragmentSize (wr c)) _ c Hc (empty_holding c Hc)) as H. unfold bind.
  destruct (growMsg _ _ c) as [[c' [b | e]] |]; [| done | done]. split; [apply H | done].
Qed.

(** ** Discarding *)

Lemma drain_tr fuel fuel' n : triple ok (drain fuel fuel' n) (fun _ => ok).
Proof.
  induction fuel' as [| fuel' IH]; cbn [drain]; [apply triple_hang |]. next ltac:(apply triple_try, inflate_any).
  intros [out | e]; [exact IH |]. apply any_pre, triple_case; intros _; [by apply triple_pure | apply triple_throw].
Qed.

Lemma skip_tr fuel : triple ok (skip fuel) (fun _ => ok).
Proof.
  induction fuel as [| fuel IH]; cbn [skip]; [apply triple_hang |]. apply triple_get. intros o. apply any_pre.
  apply triple_case; intros _; [by apply triple_pure |]. next ltac:(apply Payload_any).
  intros [[chunk f] [e |]]; [apply fail_tr |]. apply any_pre, triple_case; intros _.
  - eapply triple_bind; [| intros a; exact IH]. apply triple_case; intros _; [apply fill_any | by apply triple_pure].
  - apply triple_get. intros b. apply any_pre. apply triple_case; intros _.
    + apply triple_put. intros c Hc _. split; [by apply (conn_ok_same _ _ c) | done].
    + next ltac:(apply nextFrame_any). intros _. exact IH.
Qed.

Lemma discard_tr fuel : triple ok (discard fuel) (fun _ => ok).
Proof.
  unfold discard. apply triple_get. intros b. apply any_pre. apply (triple_bind _ _ _ _ (fun _ => ok)).
  { apply triple_case; intros _; [| by apply triple_pure]. next ltac:(apply staging_tr). intros n. apply drain_tr. }
  intros _. next ltac:(apply (triple_put lim utf8 _ ok ok)); [| intros _; apply skip_tr].
  intros c Hc _. split; [by apply (conn_ok_same _ _ c) | done].
Qed.

(** A message is open, and its first frame's payload all to come. *)
Definition begun c : Prop := msg c = None /\ Rx.remaining (rx c) = Hdr.PayloadLen (Rx.header (rx c)).

Lemma NextMessage_tr fuel : triple ok (NextMessage fuel) (fun _ => begun).
Proof.
  unfold NextMessage. apply triple_get. intros err. apply any_pre. destruct err; [apply triple_throw |].
  next ltac:(apply discard_tr). intros _. next ltac:(apply release_tr). intros _.
  next ltac:(apply (triple_put lim utf8 _ ok (fun c => msg c = None))).
  { intros c [H1 H2 H3 H4 H5 H6] _. split; [by constructor | done]. }
  intros _. next ltac:(apply nextFrame_tr). intros _.
  next ltac:(apply (triple_put lim utf8 _ _ begun)).
  { intros c Hc Hb. split; [by apply (conn_ok_same _ _ c) | exact Hb]. }
  intros _ c Hc Hb. by split.
Qed.

(** ** Assembling *)

Lemma holding_fill b k : triple (holding b k) fill (fun _ => holding b k).
Proof.
  apply holding_here. intros m Hl. eapply triple_weaken; [apply (fill_tr m k) | done |].
  intros a c Hc. by apply here_holding.
Qed.

Lemma holding_Payload b k :
  triple (holding b k) (rx_call Rx.Payload) (fun x c => holding b (k - len x.1.1) c /\ bytes_ok x.1.1 /\ 0 <= k - len x.1.1).
Proof.
  apply holding_here. intros m Hl. eapply triple_weaken; [apply (Payload_tr m k) | done |].
  intros x c _ (H1 & H2). split; [by apply (here_holding m) | done].
Qed.

(** A message's first and only chunk, or its buffer so far. *)
Definition within (r : list Z + buffer) c : Prop :=
  match r with
  | inl chunk => bytes_ok chunk /\ len chunk <= lim
  | inr b => lent (msg c) b /\ len b.1 <= lim
  end.

Lemma frame_payload_tr fuel b k :
  len b.1 + k <= lim -> triple (holding b k) (frame_payload fuel b) within.
Proof.
  revert b k. induction fuel as [| fuel IH]; intros b k Hle; cbn [frame_payload]; [apply triple_hang |].
  next ltac:(apply holding_Payload). intros [[chunk f] err]. cbn [fst]. apply triple_get. intros open.
  apply (triple_fact _ _ (bytes_ok chunk /\ 0 <= k - len chunk)); [by intros c _ ((_ & H) & _) |]. intros [Hb Hk].
  apply (triple_weaken _ _ (holding b (k - len chunk)) _ _ within); [| by intros c _ ((H & _) & _) | done].
  pose proof (len_nonneg b.1). pose proof (len_nonneg chunk).
  destruct err as [e |]; [apply fail_tr |]. apply triple_case; intros _.
  { apply any_pre. next ltac:(apply (triple_put lim utf8 _ ok ok)).
    - intros c Hc _. split; [by apply (conn_ok_same _ _ c) | done].
    - intros _. apply triple_pure. intros c _ _. split; [done | lia]. }
  apply triple_case; intros _.
  - next ltac:(by apply (appendMsg_tr b chunk (k - len chunk))). intros b'.
    apply (triple_fact _ _ (len b'.1 = len b.1 + len chunk)); [by intros c _ [_ H'] |]. intros El.
    apply triple_case; intros _.
    + apply triple_pure. intros c _ [[Hl _] _]. split; [done | lia].
    + eapply triple_weaken; [apply (IH b' (k - len chunk)); lia | by intros c _ [H' _] | done].
  - apply triple_get. intros rem. apply triple_get. intros n.
    apply (triple_weaken _ _ (holding b (k - len chunk)) _ _ within); [| by intros c _ ((H' & _) & _) | done].
    apply triple_case; intros Hr.
    + next ltac:(apply (readInto_tr b rem (k - len chunk))). intros b' c Hc (j & Hh & El & Hj).
      exact (IH b' (k - len chunk - j) ltac:(lia) c Hc Hh).
    + next ltac:(apply holding_fill). intros _. apply IH. lia.
Qed.

Lemma assemble_loop_tr fuel fuel' b :
  len b.1 <= lim ->
  triple (fun c => lent (msg c) b /\ Rx.remaining (rx c) = Hdr.PayloadLen (Rx.header (rx c))) (assemble_loop fuel fuel' b)
    (fun p _ => bytes_ok p /\ len p <= lim).
Proof.
  revert b. induction fuel' as [| fuel' IH]; intros b Hle; cbn [assemble_loop]; [apply triple_hang |].
  apply triple_get. intros n. apply triple_get. intros l.
  apply (triple_fact _ _ (l = lim /\ 0 <= lim < 2 ^ 63 /\ 0 <= n)).
  { intros c Hc (((_ & Hr) & <-) & <-). destruct (c_limit _ _ _ Hc). pose proof (rx_remaining _ (c_rx _ _ _ Hc)).
    split; [done |]. split; [done | lia]. }
  intros (-> & Hlim & Hn). apply triple_case; intros Hs; [apply fail_tr |]. pose proof (len_nonneg b.1).
  unfold u64 in Hs. rewrite Z.mod_small in Hs by lia. apply Z.ltb_ge in Hs.
  next ltac:(eapply triple_weaken; [apply (frame_payload_tr fuel b n); lia | | done]).
  { intros c _ (((Hl & Hr) & <-) & _). by split. }
  intros [chunk | b'].
  - by apply triple_pure.
  - apply triple_get. intros more. apply (triple_fact _ _ (len b'.1 <= lim /\ bytes_ok b'.1));
      [by intros c _ [[[H' _] ?] _] |]. intros [Hl' Hb'].
    apply triple_case; intros _.
    + apply any_pre. next ltac:(apply (triple_put lim utf8 _ ok ok)).
      * intros c Hc _. split; [by apply (conn_ok_same _ _ c) | done].
      * intros _. by apply triple_pure.
    + intros c Hc [[Hl _] _]. eapply (triple_bind lim utf8 (fun c' => msg c' = msg c)); [apply nextFrame_tr | | done | done].
      intros a. eapply triple_weaken; [by apply (IH b') | | done]. intros c' _ [E1 E2]. by rewrite E1.
Qed.

(** ** What the calls return *)

(** A message: within the limit, bytes, and text if it is text and checked. *)
Definition message_ok (m : Z * list Z) c : Prop :=
  len m.2 <= lim /\ (Rx.MessageCompressed (rx c) = false -> bytes_ok m.2) /\
  (m.1 = Opcode.Text -> utf8 = true -> Utf8.Valid m.2 = true).

Lemma finishMessage_tr fuel op p :
  bytes_ok p -> len p <= lim -> triple ok (finishMessage fuel op p) message_ok.
Proof.
  intros Hb Hl c0 Hc0 _. apply (triple_bind lim utf8 (fun c => rx c = rx c0) _ (fun _ c => rx c = rx c0)); [| | done | done].
  { apply triple_put. intros c Hc Hr. split; [by apply (conn_ok_same _ _ c) | done]. }
  intros u. apply triple_get. intros comp.
  next ltac:(apply (triple_case _ _ comp _ _ _ (fun q c => len q <= lim /\ (Rx.MessageCompressed (rx c) = false -> bytes_ok q)))).
  - intros ->. intros c Hc [Hr Hm]. pose proof (decompress_tr fuel p _ c Hc Hr) as H.
    destruct (decompress fuel p c) as [[c' [q | e]] |]; [| done | done]. destruct H as (H1 & H2 & H3).
    split; [done |]. split; [done |]. rewrite H2, <- Hr, Hm. done.
  - intros ->. by apply triple_pure.
  - intros q. apply triple_get. intros check. apply triple_case; intros Hv; [apply fail_tr |].
    apply triple_pure. intros c Hc [[H1 H2] <-]. split; [done |]. split; [done |]. cbn. intros -> Hu.
    rewrite (c_utf8 _ _ _ Hc), Hu in Hv. cbn in Hv. by apply negb_false_iff.
Qed.

Lemma ReadMessage_tr fuel : triple ok (ReadMessage fuel) message_ok.
Proof.
  apply (triple_fact _ _ (0 <= lim)); [intros c Hc _; apply (c_limit _ _ _ Hc) |]. intros Hlim.
  unfold ReadMessage. next ltac:(apply NextMessage_tr). intros op.
  next ltac:(apply (triple_weaken _ _ _ _ _ _ (fun p _ => bytes_ok p /\ len p <= lim) (assemble_loop_tr fuel fuel ([], 0) Hlim))).
  - intros c _ [Hm Hr]. rewrite Hm. split; [| done]. by split_and!; [constructor | |].
  - done.
  - intros p c Hc [Hb Hl]. by apply finishMessage_tr.
Qed.

Lemma Read_loop_tr fuel n : 0 <= n -> triple ok (Read_loop fuel n) (fun chunk _ => bytes_ok chunk /\ len chunk <= n).
Proof.
  intros Hn. induction fuel as [| fuel IH]; cbn [Read_loop]; [apply triple_hang |].
  next ltac:(apply from_any; intros m k; eapply triple_weaken;
    [apply (PayloadN_tr n m k) | by intros c _ H; exact H | intros x c _ (_ & H1 & H2 & _); exact (conj H1 H2)]).
  intros [[chunk f] [e |]]; [apply fail_tr |]. cbn [fst].
  apply (triple_fact _ _ (bytes_ok chunk /\ len chunk <= n)); [intros c _ [H1 H2]; rewrite Z.max_r in H2 by lia; done |]. intros Hb.
  apply any_pre, triple_case; intros _; [by apply triple_pure |]. apply triple_case; intros _.
  - apply triple_get. intros r. apply triple_get. intros b. apply any_pre. apply triple_case; intros Hm.
    + apply from_any. intros m k. set (j := if r <? n then r else n) in *.
      eapply triple_weaken; [apply (readDirect_tr j m k) | by intros c _ H; exact H |].
      intros x c _ (_ & H1 & H2 & _). split; [done |]. subst j. destruct (Z.ltb_spec r n); lia.
    + next ltac:(apply fill_any). intros u. exact IH.
  - apply triple_get. intros more. apply any_pre. apply triple_case; intros _.
    + next ltac:(apply (triple_put lim utf8 _ ok ok)); [| intros u; apply triple_throw].
      intros c Hc _. split; [by apply (conn_ok_same _ _ c) | done].
    + next ltac:(apply nextFrame_any). intros u. exact IH.
Qed.

Lemma Read_tr fuel n b : 0 <= n ->
  triple (fun c => Rx.MessageCompressed (rx c) = b) (Read fuel n)
    (fun chunk _ => len chunk <= n /\ (b = false -> bytes_ok chunk)).
Proof.
  intros Hn. unfold Read. apply triple_get. intros err. destruct err; [apply triple_throw |]. apply triple_get. intros open.
  apply triple_case; intros _; [apply triple_throw |]. apply triple_case; intros _.
  { apply triple_pure. intros c _ _. change (len []) with 0. split; [done | constructor]. }
  apply triple_get. intros comp. apply (triple_fact _ _ (comp = b)); [by intros c _ [[[<- _] _] <-] |]. intros ->.
  apply any_pre, triple_case; intros ->.
  - eapply triple_weaken; [apply inflate_tr | done |]. intros out c _ H. by split; [apply H |].
  - eapply triple_weaken; [by apply Read_loop_tr | done |]. by intros chunk c _ [H1 H2].
Qed.

Lemma next_piece_tr : triple ok next_piece (fun _ => ok).
Proof.
  unfold next_piece. next ltac:(apply Payload_any). intros [[chunk f] [e |]]; [apply fail_tr |].
  apply any_pre, triple_case; intros _; [| by apply triple_pure].
  apply triple_get. intros rem. apply triple_get. intros b. apply any_pre. apply triple_case; intros _.
  { next ltac:(apply fill_any). intros u. by apply triple_pure. }
  intros c Hc _. rewrite !bind_get.
  pose proof (readInto_tr (empty_msg c) (Z.min rem (fragmentSize (wr c))) _ c Hc (empty_holding c Hc)) as H. unfold bind at 1.
  destruct (readInto _ _ c) as [[c' [[x y] | e]] |]; [| done | done]. split; [apply H | done].
Qed.

Lemma WriteTo_inflating_tr fuel fuel' sink o n total : triple ok (WriteTo_inflating fuel fuel' sink o n total) (fun _ => ok).
Proof.
  revert o total. induction fuel' as [| fuel' IH]; intros o total; cbn [WriteTo_inflating]; [apply triple_hang |].
  next ltac:(apply triple_try, inflate_any). intros [b | e]; [| by apply triple_pure].
  destruct (sink_write sink o total b) as [[o1 t1] [e |]]; [by apply triple_pure |]. apply IH.
Qed.

Lemma WriteTo_loop_tr fuel fuel' sink o total : triple ok (WriteTo_loop fuel fuel' sink o total) (fun _ => ok).
Proof.
  revert o total. induction fuel' as [| fuel' IH]; intros o total; cbn [WriteTo_loop]; [apply triple_hang |].
  next ltac:(apply triple_try, next_piece_tr). intros [[[chunk f] |] | e]; [| apply IH | by apply triple_pure].
  destruct (if negb _ then _ else _) as [[o1 t1] [e |]]; [by apply triple_pure |]. apply triple_case; intros _; [apply IH |].
  apply triple_get. intros more. apply any_pre. apply triple_case; intros _.
  - next ltac:(apply (triple_put lim utf8 _ ok ok)); [| intros u; by apply triple_pure].
    intros c Hc _. split; [by apply (conn_ok_same _ _ c) | done].
  - next ltac:(apply triple_try, nextFrame_any). intros [u | e]; [apply IH | by apply triple_pure].
Qed.

Lemma WriteTo_tr fuel sink o : triple ok (WriteTo fuel sink o) (fun _ => ok).
Proof.
  unfold WriteTo. apply triple_get. intros [e |]; [by apply triple_pure |]. apply triple_get. intros open.
  apply triple_case; intros _; [by apply triple_pure |]. apply triple_get. intros comp. apply any_pre, triple_case; intros _.
  - next ltac:(apply staging_tr). intros n. apply WriteTo_inflating_tr.
  - apply WriteTo_loop_tr.
Qed.
End reading.

(** ** Any calls, in any order *)

Section calls.
Context {M : Masker} `{!MaskerOk M} {G : Grow} {F : Flate} {I : Inflater} {IO : InflaterOk I}.
Context {T : Transport} {W : World} {RW : ReadWorld} {PO : PoolOk RW}.

(** A call of the read side, or anything the write side does. *)
Inductive called : conn -> conn -> Prop :=
  | called_NextMessage fuel c c' r : NextMessage fuel c = Some (c', r) -> called c c'
  | called_ReadMessage fuel c c' r : ReadMessage fuel c = Some (c', r) -> called c c'
  | called_Read fuel n c c' r : 0 <= n -> Read fuel n c = Some (c', r) -> called c c'
  | called_WriteTo fuel sink o c c' r : WriteTo fuel sink o c = Some (c', r) -> called c c'
  | called_write c w : called c {| c with wr := w |}.

Lemma triple_result {A} lim utf8 P (m : io A) Q c c' r :
  triple lim utf8 P m Q -> conn_ok lim utf8 c -> P c -> m c = Some (c', r) ->
  conn_ok lim utf8 c' /\ match r with Ok a => Q a c' | Err _ => True end.
Proof. intros H Hc Hp E. specialize (H c Hc Hp). rewrite E in H. by destruct r. Qed.

Lemma called_ok lim utf8 c c' : conn_ok lim utf8 c -> called c c' -> conn_ok lim utf8 c'.
Proof.
  intros Hc Hcall. revert Hc. destruct Hcall as [fuel c1 c2 r E | fuel c1 c2 r E | fuel n c1 c2 r Hn E | fuel sink o c1 c2 r E | c1 w]; intros Hc.
  - exact (proj1 (triple_result _ _ _ _ _ _ _ _ (NextMessage_tr lim utf8 fuel) Hc Logic.I E)).
  - exact (proj1 (triple_result _ _ _ _ _ _ _ _ (ReadMessage_tr lim utf8 fuel) Hc Logic.I E)).
  - exact (proj1 (triple_result _ _ _ _ _ _ _ _ (Read_tr lim utf8 fuel n _ Hn) Hc eq_refl E)).
  - exact (proj1 (triple_result _ _ _ _ _ _ _ _ (WriteTo_tr lim utf8 fuel sink o) Hc Logic.I E)).
  - by apply (conn_ok_same _ _ c1).
Qed.

Lemma NewConn_ok cfg h vec s c :
  NewConn cfg h vec s = Ok c -> script_ok s -> MaxMessageSize cfg < 2 ^ 63 ->
  conn_ok (Or (MaxMessageSize cfg) DefaultMaxMessageSize) (ValidateUTF8 cfg) c.
Proof.
  unfold NewConn. destruct (validConfig cfg) eqn:Ev; [| done]. cbn [negb]. intros [= <-] Hs Hm.
  unfold validConfig in Ev. apply andb_prop in Ev as [Ev _]. apply negb_true_iff in Ev.
  rewrite !orb_false_iff, !Z.ltb_ge in Ev. destruct Ev as [[Hrb Hmm] _].
  assert (forall a b, 0 <= a < 2 ^ 63 -> 0 < b < 2 ^ 63 -> 0 < Or a b < 2 ^ 63) as Hor.
  { intros a b Ha Hb. unfold Or. destruct (Z.eqb_spec a 0); lia. }
  constructor; cbn; try done.
  - apply Init_ok.
  - unfold Or. destruct (Z.eqb_spec (ReadBufferSize cfg) 0); [done | lia].
  - split; [done |]. pose proof (Hor (MaxMessageSize cfg) DefaultMaxMessageSize ltac:(lia) ltac:(done)). lia.
Qed.

(** C5. Every connection the read side can leave behind is well formed, and
    what it hands out is of the right shape, whatever the transport delivers:
    any bytes or errors, cut anywhere, any peer, handler, inflater and pools
    that keep their contracts, compressed or not, any calls in any order and
    after any error.  A message is within [MaxMessageSize] (decompressed, too),
    is bytes when it was not compressed, and is UTF-8 when it is text to be
    checked; a chunk is no longer
    than the buffer; the receiver's counts agree; the message buffer's slice
    is within its capacity, and what is given back to the pool of small buffers
    never exceeds [poolKeep], however large messages were. *)
Theorem reads_well_formed cfg h vec s c0 c :
  NewConn cfg h vec s = Ok c0 -> script_ok s -> MaxMessageSize cfg < 2 ^ 63 -> rtc called c0 c ->
  rx_ok (rx c) /\
  (forall m, msg c = Some m -> msg_ok m /\ 0 <= (pooled_back m).2 <= poolKeep) /\
  (forall fuel c' op p, ReadMessage fuel c = Some (c', Ok (op, p)) ->
     len p <= Or (MaxMessageSize cfg) DefaultMaxMessageSize /\
     (Rx.MessageCompressed (rx c') = false -> bytes_ok p) /\
     (op = Opcode.Text -> ValidateUTF8 cfg = true -> Utf8.Valid p = true)) /\
  (forall fuel n c' chunk, 0 <= n -> Read fuel n c = Some (c', Ok chunk) ->
     len chunk <= n /\ (Rx.MessageCompressed (rx c) = false -> bytes_ok chunk)).
Proof.
  intros Hnew Hs Hm Hr. pose proof (NewConn_ok _ _ _ _ _ Hnew Hs Hm) as Hc.
  assert (conn_ok (Or (MaxMessageSize cfg) DefaultMaxMessageSize) (ValidateUTF8 cfg) c) as Hok.
  { clear Hnew. induction Hr as [| ? ? ? Hcall _ IH]; [done |]. apply IH. by eapply called_ok. }
  split; [apply Hok |]. split; [| split].
  - intros m Em. pose proof (c_msg _ _ _ Hok m Em) as Hmsg. split; [done |]. destruct Hmsg as (_ & Hl & Hcap).
    pose proof (len_nonneg (mb m).1). unfold pooled_back. destruct (mlarge m); cbn; [apply Hcap | lia].
  - intros fuel c' op p E. exact (proj2 (triple_result _ _ _ _ _ _ _ _ (ReadMessage_tr _ _ fuel) Hok Logic.I E)).
  - intros fuel n c' chunk Hn E. exact (proj2 (triple_result _ _ _ _ _ _ _ _ (Read_tr _ _ fuel n _ Hn) Hok eq_refl E)).
Qed.
End calls.

(** A server that reads a text message cut in two. *)
Section witness.
#[local] Instance idle_pools : ReadWorld := {| pooledDecompressor _ := Dz.zero; pooledMessage _ := 64 |}.
#[local] Existing Instance swar_masker.
#[local] Existing Instance double_growth.
#[local] Existing Instance raw_flate.
#[local] Existing Instance perfect.
#[local] Instance idle_world : World := {|
  rand _ := [1; 2; 3; 4];
  pooledCompressor _ := mkCompressor raw_flate ([], windowSize) [] windowSize None 0 false;
  pooledArena := arena_new
|}.

Definition a_config : Config := mkConfig Server 0 100 0 true None false [].
Definition a_script : script := [(upto sample 3, None); (from sample 3, None)].

Lemma a_message :
  match NewConn a_config None false a_script with
  | Ok c0 => match NextMessage 50 c0 with
             | Some (c1, Ok op) => match Read 50 5 c1 with Some (_, Ok p) => Some (op, p) | _ => None end
             | _ => None
             end
  | Err _ => None
  end = Some (Opcode.Text, [72; 105]).
Proof. vm_compute. reflexivity. Qed.

Lemma reads_well_formed_witness :
  exists c0 c1 c2, NewConn a_config None false a_script = Ok c0 /\
    NextMessage 50 c0 = Some (c1, Ok Opcode.Text) /\ Read 50 5 c1 = Some (c2, Ok [72; 105]) /\ rx_ok (rx c2).
Proof.
  pose proof a_message as E. destruct (NewConn a_config None false a_script) as [c0 |] eqn:E0; [| discriminate E].
  destruct (NextMessage 50 c0) as [[c1 [op |]] |] eqn:E1; [| discriminate E | discriminate E].
  destruct (Read 50 5 c1) as [[c2 [p |]] |] eqn:E2; [| discriminate E | discriminate E]. injection E as -> ->.
  exists c0, c1, c2. split; [reflexivity |]. split; [exact E1 |]. split; [exact E2 |].
  assert (PoolOk idle_pools) as Hp by (intros i; split; discriminate).
  apply (reads_well_formed a_config None false a_script c0 c2 E0).
  - repeat (apply Forall_cons; split; [apply (bool_decide_unpack _); vm_compute; exact Logic.I |]). apply Forall_nil_2.
  - reflexivity.
  - eapply rtc_l; [by eapply called_NextMessage |]. apply rtc_once. eapply (called_Read 50 5); [discriminate | exact E2].
Defined.
End witness.
