(* ===== verification/NetConn.v ===== *)
(** * The net.Conn adapter and the read loop (ws/netconn.go, ws/serve.go)

    [netConn] is a byte stream over messages; [Serve] hands each message to a
    handler.  What closing the transport returns is an argument. *)

From stdpp Require Import prelude gmap strings.
From S2P Require Import Prelude Mask Errors Header Encoder Decoder Utf8 Close Receiver Sender Bufpool Strings Window Compressor Decompressor Handshake Queue ConnCompress ConnWrite ConnRead.

Import Cr.

Module Nc.

Record netConn `{Flate} `{Inflater} := mkNetConn {
  c : conn;
  op : Z;
  inMsg : bool;
  err : option error;
  closeOnce : bool;
  closeErr : option error
}.

Section ops.
Context `{M : Masker} `{G : Grow} `{F : Flate} `{I : Inflater} `{T : Transport} `{W : World} `{RW : ReadWorld}.
Implicit Types (nc : netConn).

(** [None] is the panic. *)
Definition NetConn (c : conn) (op : Z) : option netConn :=
  if negb (op =? Opcode.Text) && negb (op =? Opcode.Binary) then None
  else Some {| c := c; op := op; inMsg := false; err := None; closeOnce := false; closeErr := None |}.

Definition readErr nc (e : error) : netConn * error :=
  match e with
  | CloseError code _ =>
      let e := if (code =? 1000) || (code =? 1001) || (code =? NoStatus) then Io EOF else e in
      ({| nc with err := Some e |}, e)
  | WsError _ _ => ({| nc with err := Some e |}, e)
  | _ => (nc, e)
  end.

(** The loop of [Read], [n] the length of [p]: [conn_fuel] is for the calls of
    the connection. *)
Fixpoint Read_loop (conn_fuel fuel : nat) nc (n : Z) : option (netConn * result (list Z)) :=
  match fuel with
  | O => None
  | S fuel =>
      '(nc, e) ←
        (if inMsg nc then Some (nc, None)
         else
           '(c', r) ← NextMessage conn_fuel (c nc);
           let nc := {| nc with c := c' |} in
           match r with
           | Err e => let '(nc, e) := readErr nc e in Some (nc, Some e)
           | Ok op' =>
               if negb (op' =? op nc) then
                 let '(w, r) := Cw.Close (wr (c nc)) 1003 (str "unexpected message type") in
                 match r with
                 | None => None
                 | Some _ =>
                     let c' := c nc in
                     let c' := {| c' with wr := w |} in
                     Some ({| nc with c := c'; err := Some (Ws ErrUnexpectedType) |}, Some (Ws ErrUnexpectedType))
                 end
               else Some ({| nc with inMsg := true |}, None)
           end);
      match e with
      | Some e => Some (nc, Err e)
      | None =>
          '(c', r) ← Cr.Read conn_fuel n (c nc);
          let nc := {| nc with c := c' |} in
          match r with
          | Ok chunk => Some (nc, Ok chunk)
          | Err e =>
              if bool_decide (e = Io EOF) then Read_loop conn_fuel fuel {| nc with inMsg := false |} n
              else let '(nc, e) := readErr nc e in Some (nc, Err e)
          end
      end
  end.

Definition Read (fuel : nat) nc (n : Z) : option (netConn * result (list Z)) :=
  match err nc with
  | Some e => Some (nc, Err e)
  | None => if n =? 0 then Some (nc, Ok []) else Read_loop fuel fuel nc n
  end.

(** The length written, and the error. *)
Definition Write nc (p : list Z) : option (netConn * Z * option error) :=
  if len p =? 0 then Some (nc, 0, None)
  else
    let '(w, r) := Cw.Write (wr (c nc)) (op nc) p in
    let c' := c nc in
    let c' := {| c' with wr := w |} in
    let nc := {| nc with c := c' |} in
    match r with
    | None => None
    | Some (Some e) => Some (nc, 0, Some e)
    | Some None => Some (nc, len p, None)
    end.

(** [shut] is what closing the transport returns. *)
Definition Close nc (shut : option error) : option (netConn * option error) :=
  if closeOnce nc then Some (nc, closeErr nc)
  else
    let '(w, r) := Cw.Close (wr (c nc)) 1000 [] in
    match r with
    | None => None
    | Some e =>
        let c' := c nc in
        let c' := {| c' with wr := w |} in
        let e := if bool_decide (e = Some (Ws ErrClosing)) then None else e in
        let e := match shut, e with Some _, None => shut | _, _ => e end in
        let e := match e with None => closeErr nc | Some _ => e end in
        Some ({| nc with c := c'; closeOnce := true; closeErr := e |}, e)
    end.

(** ** [Serve] *)

(** [MessageHandler]: it may write to the connection. *)
Definition MessageHandler : Type := wconn -> Z -> list Z -> wconn * ret.

Fixpoint Serve (conn_fuel fuel : nat) (h : MessageHandler) (c : conn) : option (conn * error) :=
  match fuel with
  | O => None
  | S fuel =>
      '(c, r) ← ReadMessage conn_fuel c;
      match r with
      | Err e => Some (c, e)
      | Ok (op, payload) =>
          let '(w, r) := h (wr c) op payload in
          let c := {| c with wr := w |} in
          match r with
          | None => None
          | Some (Some e) => Some (c, e)
          | Some None => Serve conn_fuel fuel h c
          end
      end
  end.

End ops.
End Nc.
