(* ===== verification/Messages.v ===== *)
(** * Messages: what an application reads

    [ReadMessage] and the inflated message, and then the whole of what a peer
    of this library sends: the theorems on the read side of a connection. *)

From stdpp Require Import prelude gmap.
From S2P Require Import Prelude Mask Errors Header Encoder Decoder Utf8 Close Receiver Stream Refine Pump Wire Traffic Sender Bufpool Window Compressor Decompressor Stored Inflating Inflation Handshake Queue ConnCompress SendFlow ConnWrite WriteSpec Delivery Calls Conversation Sending ConnRead Reading Assembling.

Import Cr.

(** A decompressor from the pool was reset before it was put there. *)
Class ReadWorldOk `{InflaterOk} (RW : ReadWorld) :=
  pooled_decompressor i : decompressor_ok (pooledDecompressor i) /\ Inflating.idle (pooledDecompressor i).

Section finishing.
Context {M : Masker} `{!MaskerOk M} {G : Grow} `{!GrowOk G} {F : Flate} {I : Inflater} {IO : InflaterOk I} {T : Transport} {W : World}.
Context {RW : ReadWorld} {RO : ReadWorldOk RW}.
Implicit Types (c : conn).

(** The connection's window, and a decompressor between messages. *)
Definition mem_ok c : Prop :=
  windows_ok (mem c) /\ pointer_ok (mem c) (rwindow c) /\
  forall d, dec c = Some d -> decompressor_ok d /\ Inflating.idle d.

(** What the peer's window holds too. *)
Definition history c : list Z := dict_at (mem c) (rwindow c).
Definition reach_back c : Z := size_at (mem c) (rwindow c).

(** What stays the same from one message to the next. *)
Definition settings c c' : Prop :=
  hd c' = hd c /\ limit c' = limit c /\ validateUTF8 c' = validateUTF8 c /\ rwindow c' = rwindow c.

Lemma settings_trans c1 c2 c3 : settings c1 c2 -> settings c2 c3 -> settings c1 c3.
Proof. intros (? & ? & ? & ?) (? & ? & ? & ?). split_and!; congruence. Qed.

Lemma waiting_mem c : mem_ok c -> mem_ok (waiting c) /\ dec (waiting c) = None /\ mem (waiting c) = mem c.
Proof.
  intros (H1 & H2 & H3). unfold waiting, freed. cbn. destruct (dec c) as [d |] eqn:Ed; [| by split_and!].
  destruct (H3 d eq_refl) as [_ (_ & Hw & _)]. unfold Dz.ReleaseOutput, Dz.Reset, Dz.finish. rewrite Hw.
  destruct (large c); by split_and!.
Qed.

(** A message that decompresses to [q]. *)
Lemma decompress_post {IS : InflaterSpec I} fuel c p q :
  mem_ok c -> dec c = None -> 0 <= limit c -> len p + limit c + 11 < Z.of_nat fuel ->
  inflated (reach_back c) (history c) (p ++ inflateTail) q -> len q <= limit c ->
  exists d h n b, decompress fuel p c = Some ({| c with dec := Some d; mem := h; draws := n; large := b |}, Ok q) /\
    decompressor_ok d /\ Inflating.idle d /\ windows_ok h /\ pointer_ok h (rwindow c) /\ size_at h (rwindow c) = reach_back c /\
    (rwindow c <> None -> dict_at h (rwindow c) = lastn (reach_back c) (history c ++ q)).
Proof.
  intros (H1 & H2 & _) Hd Hl Hf Hi Hq. unfold decompress.
  destruct (pooled_decompressor (draws c)) as [Hok Hid]. set (d := pooledDecompressor (draws c)) in *.
  assert (acquireDecompressor c = Some ({| c with dec := Some d; draws := draws c + 1 |}, Ok d)) as Ea
    by (unfold acquireDecompressor; by rewrite Hd).
  rewrite (bind_ok _ _ _ _ _ Ea). cbn [mem limit rwindow].
  assert (abandoned d (mem c) = mem c) as Eab by (unfold abandoned; destruct Hid as (-> & _); done).
  destruct (Decompress_outcome fuel d (mem c) p (limit c) (rwindow c)) as (d' & h & r & E & Ho); rewrite ?Eab; try done.
  destruct (Decompress_decodes fuel d (mem c) p (limit c) (rwindow c) q) as (d2 & h2 & E2); rewrite ?Eab; try done.
  rewrite E in E2. injection E2 as <- <- ->. rewrite Eab in Ho. rewrite E. rewrite bool_decide_eq_true_2 in * by done.
  destruct Ho as (O1 & O2 & (_ & O3 & O4 & O5) & O6). cbn [mbind option_bind].
  eexists d', h, _, _. split; [done |]. split_and!; auto. by apply O6.
Qed.

Definition invalid_text c (op : Z) (p : list Z) : bool := (op =? Opcode.Text) && validateUTF8 c && negb (Utf8.Valid p).

Lemma finishMessage_plain fuel op p c :
  Rx.MessageCompressed (rx c) = false ->
  let c1 := {| c with inMessage := false |} in
  finishMessage fuel op p c =
  if invalid_text c op p
  then let e := WsError 1007 (Ws ErrInvalidUTF8) in Some (over {| c1 with wr := closing (wr c) e |} e, Err e)
  else Some (c1, Ok (op, p)).
Proof.
  intros Hc. unfold finishMessage. rewrite bind_put, bind_get. cbn [rx]. rewrite Hc, bind_pure, bind_get.
  cbn [validateUTF8]. unfold invalid_text. destruct (_ && negb _); [by rewrite fail_over | done].
Qed.

Lemma finishMessage_inflated {IS : InflaterSpec I} fuel op p q c :
  Rx.MessageCompressed (rx c) = true -> mem_ok c -> dec c = None -> 0 <= limit c -> len p + limit c + 11 < Z.of_nat fuel ->
  inflated (reach_back c) (history c) (p ++ inflateTail) q -> len q <= limit c -> invalid_text c op q = false ->
  exists c', finishMessage fuel op p c = Some (c', Ok (op, q)) /\ mem_ok c' /\ reach_back c' = reach_back c /\
    (rwindow c <> None -> history c' = lastn (reach_back c) (history c ++ q)) /\ settings c c' /\
    inMessage c' = false /\ readErr c' = readErr c /\ rx c' = rx c /\ incoming c' = incoming c /\ bufLen c' = bufLen c /\
    wr c' = wr c.
Proof.
  intros Hc Hm Hd Hl Hf Hi Hq Hv. unfold finishMessage. rewrite bind_put, bind_get. cbn [rx]. rewrite Hc.
  destruct (decompress_post fuel {| c with inMessage := false |} p q Hm Hd Hl Hf Hi Hq)
    as (d & h & n & b & E & D1 & D2 & D3 & D4 & D5 & D6).
  rewrite (bind_ok _ _ _ _ _ E), bind_get. cbn [validateUTF8]. unfold invalid_text in Hv. rewrite Hv.
  eexists. split; [done |]. split; [split; [done | split; [done | by intros ? [= <-]]] |]. by split_and!.
Qed.
End finishing.

(** ** Reading legal traffic

    The events of frames each legal where it stands: [traffic o], [o] telling
    whether a message is open. *)

Inductive traffic : bool -> list event -> Prop :=
  | traffic_end o : traffic o []
  | traffic_control o op p evs :
      control_ok p -> (op = Opcode.Close -> evs = []) -> traffic o evs -> traffic o (EvControl op p :: evs)
  | traffic_frame o fin op rsv l evs :
      starts op = negb o -> traffic (negb fin) evs ->
      traffic o (EvFrame fin op rsv (len l) :: (EvData <$> l) ++ evs).

Lemma seq_traffic ro cmp sp fs sp' :
  at_frame sp -> Forall frame_ok fs -> legal_run ro cmp sp fs = Some sp' ->
  (s_msg sp = 0 \/ starts (s_msg sp) = true) -> traffic (negb (s_msg sp =? 0)) (seq_events sp fs).
Proof.
  intros Ha Hfs. revert sp Ha. induction Hfs as [| f fs Hf _ IH]; intros sp Ha; [constructor |].
  cbn [legal_run seq_events]. destruct (may_follow ro cmp sp f) eqn:Em; [| done]. intros Hrun Hop.
  pose proof (step_at_frame ro cmp sp f Ha Em) as Ha'. destruct (closed sp) eqn:Ec; [constructor |].
  unfold may_follow in Em. rewrite Ec in Em. apply andb_prop in Em as [Hl Hcl].
  unfold frame_legal, legal in Hl. apply andb_prop in Hl as [_ Hl].
  assert (step_spec sp f = (frame_events f sp).1) as Es by (unfold step_spec; by rewrite Ec).
  rewrite Es in *. unfold frame_events in *. destruct (Opcode.Close <=? f_op f) eqn:Eop.
  - assert (control_ok (f_data f)) as Hctl.
    { split; [by destruct Hf as (_ & _ & ? & _) |]. apply Z.leb_le in Eop. unfold Opcode.Close in Eop. revert Hl.
      destruct (Z.eqb_spec (f_op f) Opcode.Text) as [E | _], (Z.eqb_spec (f_op f) Opcode.Binary) as [E2 | _],
        (Z.eqb_spec (f_op f) Opcode.Continuation) as [E3 | _]; cbn [orb];
        try (unfold Opcode.Text, Opcode.Binary, Opcode.Continuation in *; lia).
      destruct ((f_op f =? Opcode.Close) || _ || _); [intros [_ Hle%Z.leb_le]%andb_prop; exact Hle | done]. }
    unfold end_control in *. destruct (Z.eqb_spec (f_op f) Opcode.Close) as [E | E]; cbn [negb orb] in Hcl.
    + apply bool_decide_eq_true in Hcl. rewrite Hcl in *. cbn [fst snd app].
      assert (seq_events {| s_mode := MClosed; s_msg := s_msg sp; s_comp := s_comp sp |} fs = []) as -> by (by destruct fs).
      apply traffic_control; [done | done | constructor].
    + cbn [fst snd app] in *. constructor; [done | done |]. by apply (IH {| s_mode := MHead []; s_msg := s_msg sp; s_comp := s_comp sp |}).
  - cbn [fst snd] in *. rewrite <- app_comm_cons.
    assert (starts (f_op f) = (s_msg sp =? 0) /\ (starts (f_op f) = true -> f_op f <> 0)) as [Hst Hnz].
    { unfold starts. destruct ((f_op f =? Opcode.Text) || (f_op f =? Opcode.Binary)) eqn:Eb.
      - apply andb_prop in Hl as [-> _]. split; [done |]. intros _ E. by rewrite E in Eb.
      - split; [| done]. destruct (f_op f =? Opcode.Continuation); [by destruct (s_msg sp =? 0) |]. exfalso.
        apply Z.leb_gt in Eop. unfold Opcode.Close, Opcode.Ping, Opcode.Pong in *.
        destruct (Z.eqb_spec (f_op f) 8), (Z.eqb_spec (f_op f) 9), (Z.eqb_spec (f_op f) 10); try done; lia. }
    apply traffic_frame; [by rewrite Hst, negb_involutive |].
    assert (forall s, (s_msg s = if f_final f then 0 else if starts (f_op f) then f_op f else s_msg sp) ->
      negb (s_msg s =? 0) = negb (f_final f) /\ (s_msg s = 0 \/ starts (s_msg s) = true)) as Hs.
    { intros s ->. destruct (f_final f); [by split; [| left] |]. destruct (starts (f_op f)) eqn:Ef.
      - specialize (Hnz eq_refl). split; [by destruct (Z.eqb_spec (f_op f) 0) | by right].
      - symmetry in Hst. rewrite Hst. split; [done | exact Hop]. }
    destruct (Hs (end_data (if starts (f_op f) then {| s_mode := s_mode sp; s_msg := f_op f; s_comp := f_rsv1 f |} else sp) (f_final f)))
      as [E1 E2]; [by destruct (starts (f_op f)) |].
    rewrite <- E1. by apply IH.
Qed.

(** A whole frame, reassembled. *)
Lemma step_frame ms cur fin op rsv l :
  foldl event_step (ms, cur) (EvFrame fin op rsv (len l) :: (EvData <$> l)) =
  let '(o, c, b) := if starts op then (op, rsv, []) else (default (0, false, [], false, 0) cur).1.1 in
  if fin then (ms ++ [(o, c, b ++ l)], None) else (ms, Some ((o, c, b ++ l), false, 0)).
Proof.
  cbn [foldl]. unfold event_step at 2. cbn [fst snd].
  destruct (if starts op then (op, rsv, []) else _) as [[o c] b]. destruct (Z.eqb_spec (len l) 0) as [E | E].
  - apply len_0_nil in E. subst l. rewrite app_nil_r. by destruct fin.
  - rewrite received_data. by destruct (Z.eqb_spec (len l) 0).
Qed.

Lemma step_first ms fin op rsv l :
  starts op = true ->
  foldl event_step (ms, None) (EvFrame fin op rsv (len l) :: (EvData <$> l)) =
  if fin then (ms ++ [(op, rsv, l)], None) else (ms, Some ((op, rsv, l), false, 0)).
Proof. intros Hs. by rewrite step_frame, Hs. Qed.

Lemma step_next ms o c b fin op rsv l :
  starts op = false ->
  foldl event_step (ms, Some ((o, c, b), false, 0)) (EvFrame fin op rsv (len l) :: (EvData <$> l)) =
  if fin then (ms ++ [(o, c, b ++ l)], None) else (ms, Some ((o, c, b ++ l), false, 0)).
Proof. intros Hs. by rewrite step_frame, Hs. Qed.

Lemma received_prefix st evs : exists rest, (foldl event_step st evs).1 = st.1 ++ rest.
Proof.
  revert st. induction evs as [| e evs IH]; intros st; [exists []; by rewrite app_nil_r |].
  cbn [foldl]. destruct (IH (event_step st e)) as [rest ->].
  assert (exists r, (event_step st e).1 = st.1 ++ r) as [r ->].
  { destruct st as [ms cur], e as [fin op rsv n | b | op p | e]; cbn.
    - destruct (n =? 0); [destruct fin |]; cbn; try (by eexists); exists []; by rewrite app_nil_r.
    - destruct cur as [[[[[o c] d] fin] n] |]; cbn; [| exists []; by rewrite app_nil_r].
      destruct (n - 1 =? 0); [destruct fin |]; cbn; try (by eexists); exists []; by rewrite app_nil_r.
    - exists []. by rewrite app_nil_r.
    - exists []. by rewrite app_nil_r. }
  exists (r ++ rest). by rewrite app_assoc.
Qed.

(** An open message never shrinks. *)
Lemma open_grows ms o c b evs :
  traffic true evs ->
  (foldl event_step (ms, Some ((o, c, b), false, 0)) evs).1 = ms \/
  exists q rest, (foldl event_step (ms, Some ((o, c, b), false, 0)) evs).1 = ms ++ (o, c, b ++ q) :: rest.
Proof.
  intros Ht. remember true as op eqn:Eo. revert b Eo.
  induction Ht as [| ? op p evs _ _ Ht IH | ? fin op rsv l evs Hs Ht IH]; intros b ->; [by left | cbn [foldl]; by apply IH |].
  rewrite app_comm_cons, foldl_app, step_next by done. destruct fin.
  - right. destruct (received_prefix (ms ++ [(o, c, b ++ l)], None) evs) as [rest Er]. cbn [fst] in Er.
    rewrite Er. exists l, rest. by rewrite <- app_assoc.
  - destruct (IH (b ++ l) eq_refl) as [-> | (q & rest & ->)]; [by left |]. right. exists (l ++ q), rest.
    by rewrite app_assoc.
Qed.

Section reading.
Context {M : Masker} {G : Grow} {F : Flate} {T : Transport} {W : World}.

(** A handler that answers or ignores what it is given, within [P], and ends
    in [Q] once it is told of a close. *)
Record answers (h : Handler) (P Q : wconn -> Prop) : Prop := {
  answer_ping w p : control_ok p -> P w -> exists w', OnPing h w p = (w', Some None) /\ P w';
  answer_pong w p : control_ok p -> P w -> exists w', OnPong h w p = (w', Some None) /\ P w';
  answer_close w code reason : 0 <= code < 2 ^ 16 -> bytes_ok reason -> P w ->
    exists w' r, OnClose h w code reason = (w', Some r) /\ Q w'
}.

Definition agreeable (h : Handler) (P : wconn -> Prop) : Prop := answers h P (fun _ => True).

Context (h : Handler) (P Q : wconn -> Prop) (Hq : answers h P Q).

(** How reading stops: told of a close, or failing with a close of its own. *)
Definition stopped (w : wconn) : Prop := Q w \/ exists w0 code x, 0 <= code < 2 ^ 16 /\ P w0 /\ w = closing w0 (WsError code x).

Lemma to_frame_traffic w o evs st :
  P w -> traffic o evs ->
  match to_frame h w evs with
  | Took w' (fin, op, rsv, n) evs' => P w' /\ starts op = negb o /\ exists l evs1, n = len l /\
      evs' = (EvData <$> l) ++ evs1 /\ traffic (negb fin) evs1 /\
      foldl event_step st evs = foldl event_step (foldl event_step st (EvFrame fin op rsv (len l) :: (EvData <$> l))) evs1
  | Stopped w' _ => stopped w' /\ foldl event_step st evs = st
  | Starved w' => P w' /\ foldl event_step st evs = st
  | Hangs => False
  end.
Proof.
  intros Hw Ht. revert w Hw. induction Ht as [o | o op p evs Hp Hc Ht IH | o fin op rsv l evs Hs Ht IH]; intros w Hw; cbn [to_frame].
  - done.
  - unfold reply. destruct (op =? Opcode.Ping).
    { destruct (answer_ping _ _ _ Hq w p Hp Hw) as (w' & -> & Hw'). by apply IH. }
    destruct (op =? Opcode.Pong).
    { destruct (answer_pong _ _ _ Hq w p Hp Hw) as (w' & -> & Hw'). by apply IH. }
    destruct (Z.eqb_spec op Opcode.Close) as [E | E]; [| by apply IH].
    pose proof (parseClose_range p (proj1 Hp)) as Hr. destruct (parseClose p) as [code reason]. destruct Hr as [Hr1 Hr2].
    destruct (answer_close _ _ _ Hq w code reason Hr1 Hr2 Hw) as (w' & r & -> & Hw').
    specialize (Hc E). subst evs. destruct r; (split; [by left | done]).
  - split; [done |]. split; [done |]. exists l, evs. split_and!; try done. by rewrite app_comm_cons, foldl_app.
Qed.

Lemma take_data_all l evs : take_data (Z.to_nat (len l)) ((EvData <$> l) ++ evs) = Some (l, evs).
Proof.
  replace (Z.to_nat (len l)) with (length l + 0)%nat by (unfold len; lia). rewrite take_data_app. cbn. by rewrite app_nil_r.
Qed.

Definition fits (lim : Z) (ms : list raw_message) : Prop := Forall (fun m => len m.2 <= lim) ms.

Lemma gather_traffic g lim w (b : list Z) (fin : bool) (l : list Z) evs (ms : list raw_message) (o : Z) (c : bool) :
  let st : list raw_message * option (raw_message * bool * Z) := if fin then (ms ++ [(o, c, b ++ l)], None) else (ms, Some ((o, c, b ++ l), false, 0)) in
  P w -> traffic (negb fin) evs -> (length evs < g)%nat -> fits lim (foldl event_step st evs).1 ->
  match gather g h lim w b fin (len l) ((EvData <$> l) ++ evs) with
  | Took w' p evs' => P w' /\ traffic false evs' /\ foldl event_step st evs = foldl event_step (ms ++ [(o, c, p)], None) evs'
  | Stopped w' _ => stopped w' /\ (foldl event_step st evs).1 = ms
  | Starved w' => P w' /\ (foldl event_step st evs).1 = ms
  | Hangs => False
  end.
Proof.
  revert w b fin l evs. induction g as [| g IH]; intros w b fin l evs st Hw Ht Hg Hfit; [lia |]. cbn [gather].
  destruct (Z.ltb_spec (lim - len b) (len l)) as [Hbig | Hle].
  { assert (forall q rest, (foldl event_step st evs).1 = ms ++ (o, c, b ++ l ++ q) :: rest -> False) as Hno.
    { intros q rest E. rewrite E in Hfit. apply Forall_app in Hfit as [_ Hfit]. apply Forall_cons_1 in Hfit as [Hfit _].
      cbn in Hfit. rewrite !len_app in Hfit. pose proof (len_nonneg q). lia. }
    subst st. destruct fin; cbn [negb] in Ht.
    - exfalso. destruct (received_prefix (ms ++ [(o, c, b ++ l)], None) evs) as [rest E].
      apply (Hno [] rest). rewrite app_nil_r, E. cbn [fst]. by rewrite <- app_assoc.
    - destruct (open_grows ms o c (b ++ l) evs Ht) as [E | (q & rest & E)]; [split; [right; exists w, 1009, (Ws ErrMessageTooLarge); split; [lia | done] | done] |]. exfalso.
      apply (Hno q rest). by rewrite app_assoc. }
  rewrite take_data_all. destruct fin; [by split_and! |]. cbn [negb] in Ht.
  pose proof (to_frame_traffic w true evs st Hw Ht) as Hf. pose proof (to_frame_shorter h w evs) as Hsh.
  destruct (to_frame h w evs) as [w1 [[[fin op] rsv] n] evs1 | w1 x | w1 |]; 
    [| by destruct Hf as [? ->] | by destruct Hf as [? ->] | done].
  destruct Hf as (Hw1 & Hs & l1 & evs2 & -> & -> & Ht2 & E). specialize (Hsh _ _ _ eq_refl).
  subst st. rewrite step_next in E by done. rewrite E in Hfit |- *.
  apply IH; [done | done | rewrite length_app in Hsh; lia | done].
Qed.

Lemma raw_read_traffic lim w evs ms :
  P w -> traffic false evs -> fits lim (foldl event_step (ms, None) evs).1 ->
  match raw_read h lim w evs with
  | Took w' m evs' => P w' /\ traffic false evs' /\ foldl event_step (ms, None) evs = foldl event_step (ms ++ [m], None) evs'
  | Stopped w' _ => stopped w' /\ (foldl event_step (ms, None) evs).1 = ms
  | Starved w' => P w' /\ (foldl event_step (ms, None) evs).1 = ms
  | Hangs => False
  end.
Proof.
  intros Hw Ht Hfit. unfold raw_read. pose proof (to_frame_traffic w false evs (ms, None) Hw Ht) as Hf.
  destruct (to_frame h w evs) as [w1 [[[fin op] rsv] n] evs1 | w1 x | w1 |]; 
    [| by destruct Hf as [? ->] | by destruct Hf as [? ->] | done].
  destruct Hf as (Hw1 & Hs & l & evs2 & -> & -> & Ht2 & E). rewrite step_first in E by done.
  rewrite E in Hfit |- *.
  pose proof (gather_traffic (S (length ((EvData <$> l) ++ evs2))) lim w1 [] fin l evs2 ms op rsv Hw1 Ht2) as Hg.
  cbn [app] in Hg. specialize (Hg ltac:(rewrite length_app; lia) Hfit). by destruct (gather _ _ _ _ _ _ _ _).
Qed.
End reading.

(** ** Reading everything *)

Section stream.
Context {M : Masker} `{!MaskerOk M} {G : Grow} `{!GrowOk G} {F : Flate} {I : Inflater} {IO : InflaterOk I} {IS : InflaterSpec I} {T : Transport} {W : World}.
Context {RW : ReadWorld} {RO : ReadWorldOk RW}.
Implicit Types (c : conn).

(** A caller that reads messages until one fails. *)
Fixpoint read_all (fuel k : nat) c : option (conn * list (Z * list Z) * error) :=
  match k with
  | O => None
  | S k =>
      '(c, r) ← ReadMessage fuel c;
      match r with
      | Err e => Some (c, [], e)
      | Ok m => '(c, ms, e) ← read_all fuel k c; Some (c, m :: ms, e)
      end
  end.

(** What the raw messages unpack to from the history [D] on: each within the
    limit, and valid where that is asked for.  [t] is whether the receiver
    keeps history. *)
Inductive unpacks (bad : Z -> list Z -> bool) (lim size : Z) (t : bool)
    : list Z -> list raw_message -> list (Z * list Z) -> Prop :=
  | unpacks_nil D : unpacks bad lim size t D [] []
  | unpacks_plain D op p raws ms :
      bad op p = false -> unpacks bad lim size t D raws ms ->
      unpacks bad lim size t D ((op, false, p) :: raws) ((op, p) :: ms)
  | unpacks_inflated D op data p raws ms :
      inflated size D (data ++ inflateTail) p -> len p <= lim -> bad op p = false ->
      unpacks bad lim size t (if t then lastn size (D ++ p) else D) raws ms ->
      unpacks bad lim size t D ((op, true, data) :: raws) ((op, p) :: ms).

Definition keeps_history c : bool := negb (bool_decide (rwindow c = None)).

Lemma history_none c : rwindow c = None -> history c = [].
Proof. unfold history. by intros ->. Qed.

(** One message of a legal stream. *)
Lemma ReadMessage_step fuel c sp evs e s' n op rsv p w evs' q :
  between c -> mem_ok c -> expects c sp evs e s' n -> (length evs + n < fuel)%nat -> len p + limit c + 11 < Z.of_nat fuel ->
  raw_read (hd c) (limit c) (wr c) evs = Took w (op, rsv, p) evs' ->
  (if rsv then inflated (reach_back c) (history c) (p ++ inflateTail) q /\ len q <= limit c else q = p) ->
  invalid_text c op q = false ->
  exists c', ReadMessage fuel c = Some (c', Ok (op, q)) /\ between c' /\ mem_ok c' /\ expects c' sp evs' e s' n /\
    settings c c' /\ wr c' = w /\ reach_back c' = reach_back c /\ (length evs' < length evs)%nat /\
    history c' = if rsv && keeps_history c then lastn (reach_back c) (history c ++ q) else history c.
Proof.
  intros Hb Hm He Hf Hfp Hraw Hq Hv. pose proof (ReadMessage_raw fuel c sp evs e s' n Hb He Hf) as H. cbv zeta in H. rewrite Hraw in H.
  destruct H as (c1 & E & Hpr & Hw & He1 & Hr1 & Ho1 & Hc1 & Hsh & _).
  destruct (waiting_same c) as (S1 & S2 & S3 & S4 & S5 & S6 & S7 & S8 & S9 & S10).
  destruct (waiting_mem c Hm) as ((M1 & M2 & M3) & Md & Mm).
  destruct (progress_same _ _ Hpr) as (P1 & P2 & P3 & P4 & P5 & P6 & P7 & P8).
  set (c0 := waiting c) in *. destruct Hb as (B1 & B2 & B3 & B4 & B5).
  assert (hd (entered c0) = hd c0 /\ limit (entered c0) = limit c0 /\ validateUTF8 (entered c0) = validateUTF8 c0 /\
    readErr (entered c0) = readErr c0 /\ dec (entered c0) = dec c0 /\ rwindow (entered c0) = rwindow c0 /\
    mem (entered c0) = mem c0) as (Q1 & Q2 & Q3 & Q4 & Q5 & Q6 & Q7) by (by split_and!).
  assert (hd c0 = hd c) as Eh by (unfold hd; by rewrite S2).
  assert (settings c c1) as Hset by (split_and!; congruence).
  assert (mem_ok c1) as Hm1.
  { unfold mem_ok. rewrite P5, P6, P7, Q5, Q6, Q7, Md. by split_and!. }
  assert (dec c1 = None) as Hd1 by congruence. assert (limit c1 = limit c) as El by congruence.
  assert (reach_back c1 = reach_back c /\ history c1 = history c) as [Erb Ehi].
  { unfold reach_back, history. rewrite P6, P7, Q6, Q7, S8, Mm. done. }
  assert (invalid_text c1 op q = false) as Hv1 by (unfold invalid_text in *; by rewrite P3, Q3, S4).
  rewrite E. destruct rsv.
  - destruct Hq as [Hi Hlq].
    destruct (finishMessage_inflated fuel op p q c1 Hc1 Hm1 Hd1) as (c2 & E2 & X1 & X2 & X3 & X4 & X5 & X6 & X7 & X8 & X9 & X10);
      [lia | by rewrite El | by rewrite Erb, Ehi | by rewrite El | done |].
    destruct He1 as (Y1 & Y2 & Y3 & b & Y4 & Y5 & Y6). pose proof X4 as (_ & Z2 & _).
    exists c2. split; [done |]. split; [unfold between; rewrite X5, X6, X7, Z2, El, P4, Q4, S7; split_and!; (done || lia) |]. split; [done |].
    split; [apply (expects_intro _ b); by rewrite ?X7, ?X8, ?X9 |].
    split; [by eapply settings_trans |]. split; [by rewrite X10 |]. split; [congruence |]. split; [done |].
    cbn [andb]. unfold keeps_history. destruct (bool_decide_reflect (rwindow c = None)) as [En | En]; cbn [negb].
    + rewrite (history_none c En). apply history_none. by destruct X4 as (_ & _ & _ & ->), Hset as (_ & _ & _ & ->).
    + rewrite X3, Erb, Ehi; [done |]. by destruct Hset as (_ & _ & _ & ->).
  - subst q. rewrite finishMessage_plain by done. rewrite Hv1. cbn [andb].
    exists {| c1 with inMessage := false |}. split; [done |].
    split; [unfold between; cbn; rewrite P4, Q4, S7, El; split_and!; (done || lia) |]. by split_and!.
Qed.

(** [out] are the messages still to be read of the legal traffic [evs], none
    over [lim] or [bad]. *)
Definition due_within (bad : Z -> list Z -> bool) (lim : Z) c (sp : spec) (evs : list event) (e : error) (s' : script)
    (n : nat) (out : list (Z * list Z)) : Prop :=
  between c /\ mem_ok c /\ expects c sp evs e s' n /\ traffic false evs /\
  exists ms raws, (foldl event_step (ms, None) evs).1 = ms ++ raws /\ fits lim (ms ++ raws) /\
    unpacks bad lim (reach_back c) (keeps_history c) (history c) raws out.

(** As [ReadMessage] wants them. *)
Definition due c := due_within (invalid_text c) (limit c) c.

(** The next call. *)
Lemma read_next fuel P Q c sp evs e s' n out :
  due c sp evs e s' n out -> answers (hd c) P Q -> P (wr c) ->
  (length evs + n < fuel)%nat -> 2 * limit c + 11 < Z.of_nat fuel ->
  match out with
  | [] => exists c' x, ReadMessage fuel c = Some (c', Err x) /\ (stopped P Q (wr c') \/ P (wr c'))
  | m :: out => exists c' evs', ReadMessage fuel c = Some (c', Ok m) /\ P (wr c') /\ settings c c' /\
      (length evs' < length evs)%nat /\ due c' sp evs' e s' n out
  end.
Proof.
  intros (Hb & Hm & He & Ht & ms & raws & Hraws & Hfit & Hu) Hq Hp Hf Hfl.
  pose proof (raw_read_traffic (hd c) P _ Hq (limit c) (wr c) evs ms Hp Ht) as Hr. rewrite Hraws in Hr. specialize (Hr Hfit).
  pose proof (ReadMessage_raw fuel c sp evs e s' n Hb He Hf) as Hraw. cbv zeta in Hraw.
  destruct (raw_read (hd c) (limit c) (wr c) evs) as [w [[op rsv] p] evs1 | w x | w |] eqn:Er.
  - destruct Hr as (Hp1 & Ht1 & Efold). rewrite Efold in Hraws.
    destruct (received_prefix (ms ++ [(op, rsv, p)], None) evs1) as [rest Erest]. cbn [fst] in Erest.
    rewrite Erest, <- app_assoc in Hraws. apply app_inv_head in Hraws. cbn [app] in Hraws. subst raws.
    assert (len p <= limit c) as Hlp.
    { apply Forall_app in Hfit as [_ Hfit]. apply Forall_cons_1 in Hfit as [Hfit _]. exact Hfit. }
    clear Hraw.
    assert (exists q out', out = (op, q) :: out' /\
      (if rsv then inflated (reach_back c) (history c) (p ++ inflateTail) q /\ len q <= limit c else q = p) /\
      invalid_text c op q = false /\
      unpacks (invalid_text c) (limit c) (reach_back c) (keeps_history c)
        (if rsv && keeps_history c then lastn (reach_back c) (history c ++ q) else history c) rest out') as (q & out' & -> & Hq1 & Hbad & Hu').
    { inversion Hu as [| D op' p' raws' out' Hbad Hu' | D op' p' q raws' out' Hi Hlq Hbad Hu']; subst; by eexists _, _. }
    destruct (ReadMessage_step fuel c sp evs e s' n op rsv p w evs1 q Hb Hm He Hf ltac:(lia) Er Hq1 Hbad)
      as (c' & E & Hb' & Hm' & He' & Hset & Hw' & Hrb & Hsh & Hh). pose proof Hset as (Z1 & Z2 & Z3 & Z4).
    exists c', evs1. rewrite Hw'. split; [done |]. split; [done |]. split; [done |]. split; [done |].
    split; [done |]. split; [done |]. split; [done |]. split; [done |]. exists (ms ++ [(op, rsv, p)]), rest.
    rewrite Z2, Hrb, Hh. split; [done |]. split; [by rewrite <- app_assoc |]. unfold invalid_text, keeps_history. by rewrite Z3, Z4.
  - destruct Hr as [Hst Hr]. assert (raws = []) as -> by (eapply (app_inv_head ms); by rewrite app_nil_r).
    inversion Hu. destruct Hraw as (c' & -> & <- & _). exists (over c' x), x. split; [done |]. by left.
  - destruct Hr as [Hst Hr]. assert (raws = []) as -> by (eapply (app_inv_head ms); by rewrite app_nil_r).
    inversion Hu. destruct Hraw as (c' & -> & <- & _). exists c', (ended (rx c') e). split; [done |]. by right.
  - done.
Qed.

Lemma read_all_post fuel k P Q c sp evs e s' n out :
  due c sp evs e s' n out -> answers (hd c) P Q -> P (wr c) ->
  (length evs + n < fuel)%nat -> 2 * limit c + 11 < Z.of_nat fuel -> (length out < k)%nat ->
  exists c' x, read_all fuel k c = Some (c', out, x).
Proof.
  revert c evs out. induction k as [| k IH]; intros c evs out Hd Hq Hp Hf Hfl Hk; [lia |].
  cbn [read_all]. pose proof (read_next fuel P Q c sp evs e s' n out Hd Hq Hp Hf Hfl) as H. destruct out as [| m out].
  - destruct H as (c' & x & -> & _). by exists c', x.
  - destruct H as (c' & evs' & -> & Hp' & (Z1 & Z2 & _) & Hsh & Hd'). cbn [mbind option_bind].
    destruct (IH c' evs' out Hd') as (c2 & x & ->); rewrite ?Z1, ?Z2; try done; [lia | cbn in Hk; lia |]. by exists c2, x.
Qed.
End stream.

(** ** Property *)

Section refinement.
Context {M : Masker} `{!MaskerOk M} {G : Grow} {F : Flate} {I : Inflater} {T : Transport} {W : World} {RW : ReadWorld}.
Implicit Types (c : conn).

(** One message, of the events to come. *)
Definition read_spec (h : Handler) (lim : Z) (validate : bool) (w : wconn) (evs : list event) : took (Z * list Z) :=
  match raw_read h lim w evs with
  | Took w (op, _, p) evs =>
      if (op =? Opcode.Text) && validate && negb (Utf8.Valid p)
      then let e := WsError 1007 (Ws ErrInvalidUTF8) in Stopped (closing w e) e
      else Took w (op, p) evs
  | Stopped w e => Stopped w e
  | Starved w => Starved w
  | Hangs => Hangs
  end.

(** Over for good: every read call reports the error and does nothing. *)
Definition reads_fail c (e : error) : Prop :=
  forall fuel n sink o,
    NextMessage fuel c = Some (c, Err e) /\ ReadMessage fuel c = Some (c, Err e) /\
    Cr.Read fuel n c = Some (c, Err e) /\ WriteTo fuel sink o c = Some (c, Ok (o, 0, Some e)).

Lemma reads_fail_readErr c e : readErr c = Some e -> reads_fail c e.
Proof.
  intros He fuel n sink o.
  assert (NextMessage fuel c = Some (c, Err e)) as E by (unfold NextMessage; by rewrite bind_get, He).
  split; [done |]. split; [unfold ReadMessage; exact (bind_err _ _ _ _ _ E) |].
  split; [unfold Cr.Read | unfold WriteTo]; by rewrite bind_get, He.
Qed.

Lemma ReadMessage_spec fuel c sp evs e s' n :
  between c -> expects c sp evs e s' n -> Rx.compression (rx c) = false -> (length evs + n < fuel)%nat ->
  match read_spec (hd c) (limit c) (validateUTF8 c) (wr c) evs with
  | Took w m evs' => exists c', ReadMessage fuel c = Some (c', Ok m) /\ wr c' = w /\ between c' /\
      expects c' sp evs' e s' n /\ Rx.compression (rx c') = false /\ settings c c' /\ (length evs' < length evs)%nat
  | Stopped w x => exists c', ReadMessage fuel c = Some (c', Err x) /\ wr c' = w /\ reads_fail c' x
  | Starved w => exists c', ReadMessage fuel c = Some (c', Err (ended (rx c') e)) /\ wr c' = w /\ incoming c' = s'
  | Hangs => ReadMessage fuel c = None
  end.
Proof.
  intros Hb He Hnc Hf. pose proof (ReadMessage_raw fuel c sp evs e s' n Hb He Hf) as H. cbv zeta in H. unfold read_spec.
  destruct (waiting_same c) as (S1 & S2 & S3 & S4 & S5 & S6 & S7 & S8 & S9 & S10). set (c0 := waiting c) in *.
  destruct (raw_read (hd c) (limit c) (wr c) evs) as [w [[op rsv] p] evs1 | w x | w |]; [| | | done].
  - destruct H as (c1 & -> & Hpr & Hw & He1 & Hr1 & Ho1 & Hc1 & Hsh & Hcc & Hrsv). rewrite Hnc in *.
    assert (rsv = false) as -> by (destruct rsv; [by specialize (Hrsv eq_refl) | done]).
    rewrite finishMessage_plain by done. destruct (progress_same _ _ Hpr) as (P1 & P2 & P3 & P4 & _ & P6 & _).
    unfold invalid_text. rewrite P3. change (validateUTF8 (entered c0)) with (validateUTF8 c0). rewrite S4.
    destruct (_ && negb _).
    + eexists. split; [done |]. split; [by rewrite <- Hw |]. by apply reads_fail_readErr.
    + destruct Hb as (B1 & B2 & B3 & B4 & B5). eexists. split; [done |]. split; [done |].
      split; [| split; [done | split; [done | split; [| done]]]].
      2: { assert (hd (entered c0) = hd c) as Eh by (change (hd (entered c0)) with (hd c0); unfold hd; by rewrite S2).
        split; [rewrite <- Eh, <- P1; reflexivity |]. split; [| split; [done |]].
        - change (limit c1 = limit c). rewrite P2. exact S3.
        - change (rwindow c1 = rwindow c). rewrite P6. exact S8. }
      unfold between. cbn. rewrite P4, P2. change (limit (entered c0)) with (limit c0).
      change (readErr (entered c0)) with (readErr c0). rewrite S3, S7. split_and!; (done || lia).
  - destruct H as (c1 & -> & Hw & _). exists (over c1 x). split; [done |]. split; [done |]. by apply reads_fail_readErr.
  - destruct H as (c1 & -> & Hw & Hs & _). by exists c1.
Qed.
(** C4. [ReadMessage] on an uncompressed connection is a function of what the
    bytes mean, whatever the reads of the transport cut them into and whether
    a payload goes through the read buffer or past it.  Between messages, with
    the events [evs] to come: it answers the control frames in order through
    the handler and returns the next message, gathered over its frames, and is
    ready for the one after it; a protocol error, a message over the limit, an
    invalid text or a close ends the connection, with the close frame sent
    that the error asks for, and every later read call reports that error; and
    when the stream ends first the transport's error is returned, [io.EOF]
    inside a message as [io.ErrUnexpectedEOF].  It always returns, unless the
    handler does not. *)
Theorem ReadMessage_refines fuel c sp evs e s' n :
  between c -> expects c sp evs e s' n -> Rx.compression (rx c) = false -> (length evs + n < fuel)%nat ->
  match read_spec (hd c) (limit c) (validateUTF8 c) (wr c) evs with
  | Took w m evs' => exists c', ReadMessage fuel c = Some (c', Ok m) /\ wr c' = w /\ between c' /\
      expects c' sp evs' e s' n /\ Rx.compression (rx c') = false
  | Stopped w x => exists c', ReadMessage fuel c = Some (c', Err x) /\ wr c' = w /\ reads_fail c' x
  | Starved w => exists c', ReadMessage fuel c = Some (c', Err (ended (rx c') e)) /\ wr c' = w /\ incoming c' = s'
  | Hangs => ReadMessage fuel c = None
  end.
Proof.
  intros Hb He Hnc Hf. pose proof (ReadMessage_spec fuel c sp evs e s' n Hb He Hnc Hf) as H.
  destruct (read_spec _ _ _ _ _) as [w m evs' | w x | w |]; [| done..].
  destruct H as (c' & H1 & H2 & H3 & H4 & H5 & _). by exists c'.
Qed.
End refinement.

(** ** A connection, for the witnesses *)

Definition fresh_pools : ReadWorld := {| pooledDecompressor _ := Dz.zero; pooledMessage _ := 0 |}.

#[local] Existing Instance fresh_pools.

Lemma fresh_pools_ok : ReadWorldOk fresh_pools.
Proof. intros i. change (decompressor_ok Dz.zero /\ Inflating.idle Dz.zero). by split_and!. Qed.

#[local] Existing Instance swar_masker.
#[local] Existing Instance double_growth.
#[local] Existing Instance raw_flate.
#[local] Existing Instance perfect.
#[local] Existing Instance demo_world.

(** A server about to read a text message and a ping. *)
Definition demo_server : conn :=
  {| wr := newWrite (mkConfig Server 0 0 0 false None false []) true; handler := None; limit := 100; validateUTF8 := true;
     rx := server; bufLen := 4; msg := None; msgHint := 0; inMessage := false; readErr := None; dec := None;
     rwindow := None; mem := ∅; dstreaming := false; large := false; srcErr := None;
     incoming := [(upto sample 3, None); (from sample 3, None)]; draws := 0 |}.

Lemma ReadMessage_refines_witness :
  exists c', ReadMessage 50 demo_server = Some (c', Ok (Opcode.Text, [72; 105])) /\ between c'.
Proof.
  assert (expects demo_server (run Server false (abs server) sample).1 (run Server false (abs server) sample).2 (Io EOF) []
    (length sample)) as He.
  { apply (expects_intro _ sample); try reflexivity.
    - split; [apply Init_ok | by split].
    - repeat (apply Forall_cons; split; [apply (bool_decide_unpack _); vm_compute; exact Logic.I |]). apply Forall_nil_2. }
  pose proof (ReadMessage_refines 50 demo_server _ _ _ _ _ ltac:(by split_and!) He eq_refl
    ltac:(apply (bool_decide_unpack _); vm_compute; exact Logic.I)) as H.
  assert (read_spec (hd demo_server) (limit demo_server) (validateUTF8 demo_server) (wr demo_server)
    (run Server false (abs server) sample).2 =
    Took (wr demo_server) (Opcode.Text, [72; 105]) [EvControl Opcode.Ping [7]]) as E by (vm_compute; reflexivity).
  rewrite E in H. destruct H as (c' & H1 & _ & H2 & _). exists c'. split; [exact H1 | exact H2].
Defined.
