(* ===== verification/Exchange.v ===== *)
(** * Exchange: two connections talking

    The write side of one connection and the read side of another, over a
    transport that cuts the bytes wherever it likes. *)

From stdpp Require Import prelude gmap.
From S2P Require Import Prelude Mask Errors Header Encoder Decoder Utf8 Close Receiver Stream Refine Pump Wire Traffic Sender Bufpool Window Compressor Decompressor Stored Inflating Inflation Handshake Queue ConnCompress SendFlow ConnWrite WriteSpec Delivery Calls Conversation Sending ConnRead Reading Assembling Messages.

Import Cr.

(** ** What the transport delivers *)

(** Reads of whole pieces, then the end. *)
Definition pieces (chunks : list (list Z)) : script := (fun b => (b, None)) <$> chunks.

Lemma segment_pieces chunks :
  Forall (fun b => b <> []) chunks -> segment 100 (pieces chunks) = (concat chunks, Io EOF, []).
Proof.
  intros H. induction H as [| b chunks Hb _ IH]; [done |].
  assert (forall s, segment 100 ((b, None) :: s) =
    if len b =? 0 then segment 99 s else let '(b', e, s'') := segment 100 s in (b ++ b', e, s'')) as E by done.
  change (pieces (b :: chunks)) with ((b, None) :: pieces chunks). rewrite E, IH.
  destruct (Z.eqb_spec (len b) 0) as [E0 | _]; [| done]. by apply len_0_nil in E0.
Qed.

Lemma pieces_ok chunks : Forall bytes_ok chunks -> script_ok (pieces chunks).
Proof. intros H. unfold script_ok, pieces. apply Forall_fmap. exact H. Qed.

(** A byte means at most one event. *)
Lemma run_events_length ro comp sp b : (length (run ro comp sp b).2 <= length b)%nat.
Proof.
  revert sp. induction b as [| x b IH]; intros sp; [done |]. cbn [run].
  assert (length (spec_byte ro comp sp x).2 <= 1)%nat as Hx.
  { assert (forall s op p, (length (end_control s op p).2 <= 1)%nat) as He.
    { intros s op p. unfold end_control, spec_fail. repeat case_match; cbn; lia. }
    unfold spec_byte, on_header, spec_fail. destruct (s_mode sp) as [acc | fin rem key off | op rem buf key off | | e]; cbn; try lia.
    - destruct (header_complete _); [| cbn; lia]. destruct (bad_length _); [cbn; lia |].
      destruct (negb _); [cbn; lia |]. destruct (Opcode.Close <=? _).
      + destruct (_ =? 0); [apply He | cbn; lia].
      + destruct (_ =? 0); cbn; lia.
    - destruct (rem =? 1); cbn; lia.
    - destruct (rem =? 1); [apply He | cbn; lia]. }
  destruct (spec_byte ro comp sp x) as [s1 e1]. specialize (IH s1). destruct (run ro comp s1 b) as [s2 e2].
  cbn in *. rewrite length_app. lia.
Qed.

(** A frame's byte is at most one byte of a message. *)
Lemma event_step_short evs ms cur N :
  0 <= N -> Forall (fun m => len m.2 <= N) ms -> match cur with Some (m, _, _) => len m.2 <= N | None => True end ->
  Forall (fun m => len m.2 <= N + len evs) (foldl event_step (ms, cur) evs).1.
Proof.
  revert ms cur N. induction evs as [| ev evs IH]; intros ms cur N HN Hms Hcur.
  { cbn [foldl fst]. change (len []) with 0. by rewrite Z.add_0_r. }
  rewrite len_cons, Z.add_assoc. cbn [foldl].
  assert (forall ms', Forall (fun m => len m.2 <= N) ms' -> Forall (fun m : raw_message => len m.2 <= N + 1) ms') as Hup.
  { intros ms' H. eapply Forall_impl; [exact H |]. cbn. lia. }
  assert (forall (m : raw_message) fin k, len m.2 <= N + 1 ->
    Forall (fun m => len m.2 <= N + 1 + len evs) (foldl event_step
      (if k =? 0 then if (fin : bool) then (ms ++ [m], None) else (ms, Some (m, false, 0)) else (ms, Some (m, fin, k))) evs).1) as Hclose.
  { intros m fin k Hm. destruct (k =? 0); [destruct fin |]; (apply IH; [lia | try by apply Hup | try done]).
    apply Forall_app. split; [by apply Hup | by constructor]. }
  destruct ev as [fin op rsv k | b | op p | x]; cbn [event_step fst snd].
  - apply Hclose. destruct (starts op); [by change (0 <= N + 1); lia |]. destruct cur as [[[m f] k'] |]; cbn; [lia | by change (0 <= N + 1); lia].
  - destruct cur as [[[[[o c] d] f] k'] |]; [| apply IH; [lia | by apply Hup | done]].
    apply Hclose. cbn in *. rewrite len_app. change (len [b]) with 1. lia.
  - apply IH; [lia | by apply Hup |]. destruct cur as [[[m f] k'] |]; [lia | done].
  - apply IH; [lia | by apply Hup |]. destruct cur as [[[m f] k'] |]; [lia | done].
Qed.

Lemma received_short evs : fits (len evs) (received evs).
Proof. exact (event_step_short evs [] None 0 (Z.le_refl 0) ltac:(constructor) Logic.I). Qed.

(** ** What the messages unpack to *)

Section unpack.
Context {M : Masker} `{!MaskerOk M} {G : Grow} `{!GrowOk G} {F : Flate} {FO : FlateOk F}.
Context {I : Inflater} {IO : InflaterOk I} {IS : InflaterSpec I} {AG : Agrees FO IS}.

Lemma decoded_unpacks v0 raws ms v bad lim size :
  decoded v0 raws ms v -> Forall (fun m => len m.2 <= lim /\ bad m.1 m.2 = false) ms ->
  (forall w, v0 = Some w -> window_ok w /\ Win.Size w = size) ->
  let t := negb (bool_decide (v0 = None)) in
  (v = None <-> v0 = None) /\ (forall w, v = Some w -> window_ok w /\ Win.Size w = size) /\
  forall raws2 ms2, unpacks bad lim size t (Win.dict v) raws2 ms2 ->
    unpacks bad lim size t (Win.dict v0) (raws ++ raws2) (ms ++ ms2).
Proof.
  intros Hd Hms Hv0 t. induction Hd as [| raws ms v op p Hd IH | raws ms v op data p Hd IH Hi]; [done | |].
  - apply Forall_app in Hms as [Hms [[Hl Hb] _]%Forall_cons_1]. destruct (IH Hms) as (H1 & H2 & H3).
    split; [done |]. split; [done |]. intros raws2 ms2 Hu. rewrite <- !app_assoc. apply H3. cbn [app]. by constructor.
  - apply Forall_app in Hms as [Hms [[Hl Hb] _]%Forall_cons_1]. destruct (IH Hms) as (H1 & H2 & H3).
    split; [by rewrite fmap_None |]. split.
    { intros w (w' & -> & ->)%fmap_Some. destruct (H2 w' eq_refl) as [Hok <-].
      split; [by apply remember_ok | apply remember_Size]. }
    intros raws2 ms2 Hu. rewrite <- !app_assoc. apply H3. cbn [app].
    assert (len (Win.dict v) <= windowSize) as Hlen.
    { destruct v as [w |]; [| done]. pose proof (dict_len w). pose proof (Size_pos w). lia. }
    eapply unpacks_inflated; [| exact Hl | exact Hb |].
    + apply inflated_last. change inflateTail with (sync_tail ++ final_block). rewrite app_assoc. by apply agrees.
    + subst t. destruct (bool_decide_reflect (v0 = None)) as [E | E]; cbn [negb] in *.
      * rewrite (proj2 H1 E) in *. exact Hu.
      * destruct v as [w |]; [| by destruct E; apply H1]. destruct (H2 w eq_refl) as [Hok <-].
        cbn [fmap option_fmap option_map] in Hu. by rewrite remember_dict in Hu.
Qed.
End unpack.

(** ** A connection just made *)

Section exchange.
Context {M : Masker} `{!MaskerOk M} {G : Grow} `{!GrowOk G} {F : Flate} {FO : FlateOk F} {FB : FlateBytes F}.
Context {I : Inflater} {IO : InflaterOk I} {IS : InflaterSpec I} {AG : Agrees FO IS}.
Context {T : Transport} {R : Reliable T} {W : World} {RW : ReadWorld} {RO : ReadWorldOk RW}.

(** The default handler's calls keep to what a connection's calls do. *)
Section default.
Context (cw : Z) {WO : WorldOk W cw} (ro : Role) (cfg : option Hs.Compression) (w0 : option Window) (g : ghost) (n : Z).

Lemma default_ping w p :
  control_ok p -> post cw ro cfg w0 w g n ->
  exists w', Cw.Pong w p = (w', Some None) /\ post cw ro cfg w0 w' g n /\
    frag w' = frag w /\ Tx.closeSent (tx w') = Tx.closeSent (tx w) /\ queue w' = queue w.
Proof.
  intros [Hp Hl] (fw & fq & Hio & Hw). unfold Cw.Pong.
  pose proof (send_ping_keeps cw ro cfg w0 w fw fq g n Opcode.Pong p Hio Hw ltac:(split; [done | lia]) ltac:(by right)) as H.
  destruct (Cw.send w Opcode.Pong p) as [w' r]. rewrite orb_true_r in H. apply Z.leb_le in Hl. rewrite Hl in H.
  destruct H as (-> & E1 & E2 & E3 & H). by exists w'.
Qed.

Lemma default_close w code reason :
  0 <= code < 2 ^ 16 -> post cw ro cfg w0 w g n ->
  exists w' r, OnClose DefaultControlHandler w code reason = (w', Some r) /\ post cw ro cfg w0 w' g n.
Proof.
  intros Hc (fw & fq & Hio & Hw). cbn [OnClose DefaultControlHandler].
  set (k := if code =? NoStatus then 0 else code).
  assert (0 <= k < 2 ^ 16) as Hk by (unfold k; destruct (code =? NoStatus); lia).
  pose proof (Close_keeps cw ro cfg w0 w fw fq g n k [] Hio Hw (conj Hk (Forall_nil_2 _))) as H.
  destruct (Cw.Close w k []) as [w' r]. destruct (call_allowed _ _); [destruct H as (-> & _ & H) | destruct H as [[e ->] H]];
    by eexists _, _.
Qed.

Lemma default_keeps : answers DefaultControlHandler (fun w => post cw ro cfg w0 w g n) (fun w => post cw ro cfg w0 w g n).
Proof.
  split; [| by intros w p _ H; exists w | by intros; apply default_close].
  intros w p Hp Hw. destruct (default_ping w p Hp Hw) as (w' & E & H & _). by exists w'.
Qed.

Lemma default_answers :
  let P w := post cw ro cfg w0 w g n /\ fop (frag w) = 0 /\ Tx.closeSent (tx w) = false /\ queue w = None in
  answers DefaultControlHandler P (fun w => post cw ro cfg w0 w g n).
Proof.
  intros P. split; [| by intros w p _ H; exists w | by intros w code reason Hc _ [Hw _]; apply default_close].
  intros w p Hp [Hw Hs]. destruct (default_ping w p Hp Hw) as (w' & E & H & E1 & E2 & E3).
  exists w'. unfold P. by rewrite E1, E2, E3.
Qed.
End default.

(** A connection just made, with [n] messages to send. *)
Lemma new_answering rcfg {WO : WorldOk W (Sending.reach rcfg)} vec bits n :
  0 <= n < 2 ^ 64 -> Sending.reach rcfg <= Win.Size (Window_new bits) ->
  let w := newWrite rcfg vec in
  post (Sending.reach rcfg) (cRole rcfg) (cCompression rcfg) (peer_window rcfg bits) w (Ghost None []) n /\
  fop (frag w) = 0 /\ Tx.closeSent (tx w) = false /\ queue w = None.
Proof.
  intros Hn Hr w. split; [| done]. exists [], []. split; [apply new_io | by apply new_winv].
Qed.

Lemma answers_weaken h P Q Q' : (forall w, Q w -> Q' w) -> answers h P Q -> answers h P Q'.
Proof.
  intros HQ [H1 H2 H3]. split; [done | done |]. intros w code reason Hc Hr HP.
  destruct (H3 w code reason Hc Hr HP) as (w' & r & E & H). exists w', r. split; [done | by apply HQ].
Qed.

Lemma default_agreeable rcfg {WO : WorldOk W (Sending.reach rcfg)} vec :
  exists P, agreeable DefaultControlHandler P /\ P (newWrite rcfg vec).
Proof.
  pose proof (default_keeps (Sending.reach rcfg) (cRole rcfg) (cCompression rcfg) (peer_window rcfg 15) (Ghost None []) 0) as Hd.
  eexists. split; [exact (answers_weaken _ _ _ _ (fun _ _ => Logic.I) Hd) |].
  apply (new_answering rcfg vec 15 0); [lia |]. unfold Sending.reach. destruct (cCompression rcfg) as [c |]; [apply Size_pos | done].
Qed.

(** The most a connection's messages may be long. *)
Definition message_limit (cfg : Config) : Z := Or (MaxMessageSize cfg) DefaultMaxMessageSize.

(** The window a connection keeps of what it receives. *)
Definition receive_window (cfg : Config) : option Window :=
  match cCompression cfg with
  | Some c => window_for (Hs.ReceiveContextTakeover c) (Hs.ReceiveWindowBits c)
  | None => None
  end.

(** Two ends of one connection, as a handshake leaves them. *)
Definition peers (cfg rcfg : Config) : Prop :=
  cRole rcfg = peer_role (cRole cfg) /\
  match cCompression cfg, cCompression rcfg with
  | None, None => True
  | Some c, Some rc =>
      Hs.ReceiveContextTakeover rc = Hs.SendContextTakeover c /\
      Sending.reach cfg <= Win.Size (Window_new (Hs.ReceiveWindowBits rc))
  | _, _ => False
  end.

Definition receive_bits (cfg : Config) : Z :=
  match cCompression cfg with Some c => Hs.ReceiveWindowBits c | None => 15 end.

Lemma peers_window cfg rcfg :
  peers cfg rcfg -> compressing cfg = negb (bool_decide (cCompression rcfg = None)) /\
    peer_window cfg (receive_bits rcfg) = receive_window rcfg /\
    Sending.reach cfg <= Win.Size (Window_new (receive_bits rcfg)).
Proof.
  intros [_ Hp]. unfold compressing, peer_window, receive_window, receive_bits, Sending.reach in *.
  destruct (cCompression cfg) as [c |], (cCompression rcfg) as [rc |]; try done. by destruct Hp as [-> Hp].
Qed.

Lemma NewConn_fresh rcfg h vec s c :
  NewConn rcfg h vec s = Ok c -> MaxMessageSize rcfg < 2 ^ 63 ->
  between c /\ mem_ok c /\ 0 < bufLen c /\ rx c = Rx.Init Rx.zero (cRole rcfg) (negb (bool_decide (cCompression rcfg = None))) /\
  incoming c = s /\ hd c = default DefaultControlHandler h /\ wr c = newWrite rcfg vec /\ limit c = message_limit rcfg /\
  validateUTF8 c = ValidateUTF8 rcfg /\ history c = Win.dict (receive_window rcfg) /\
  keeps_history c = negb (bool_decide (receive_window rcfg = None)) /\
  (forall w, receive_window rcfg = Some w -> reach_back c = Win.Size w).
Proof.
  unfold NewConn. destruct (validConfig rcfg) eqn:Ev; [| done]. cbn [negb]. intros [= <-] Hm.
  unfold validConfig in Ev. apply andb_prop in Ev as [Ev _]. apply negb_true_iff in Ev.
  rewrite !orb_false_iff, !Z.ltb_ge in Ev. destruct Ev as [[Hrb Hmm] _].
  fold (receive_window rcfg).
  assert (receive_window rcfg = None \/ exists w, receive_window rcfg = Some w /\ window_ok w) as Hw.
  { unfold receive_window, window_for. destruct (cCompression rcfg) as [rc |]; [| by left].
    destruct (Hs.ReceiveContextTakeover rc); [right; by eexists | by left]. }
  assert (forall a b, 0 <= a -> 0 < b -> 0 < Or a b) as Hor.
  { intros a b Ha Hb. unfold Or. destruct (Z.eqb_spec a 0); lia. }
  assert (message_limit rcfg < 2 ^ 63) as Hlim.
  { unfold message_limit, Or. destruct (_ =? 0); [reflexivity | done]. }
  pose proof (Hor (MaxMessageSize rcfg) DefaultMaxMessageSize Hmm eq_refl) as Hl. fold (message_limit rcfg) in Hl.
  pose proof (Hor (ReadBufferSize rcfg) DefaultReadBufferSize Hrb eq_refl) as Hb.
  destruct Hw as [Ew | (w & Ew & Hok)].
  - rewrite Ew. split; [split_and!; (done || (cbn; fold (message_limit rcfg); lia)) |].
    split; [split; [intros i x X; cbn [mem] in X; by rewrite lookup_empty in X | by split] |]. by split_and!.
  - rewrite Ew. split; [split_and!; (done || (cbn; fold (message_limit rcfg); lia)) |].
    split.
    { split; [intros i x X; cbn [mem] in X; by apply lookup_singleton_Some in X as [_ <-] |]. split; [by eexists; apply lookup_singleton_eq | done]. }
    split_and!; try done. intros w' [= <-]. reflexivity.
Qed.

(** The peer's connection over legal traffic. *)
Lemma NewConn_due_within bad lim rcfg h vec chunks c fs sp v ms :
  NewConn rcfg h vec (pieces chunks) = Ok c -> MaxMessageSize rcfg < 2 ^ 63 ->
  Forall (fun b => b <> []) chunks -> concat chunks = concat (wire <$> fs) -> Forall frame_ok fs ->
  let cmp := negb (bool_decide (cCompression rcfg = None)) in
  legal_run (cRole rcfg) cmp spec_init fs = Some sp ->
  decoded (receive_window rcfg) (assembled fs).1 ms v ->
  fits lim (received (run (cRole rcfg) cmp spec_init (concat chunks)).2) ->
  Forall (fun m => len m.2 <= lim /\ bad m.1 m.2 = false) ms ->
  due_within bad lim c sp (seq_events spec_init fs) (Io EOF) [] (length (concat chunks)) ms /\
  (length (seq_events spec_init fs) <= length (concat chunks))%nat /\
  hd c = default DefaultControlHandler h /\ wr c = newWrite rcfg vec /\ limit c = message_limit rcfg /\ 0 <= limit c.
Proof.
  intros Hc Hmax Hne Ech Hfs cmp Hleg Hdec Hfit Hms.
  destruct (NewConn_fresh _ _ _ _ _ Hc Hmax) as (B & Mo & N1 & N2 & N3 & N4 & N5 & N6 & N7 & N8 & N9 & N10).
  fold cmp in N2. pose proof (run_seq _ _ spec_init fs sp spec_init_at Hfs Hleg) as Hrun. rewrite <- Ech in Hrun.
  assert (bytes_ok (concat chunks)) as Hb by (rewrite Ech; by apply bytes_ok_wires).
  pose proof (run_events_length (cRole rcfg) cmp spec_init (concat chunks)) as Hev. rewrite Hrun in Hev, Hfit. cbn [snd] in Hev, Hfit.
  set (evs := seq_events spec_init fs) in *.
  pose proof (received_assembled _ _ fs sp Hleg) as Hrec. fold evs in Hrec. rewrite Hrec in Hfit. unfold received in Hrec.
  destruct (decoded_unpacks _ _ _ _ bad lim (reach_back c) Hdec Hms) as (_ & _ & Hu).
  { intros w Ew. split; [| symmetry; by apply N10]. unfold receive_window, window_for in Ew.
    destruct (cCompression rcfg); [| done]. destruct (Hs.ReceiveContextTakeover _); [| done]. by injection Ew as <-. }
  specialize (Hu [] [] (unpacks_nil _ _ _ _ _)). rewrite !app_nil_r in Hu.
  split; [| split; [exact Hev |]; pose proof B as (_ & _ & _ & _ & B5); split_and!; done || lia].
  split; [done |]. split; [done |]. split; [| split].
  - apply (expects_intro _ (concat chunks)); try done.
    + rewrite N2. destruct (Init_ok Rx.zero (cRole rcfg) cmp) as (Hok & _). by split.
    + rewrite N3. by apply pieces_ok, bytes_ok_concat.
    + rewrite N3. by apply segment_pieces.
    + rewrite N2. exact Hrun.
  - exact (seq_traffic _ _ spec_init fs sp spec_init_at Hfs Hleg (or_introl eq_refl)).
  - exists [], (assembled fs).1. cbn [app]. rewrite N8, N9. by split_and!.
Qed.

(** What a sender's calls have put on the wire is due at its peer. *)
Lemma post_due_within bad lim cfg (cw : Z) w g n rcfg h vec chunks c :
  peers cfg rcfg -> MaxMessageSize rcfg < 2 ^ 63 ->
  post cw (cRole cfg) (cCompression cfg) (peer_window cfg (receive_bits rcfg)) w g n ->
  concat chunks = written (out (Cw.run 2 w)) -> Forall (fun b => b <> []) chunks ->
  NewConn rcfg h vec (pieces chunks) = Ok c ->
  let evs := (run (peer_role (cRole cfg)) (compressing cfg) spec_init (concat chunks)).2 in
  fits lim (received evs) -> Forall (fun m => len m.2 <= lim /\ bad m.1 m.2 = false) (g_sent g) ->
  exists sp, due_within bad lim c sp evs (Io EOF) [] (length (concat chunks)) (g_sent g) /\ (length evs <= length (concat chunks))%nat /\
    hd c = default DefaultControlHandler h /\ wr c = newWrite rcfg vec /\ limit c = message_limit rcfg /\ 0 <= limit c.
Proof.
  intros Hp Hmax Hpost Ech Hne Hc evs Hfit Hms. destruct (peers_window _ _ Hp) as (Ecmp & Ewin & _).
  apply post_wire in Hpost as (fs & sp & v & Hw & Hfs & Hleg & Hdec). subst evs.
  destruct Hp as [Hro _]. unfold compressing in *. rewrite <- Hro, Ecmp in *. rewrite Ewin in Hdec. rewrite Hw in Ech.
  pose proof (run_seq _ _ spec_init fs sp spec_init_at Hfs Hleg) as Hrun. rewrite <- Ech in Hrun. exists sp.
  replace (run (cRole rcfg) (negb (bool_decide (cCompression rcfg = None))) spec_init (concat chunks)).2 with (seq_events spec_init fs)
    by (by rewrite Hrun).
  by apply (NewConn_due_within bad lim rcfg h vec chunks c fs sp v (g_sent g)).
Qed.

Lemma post_due cfg (cw : Z) w g n rcfg h vec chunks c :
  peers cfg rcfg -> MaxMessageSize rcfg < 2 ^ 63 ->
  post cw (cRole cfg) (cCompression cfg) (peer_window cfg (receive_bits rcfg)) w g n ->
  concat chunks = written (out (Cw.run 2 w)) -> Forall (fun b => b <> []) chunks ->
  NewConn rcfg h vec (pieces chunks) = Ok c ->
  fits (message_limit rcfg) (received (run (peer_role (cRole cfg)) (compressing cfg) spec_init (concat chunks)).2) ->
  Forall (fun m => len m.2 <= message_limit rcfg /\
    (m.1 = Opcode.Text -> ValidateUTF8 rcfg = true -> Utf8.Valid m.2 = true)) (g_sent g) ->
  exists sp evs, due c sp evs (Io EOF) [] (length (concat chunks)) (g_sent g) /\ (length evs <= length (concat chunks))%nat /\
    hd c = default DefaultControlHandler h /\ wr c = newWrite rcfg vec /\ limit c = message_limit rcfg /\ 0 <= limit c.
Proof.
  intros Hp Hmax Hpost Ech Hne Hc Hfit Hms.
  destruct (NewConn_fresh _ _ _ _ _ Hc Hmax) as (_ & _ & _ & _ & _ & _ & _ & N6 & N7 & _).
  destruct (post_due_within (invalid_text c) (message_limit rcfg) cfg cw w g n rcfg h vec chunks c Hp Hmax Hpost Ech Hne Hc Hfit) as (sp & Hd & Hrest).
  { eapply Forall_impl; [exact Hms |]. intros m [H1 H2]. split; [done |]. unfold invalid_text. rewrite N7.
    destruct (Z.eqb_spec m.1 Opcode.Text) as [E | E]; [| done]. destruct (ValidateUTF8 rcfg); [| done]. by rewrite H2. }
  eexists sp, _. split; [| exact Hrest]. unfold due. by rewrite N6.
Qed.

(** Fuel for reading all of [chunks]. *)
Lemma read_fuel (evs : list event) (chunks : list (list Z)) lim fuel :
  (length evs <= length (concat chunks))%nat -> 0 <= lim -> 2 * len (concat chunks) + 2 * lim + 11 < Z.of_nat fuel ->
  (length evs + length (concat chunks) < fuel)%nat /\ 2 * lim + 11 < Z.of_nat fuel.
Proof. unfold len. lia. Qed.

Lemma exchange_ok cfg {WO : WorldOk W (Sending.reach cfg)} vectored os rcfg h vec P chunks c fuel k :
  peers cfg rcfg -> Forall wop_ok os -> len os < 2 ^ 64 -> MaxMessageSize rcfg < 2 ^ 63 ->
  let '(s, rs) := do_ops (newWrite cfg vectored) os in
  let sent := sent_messages os rs in
  concat chunks = written (out (Cw.run 2 s)) -> Forall (fun b => b <> []) chunks ->
  NewConn rcfg h vec (pieces chunks) = Ok c ->
  agreeable (default DefaultControlHandler h) P -> P (newWrite rcfg vec) ->
  fits (message_limit rcfg) (received (run (peer_role (cRole cfg)) (compressing cfg) spec_init (concat chunks)).2) ->
  Forall (fun m => len m.2 <= message_limit rcfg /\
    (m.1 = Opcode.Text -> ValidateUTF8 rcfg = true -> Utf8.Valid m.2 = true)) sent ->
  2 * len (concat chunks) + 2 * message_limit rcfg + 11 < Z.of_nat fuel -> (length sent < k)%nat ->
  exists c' e, read_all fuel k c = Some (c', sent, e).
Proof.
  intros Hp Hos Hlen Hmax. pose proof (len_nonneg os) as Hpos.
  destruct (peers_window _ _ Hp) as (_ & _ & Hr).
  pose proof (new_winv cfg vectored (receive_bits rcfg) (len os + 0) ltac:(lia) Hr) as Hinv.
  pose proof (do_ops_post (Sending.reach cfg) (cRole cfg) (cCompression cfg) (peer_window cfg (receive_bits rcfg)) os _ [] [] _ 0
    ltac:(lia) (new_io cfg vectored) Hinv Hos) as H.
  destruct (do_ops (newWrite cfg vectored) os) as [s rs]. destruct H as [_ Hpost]. intros sent Ech Hne Hc Hq HP Hfit Hms Hfuel Hk.
  destruct (post_due cfg _ s _ _ rcfg h vec chunks c Hp Hmax Hpost Ech Hne Hc Hfit Hms) as (sp & evs & Hd & Hev & E1 & E2 & E3 & E4).
  destruct (read_fuel evs chunks (limit c) fuel Hev E4) as [F1 F2]; [by rewrite E3 |].
  eapply (read_all_post fuel k P _ c sp evs (Io EOF) []); try done; [by rewrite E1 | by rewrite E2].
Qed.

(** C2. What one connection sends, the other reads.  A client or server writes,
    compressed or not, messages, fragments, prepared messages, queued sends,
    pings, pongs and a close, in any order; its peer, made from a configuration
    the handshake mirrors, reads with [ReadMessage] over a transport that cuts
    the bytes anywhere.  The calls return, one by one and in order, exactly the
    messages that were sent, with their opcodes, and then an error: nothing is
    lost, repeated, reordered or changed by masking, fragmentation, compression
    with or without context takeover, control frames in between, or the
    receiver's choice of buffer. *)
Theorem exchange cfg {WO : WorldOk W (Sending.reach cfg)} vectored os rcfg h vec P chunks c fuel k :
  peers cfg rcfg -> Forall wop_ok os -> len os < 2 ^ 64 -> MaxMessageSize rcfg < 2 ^ 63 ->
  let '(s, rs) := do_ops (newWrite cfg vectored) os in
  let sent := sent_messages os rs in
  concat chunks = written (out (Cw.run 2 s)) -> Forall (fun b => b <> []) chunks ->
  NewConn rcfg h vec (pieces chunks) = Ok c ->
  agreeable (default DefaultControlHandler h) P -> P (newWrite rcfg vec) ->
  fits (message_limit rcfg) (received (run (peer_role (cRole cfg)) (compressing cfg) spec_init (concat chunks)).2) ->
  Forall (fun m => len m.2 <= message_limit rcfg /\
    (m.1 = Opcode.Text -> ValidateUTF8 rcfg = true -> Utf8.Valid m.2 = true)) sent ->
  2 * len (concat chunks) + 2 * message_limit rcfg + 11 < Z.of_nat fuel -> (length sent < k)%nat ->
  exists c' e, read_all fuel k c = Some (c', sent, e).
Proof. intros Hp Hos Hl Hm. exact (exchange_ok cfg vectored os rcfg h vec P chunks c fuel k Hp Hos Hl Hm). Qed.
End exchange.

(** ** Two ends, for the witnesses *)

#[local] Existing Instance swar_masker.
#[local] Existing Instance double_growth.
#[local] Existing Instance double_growth_ok.
#[local] Existing Instance stored_flate.
#[local] Existing Instance perfect.
#[local] Existing Instance perfect_reliable.

Lemma block_bytes final q : bytes_ok q -> len q < 65536 -> bytes_ok (block final q).
Proof.
  intros Hq Hl. pose proof (len_nonneg q). apply bytes_ok_app. split; [| done]. unfold block_header.
  pose proof (Z.mod_pos_bound (len q) 256 ltac:(lia)).
  assert (0 <= len q / 256 < 256) by (split; [apply Z.div_pos; lia | apply Z.div_lt_upper_bound; lia]).
  repeat constructor; unfold is_byte; (lia || destruct final; lia).
Qed.

Lemma blocks_bytes fuel p :
  bytes_ok p -> bytes_ok (blocks fuel p) /\ 65535 * len (blocks fuel p) <= 65540 * len p + 327675.
Proof.
  revert p. induction fuel as [| fuel IH]; intros p Hp; pose proof (len_nonneg p); cbn [blocks];
    [split; [by apply Forall_nil_2 | change (@len Z []) with 0; lia] |].
  destruct (bool_decide_reflect (p = [])) as [-> | Hne]; [split; [by apply Forall_nil_2 | change (@len Z []) with 0; lia] |].
  assert (0 < len p) by (destruct p; [done | rewrite len_cons; pose proof (len_nonneg p); lia]).
  destruct (IH (from p 65535) ltac:(eauto with ews)) as [H1 H2]. split.
  - apply bytes_ok_app. split; [apply block_bytes; [eauto with ews | rewrite len_upto; lia] | done].
  - unfold block. rewrite !len_app, len_upto. change (len (block_header false _)) with 5.
    rewrite len_from in H2. destruct (Z.leb_spec (len p) 65535) as [Hs | Hs]; [| lia].
    rewrite (from_all p 65535) by lia. assert (blocks fuel [] = []) as -> by (by destruct fuel). change (@len Z []) with 0. lia.
Qed.

Lemma stored_flate_bytes : FlateBytes stored_flate.
Proof.
  intros fw p fw1 b1 fw2 b2 Hb Hl [= <- <-] [= <- <-]. destruct (blocks_bytes (length p) p Hb) as [H1 H2]. split.
  - apply bytes_ok_app. split; [done |]. by apply block_bytes; [apply Forall_nil_2 |].
  - rewrite len_app. change (len (block false [])) with 5. lia.
Qed.

#[local] Existing Instance stored_flate_bytes.

Definition stored_world : World := {|
  rand _ := [1; 2; 3; 4];
  pooledCompressor _ := mkCompressor stored_flate ([], windowSize) [] windowSize None 0 false;
  pooledArena := arena_new
|}.

#[local] Existing Instance stored_world.

Lemma stored_world_ok : WorldOk stored_world windowSize.
Proof.
  split; [intros t | intros t | done].
  - split; [apply (bool_decide_unpack _); vm_compute; exact I | done].
  - by split_and!.
Qed.

#[local] Existing Instance stored_world_ok.

#[local] Existing Instance fresh_pools.
#[local] Existing Instance fresh_pools_ok.

Definition demo_client : Config :=
  mkConfig Client 0 1000 0 true (Some (Hs.mkCompression 6 1 true true 15 15)) false [].

(** Reads of at most [n] bytes. *)
Fixpoint cut (fuel : nat) (n : Z) (b : list Z) : list (list Z) :=
  match fuel, b with
  | S fuel, _ :: _ => upto b n :: cut fuel n (from b n)
  | _, _ => []
  end.

Definition demo_bytes : list Z := Eval vm_compute in
  written (out (Cw.run 2 (do_ops (newWrite demo_config true) demo_ops).1)).

Lemma demo_cut : concat (cut 30 7 demo_bytes) = demo_bytes.
Proof. vm_compute. reflexivity. Qed.

Definition demo_conn : conn :=
  match NewConn demo_client None false (pieces (cut 30 7 demo_bytes)) with
  | Ok c => c
  | Err _ => mkConn _ _ (newWrite demo_client false) None 0 false Rx.zero 0 None 0 false None None None ∅ false false None [] 0
  end.

Lemma stored_ops_ok : Forall wop_ok demo_ops.
Proof.
  repeat (apply Forall_cons; split; [| try apply Forall_nil]);
    try (split; [apply (bool_decide_unpack _); vm_compute; exact Logic.I | reflexivity]); try exact Logic.I; try done.
  split; [done | constructor].
Qed.

Lemma exchange_witness :
  exists c' e, read_all 4000 9 demo_conn
    = Some (c', [(Opcode.Text, [72; 105]); (Opcode.Binary, [1; 2; 3]); (Opcode.Binary, [9; 9])], e).
Proof.
  destruct (default_agreeable demo_client (WO := stored_world_ok) false) as (P & HP1 & HP2).
  pose proof (exchange demo_config true demo_ops demo_client None false P
    (cut 30 7 demo_bytes) demo_conn 4000 9) as H.
  specialize (H ltac:(split; [reflexivity | split; [reflexivity | vm_compute; discriminate]]) stored_ops_ok
    ltac:(vm_compute; reflexivity) ltac:(vm_compute; reflexivity)).
  assert (sent_messages demo_ops (do_ops (newWrite demo_config true) demo_ops).2
    = [(Opcode.Text, [72; 105]); (Opcode.Binary, [1; 2; 3]); (Opcode.Binary, [9; 9])]) as Es
    by (vm_compute; reflexivity).
  assert (written (out (Cw.run 2 (do_ops (newWrite demo_config true) demo_ops).1)) = demo_bytes) as Eb
    by (vm_compute; reflexivity).
  destruct (do_ops (newWrite demo_config true) demo_ops) as [s rs] eqn:Eo. cbn [fst snd] in *. rewrite Es in H.
  apply H; clear H Es Eo.
  - rewrite Eb. exact demo_cut.
  - apply (bool_decide_unpack _). vm_compute. exact Logic.I.
  - reflexivity.
  - exact HP1.
  - exact HP2.
  - apply (bool_decide_unpack _). vm_compute. exact Logic.I.
  - repeat (apply Forall_cons; split; [split; [vm_compute; discriminate | intros _ _; vm_compute; reflexivity] |]).
    apply Forall_nil_2.
  - vm_compute. reflexivity.
  - apply (bool_decide_unpack _). vm_compute. exact Logic.I.
Defined.
