(* ===== verification/Streaming.v ===== *)
(** * Streaming: a message read in chunks

    [Read], [NextMessage] and the discarding of what was not read, compressed
    or not, said of the events to come.  What is written between two reads
    does not matter, as long as it keeps the connection's handler able to
    answer: [P] is what it needs of the write side. *)

From stdpp Require Import prelude gmap.
From S2P Require Import Prelude Mask Errors Header Encoder Decoder Utf8 Close Receiver Stream Refine Pump Wire Traffic Sender Bufpool Window Compressor Decompressor Stored Inflating Inflation Handshake Queue ConnCompress SendFlow ConnWrite WriteSpec Delivery Calls Conversation StreamWrite Sending ConnRead Reading Assembling Bounded Messages Exchange.

Import Cr.

(** ** The rest of a message

    The control events between two frames of a message that goes on. *)

Definition answerable (ev : event) : Prop :=
  match ev with EvControl op p => control_ok p /\ op <> Opcode.Close | _ => False end.

(** [p] is what is left of a message whose open frame has [k] bytes to come
    and is the last if [fin]; [evs'] are the events after it. *)
Inductive remainder : bool -> Z -> list event -> list Z -> list event -> Prop :=
  | remainder_last k evs p evs' : take_data (Z.to_nat k) evs = Some (p, evs') -> remainder true k evs p evs'
  | remainder_more k evs l ctl fin op rsv k' evs1 p evs' :
      take_data (Z.to_nat k) evs = Some (l, ctl ++ EvFrame fin op rsv k' :: evs1) -> Forall answerable ctl ->
      remainder fin k' evs1 p evs' -> remainder false k evs (l ++ p) evs'.

Lemma take_data_0 evs : take_data 0 evs = Some ([], evs).
Proof. by destruct evs. Qed.

Lemma take_data_rest k chunk evs bs evs' :
  0 <= k -> take_data (Z.to_nat (k + len chunk)) ((EvData <$> chunk) ++ evs) = Some (bs, evs') ->
  exists q, bs = chunk ++ q /\ take_data (Z.to_nat k) evs = Some (q, evs').
Proof.
  intros Hk. replace (Z.to_nat (k + len chunk)) with (length chunk + Z.to_nat k)%nat by (unfold len; lia).
  rewrite take_data_app. destruct (take_data (Z.to_nat k) evs) as [[q evs1] |]; [| done].
  intros [= <- <-]. by exists q.
Qed.

Lemma remainder_split fin k chunk evs p evs' :
  0 <= k -> remainder fin (k + len chunk) ((EvData <$> chunk) ++ evs) p evs' ->
  exists q, p = chunk ++ q /\ remainder fin k evs q evs'.
Proof.
  intros Hk Hr. inversion Hr as [? ? ? ? Ht | ? ? l ctl fin' op rsv k' evs1 q ? Ht Hc Hr']; subst;
    destruct (take_data_rest _ _ _ _ _ Hk Ht) as (l' & -> & Ht').
  - exists l'. split; [done |]. by constructor.
  - exists (l' ++ q). rewrite app_assoc. split; [done |]. by econstructor.
Qed.

Lemma remainder_next evs p evs' :
  remainder false 0 evs p evs' ->
  exists ctl fin op rsv k evs1, evs = ctl ++ EvFrame fin op rsv k :: evs1 /\ Forall answerable ctl /\
    remainder fin k evs1 p evs'.
Proof.
  intros Hr. inversion Hr as [| ? ? l ctl fin op rsv k' evs1 q ? Ht Hc Hr']; subst.
  change (Z.to_nat 0) with O in Ht. rewrite take_data_0 in Ht. injection Ht as <- ->. by exists ctl, fin, op, rsv, k', evs1.
Qed.

Lemma remainder_shorter fin k evs p evs' : remainder fin k evs p evs' -> (length evs' <= length evs)%nat.
Proof.
  intros Hr. induction Hr as [k evs p evs' Ht | k evs l ctl fin op rsv k' evs1 p evs' Ht _ _ IH];
    apply take_data_shorter in Ht; [done |]. rewrite length_app in Ht. cbn in Ht. lia.
Qed.

Lemma take_data_suffix n evs bs evs' : take_data n evs = Some (bs, evs') -> suffix evs' evs.
Proof.
  revert evs bs. induction n as [| n IH]; intros evs bs; cbn [take_data]; [by intros [= _ ->] |].
  destruct evs as [| [| b | |] evs]; try done. destruct (take_data n evs) as [[bs1 evs1] |] eqn:E; [| done].
  cbn. intros [= _ <-]. apply IH in E as [k ->]. by exists (EvData b :: k).
Qed.

Lemma remainder_suffix fin k evs p evs' : remainder fin k evs p evs' -> suffix evs' evs.
Proof.
  intros Hr. induction Hr as [k evs p evs' Ht | k evs l ctl fin op rsv k' evs1 p evs' Ht _ _ IH]; apply take_data_suffix in Ht; [done |].
  destruct IH as [k1 ->]. destruct Ht as [k2 ->]. exists (k2 ++ ctl ++ EvFrame fin op rsv k' :: k1). by rewrite <- !app_assoc.
Qed.

Lemma remainder_nil fin k p evs' : 0 <= k -> remainder fin k [] p evs' -> k = 0.
Proof.
  intros Hk Hr. destruct (Z.eqb_spec k 0); [done |]. exfalso. destruct (Z.to_nat k) as [| m] eqn:E; [lia |].
  inversion Hr as [? ? ? ? Ht | ? ? ? ? ? ? ? ? ? ? ? Ht]; subst; by rewrite E in Ht.
Qed.

(** Only control events: none, or the last, a close. *)
Definition no_frames (evs : list event) : Prop :=
  Forall answerable evs \/ exists ctl p, evs = ctl ++ [EvControl Opcode.Close p] /\ Forall answerable ctl /\ control_ok p.

Lemma fold_answerable st evs : Forall answerable evs -> foldl event_step st evs = st.
Proof.
  intros H. revert st. induction H as [| ev evs Hev H IH]; intros st; [done |]. destruct ev; try done.
  cbn [foldl]. rewrite IH. by destruct st.
Qed.

Lemma no_frames_fold st evs : no_frames evs -> foldl event_step st evs = st.
Proof. intros [H | (ctl & p & -> & H & _)]; [by apply fold_answerable |]. by rewrite foldl_app, (fold_answerable _ ctl). Qed.

(** The traffic up to its next frame: control events first. *)
Lemma traffic_split o evs :
  traffic o evs ->
  (exists ctl fin op rsv l evs1, evs = ctl ++ EvFrame fin op rsv (len l) :: (EvData <$> l) ++ evs1 /\
     Forall answerable ctl /\ starts op = negb o /\ traffic (negb fin) evs1 /\
     forall st, foldl event_step st evs = foldl event_step (foldl event_step st (EvFrame fin op rsv (len l) :: (EvData <$> l))) evs1) \/
  no_frames evs.
Proof.
  intros Ht. induction Ht as [o | o op p evs Hp Hc Ht IH | o fin op rsv l evs Hs Ht _]; [right; by left | |].
  - destruct (decide (op = Opcode.Close)) as [E | E]; [rewrite (Hc E), E; right; right; by exists [], p |].
    destruct IH as [(ctl & fin & op' & rsv & l & evs1 & -> & H1 & H2 & H3 & H4) | [H | (ctl & p' & -> & H1 & H2)]].
    + left. exists (EvControl op p :: ctl), fin, op', rsv, l, evs1. split_and!; try done. by constructor.
    + right. left. by constructor.
    + right. right. exists (EvControl op p :: ctl), p'. split; [done |]. split; [by constructor | done].
  - left. exists [], fin, op, rsv, l, evs. split_and!; try done. intros st. by rewrite app_comm_cons, foldl_app.
Qed.

(** An open message comes to its end, or no message does. *)
Lemma remainder_traffic n (fin : bool) (l : list Z) evs (ms : list raw_message) (o : Z) (c : bool) (b : list Z) :
  let st : list raw_message * option (raw_message * bool * Z) :=
    if fin then (ms ++ [(o, c, b ++ l)], None) else (ms, Some ((o, c, b ++ l), false, 0)) in
  (length evs < n)%nat -> traffic (negb fin) evs ->
  ((foldl event_step st evs).1 = ms /\ (foldl event_step st evs).2 <> None) \/
  exists p evs', remainder fin (len l) ((EvData <$> l) ++ evs) p evs' /\ traffic false evs' /\
    foldl event_step st evs = foldl event_step (ms ++ [(o, c, b ++ p)], None) evs'.
Proof.
  revert fin l evs b. induction n as [| n IH]; intros fin l evs b st Hn Ht; [lia |]. destruct fin; cbn [negb] in Ht.
  { right. exists l, evs. split; [| done]. constructor. by rewrite take_data_all. }
  destruct (traffic_split true evs Ht) as [(ctl & fin & op & rsv & l1 & evs1 & -> & H1 & H2 & H3 & H4) | H]; [| left; by rewrite no_frames_fold].
  subst st. rewrite H4, step_next by done.
  destruct (IH fin l1 evs1 (b ++ l)) as [H | (p & evs' & X1 & X2 & X3)]; [rewrite length_app in Hn; cbn in Hn; rewrite length_app in Hn; lia | done | by left |].
  right. exists (l ++ p), evs'. split; [| split; [done | by rewrite X3, <- app_assoc]].
  eapply remainder_more; [by rewrite take_data_all | done | done].
Qed.

Section answered.
Context {M : Masker} {G : Grow} {F : Flate} {T : Transport} {W : World}.
Context (h : Handler) (P Q : wconn -> Prop) (Hq : answers h P Q).

Lemma to_frame_controls w ctl evs :
  P w -> Forall answerable ctl -> exists w', to_frame h w (ctl ++ evs) = to_frame h w' evs /\ P w'.
Proof using Hq.
  intros Hw Hc. revert w Hw. induction Hc as [| ev ctl Hev Hc IH]; intros w Hw; [by exists w |].
  destruct ev as [| | op' p |]; try done. destruct Hev as [Hp Ho]. cbn [app to_frame]. unfold reply.
  destruct (op' =? Opcode.Ping). { destruct (answer_ping _ _ _ Hq w p Hp Hw) as (w' & -> & Hw'). by apply IH. }
  destruct (op' =? Opcode.Pong). { destruct (answer_pong _ _ _ Hq w p Hp Hw) as (w' & -> & Hw'). by apply IH. }
  destruct (Z.eqb_spec op' Opcode.Close); [done |]. by apply IH.
Qed.

Lemma to_frame_answered w ctl fin op rsv k evs :
  P w -> Forall answerable ctl ->
  exists w', to_frame h w (ctl ++ EvFrame fin op rsv k :: evs) = Took w' (fin, op, rsv, k) evs /\ P w'.
Proof using Hq.
  intros Hw Hc. destruct (to_frame_controls w ctl (EvFrame fin op rsv k :: evs) Hw Hc) as (w' & -> & Hw'). by exists w'.
Qed.

Lemma to_frame_starves w ctl : P w -> Forall answerable ctl -> exists w', to_frame h w ctl = Starved w' /\ P w'.
Proof using Hq.
  intros Hw Hc. destruct (to_frame_controls w ctl [] Hw Hc) as (w' & E & Hw'). rewrite app_nil_r in E. by exists w'.
Qed.
End answered.

Section streaming.
Context {M : Masker} `{!MaskerOk M} {G : Grow} {F : Flate} {I : Inflater} {T : Transport} {W : World} {RW : ReadWorld}.
Context (h : Handler) (P Q : wconn -> Prop) (Hq : answers h P Q).
Implicit Types (c : conn).

(** A message is open, all of it is to come, and [p] is what is left of it on
    the wire; [evs'] are the events after it. *)
Record reading c (sp : spec) (e : error) (s' : script) (n : nat) (evs : list event) (p : list Z) (evs' : list event) : Prop := {
  rd_expects : expects c sp evs e s' n;
  rd_payload : at_payload (rx c);
  rd_handler : hd c = h;
  rd_writes : P (wr c);
  rd_rest : remainder (Hdr.Final (Rx.header (rx c))) (Rx.remaining (rx c)) evs p evs'
}.

(** What reading on keeps. *)
Definition same_open c c' : Prop :=
  progress c c' /\ Rx.compressed (rx c') = Rx.compressed (rx c) /\ Rx.compression (rx c') = Rx.compression (rx c).

Lemma same_open_refl c : same_open c c.
Proof. split; [apply progress_refl | done]. Qed.

Lemma same_open_trans c1 c2 c3 : same_open c1 c2 -> same_open c2 c3 -> same_open c1 c3.
Proof. intros (H1 & H2 & H3) (K1 & K2 & K3). split; [by eapply progress_trans | split; congruence]. Qed.

Lemma reading_weaken c sp e s' n m evs p evs' : (n <= m)%nat -> reading c sp e s' n evs p evs' -> reading c sp e s' m evs p evs'.
Proof. intros Hn [H1 H2 H3 H4 H5]. constructor; try done. by eapply expects_weaken. Qed.

(** The write side may be another. *)
Lemma reading_write c w sp e s' n evs p evs' :
  reading c sp e s' n evs p evs' -> P w -> reading {| c with wr := w |} sp e s' n evs p evs'.
Proof. by intros [H1 H2 H3 H4 H5] Hw. Qed.

(** What a piece of the message leaves. *)
Lemma reading_piece c c' sp e s' n m evs p evs' chunk :
  reading c sp e s' n ((EvData <$> chunk) ++ evs) p evs' ->
  expects c' sp evs e s' m -> at_payload (rx c') -> in_frame (rx c) (rx c') -> hd c' = hd c -> wr c' = wr c ->
  Rx.remaining (rx c') = Rx.remaining (rx c) - len chunk ->
  exists q, p = chunk ++ q /\ reading c' sp e s' m evs q evs'.
Proof.
  intros [_ _ Hh Hp Hg] He' Hat' Hk Eh Ew Er. pose proof (live_remaining _ (proj1 He')) as Hr.
  replace (Rx.remaining (rx c)) with (Rx.remaining (rx c') + len chunk) in Hg by lia.
  destruct (remainder_split _ _ _ _ _ _ (proj1 Hr) Hg) as (q & Ep & Hq'). exists q. split; [done |].
  constructor; try done; [congruence | by rewrite Ew |]. by rewrite (inframe_header _ _ Hk).
Qed.

(** The next frame of the message. *)
Lemma reading_next fuel c sp e s' n evs p evs' :
  reading c sp e s' n evs p evs' -> Rx.remaining (rx c) = 0 -> Rx.MessageOpen (rx c) = true ->
  (length evs + n < fuel)%nat ->
  exists c' evs1, nextFrame fuel c = Some (c', Ok tt) /\ same_open c c' /\
    reading c' sp e s' n evs1 p evs' /\ (length evs1 < length evs)%nat.
Proof using Hq MaskerOk0.
  intros [He Hat Hh Hp Hg] Hr Ho Hf.
  assert (Hdr.Final (Rx.header (rx c)) = false) as Efin.
  { unfold at_payload in Hat. unfold Rx.MessageOpen in Ho. rewrite Hr in Hat.
    destruct (Hdr.Final _); [| done]. cbn in Hat. by rewrite Hat in Ho. }
  rewrite Efin, Hr in Hg. destruct (remainder_next _ _ _ Hg) as (ctl & fin & op & rsv & k & evs1 & -> & Hc & Hg').
  pose proof (nextFrame_post fuel c sp _ e s' n He Hr Hf) as Hn.
  destruct (to_frame_answered h P Q Hq (wr c) ctl fin op rsv k evs1 Hp Hc) as (w1 & Ef & Hp1). rewrite Hh, Ef in Hn.
  destruct Hn as (r & s & E & X1 & X2 & X3 & X4 & X5). exists (moved c r s w1), evs1. split; [done |].
  pose proof (header_at_payload _ _ X3) as Hat'. destruct X3 as (Z1 & Z2 & Z3 & _).
  injection X2 as Y1 Y2 Y3 Y4. split; [split; [apply progress_moved | split; [| done]] |].
  { cbn [rx moved]. rewrite Z3, Z2. unfold Rx.MessageOpen in Ho. by apply negb_true_iff in Ho as ->. }
  split; [| done]. constructor; try done. cbn [rx moved]. by rewrite Y1, Z1, Y4.
Qed.

(** The message is over when its last frame is. *)
Lemma reading_end c sp e s' n evs p evs' :
  reading c sp e s' n evs p evs' -> Rx.remaining (rx c) = 0 -> Rx.MessageOpen (rx c) = false -> p = [] /\ evs' = evs.
Proof.
  intros [He Hat _ _ Hg] Hr Ho. unfold at_payload in Hat. unfold Rx.MessageOpen in Ho.
  apply negb_false_iff in Ho. rewrite Ho, Hr in Hat. cbn in Hat. rewrite <- Hat, Hr in Hg.
  inversion Hg as [? ? ? ? Ht |]; subst. change (Z.to_nat 0) with O in Ht. rewrite take_data_0 in Ht. by injection Ht as <- <-.
Qed.

(** An open frame with nothing buffered: the transport has more. *)
Lemma reading_more c sp e s' n p evs' : reading c sp e s' n [] p evs' -> Rx.remaining (rx c) = 0.
Proof. intros [He _ _ _ Hg]. apply remainder_nil in Hg; [done |]. apply live_remaining, He. Qed.

Lemma Payload_nothing c sp evs e s' n k :
  expects c sp evs e s' n -> Rx.remaining (rx c) = 0 ->
  rx_call (fun r => Rx.PayloadN r k) c = Some (c, Ok ([], true, None)).
Proof. intros ((_ & Hfa & _) & _) Hr. unfold rx_call, Rx.PayloadN. rewrite Hfa, Hr. by destruct c. Qed.

(** After filling, the same message. *)
Lemma reading_fill c sp e s' n evs p evs' :
  reading c sp e s' n evs p evs' -> Rx.remaining (rx c) <> 0 -> Decoder.pending (Rx.dec (rx c)) = [] ->
  exists c' m, fill c = Some (c', Ok tt) /\ same_open c c' /\ reading c' sp e s' m evs p evs' /\ (m < n)%nat.
Proof using MaskerOk0.
  intros Hrd Hr Hpd. pose proof Hrd as [He Hat Hh Hp Hg].
  destruct (fill_expects c sp evs e s' n He) as [(r1 & E1 & X1 & X2 & X3 & X4) | (r1 & s1 & m & E1 & X1 & X2 & X3 & X4)].
  - exfalso. unfold ahead in X2. rewrite Hpd in X2. cbn in X2. injection X2 as _ <-.
    by apply reading_more in Hrd.
  - exists (moved c r1 s1 (wr c)), m. destruct X3 as (Y1 & Y2 & Y3 & Y4 & Y5). split; [done |].
    split; [split; [apply progress_moved | by split] |]. split; [| done]. constructor; try done.
    + unfold at_payload in *. cbn [rx moved]. by rewrite Y1, Y3, X4.
    + cbn [rx moved]. by rewrite X4, Y3.
Qed.

(** The buffered part of the open frame, at most [k] bytes of it. *)
Lemma reading_payload c sp e s' n evs p evs' k :
  reading c sp e s' n evs p evs' -> Rx.remaining (rx c) <> 0 -> 0 <= k ->
  exists c' chunk q evs1,
    rx_call (fun r => Rx.PayloadN r k) c = Some (c', Ok (chunk, Rx.remaining (rx c') =? 0, None)) /\ same_open c c' /\
    wr c' = wr c /\ incoming c' = incoming c /\ bufLen c' = bufLen c /\
    p = chunk ++ q /\ reading c' sp e s' n evs1 q evs' /\ evs = (EvData <$> chunk) ++ evs1 /\
    Rx.remaining (rx c') = Rx.remaining (rx c) - len chunk /\
    len chunk = Z.min (Z.min k (len (Decoder.pending (Rx.dec (rx c))))) (Rx.remaining (rx c)) /\
    Decoder.pending (Rx.dec (rx c')) = from (Decoder.pending (Rx.dec (rx c))) (len chunk).
Proof using MaskerOk0.
  intros Hrd Hr Hk. pose proof Hrd as [He Hat _ _ _].
  destruct (PayloadN_expects c sp evs e s' n k He Hr Hk Hat) as (r & chunk & evs1 & E & He1 & -> & Hat1 & Hk1 & Hr1 & Hl1 & Hp1).
  set (c1 := {| c with rx := r |}) in *.
  destruct (reading_piece c c1 sp e s' n n evs1 p evs' chunk Hrd He1 Hat1 Hk1 eq_refl eq_refl Hr1) as (q & -> & Hrd1).
  exists c1, chunk, q, evs1. split; [done |]. split.
  { split; [by exists r, (incoming c), (wr c), (msg c), (msgHint c), (draws c) | split; apply Hk1]. }
  by split_and!.
Qed.

(** Nothing of the open frame was buffered. *)
Lemma nothing_buffered (p : list Z) r k :
  0 < k \/ k = len p -> 0 < r -> len (@nil Z) = Z.min (Z.min k (len p)) r -> p = [].
Proof. intros Hk Hr H. apply len_0_nil. pose proof (len_nonneg p). rewrite len_nil in H. lia. Qed.

(** ** The next piece

    What a call that wants a piece comes to: [fin] is what the connection is
    left as at the end of the message, [fits] what is said of the piece. *)
Definition pieced (fin : conn -> conn) (fits : list Z -> Prop) c sp e s' n (evs : list event) (p : list Z) (evs' : list event)
    (res : option (conn * result (list Z))) : Prop :=
  (p = [] /\ exists c', res = Some (fin c', Err (Io EOF)) /\ same_open c c' /\ reading c' sp e s' n evs' [] evs' /\
     Rx.remaining (rx c') = 0 /\ Rx.MessageOpen (rx c') = false) \/
  (exists c' chunk q evs1, res = Some (c', Ok chunk) /\ same_open c c' /\ chunk <> [] /\ fits chunk /\ p = chunk ++ q /\
     reading c' sp e s' n evs1 q evs' /\ (length evs1 <= length evs)%nat).

Lemma pieced_more fin ok c c1 sp e s' n m evs evs1 p evs' res :
  same_open c c1 -> (m <= n)%nat -> (length evs1 <= length evs)%nat ->
  pieced fin ok c1 sp e s' m evs1 p evs' res -> pieced fin ok c sp e s' n evs p evs' res.
Proof.
  intros Hs Hm Hl [(-> & c' & E & X1 & X2 & X3 & X4) | (c' & chunk & q & evs2 & E & X1 & X2 & X3 & X4 & X5 & X6)].
  - left. split; [done |]. exists c'. split; [done |]. split; [by eapply same_open_trans |]. split; [by eapply reading_weaken | done].
  - right. exists c', chunk, q, evs2. split; [done |]. split; [by eapply same_open_trans |]. split; [done |]. split; [done |].
    split; [done |]. split; [by eapply reading_weaken | lia].
Qed.

(** At the end of a frame: the end of the message, or its next frame. *)
Lemma pieced_end fin ok c sp e s' n evs p evs' (k : bool -> io (list Z)) fuel :
  reading c sp e s' n evs p evs' -> Rx.remaining (rx c) = 0 -> (length evs + n < fuel)%nat ->
  k false c = Some (fin c, Err (Io EOF)) ->
  (forall c1 evs1, same_open c c1 -> reading c1 sp e s' n evs1 p evs' -> (length evs1 < length evs)%nat ->
     nextFrame fuel c = Some (c1, Ok tt) -> pieced fin ok c1 sp e s' n evs1 p evs' (k true c)) ->
  pieced fin ok c sp e s' n evs p evs' (k (Rx.MessageOpen (rx c)) c).
Proof using Hq MaskerOk0.
  intros Hrd Hr Hf Hend Hgo. destruct (Rx.MessageOpen (rx c)) eqn:Ho.
  - destruct (reading_next fuel c sp e s' n evs p evs' Hrd Hr Ho Hf) as (c1 & evs1 & E & X1 & X2 & X3).
    eapply pieced_more; [exact X1 | done | | by apply Hgo]. lia.
  - destruct (reading_end _ _ _ _ _ _ _ _ Hrd Hr Ho) as (-> & ->). left. split; [done |]. exists c.
    split; [done |]. split; [apply same_open_refl |]. by split_and!.
Qed.

Definition left c : conn := {| c with inMessage := false |}.

Lemma Read_loop_pieced fuel k c sp e s' n evs p evs' :
  reading c sp e s' n evs p evs' -> (length evs + n + 1 < fuel)%nat -> 0 < k ->
  pieced left (fun chunk => len chunk <= k) c sp e s' n evs p evs' (Read_loop fuel k c).
Proof using Hq MaskerOk0.
  revert c n evs p. induction fuel as [| fuel IH]; intros c n evs p Hrd Hf Hk; [lia |].
  pose proof Hrd as [He Hat _ _ _]. cbn [Read_loop]. destruct (Z.eqb_spec (Rx.remaining (rx c)) 0) as [Hr | Hr].
  - pose proof (Payload_nothing c sp evs e s' n k He Hr) as E. rewrite (bind_ok _ _ _ _ _ E). cbv beta iota.
    change (len []) with 0. cbn [Z.eqb negb]. rewrite bind_get.
    apply (pieced_end left _ c sp e s' n evs p evs' (fun more : bool => if negb more then _ else _) fuel Hrd Hr ltac:(lia)).
    + cbn [negb]. by rewrite bind_put.
    + intros c1 evs1 Hs Hrd1 Hl En. cbn [negb]. rewrite (bind_ok _ _ _ _ _ En). apply IH; [done | lia | done].
  - destruct (reading_payload c sp e s' n evs p evs' k Hrd Hr ltac:(lia))
      as (c1 & chunk & q & evs1 & E & Hs1 & Ew & Ei & Eb & -> & Hrd1 & -> & Hr1 & Hl1 & Hp1).
    rewrite (bind_ok _ _ _ _ _ E). cbv beta iota.
    destruct (Z.eqb_spec (len chunk) 0) as [E0 | N0]; cbn [negb].
    2: { right. exists c1, chunk, q, evs1. split; [done |]. split; [done |]. split; [by intros -> |].
         split; [lia |]. split; [done |]. split; [done |]. rewrite length_app. lia. }
    pose proof (live_remaining _ (proj1 He)) as Hrr.
    assert (0 < Rx.remaining (rx c)) as Hr0 by lia.
    apply len_0_nil in E0. subst chunk. cbn [app fmap list_fmap] in *. rewrite (nothing_buffered _ _ _ (or_introl Hk) Hr0 Hl1) in Hp1.
    rewrite len_nil, Z.sub_0_r in Hr1. rewrite Hr1. destruct (Z.eqb_spec (Rx.remaining (rx c)) 0); [done |]. cbn [negb].
    rewrite bind_get, bind_get, Hr1, Eb.
    set (m := if Rx.remaining (rx c) <? k then Rx.remaining (rx c) else k).
    assert (0 < m <= Rx.remaining (rx c) /\ m <= k) as Hm by (subst m; destruct (Z.ltb_spec (Rx.remaining (rx c)) k); lia).
    pose proof Hrd1 as [He1 Hat1 _ _ _].
    destruct (bufLen c <=? m).
    + destruct (read_payload c1 sp evs1 e s' n m He1 ltac:(by rewrite Hr1) Hat1 Hp1 ltac:(rewrite Hr1; lia))
        as [[-> E2] | (got & s & r2 & chunk & evs2 & m2 & E2 & Ep & -> & X1 & X2 & X3 & X4 & X5 & X6 & X7)].
      { exfalso. apply reading_more in Hrd1. by rewrite Hr1 in Hrd1. }
      unfold readDirect. rewrite (bind_ok _ _ _ _ _ E2), bind_put. cbv beta. erewrite bind_rx by exact Ep. cbv beta iota.
      set (c2 := {| c1 with rx := r2; incoming := s |}).
      destruct (reading_piece c1 c2 sp e s' n m2 evs2 q evs' chunk Hrd1 X2 X4 X5 eq_refl eq_refl X6) as (q2 & -> & Hrd2).
      right. exists c2, chunk, q2, evs2. split; [done |]. split.
      { eapply same_open_trans; [exact Hs1 |].
        split; [by exists r2, s, (wr c1), (msg c1), (msgHint c1), (draws c1) | split; apply X5]. }
      split; [done |]. split; [lia |]. split; [done |]. split; [eapply reading_weaken; [| exact Hrd2]; lia |].
      rewrite length_app. lia.
    + destruct (reading_fill c1 sp e s' n evs1 q evs' Hrd1 ltac:(by rewrite Hr1) Hp1) as (c2 & m2 & E2 & X1 & X2 & X3).
      rewrite (bind_ok _ _ _ _ _ E2).
      eapply pieced_more; [eapply same_open_trans; [exact Hs1 | exact X1] | | | apply IH; [exact X2 | lia | done]]; lia.
Qed.

Lemma nextChunk_pieced fuel c sp e s' n evs p evs' :
  reading c sp e s' n evs p evs' -> (length evs + n + 1 < fuel)%nat ->
  pieced id (fun _ => True) c sp e s' n evs p evs' (nextChunk fuel c).
Proof using Hq MaskerOk0.
  revert c n evs p. induction fuel as [| fuel IH]; intros c n evs p Hrd Hf; [lia |].
  pose proof Hrd as [He Hat _ _ _]. cbn [nextChunk]. destruct (Z.eqb_spec (Rx.remaining (rx c)) 0) as [Hr | Hr].
  - pose proof (Payload_nothing c sp evs e s' n (Dec.Buffered (Rx.dec (rx c))) He Hr) as E.
    change (rx_call (fun r => Rx.PayloadN r _) c) with (rx_call Rx.Payload c) in E.
    rewrite (bind_ok _ _ _ _ _ E). cbv beta iota. change (len []) with 0. cbn [Z.eqb negb]. rewrite bind_get.
    apply (pieced_end id _ c sp e s' n evs p evs' (fun more : bool => if negb more then _ else _) fuel Hrd Hr ltac:(lia)).
    + done.
    + intros c1 evs1 Hs Hrd1 Hl En. cbn [negb]. rewrite (bind_ok _ _ _ _ _ En). apply IH; [done | lia].
  - destruct (reading_payload c sp e s' n evs p evs' (Dec.Buffered (Rx.dec (rx c))) Hrd Hr (len_nonneg _))
      as (c1 & chunk & q & evs1 & E & Hs1 & Ew & Ei & Eb & -> & Hrd1 & -> & Hr1 & Hl1 & Hp1).
    change (rx_call (fun r => Rx.PayloadN r _) c) with (rx_call Rx.Payload c) in E.
    rewrite (bind_ok _ _ _ _ _ E). cbv beta iota.
    destruct (Z.eqb_spec (len chunk) 0) as [E0 | N0]; cbn [negb].
    2: { right. exists c1, chunk, q, evs1. split; [done |]. split; [done |]. split; [by intros -> |].
         split; [done |]. split; [done |]. split; [done |]. rewrite length_app. lia. }
    pose proof (live_remaining _ (proj1 He)) as Hrr. assert (0 < Rx.remaining (rx c)) as Hr0 by lia.
    apply len_0_nil in E0. subst chunk. cbn [app fmap list_fmap] in *. rewrite (nothing_buffered _ _ _ (or_intror eq_refl) Hr0 Hl1) in Hp1.
    rewrite len_nil, Z.sub_0_r in Hr1. rewrite Hr1. destruct (Z.eqb_spec (Rx.remaining (rx c)) 0); [done |]. cbn [negb].
    destruct (reading_fill c1 sp e s' n evs1 q evs' Hrd1 ltac:(by rewrite Hr1) Hp1) as (c2 & m2 & E2 & X1 & X2 & X3).
    rewrite (bind_ok _ _ _ _ _ E2).
    eapply pieced_more; [eapply same_open_trans; [exact Hs1 | exact X1] | | | apply IH; [exact X2 | lia]]; lia.
Qed.

(** ** Skipping what was not read *)

Definition skipped c sp e s' n (evs' : list event) (res : option (conn * result unit)) : Prop :=
  exists c', res = Some (left c', Ok tt) /\ same_open c c' /\ reading c' sp e s' n evs' [] evs' /\
    Rx.remaining (rx c') = 0 /\ Rx.MessageOpen (rx c') = false.

Lemma skipped_more c c1 sp e s' n m evs' res :
  same_open c c1 -> (m <= n)%nat -> skipped c1 sp e s' m evs' res -> skipped c sp e s' n evs' res.
Proof.
  intros Hs Hm (c' & E & X1 & X2 & X3). exists c'. split; [done |]. split; [by eapply same_open_trans |].
  split; [by eapply reading_weaken | done].
Qed.

Lemma skip_post fuel c sp e s' n evs p evs' :
  reading c sp e s' n evs p evs' -> inMessage c = true -> (length evs + n + 1 < fuel)%nat ->
  skipped c sp e s' n evs' (skip fuel c).
Proof using Hq MaskerOk0.
  revert c n evs p. induction fuel as [| fuel IH]; intros c n evs p Hrd Him Hf; [lia |].
  assert (forall c1 m evs1 q, same_open c c1 -> reading c1 sp e s' m evs1 q evs' -> (m <= n)%nat ->
    (length evs1 + m + 1 < fuel)%nat -> skipped c sp e s' n evs' (skip fuel c1)) as Hgo.
  { intros c1 m evs1 q Hs Hrd1 Hm Hf1. eapply skipped_more; [exact Hs | exact Hm |]. eapply IH; [exact Hrd1 | | exact Hf1].
    by destruct Hs as [(? & ? & ? & ? & ? & ? & ->) _]. }
  assert (forall c1 evs1 q, same_open c c1 -> reading c1 sp e s' n evs1 q evs' -> (length evs1 <= length evs)%nat ->
    Rx.remaining (rx c1) = 0 -> skipped c sp e s' n evs' (bind (get (fun c => Rx.MessageOpen (rx c))) (fun more =>
      if negb more then put left else bind (nextFrame fuel) (fun _ => skip fuel)) c1)) as Hend.
  { intros c1 evs1 q Hs Hrd1 Hl Hr. rewrite bind_get. destruct (Rx.MessageOpen (rx c1)) eqn:Ho; cbn [negb].
    - destruct (reading_next fuel c1 sp e s' n evs1 q evs' Hrd1 Hr Ho ltac:(lia)) as (c2 & evs2 & E1 & X1 & X2 & X3).
      rewrite (bind_ok _ _ _ _ _ E1). apply (Hgo c2 n evs2 q); [by eapply same_open_trans | done | done | lia].
    - destruct (reading_end _ _ _ _ _ _ _ _ Hrd1 Hr Ho) as (-> & ->). by exists c1. }
  pose proof Hrd as [He Hat _ _ _]. cbn [skip]. rewrite bind_get, Him. cbn [negb].
  destruct (Z.eqb_spec (Rx.remaining (rx c)) 0) as [Hr | Hr].
  - pose proof (Payload_nothing c sp evs e s' n (Dec.Buffered (Rx.dec (rx c))) He Hr) as E.
    change (rx_call (fun r => Rx.PayloadN r _) c) with (rx_call Rx.Payload c) in E.
    rewrite (bind_ok _ _ _ _ _ E). cbv beta iota. cbn [negb].
    eapply Hend; [apply same_open_refl | exact Hrd | lia | done].
  - destruct (reading_payload c sp e s' n evs p evs' (Dec.Buffered (Rx.dec (rx c))) Hrd Hr (len_nonneg _))
      as (c1 & chunk & q & evs1 & E & Hs1 & Ew & Ei & Eb & -> & Hrd1 & -> & Hr1 & Hl1 & Hp1).
    change (rx_call (fun r => Rx.PayloadN r _) c) with (rx_call Rx.Payload c) in E.
    rewrite (bind_ok _ _ _ _ _ E). cbv beta iota.
    assert (length ((EvData <$> chunk) ++ evs1) = length chunk + length evs1)%nat as Hlen
      by (by rewrite length_app, length_fmap).
    pose proof (live_remaining _ (proj1 He)) as Hrr. assert (0 < Rx.remaining (rx c)) as Hr0 by lia.
    destruct (Z.eqb_spec (Rx.remaining (rx c1)) 0) as [E0 | N0]; cbn [negb].
    + eapply Hend; [exact Hs1 | exact Hrd1 | lia | done].
    + destruct (Z.eqb_spec (len chunk) 0) as [Ec | Nc].
      * apply len_0_nil in Ec. subst chunk. cbn [app fmap list_fmap length] in *.
        rewrite (nothing_buffered _ _ _ (or_intror eq_refl) Hr0 Hl1) in Hp1.
        destruct (reading_fill c1 sp e s' n evs1 q evs' Hrd1 N0 Hp1) as (c2 & m2 & E2 & X1 & X2 & X3).
        rewrite (bind_ok _ _ _ _ _ E2). apply (Hgo c2 m2 evs1 q); [by eapply same_open_trans | done | lia | lia].
      * rewrite bind_pure. apply (Hgo c1 n evs1 q); [done | done | done |]. unfold len in Nc. lia.
Qed.

(** ** The decompressor's source

    [chunkSource] gives the rest of the message, then [io.EOF]. *)

Definition spent c : Prop := Rx.remaining (rx c) = 0 /\ Rx.MessageOpen (rx c) = false.

Lemma chunkSource_pieced fuel c sp e s' n evs p evs' :
  reading c sp e s' n evs p evs' -> (length evs + n + 1 < fuel)%nat ->
  pieced id (fun _ => True) c sp e s' n evs p evs' (chunkSource fuel c).
Proof using Hq MaskerOk0.
  intros Hrd Hf. unfold chunkSource.
  destruct (nextChunk_pieced fuel c sp e s' n evs p evs' Hrd Hf) as [(-> & c' & -> & H) | (c' & chunk & q & evs1 & -> & H)];
    cbn [mbind option_bind].
  - rewrite bool_decide_eq_true_2 by done. left. split; [done |]. by exists c'.
  - right. by exists c', chunk, q, evs1.
Qed.

Section source.
Context (fuel : nat) (sp : spec) (e : error) (s' : script) (n : nat) (evs' : list event).
#[local] Instance source : ChunkSource conn := chunkSource fuel.

Lemma source_feeds c evs p :
  reading c sp e s' n evs p evs' -> (length evs + n + 1 < fuel)%nat ->
  exists cs c', feeds c cs c' (Io EOF) /\ concat cs = p /\ (length cs <= length p)%nat /\ same_open c c' /\
    reading c' sp e s' n evs' [] evs' /\ spent c'.
Proof using Hq MaskerOk0.
  remember (length p) as k eqn:Ek. assert (length p <= k)%nat as Hk by lia. clear Ek.
  revert c evs p Hk. induction k as [| k IH]; intros c evs p Hk Hrd Hf;
    (destruct (chunkSource_pieced fuel c sp e s' n evs p evs' Hrd Hf)
      as [(-> & c' & E & H1 & H2 & H3 & H4) | (c' & chunk & q & evs1 & E & H1 & H2 & _ & -> & H3 & H4)];
     [exists [], c'; split; [by apply feeds_end | split_and!; (done || (cbn; lia))] |]).
  - destruct chunk; [done |]. cbn in Hk. lia.
  - rewrite length_app in Hk. assert (0 < length chunk)%nat by (destruct chunk; [done | cbn; lia]).
    destruct (IH c' evs1 q) as (cs & c2 & X1 & X2 & X3 & X4 & X5); [lia | done | lia |].
    exists (chunk :: cs), c2. split; [by eapply feeds_chunk |]. split; [cbn; by rewrite X2 |]. split; [cbn; lia |].
    split; [by eapply same_open_trans | done].
Qed.

(** Where reading has got to from [c]. *)
Definition reached c (b : nat) (c' : conn) : Prop :=
  same_open c c' /\ exists evs p, reading c' sp e s' n evs p evs' /\ (length evs <= b)%nat.

Lemma reached_keeps c b c1 c2 r : (b + n + 1 < fuel)%nat -> reached c b c1 -> NextChunk c1 = Some (c2, r) -> reached c b c2.
Proof using Hq MaskerOk0.
  intros Hb (Hs & evs & p & Hrd & Hl) E.
  destruct (chunkSource_pieced fuel c1 sp e s' n evs p evs' Hrd ltac:(lia))
    as [(-> & c' & E' & H1 & H2 & H3 & H4) | (c' & chunk & q & evs1 & E' & H1 & H2 & _ & -> & H3 & H4)];
    unfold NextChunk, source in E; rewrite E' in E; injection E as <- <-; cbn [id].
  - split; [by eapply same_open_trans |]. exists evs', []. split; [done |]. pose proof (remainder_shorter _ _ _ _ _ (rd_rest _ _ _ _ _ _ _ _ Hrd)). lia.
  - split; [by eapply same_open_trans |]. exists evs1, q. split; [done | lia].
Qed.

(** What the streaming decompressor will be given, with [p] still to come. *)
Definition supplied c (d : Dz.Decompressor) (p l : list Z) : Prop :=
  if Dz.eof (Dz.input d) then p = [] /\ spent c /\ Dz.payload (Dz.input d) = [] /\ l = Dz.tail (Dz.input d)
  else Dz.tail (Dz.input d) = inflateTail /\ l = Dz.payload (Dz.input d) ++ p ++ inflateTail.

Lemma supplied_supply c d evs p l :
  reading c sp e s' n evs p evs' -> (length evs + n + 1 < fuel)%nat -> Dz.streaming d = true -> supplied c d p l ->
  (length l + 1 < fuel)%nat ->
  exists c', supply fuel d c l c' (Io EOF) /\ same_open c c' /\ reading c' sp e s' n evs' [] evs' /\ spent c'.
Proof using Hq MaskerOk0.
  intros Hrd Hf Hst Hsu Hl. unfold supplied, supply in *. rewrite Hst. destruct (Dz.eof (Dz.input d)).
  - destruct Hsu as (-> & [Hr Ho] & Hp & ->). destruct (reading_end _ _ _ _ _ _ _ _ Hrd Hr Ho) as (_ & ->).
    exists c. split; [split_and!; (done || lia) |]. split; [apply same_open_refl | done].
  - destruct Hsu as (Ht & ->). destruct (source_feeds c evs p Hrd Hf) as (cs & c' & X1 & X2 & X3 & X4).
    exists c'. split; [| done]. split; [done |]. exists cs. split; [done |].
    rewrite bool_decide_eq_true_2, X2 by done. split; [| done]. rewrite !length_app in Hl. lia.
Qed.

Lemma supply_supplied c c' d evs p l :
  reading c sp e s' n evs p evs' -> (length evs + n + 1 < fuel)%nat -> Dz.streaming d = true -> spent c' ->
  supply fuel d c l c' (Io EOF) -> supplied c d p l.
Proof using Hq MaskerOk0.
  intros Hrd Hf Hst Hsp. unfold supplied, supply. rewrite Hst. destruct (Dz.eof (Dz.input d)).
  - intros (_ & -> & Hp & -> & _). destruct Hsp as [Hr Ho]. by destruct (reading_end _ _ _ _ _ _ _ _ Hrd Hr Ho) as (-> & _).
  - intros (Ht & cs & Hfe & _ & ->). split; [done |]. destruct (source_feeds c evs p Hrd Hf) as (cs2 & c2 & X1 & <- & _).
    destruct (feeds_det _ _ _ _ _ _ _ Hfe X1) as [-> _]. by rewrite bool_decide_eq_true_2.
Qed.
End source.
End streaming.

(** ** A compressed message read as it arrives *)

Section inflating.
Context {M : Masker} `{!MaskerOk M} {G : Grow} `{!GrowOk G} {F : Flate} {I : Inflater} {IO : InflaterOk I} {IS : InflaterSpec I}.
Context {T : Transport} {W : World} {RW : ReadWorld} {RO : ReadWorldOk RW}.
Context (h : Handler) (P Q : wconn -> Prop) (Hq : answers h P Q).
Context (fuel : nat) (sp : spec) (e : error) (s' : script) (n : nat) (evs' : list event).
Implicit Types (c : conn).

#[local] Abbreviation reading := (reading h P).

(** The message on the wire goes on with [raw], which decompresses to [q];
    [D] is the history once it is over. *)
Definition deflated c (raw q D : list Z) : Prop :=
  windows_ok (mem c) /\ pointer_ok (mem c) (rwindow c) /\
  if dstreaming c then
    exists d D0 O l, dec c = Some d /\ decompressor_ok d /\ awaits d (mem c) (rwindow c) D0 O l q /\
      supplied c d raw l /\ (length l + 1 < fuel)%nat /\ D = D0 ++ O ++ q
  else
    dec c = None /\ (length raw + 10 < fuel)%nat /\ inflated (reach_back c) (history c) (raw ++ inflateTail) q /\
    D = history c ++ q.

(** What a call leaves of the connection's settings. *)
Definition settled c c' : Prop :=
  settings c c' /\ readErr c' = readErr c /\ reach_back c' = reach_back c /\ Rx.compression (rx c') = Rx.compression (rx c).

Lemma settled_refl c : settled c c.
Proof. by split_and!. Qed.

Lemma settled_trans c1 c2 c3 : settled c1 c2 -> settled c2 c3 -> settled c1 c3.
Proof.
  intros (H1 & H2 & H3 & H4) (K1 & K2 & K3 & K4). split; [by eapply settings_trans |]. split_and!; congruence.
Qed.

Lemma same_open_settled c c' : same_open c c' -> settled c c'.
Proof. intros ((? & ? & ? & ? & ? & ? & ->) & _ & E). by split_and!. Qed.

(** The connection with the decompressor and the windows it has left. *)
Definition holding c (d : Dz.Decompressor) (m : windows) : conn := {| c with dec := Some d; mem := m |}.

(** [inflate] once the decompressor has begun. *)
Lemma inflate_streams k c d :
  dstreaming c = true -> dec c = Some d ->
  inflate fuel k c =
    ('(d, m, c, r) ← Dz.Read (CS := chunkSource fuel) fuel d (mem c) c k;
     let c := holding c d m in
     match r with
     | Ok out => Some (c, Ok out)
     | Err x =>
         if bool_decide (x = Io EOF) then Some ({| c with dstreaming := false; inMessage := false |}, Err (Io EOF))
         else
           match readErr c with
           | Some e' => Some (c, Err e')
           | None =>
               if bool_decide (srcErr c = Some x) then
                 Some ({| c with readErr := Some x; inMessage := false; dstreaming := false |}, Err x)
               else fail (WsError 1007 (Ws ErrInvalidData)) c
           end
     end).
Proof. intros Hs Hd. unfold inflate, acquireDecompressor, bind. rewrite Hd, Hs. done. Qed.

(** The first call begins. *)
Lemma inflate_begins k c raw q D evs :
  reading c sp e s' n evs raw evs' -> deflated c raw q D -> dstreaming c = false ->
  exists c1, inflate fuel k c = inflate fuel k c1 /\ reading c1 sp e s' n evs raw evs' /\ deflated c1 raw q D /\
    dstreaming c1 = true /\ settled c c1 /\ Rx.MessageCompressed (rx c1) = Rx.MessageCompressed (rx c) /\ inMessage c1 = inMessage c.
Proof using Type*.
  intros Hrd (Hh & Hp & Hd) Es. rewrite Es in Hd. destruct Hd as (Hdec & Hf & Hi & ->).
  destruct (pooled_decompressor (draws c)) as [Hok Hid]. set (d := pooledDecompressor (draws c)) in *.
  assert (abandoned d (mem c) = mem c) as Eab by (unfold abandoned; destruct Hid as (-> & _); done).
  destruct (Begin_awaits d (mem c) (rwindow c) raw q Hok) as (d1 & Eb & Hok1 & Haw & Ein & Ed1); rewrite ?Eab; try done.
  rewrite Eab in Eb, Haw.
  set (c1 := {| {| c with dec := Some d; draws := draws c + 1 |} with dec := Some d1; mem := mem c; dstreaming := true |}).
  exists c1. split.
  { unfold inflate at 1, acquireDecompressor, bind. rewrite Hdec. fold d. cbn [dstreaming mem rwindow]. rewrite Es, Eb.
    by rewrite (inflate_streams k c1 d1). }
  split; [by destruct Hrd |]. split; [| by split_and!]. split; [done |]. split; [done |]. cbn [dstreaming c1].
  exists d1, (history c), [], (raw ++ inflateTail). split; [done |]. split; [done |]. split; [exact Haw |].
  split; [unfold supplied; by rewrite Ein |]. split; [| done].
  rewrite length_app. change (length inflateTail) with 9%nat. lia.
Qed.

(** What a call of [inflate] comes to. *)
Definition inflates k c (evs : list event) q D (res : option (conn * result (list Z))) : Prop :=
  (q = [] /\ exists c', res = Some (c', Err (Io EOF)) /\ settled c c' /\ reading c' sp e s' n evs' [] evs' /\ spent c' /\
     inMessage c' = false /\ mem_ok c' /\ (rwindow c <> None -> history c' = lastn (reach_back c) D)) \/
  (exists c' out q' raw evs1, res = Some (c', Ok out) /\ settled c c' /\ out <> [] /\ len out <= k /\ q = out ++ q' /\
     reading c' sp e s' n evs1 raw evs' /\ deflated c' raw q' D /\ (length evs1 <= length evs)%nat /\
     inMessage c' = inMessage c /\ Rx.MessageCompressed (rx c') = Rx.MessageCompressed (rx c)).

Lemma inflates_settled k c c1 evs q D res :
  settled c c1 -> inMessage c1 = inMessage c -> Rx.MessageCompressed (rx c1) = Rx.MessageCompressed (rx c) ->
  inflates k c1 evs q D res -> inflates k c evs q D res.
Proof.
  intros Hs Hi Hc [(-> & c' & E & X1 & X2 & X3 & X4 & X5 & X6) | (c' & out & q' & raw & evs1 & E & X1 & X2 & X3 & X4 & X5 & X6 & X7 & X8 & X9)].
  - left. split; [done |]. exists c'. split; [done |]. split; [by eapply settled_trans |]. split_and!; try done.
    destruct Hs as ((_ & _ & _ & Ew) & _ & Er & _). by rewrite <- Er, <- Ew.
  - right. exists c', out, q', raw, evs1. split; [done |]. split; [by eapply settled_trans |]. split_and!; try done; congruence.
Qed.

Lemma framed_ok (d d' : Dz.Decompressor) : decompressor_ok d -> framed d d' -> decompressor_ok d'.
Proof. unfold decompressor_ok. intros (? & ? & ?) (-> & -> & _ & X & ->). by split_and!; [apply X | |]. Qed.

(** Once it has begun. *)
Lemma inflate_on k c raw q D evs :
  reading c sp e s' n evs raw evs' -> deflated c raw q D -> dstreaming c = true -> (length evs + n + 1 < fuel)%nat -> 0 < k ->
  inflates k c evs q D (inflate fuel k c).
Proof using Type*.
  intros Hrd (Hh & Hp & Hd) Es Hf Hk. rewrite Es in Hd. destruct Hd as (d & D0 & O & l & Hdec & Hok & Haw & Hsu & Hl & ->).
  rewrite (inflate_streams k c d Es Hdec). pose proof Haw as (_ & Hst & _).
  destruct (supplied_supply h P Q Hq fuel sp e s' n evs' c d evs raw l Hrd Hf Hst Hsu Hl) as (ce & Hsup & Hse & Hre & Hspe).
  destruct (Read_awaits (CS := chunkSource fuel) fuel d (mem c) (rwindow c) D0 O c l ce q k Haw Hsup Hl Hk)
    as (d1 & m1 & c1 & res & E & Hk1 & Hfr & Hres). rewrite E. cbn [mbind option_bind].
  assert (reached h P sp e s' n evs' c (length evs) c1) as (Hs1 & evs1 & raw1 & Hrd1 & Hl1).
  { eapply (Read_keeps (CS := chunkSource fuel) (reached h P sp e s' n evs' c (length evs))); [| | exact E].
    - intros σ σ' r X1 X2. by eapply (reached_keeps h P Q Hq fuel).
    - split; [apply same_open_refl |]. by exists evs, raw. }
  destruct Hk1 as (_ & K1 & K2 & K3).
  assert (settled c (holding c1 d1 m1)) as Hset.
  { pose proof (same_open_settled _ _ Hs1) as ((? & ? & ? & Ew) & ? & ? & ?). split; [by split_and! |]. split_and!; try done.
    unfold reach_back, holding. cbn [mem rwindow]. by rewrite Ew. }
  assert (rwindow c1 = rwindow c) as Ew by apply Hset.
  destruct res as [out | x].
  - destruct Hres as (Hne & Hlo & q' & l' & -> & Haw1 & Hsup1 & Hl'). right.
    exists (holding c1 d1 m1), out, q', raw1, evs1. split; [done |]. split; [done |]. split; [done |]. split; [done |].
    split; [done |]. split; [by destruct Hrd1 |]. split; [| split; [done |]].
    + split; [by apply K1 |]. split; [cbn; rewrite Ew; by apply K2 |].
      replace (dstreaming (holding c1 d1 m1)) with true by (by destruct Hs1 as [(? & ? & ? & ? & ? & ? & ->) _]).
      exists d1, D0, (O ++ out), l'. split; [done |]. split; [by eapply framed_ok |].
      split; [cbn; by rewrite Ew |]. split; [| split; [lia | by rewrite <- !app_assoc]].
      apply (supply_supplied h P Q Hq fuel sp e s' n evs' c1 ce d1 evs1 raw1 l' Hrd1); [lia | apply Haw1 | done | done].
    + destruct Hs1 as [(? & ? & ? & ? & ? & ? & ->) [Hc _]]. split; [done |]. unfold Rx.MessageCompressed. cbn. exact Hc.
  - destruct Hres as (-> & -> & -> & Hid & Hw). rewrite bool_decide_eq_true_2 by done. left. split; [done |]. eexists. split; [done |].
    split; [done |]. split; [by destruct Hre |]. split; [done |]. split; [done |]. split.
    + split; [by apply K1 |]. split; [cbn; rewrite Ew; by apply K2 |]. intros d2 [= <-]. by split; [eapply framed_ok |].
    + unfold history. cbn [mem rwindow holding]. rewrite Ew, app_nil_r. rewrite K3 in Hw. exact Hw.
Qed.

Lemma inflate_post k c raw q D evs :
  reading c sp e s' n evs raw evs' -> deflated c raw q D -> (length evs + n + 1 < fuel)%nat -> 0 < k ->
  inflates k c evs q D (inflate fuel k c).
Proof using Type*.
  intros Hrd Hdf Hf Hk. destruct (dstreaming c) eqn:Es; [by apply (inflate_on k c raw) |].
  destruct (inflate_begins k c raw q D evs Hrd Hdf Es) as (c1 & -> & Hrd1 & Hdf1 & Es1 & X1 & X2 & X3).
  eapply (inflates_settled k c c1); [done | done | done |]. by apply (inflate_on k c1 raw).
Qed.

(** ** Between messages and inside one *)

(** What the window holds after the history [D]. *)
Definition after c (D : list Z) : list Z := if keeps_history c then lastn (reach_back c) D else [].

Lemma after_history c : after c (history c) = history c.
Proof.
  unfold after, keeps_history. destruct (bool_decide_reflect (rwindow c = None)) as [E | E]; cbn [negb];
    [symmetry; by apply history_none | apply lastn_all, dict_at_len].
Qed.

Definition at_rest c (evs : list event) : Prop :=
  between c /\ mem_ok c /\ expects c sp evs e s' n /\ hd c = h /\ P (wr c).

Definition open_message c (evs : list event) (q D : list Z) : Prop :=
  readErr c = None /\ inMessage c = true /\ 0 <= limit c < 2 ^ 63 /\
  exists raw, reading c sp e s' n evs raw evs' /\
    if Rx.MessageCompressed (rx c) then deflated c raw q D else mem_ok c /\ dec c = None /\ q = raw /\ D = history c.

Lemma open_write c w evs q D : open_message c evs q D -> P w -> open_message {| c with wr := w |} evs q D.
Proof. intros (H1 & H2 & H3 & raw & H4 & H5) Hw. repeat (split; [done |]). exists raw. split; [by apply reading_write | exact H5]. Qed.

Lemma settled_after c c' D : settled c c' -> after c' D = after c D.
Proof. intros ((_ & _ & _ & Ew) & _ & Er & _). unfold after, keeps_history. by rewrite Ew, Er. Qed.

(** Read to its end, the message leaves the connection between messages. *)
Lemma ended_rest c c' :
  readErr c = None -> 0 <= limit c < 2 ^ 63 -> settled c c' -> reading c' sp e s' n evs' [] evs' -> spent c' ->
  inMessage c' = false -> mem_ok c' -> at_rest c' evs'.
Proof.
  intros Hr Hl ((_ & El & _) & Er & _) [H1 _ H2 H3 _] [S1 S2] Hi Hm.
  split; [unfold between; rewrite Er, El; split_and!; (done || lia) |]. by split_and!.
Qed.

(** One [Read] of an open message: a piece of it, or its end. *)
Lemma Read_open k c evs q D :
  open_message c evs q D -> (length evs + n + 1 < fuel)%nat -> 0 < k ->
  (q = [] /\ exists c', Cr.Read fuel k c = Some (c', Err (Io EOF)) /\ settled c c' /\ at_rest c' evs' /\ history c' = after c D) \/
  (exists c' chunk q' evs1, Cr.Read fuel k c = Some (c', Ok chunk) /\ settled c c' /\ chunk <> [] /\ len chunk <= k /\
     q = chunk ++ q' /\ open_message c' evs1 q' D /\ (length evs1 <= length evs)%nat).
Proof using Type*.
  intros (Hre & Him & Hlim & raw & Hrd & Hd) Hf Hk. unfold Cr.Read.
  rewrite bind_get, Hre, bind_get, Him. cbn [negb]. destruct (Z.eqb_spec k 0); [lia |]. rewrite bind_get.
  destruct (Rx.MessageCompressed (rx c)) eqn:Emc.
  - destruct (inflate_post k c raw q D evs Hrd Hd Hf Hk)
      as [(-> & c' & -> & X1 & X2 & X3 & X4 & X5 & X6) | (c' & out & q' & raw1 & evs1 & -> & X1 & X2 & X3 & X4 & X5 & X6 & X7 & X8 & X9)].
    + left. split; [done |]. exists c'. split; [done |]. split; [done |]. split; [by eapply ended_rest |].
      unfold after, keeps_history. destruct (bool_decide_reflect (rwindow c = None)) as [E | E]; cbn [negb]; [| by apply X6].
      apply history_none. by destruct X1 as ((_ & _ & _ & ->) & _).
    + right. exists c', out, q', evs1. split_and!; try done. destruct X1 as ((_ & El & _) & Er & _).
      split; [by rewrite Er |]. split; [by rewrite X8 |]. split; [by rewrite El |]. exists raw1. split; [done |]. by rewrite X9, Emc.
  - destruct Hd as (Hm & Hdec & -> & ->).
    destruct (Read_loop_pieced h P Q Hq fuel k c sp e s' n evs raw evs' Hrd Hf Hk)
      as [(-> & c' & -> & X1 & X2 & X3) | (c' & chunk & q & evs1 & -> & X1 & X2 & X3 & -> & X4 & X5)];
      pose proof (same_open_settled _ _ X1) as Hset.
    + left. split; [done |]. exists (left c'). split; [done |]. split; [exact Hset |].
      split.
      * apply (ended_rest c); try done; [by destruct X2 |]. by destruct X1 as [(? & ? & ? & ? & ? & ? & ->) _].
      * rewrite after_history. by destruct X1 as [(? & ? & ? & ? & ? & ? & ->) _].
    + right. exists c', chunk, q, evs1. split_and!; try done. pose proof Hset as ((_ & El & _) & Er & _).
      split; [by rewrite Er |]. destruct X1 as [(? & ? & ? & ? & ? & ? & ->) [Ec _]]. split; [done |]. split; [done |].
      exists q. split; [done |]. unfold Rx.MessageCompressed in *. cbn [rx] in *. by rewrite Ec, Emc.
Qed.

(** ** What is not read *)

Lemma drain_open fuel' k c raw q D evs :
  reading c sp e s' n evs raw evs' -> deflated c raw q D -> (length evs + n + 1 < fuel)%nat -> 0 < k -> len q + 1 < Z.of_nat fuel' ->
  exists c', drain fuel fuel' k c = Some (c', Ok tt) /\ settled c c' /\ reading c' sp e s' n evs' [] evs' /\ spent c' /\
    inMessage c' = false /\ mem_ok c' /\ (rwindow c <> None -> history c' = lastn (reach_back c) D).
Proof using Type*.
  intros Hrd Hd Hf Hk. revert c raw q evs Hrd Hd Hf. induction fuel' as [| fuel' IH]; intros c raw q evs Hrd Hd Hf Hq';
    [pose proof (len_nonneg q); lia |]. cbn [drain]. unfold bind at 1, try.
  destruct (inflate_post k c raw q D evs Hrd Hd Hf Hk)
    as [(-> & c' & -> & X1 & X2 & X3 & X4 & X5 & X6) | (c' & out & q' & raw1 & evs1 & -> & X1 & X2 & X3 & -> & X5 & X6 & X7 & X8 & X9)].
  - rewrite bool_decide_eq_true_2 by done. exists c'. by split_and!.
  - assert (len out <> 0) by (by intros ->%len_0_nil). rewrite len_app in Hq'. pose proof (len_nonneg out).
    destruct (IH c' raw1 q' evs1) as (c2 & -> & Y1 & Y2 & Y3 & Y4 & Y5 & Y6); [done | done | lia | lia |].
    exists c2. split; [done |]. split; [by eapply settled_trans |]. split_and!; try done.
    destruct X1 as ((_ & _ & _ & Ew) & _ & Er & _). by rewrite <- Ew, <- Er.
Qed.

(** Once what was left is discarded, the next message is looked for. *)
Lemma NextMessage_discard c c' :
  (0 < fuel)%nat -> readErr c = None -> discard fuel c = Some (c', Ok tt) -> readErr c' = None -> inMessage c' = false ->
  dstreaming c' = false -> NextMessage fuel c = NextMessage fuel (freed c') /\ ReadMessage fuel c = ReadMessage fuel (freed c').
Proof.
  intros Hf Hr E Hr' Hi Hs.
  assert (NextMessage fuel c = NextMessage fuel (freed c')) as En.
  { destruct (freed_same c') as (_ & _ & _ & _ & _ & _ & F1 & _ & _ & F2).
    rewrite (NextMessage_waiting fuel (freed c')) by congruence.
    unfold NextMessage. rewrite bind_get, Hr, (bind_ok _ _ _ _ _ E). unfold releaseDecompressor, releaseMsg. rewrite !bind_put.
    assert (dec (freed c') = None /\ dstreaming (freed c') = false) as [Ed Es].
    { unfold freed. destruct (dec c') as [d |] eqn:Ed; [| done]. by destruct (if large c' then _ else _). }
    assert (forall x, dec x = None -> dstreaming x = false -> waiting x = {| x with msg := None |}) as ->; [| done..].
    intros x X1 X2. unfold waiting, freed. cbn [dec]. rewrite X1. destruct x. cbn in X2. by subst. }
  split; [done |]. unfold ReadMessage, bind at 1. unfold bind at 2. by rewrite En.
Qed.

(** Freeing the decompressor leaves the windows as they are. *)
Lemma freed_rest c evs :
  between c -> expects c sp evs e s' n -> hd c = h -> P (wr c) -> windows_ok (mem c) -> pointer_ok (mem c) (rwindow c) ->
  (forall d, dec c = Some d -> Dz.window d = None) ->
  at_rest (freed c) evs /\ settled c (freed c) /\ history (freed c) = history c.
Proof.
  intros Hb He Hh Hp H1 H2 Hd. unfold freed. destruct (dec c) as [d |] eqn:Ed.
  - specialize (Hd d eq_refl). unfold Dz.ReleaseOutput, Dz.Reset, Dz.finish. rewrite Hd.
    destruct (large c); (split; [split; [done |]; split; [split; [done |]; split; [done |]; by intros ? [=] | done] | by split_and!]).
  - split; [| by split_and!]. split; [done |]. split; [| done]. split; [done |]. split; [done |]. by rewrite Ed.
Qed.

(** The rest of an open message is discarded, and the history is as if it had
    been read. *)
Lemma discard_open c evs q D :
  open_message c evs q D -> (length evs + n + 1 < fuel)%nat -> 0 < fragmentSize (wr c) -> len q + 1 < Z.of_nat fuel ->
  exists c', at_rest c' evs' /\ settled c c' /\ history c' = after c D /\
    NextMessage fuel c = NextMessage fuel c' /\ ReadMessage fuel c = ReadMessage fuel c'.
Proof using Type*.
  intros (Hre & Him & Hlim & raw & Hrd & Hd) Hf Hsz Hq'.
  assert (forall c1 c2, settled c c1 -> discard fuel c = Some (c2, Ok tt) -> reading c1 sp e s' n evs' [] evs' -> spent c1 ->
    inMessage c2 = false -> dstreaming c2 = false -> c2 = {| c1 with inMessage := false; dstreaming := false |} ->
    windows_ok (mem c1) -> pointer_ok (mem c1) (rwindow c1) -> (forall d, dec c1 = Some d -> Dz.window d = None) ->
    history c1 = after c D -> exists c', at_rest c' evs' /\ settled c c' /\ history c' = after c D /\
      NextMessage fuel c = NextMessage fuel c' /\ ReadMessage fuel c = ReadMessage fuel c') as Hend.
  { intros c1 c2 Hs Ed [R1 _ R2 R3 _] [S1 S2] Hi2 Hs2 -> W1 W2 Wd Hh. pose proof Hs as ((_ & El & _) & Er & _).
    set (c2 := {| c1 with inMessage := false; dstreaming := false |}) in *.
    assert (between c2) as Hb.
    { unfold between. change (readErr c2) with (readErr c1). change (limit c2) with (limit c1). rewrite Er, El. split_and!; (done || lia). }
    destruct (freed_rest c2 evs' Hb R1 R2 R3 W1 W2 Wd) as (F1 & F2 & F3).
    exists (freed c2). split; [done |]. split; [eapply settled_trans; [exact Hs | exact F2] |].
    split; [by rewrite F3 |]. apply NextMessage_discard; [lia | done | done | by apply Hb | done | done]. }
  unfold discard in Hend. rewrite bind_get, Him in Hend. cbn [andb] in Hend.
  assert (forall c1, settled c c1 -> inMessage c1 = true -> reading c1 sp e s' n evs raw evs' ->
    exists c2, skip fuel {| c1 with dstreaming := false |} = Some ({| c2 with inMessage := false; dstreaming := false |}, Ok tt) /\
      settled c1 c2 /\ reading c2 sp e s' n evs' [] evs' /\ spent c2 /\ dec c2 = dec c1 /\ mem c2 = mem c1) as Hskip.
  { intros c1 Hs Hi1 Hrd1. set (c0 := {| c1 with dstreaming := false |}).
    destruct (skip_post h P Q Hq fuel c0 sp e s' n evs raw evs') as (c2 & -> & X1 & X2 & X3); [by destruct Hrd1 | done | lia |].
    exists c2. split; [| split; [exact (same_open_settled _ _ X1) |]].
    - unfold left. destruct X1 as [(? & ? & ? & ? & ? & ? & ->) _]. done.
    - split; [done |]. split; [done |]. by destruct X1 as [(? & ? & ? & ? & ? & ? & ->) _]. }
  destruct (Rx.MessageCompressed (rx c)) eqn:Emc; cbn [andb] in Hend.
  - destruct (bool_decide_reflect (rwindow c = None)) as [Ew | Ew]; cbn [negb] in Hend.
    + rewrite bind_pure, bind_put in Hend. destruct (Hskip c (settled_refl c) Him Hrd) as (c2 & E & X1 & X2 & X3 & X4 & X5).
      destruct Hd as (W1 & W2 & Hd).
      eapply (Hend c2); [done | exact E | done | done | done | done | done | by rewrite X5 | | |].
      * rewrite X5. by destruct X1 as ((_ & _ & _ & ->) & _).
      * rewrite X4. intros d Ed. destruct (dstreaming c); [| by destruct Hd; congruence].
        destruct Hd as (d' & D0 & O & l & Ed' & _ & (Hm & _) & _). rewrite Ed in Ed'. injection Ed' as <-.
        by rewrite (mid_window _ _ _ _ _ Hm).
      * unfold after, keeps_history. rewrite Ew, bool_decide_eq_true_2 by done. cbn [negb]. apply history_none.
        by destruct X1 as ((_ & _ & _ & ->) & _).
    + destruct (growMsg_post [] (empty_msg c).2 (fragmentSize (wr c)) c) as (m & dr & cap' & Eg); [by intros [] |].
      assert (growMsg (empty_msg c) (fragmentSize (wr c)) c = Some (Assembling.grown c m dr, Ok ([], cap'))) as Eg'.
      { assert (empty_msg c = ([], (empty_msg c).2)) as -> by (unfold empty_msg; by destruct (msg c)). exact Eg. }
      set (c1 := Assembling.grown c m dr) in *.
      assert (staging c = Some (c1, Ok (fragmentSize (wr c)))) as Est
        by (unfold staging; by rewrite bind_get, bind_get, (bind_ok _ _ _ _ _ Eg')).
      destruct (drain_open fuel (fragmentSize (wr c)) c1 raw q D evs) as (c2 & E2 & X1 & X2 & X3 & X4 & X5 & X6);
        [by destruct Hrd | exact Hd | done | done | done |].
      assert (settled c c2) as Hs2 by exact X1.
      eapply (Hend c2); [done | | done | done | | | | by apply X5 | by apply X5 | |].
      * erewrite bind_ok; [rewrite bind_put | rewrite (bind_ok _ _ _ _ _ Est); exact E2].
        destruct fuel as [| fuel']; [lia |]. cbn [skip]. rewrite bind_get. cbn [inMessage]. rewrite X4. reflexivity.
      * cbn [inMessage]. done.
      * done.
      * done.
      * intros d Ed. destruct X5 as (_ & _ & X5). by destruct (X5 d Ed) as (_ & _ & ? & _).
      * unfold after, keeps_history. rewrite bool_decide_eq_false_2 by done. cbn [negb]. by apply X6.
  - rewrite bind_pure, bind_put in Hend. destruct (Hskip c (settled_refl c) Him Hrd) as (c2 & E & X1 & X2 & X3 & X4 & X5).
    destruct Hd as ((W1 & W2 & Hd) & Edec & -> & ->).
    eapply (Hend c2); [done | exact E | done | done | done | done | done | by rewrite X5 | | |].
    + rewrite X5. by destruct X1 as ((_ & _ & _ & ->) & _).
    + by rewrite X4, Edec.
    + rewrite after_history. unfold history. rewrite X5. by destruct X1 as ((_ & _ & _ & ->) & _).
Qed.

(** ** The next message *)

Lemma NextMessage_opens c evs ctl fin op rsv k evs1 raw q D :
  at_rest c evs -> evs = ctl ++ EvFrame fin op rsv k :: evs1 -> Forall answerable ctl -> remainder fin k evs1 raw evs' ->
  (if rsv then inflated (reach_back c) (history c) (raw ++ inflateTail) q /\ (length raw + 10 < fuel)%nat /\ D = history c ++ q
   else q = raw /\ D = history c) ->
  (length evs + n < fuel)%nat ->
  exists c', NextMessage fuel c = Some (c', Ok op) /\ open_message c' evs1 q D /\ settled c c' /\ (length evs1 < length evs)%nat.
Proof using Type*.
  intros (Hb & Hm & He & Hh & Hp) -> Hctl Hrest Hq' Hf. pose proof Hb as (Hre & Him & Hrm & Hmo & Hlim).
  destruct (waiting_same c) as (S1 & S2 & S3 & S4 & S5 & S6 & S7 & S8 & S9 & S10).
  destruct (waiting_mem c Hm) as (M1 & M2 & M3). set (c0 := waiting c) in *.
  assert (expects c0 sp (ctl ++ EvFrame fin op rsv k :: evs1) e s' n) as He0.
  { destruct He as (E1 & E2 & E3 & b & E4 & E5 & E6). apply (expects_intro _ b); by rewrite ?S5, ?S6, ?S9. }
  assert (hd c0 = hd c) as Eh by (unfold hd; by rewrite S2).
  pose proof (nextFrame_post fuel c0 sp _ e s' n He0 ltac:(by rewrite S5) Hf) as Hn.
  destruct (to_frame_answered h P Q Hq (wr c) ctl fin op rsv k evs1 Hp Hctl) as (w1 & Ef & Hp1).
  rewrite Eh, S1, Hh, Ef in Hn. destruct Hn as (r & s & E1 & X1 & X2 & X3 & X4 & X5).
  pose proof (NextMessage_waiting fuel c ltac:(lia) Hre Him) as En. fold c0 in En.
  rewrite (bind_ok _ _ _ _ _ E1), bind_put in En. cbv beta in En. set (c1 := entered (moved c0 r s w1)) in *.
  pose proof (header_at_payload _ _ X3) as Hat. destruct X3 as (Z1 & Z2 & Z3 & Z4 & Z5). injection X2 as Y1 Y2 Y3 Y4.
  assert (settled c c1) as Hset.
  { split; [split_and!; [exact Eh | exact S3 | exact S4 | exact S8] |]. split; [exact S7 |]. split; [| by rewrite <- S5].
    unfold reach_back. change (mem c1) with (mem c0). change (rwindow c1) with (rwindow c0). by rewrite M3, S8. }
  exists c1. split; [rewrite En; by rewrite <- Y2 |]. split; [| by split].
  split; [by change (readErr c1) with (readErr c0); rewrite S7 |]. split; [done |].
  split; [by change (limit c1) with (limit c0); rewrite S3 |]. exists raw. split.
  { constructor; [done | done | by change (hd c1) with (hd c0); rewrite Eh | done |]. change (rx c1) with r. by rewrite Y1, Z1, Y4. }
  assert (history c1 = history c) as Ehi by (unfold history; change (mem c1) with (mem c0); change (rwindow c1) with (rwindow c0); by rewrite M3, S8).
  assert (reach_back c1 = reach_back c) as Erb by apply Hset.
  replace (Rx.MessageCompressed (rx c1)) with rsv.
  2: { unfold Rx.MessageCompressed. change (rx c1) with r. rewrite Z3, Z2, S5. unfold Rx.MessageOpen in Hmo.
       by apply negb_false_iff in Hmo as ->. }
  destruct rsv.
  - destruct M1 as (W1 & W2 & _). split; [exact W1 |]. split; [exact W2 |].
    replace (dstreaming c1) with false by (change (dstreaming c1) with (dstreaming c0); unfold c0, waiting, freed; cbn; destruct (dec c); [by destruct (if large c then _ else _) | done]).
    rewrite Ehi, Erb. destruct Hq' as (? & ? & ?). by split_and!.
  - rewrite Ehi. destruct Hq' as [-> ->]. split; [exact M1 |]. split; [exact M2 | done].
Qed.
End inflating.

(** ** Messages that are due, in pieces *)

(** No message is left open at the end. *)
Definition whole (evs : list event) : Prop := (foldl event_step ([], None) evs).2 = None.

Lemma event_step_open st st' ev : st.2 = st'.2 -> (event_step st ev).2 = (event_step st' ev).2.
Proof.
  destruct st as [ms cur], st' as [ms' cur']. cbn. intros <-. destruct ev as [fin op rsv k | b | op p | x]; cbn; [| | done..].
  - destruct (k =? 0); [by destruct fin | done].
  - destruct cur as [[[[[o c] d] fin] k] |]; [| done]. destruct (k - 1 =? 0); [by destruct fin | done].
Qed.

Lemma whole_from evs ms : whole evs <-> (foldl event_step (ms, None) evs).2 = None.
Proof.
  assert (forall st st', st.2 = st'.2 -> (foldl event_step st evs).2 = (foldl event_step st' evs).2) as H.
  { induction evs as [| ev evs IH]; intros st st' E; [done |]. cbn [foldl]. by apply IH, event_step_open. }
  unfold whole. by rewrite (H ([], None) (ms, None) eq_refl).
Qed.

Section due.
Context {M : Masker} `{!MaskerOk M} {G : Grow} `{!GrowOk G} {F : Flate} {I : Inflater} {IO : InflaterOk I} {IS : InflaterSpec I}.
Context {T : Transport} {W : World} {RW : ReadWorld} {RO : ReadWorldOk RW}.
Context (h : Handler) (P Q : wconn -> Prop) (Hq : answers h P Q).
Context (fuel : nat) (sp : spec) (e : error) (s' : script) (n : nat) (bad : Z -> list Z -> bool) (lim : Z).
Implicit Types (c : conn) (evs : list event) (out : list (Z * list Z)).

(** What is to come after the history [D]. *)
Definition coming c evs (D : list Z) out : Prop :=
  traffic false evs /\
  exists ms raws, (foldl event_step (ms, None) evs).1 = ms ++ raws /\ fits lim (ms ++ raws) /\
    unpacks bad lim (reach_back c) (keeps_history c) D raws out.

(** Between messages, with [out] to come. *)
Definition ready_for c evs out : Prop := due_within bad lim c sp evs e s' n out /\ hd c = h /\ P (wr c).

(** Inside a message: [p] of it is to come, then [out]; [evs'] are the events
    after it. *)
Definition opened c evs evs' (p : list Z) out : Prop :=
  len p <= lim /\
  exists D, open_message h P fuel sp e s' n evs' c evs p D /\ coming c evs' (after c D) out.

Definition roomy evs : Prop := (length evs + n + 1 < fuel)%nat /\ lim + 11 < Z.of_nat fuel.

Lemma roomy_less evs evs1 : (length evs1 <= length evs)%nat -> roomy evs -> roomy evs1.
Proof. unfold roomy. lia. Qed.

Lemma coming_settled c c' evs D out : settled c c' -> coming c evs D out -> coming c' evs D out.
Proof.
  intros ((_ & El & Ev & Ew) & _ & Er & _) (H1 & ms & raws & H2 & H3 & H4). split; [done |]. exists ms, raws.
  unfold keeps_history in *. rewrite Ew, Er. by split_and!.
Qed.

Lemma opened_write c w evs evs' p out : opened c evs evs' p out -> P w -> opened {| c with wr := w |} evs evs' p out.
Proof. intros (H1 & D & H2 & H3) Hw. split; [done |]. exists D. by split; [apply open_write |]. Qed.

(** The next message begins. *)
Lemma next_opens c evs op p out :
  ready_for c evs ((op, p) :: out) -> roomy evs ->
  exists c' evs1 evs', NextMessage fuel c = Some (c', Ok op) /\ opened c' evs1 evs' p out /\ settled c c' /\
    (length evs1 < length evs)%nat /\ (whole evs -> whole evs') /\ suffix evs' evs.
Proof using Type*.
  intros ((Hb & Hm & He & Ht & ms & raws & Hraws & Hfit & Hu) & Hh & Hp) [Hf Hfl].
  destruct (traffic_split false evs Ht) as [(ctl & fin & op' & rsv & l & evs1 & Eevs & H1 & H2 & H3 & H4) | H].
  2: { rewrite no_frames_fold in Hraws by done. cbn in Hraws. assert (raws = []) as -> by (eapply (app_inv_head ms); by rewrite app_nil_r). inversion Hu. }
  destruct (remainder_traffic (S (length evs1)) fin l evs1 ms op' rsv [] ltac:(lia) H3) as [[X1 _] | (raw & evs' & X1 & X2 & X3)].
  { exfalso. rewrite H4, step_first in Hraws by done. cbn [app] in X1. rewrite X1 in Hraws.
    assert (raws = []) as -> by (eapply (app_inv_head ms); by rewrite app_nil_r). inversion Hu. }
  cbn [app] in X3. rewrite H4, step_first in Hraws by done. cbn [app] in X3. rewrite X3 in Hraws.
  destruct (received_prefix (ms ++ [(op', rsv, raw)], None) evs') as [rest Erest]. cbn [fst] in Erest.
  rewrite Erest, <- app_assoc in Hraws. apply app_inv_head in Hraws. cbn [app] in Hraws. subst raws.
  assert (len raw <= lim) as Hlr.
  { apply Forall_app in Hfit as [_ Hfit]. by apply Forall_cons_1 in Hfit as [Hfit _]. }
  
  assert (op' = op /\ len p <= lim /\ exists D,
    (if rsv then inflated (reach_back c) (history c) (raw ++ inflateTail) p /\ (length raw + 10 < fuel)%nat /\ D = history c ++ p
     else p = raw /\ D = history c) /\
    unpacks bad lim (reach_back c) (keeps_history c) (after c D) rest out) as (-> & Hlp & D & HD & Hu').
  { inversion Hu as [| D op2 p2 raws2 out2 Hbad Hu' | D op2 p2 q2 raws2 out2 Hi Hlq Hbad Hu']; subst.
    - split; [done |]. split; [done |]. exists (history c). by rewrite after_history.
    - split; [done |]. split; [done |]. exists (history c ++ p). split; [split_and!; try done; unfold len in Hlr; lia |].
      unfold after. destruct (keeps_history c) eqn:Ek; [done |]. unfold keeps_history in Ek. apply negb_false_iff, bool_decide_eq_true in Ek.
      by rewrite <- (history_none c Ek). }
  destruct (NextMessage_opens h P Q Hq fuel sp e s' n evs' c evs ctl fin op rsv (len l) ((EvData <$> l) ++ evs1) raw p D)
    as (c' & E & Ho & Hset & Hlt); try done; [lia |].
  exists c', ((EvData <$> l) ++ evs1), evs'. split; [done |]. split; [| split; [done | split; [done | split]]].
  - split; [done |]. exists D. split; [done |]. rewrite (settled_after _ _ _ Hset). eapply coming_settled; [exact Hset |].
    split; [done |]. exists (ms ++ [(op, rsv, raw)]), rest. split; [done |]. split; [by rewrite <- app_assoc | done].
  - intros Hw. rewrite (whole_from _ ms), H4, step_first, X3 in Hw by done. by eapply whole_from.
  - destruct (remainder_suffix _ _ _ _ _ X1) as [k1 Hk1]. rewrite Eevs, Hk1. exists (ctl ++ EvFrame fin op rsv (len l) :: k1). by rewrite <- app_assoc.
Qed.

(** With nothing due and no message left open, no frame is to come. *)
Lemma none_left c evs : ready_for c evs [] -> whole evs -> no_frames evs.
Proof.
  intros ((_ & _ & _ & Ht & ms & raws & Hraws & _ & Hu) & _) Hw. inversion Hu; subst raws. rewrite app_nil_r in Hraws.
  destruct (traffic_split false evs Ht) as [(ctl & fin & op & rsv & l & evs1 & -> & H1 & H2 & H3 & H4) | Hnf]; [exfalso | done].
  rewrite (whole_from _ ms), H4, step_first in Hw by done. rewrite H4, step_first in Hraws by done.
  destruct (remainder_traffic (S (length evs1)) fin l evs1 ms op rsv [] ltac:(lia) H3) as [[_ X] | (raw & evs' & _ & _ & X)]; [done |].
  cbn [app] in X. rewrite X in Hraws. destruct (received_prefix (ms ++ [(op, rsv, raw)], None) evs') as [rest Er].
  rewrite Er in Hraws. cbn [fst] in Hraws. apply (f_equal length) in Hraws. rewrite !length_app in Hraws. cbn in Hraws. lia.
Qed.

(** One [Read] of it. *)
Lemma read_opened k c evs evs' p out :
  opened c evs evs' p out -> roomy evs -> 0 < k ->
  (p = [] /\ exists c', Cr.Read fuel k c = Some (c', Err (Io EOF)) /\ ready_for c' evs' out /\ settled c c' /\
     (length evs' <= length evs)%nat) \/
  (exists c' chunk q evs1, Cr.Read fuel k c = Some (c', Ok chunk) /\ chunk <> [] /\ len chunk <= k /\ p = chunk ++ q /\
     opened c' evs1 evs' q out /\ settled c c' /\ (length evs1 <= length evs)%nat).
Proof using Type*.
  intros (Hlp & D & Ho & Hc) [Hf Hfl] Hk.
  destruct (Read_open h P Q Hq fuel sp e s' n evs' k c evs p D Ho ltac:(lia) Hk)
    as [(-> & c' & E & Hset & Hr & Eh) | (c' & chunk & q & evs1 & E & Hset & X1 & X2 & -> & X3 & X4)].
  - left. split; [done |]. exists c'. split; [done |]. destruct Hr as (R1 & R2 & R3 & R4 & R5).
    pose proof (coming_settled _ _ _ _ _ Hset Hc) as Hc'. rewrite <- Eh in Hc'. destruct Hc' as [T1 T2].
    split; [by split_and! |]. split; [done |]. destruct Ho as (_ & _ & _ & raw & [_ _ _ _ Hr] & _). by apply remainder_shorter in Hr.
  - right. exists c', chunk, q, evs1. split_and!; try done.
    rewrite len_app in Hlp. pose proof (len_nonneg chunk). split; [lia |]. exists D. split; [done |].
    rewrite (settled_after _ _ _ Hset). by eapply coming_settled.
Qed.

(** What is left of it is skipped. *)
Lemma skip_opened c evs evs' p out :
  opened c evs evs' p out -> roomy evs -> 0 < fragmentSize (wr c) ->
  exists c', ready_for c' evs' out /\ settled c c' /\ NextMessage fuel c = NextMessage fuel c' /\ ReadMessage fuel c = ReadMessage fuel c'.
Proof using Type*.
  intros (Hlp & D & Ho & Hc) [Hf Hfl] Hsz.
  destruct (discard_open h P Q Hq fuel sp e s' n evs' c evs p D Ho ltac:(lia) Hsz ltac:(lia)) as (c' & Hr & Hset & Eh & En & Em).
  exists c'. split; [| by split_and!]. destruct Hr as (R1 & R2 & R3 & R4 & R5).
  pose proof (coming_settled _ _ _ _ _ Hset Hc) as Hc'. rewrite <- Eh in Hc'. destruct Hc' as [T1 T2]. by split_and!.
Qed.

(** Up to [j] calls of [Read] with buffers of [ns 0], [ns 1], ..: what they
    gave, and the error they stopped at. *)
Fixpoint some_pieces (j : nat) (ns : nat -> Z) c : option (conn * list Z * option error) :=
  match j with
  | O => Some (c, [], None)
  | S j =>
      '(c, r) ← Cr.Read fuel (ns O) c;
      match r with
      | Err x => Some (c, [], Some x)
      | Ok chunk => '(c, l, x) ← some_pieces j (fun i => ns (S i)) c; Some (c, chunk ++ l, x)
      end
  end.

Lemma some_pieces_post j ns c evs evs' p out :
  opened c evs evs' p out -> roomy evs -> (forall i, 0 < ns i) ->
  exists c' l x, some_pieces j ns c = Some (c', l, x) /\ settled c c' /\
    ((x = Some (Io EOF) /\ l = p /\ ready_for c' evs' out) \/
     (x = None /\ Z.of_nat j <= len l /\ exists q evs1, p = l ++ q /\ opened c' evs1 evs' q out /\ (length evs1 <= length evs)%nat)).
Proof using Type*.
  revert ns c evs p. induction j as [| j IH]; intros ns c evs p Ho Hr Hns; cbn [some_pieces].
  { exists c, [], None. split; [done |]. split; [apply settled_refl |]. right. split; [done |]. split; [done |]. by exists p, evs. }
  destruct (read_opened (ns O) c evs evs' p out Ho Hr (Hns O))
    as [(-> & c1 & -> & Hrd & Hs & _) | (c1 & chunk & q & evs1 & -> & Hne & Hl & -> & Ho1 & Hs & Hle)]; cbn [mbind option_bind].
  { exists c1, [], (Some (Io EOF)). split; [done |]. split; [done |]. by left. }
  destruct (IH (fun i => ns (S i)) c1 evs1 q Ho1 ltac:(by eapply roomy_less) ltac:(intros i; apply Hns)) as (c2 & l & x & -> & Hs2 & Hx).
  cbn [mbind option_bind]. exists c2, (chunk ++ l), x. split; [done |]. split; [by eapply settled_trans |].
  assert (0 < len chunk) by (destruct chunk; [done | rewrite len_cons; pose proof (len_nonneg chunk); lia]).
  destruct Hx as [(-> & -> & Hrd) | (-> & Hj & q2 & evs2 & -> & Ho2 & Hle2)]; [by left |].
  right. split; [done |]. split; [rewrite len_app; lia |]. exists q2, evs2. rewrite <- app_assoc. split; [done |]. split; [done | lia].
Qed.

(** C11. A message may be read in pieces, and need not be read to the end.
    Where [ReadMessage] would return [(op, p)], compressed or not,
    [NextMessage] returns [op], and any number of calls of [Read] with buffers
    of any sizes give [p] piece by piece, inflated as it arrives, none of them
    empty, and then [io.EOF].  Wherever they stop, the next [NextMessage] or
    [ReadMessage] is the one after the whole message: what was not read is
    skipped with its control frames answered, the window a compressed message
    leaves is the one of the whole of it, and the messages still to come are
    the same. *)
Theorem Read_pieces j ns c evs op p out :
  ready_for c evs ((op, p) :: out) -> roomy evs -> (forall w, P w -> 0 < fragmentSize w) -> (forall i, 0 < ns i) ->
  exists c1 c2 l x c3 evs', NextMessage fuel c = Some (c1, Ok op) /\ some_pieces j ns c1 = Some (c2, l, x) /\
    (x = Some (Io EOF) /\ l = p \/ x = None /\ Z.of_nat j <= len l /\ prefix l p) /\
    ready_for c3 evs' out /\ settled c c3 /\ NextMessage fuel c2 = NextMessage fuel c3 /\ ReadMessage fuel c2 = ReadMessage fuel c3.
Proof using Type*.
  intros Hrd Hr Hsz Hns. destruct (next_opens c evs op p out Hrd Hr) as (c1 & evs1 & evs' & E1 & Ho & Hs1 & Hlt & _ & _).
  assert (roomy evs1) as Hr1 by (eapply roomy_less; [| exact Hr]; lia).
  destruct (some_pieces_post j ns c1 evs1 evs' p out Ho Hr1 Hns) as (c2 & l & x & E2 & Hs2 & Hx).
  pose proof (settled_trans _ _ _ Hs1 Hs2) as Hs. destruct Hx as [(-> & -> & Hrd2) | (-> & Hj & q & evs2 & -> & Ho2 & Hle)].
  - exists c1, c2, p, (Some (Io EOF)), c2, evs'. split; [done |]. split; [done |]. split; [by left | done].
  - assert (0 < fragmentSize (wr c2)) as Hsz2 by (destruct Ho2 as (_ & D & (_ & _ & _ & raw & [_ _ _ Hp _] & _) & _); by apply Hsz).
    destruct (skip_opened c2 evs2 evs' q out Ho2) as (c3 & Hrd3 & Hs3 & En & Em); [exact (roomy_less evs1 evs2 Hle Hr1) | done |].
    exists c1, c2, l, None, c3, evs'. split; [done |]. split; [done |].
    split; [right; split; [done | split; [done | by exists q]] |]. split; [done |]. split; [by eapply settled_trans | done].
Qed.
End due.

(** ** A connection, for the witness *)

#[local] Existing Instance swar_masker.
#[local] Existing Instance double_growth.
#[local] Existing Instance double_growth_ok.
#[local] Existing Instance stored_flate.
#[local] Existing Instance stored_flate_bytes.
#[local] Existing Instance perfect.
#[local] Existing Instance perfect_reliable.
#[local] Existing Instance stored_world.
#[local] Existing Instance stored_world_ok.
#[local] Existing Instance fresh_pools.
#[local] Existing Instance fresh_pools_ok.

Lemma default_sized `{Masker} `{Grow} `{Flate} `{Transport} `{World} P :
  agreeable DefaultControlHandler P -> agreeable DefaultControlHandler (fun w => P w /\ 0 < fragmentSize w).
Proof.
  intros [Hping Hpong Hclose]. split; [| by intros w p Hp Hw; exists w |].
  - intros w p Hp [Hw Hs]. destruct (Hping w p Hp Hw) as (w' & E & Hw'). exists w'. split; [exact E |]. split; [exact Hw' |].
    pose proof (send_size w Opcode.Pong p) as Hsz. change (Cw.send w Opcode.Pong p) with (OnPing DefaultControlHandler w p) in Hsz.
    rewrite E in Hsz. cbn in Hsz. by rewrite Hsz.
  - intros w code reason Hc Hr [Hw _]. exact (Hclose w code reason Hc Hr Hw).
Qed.

Lemma demo_ready :
  exists P sp evs, agreeable DefaultControlHandler P /\ (forall w, P w -> 0 < fragmentSize w) /\
    ready_for DefaultControlHandler P sp (Io EOF) [] (length demo_bytes) (invalid_text demo_conn) 1000 demo_conn evs
      [(Opcode.Text, [72; 105]); (Opcode.Binary, [1; 2; 3]); (Opcode.Binary, [9; 9])] /\
    roomy 4000 (length demo_bytes) 1000 evs.
Proof.
  destruct (default_agreeable demo_client (WO := stored_world_ok) false) as (P & HP1 & HP2).
  pose proof (new_winv demo_config true 15 (len demo_ops + 0) ltac:(vm_compute; done) ltac:(vm_compute; discriminate)) as Hinv.
  pose proof (do_ops_post (Sending.reach demo_config) (cRole demo_config) (cCompression demo_config) (peer_window demo_config 15)
    demo_ops _ [] [] _ 0 ltac:(lia) (new_io demo_config true) Hinv stored_ops_ok) as H.
  assert (sent_messages demo_ops (do_ops (newWrite demo_config true) demo_ops).2
    = [(Opcode.Text, [72; 105]); (Opcode.Binary, [1; 2; 3]); (Opcode.Binary, [9; 9])]) as Es
    by (vm_compute; reflexivity).
  assert (written (out (Cw.run 2 (do_ops (newWrite demo_config true) demo_ops).1)) = demo_bytes) as Eb
    by (vm_compute; reflexivity).
  destruct (do_ops (newWrite demo_config true) demo_ops) as [s rs] eqn:Eo. cbn [fst snd] in *. destruct H as [_ Hpost].
  destruct (post_due demo_config (Sending.reach demo_config) s _ _ demo_client None false (cut 30 7 demo_bytes) demo_conn
    ltac:(split; [reflexivity | split; [reflexivity | vm_compute; discriminate]]) ltac:(vm_compute; reflexivity) Hpost)
    as (sp & evs & Hd & Hev & E1 & E2 & E3 & E4).
  - rewrite Eb. exact demo_cut.
  - apply (bool_decide_unpack _). vm_compute. exact Logic.I.
  - reflexivity.
  - apply (bool_decide_unpack _). vm_compute. exact Logic.I.
  - change (g_sent (foldl ghost_step (Ghost None []) (zip demo_ops rs))) with (sent_messages demo_ops rs). rewrite Es.
    repeat (apply Forall_cons; split; [split; [vm_compute; discriminate | intros _ _; vm_compute; reflexivity] |]).
    apply Forall_nil_2.
  - change (g_sent (foldl ghost_step (Ghost None []) (zip demo_ops rs))) with (sent_messages demo_ops rs) in Hd. rewrite Es in Hd.
    unfold due in Hd. rewrite E3 in Hd. rewrite demo_cut in *.
    exists (fun w => P w /\ 0 < fragmentSize w), sp, evs. split; [by apply default_sized |]. split; [by intros w [_ H] |].
    split; [split; [exact Hd |]; split; [exact E1 |]; rewrite E2; by split |].
    split; [| vm_compute; reflexivity]. assert (length demo_bytes + length demo_bytes + 1 < 4000)%nat by (apply (bool_decide_unpack _); vm_compute; exact Logic.I). lia.
Qed.

Lemma Read_pieces_witness :
  exists c1 c2 l x c3, NextMessage 4000 demo_conn = Some (c1, Ok Opcode.Text) /\ some_pieces 4000 1 (fun _ => 1) c1 = Some (c2, l, x) /\
    (x = Some (Io EOF) /\ l = [72; 105] \/ x = None /\ 1 <= len l /\ prefix l [72; 105]) /\
    NextMessage 4000 c2 = NextMessage 4000 c3 /\ ReadMessage 4000 c2 = ReadMessage 4000 c3.
Proof.
  destruct demo_ready as (P & sp & evs & Hq & Hs & Hrd & Hr).
  destruct (Read_pieces DefaultControlHandler P _ Hq 4000 sp (Io EOF) [] (length demo_bytes) (invalid_text demo_conn) 1000
    1 (fun _ => 1) demo_conn evs _ _ _ Hrd Hr Hs ltac:(done)) as (c1 & c2 & l & x & c3 & evs' & E1 & E2 & E3 & _ & _ & E4 & E5).
  exists c1, c2, l, x, c3. split; [exact E1 |]. split; [exact E2 |]. split; [exact E3 |]. split; [exact E4 | exact E5].
Defined.
