(* ===== verification/Copying.v ===== *)
(** * Copying: a message handed to a writer

    [WriteTo], compressed or not, said of the events to come: the writer is
    given the message piece by piece, until it is over or a write fails. *)

From stdpp Require Import prelude gmap.
From S2P Require Import Prelude Mask Errors Header Encoder Decoder Utf8 Close Receiver Stream Refine Pump Wire Traffic Sender Bufpool Window Compressor Decompressor Stored Inflating Inflation Handshake Queue ConnCompress SendFlow ConnWrite WriteSpec Delivery Calls Conversation StreamWrite Sending ConnRead Reading Assembling Bounded Messages Exchange Streaming.

Import Cr.
#[local] Open Scope io_scope.

(** ** The writes *)

(** The pieces given to the writer one by one, up to its first error. *)
Fixpoint write_pieces (sink : sink_writes) (o : net) (total : Z) (ps : list (list Z)) : net * Z * option error :=
  match ps with
  | [] => (o, total, None)
  | p :: ps =>
      let '(n, err) := sink (calls o) p in
      let o := {| written := written o ++ upto p n; calls := calls o + 1 |} in
      match err with
      | Some x => (o, total + n, Some x)
      | None => if n =? len p then write_pieces sink o (total + n) ps else (o, total + n, Some (Io ErrShortWrite))
      end
  end.

Lemma write_pieces_cons sink o total p ps :
  write_pieces sink o total (p :: ps) =
  let '(o1, total1, err) := sink_write sink o total p in
  match err with Some x => (o1, total1, Some x) | None => write_pieces sink o1 total1 ps end.
Proof. cbn [write_pieces]. unfold sink_write. destruct (sink (calls o) p) as [n [x |]]; [done |]. by destruct (n =? len p). Qed.

(** A writer that takes all it is given. *)
Definition takes_all (sink : sink_writes) : Prop := forall i p, sink i p = (len p, None).

Lemma takes_all_pieces sink o total ps :
  takes_all sink -> exists k, write_pieces sink o total ps
    = ({| written := written o ++ concat ps; calls := k |}, total + len (concat ps), None).
Proof.
  intros Hs. revert o total. induction ps as [| p ps IH]; intros o total; cbn [write_pieces].
  { exists (calls o). cbn [concat]. rewrite app_nil_r. destruct o. f_equal. f_equal. change (len (@nil Z)) with 0. lia. }
  rewrite Hs, Z.eqb_refl.
  destruct (IH {| written := written o ++ upto p (len p); calls := calls o + 1 |} (total + len p)) as (k & ->). exists k.
  cbn [written concat]. rewrite upto_all by lia. rewrite <- app_assoc, len_app. do 2 f_equal. lia.
Qed.

Section copying.
Context {M : Masker} `{!MaskerOk M} {G : Grow} `{!GrowOk G} {F : Flate} {I : Inflater} {IO : InflaterOk I} {IS : InflaterSpec I}.
Context {T : Transport} {W : World} {RW : ReadWorld} {RO : ReadWorldOk RW}.
Context (h : Handler) (P Q : wconn -> Prop) (Hq : answers h P Q).
Context (fuel : nat) (sp : spec) (e : error) (s' : script) (evs' : list event) (sink : sink_writes).
Implicit Types (c : conn) (evs : list event).

#[local] Abbreviation reading := (reading h P).

(** What copying the rest [p] of a message comes to. *)
Definition copied c n evs (p : list Z) (o : net) (total : Z) (res : option (conn * result (net * Z * option error))) : Prop :=
  exists c' ps q o' total' err, res = Some (c', Ok (o', total', err)) /\ Forall (fun b => b <> []) ps /\ p = concat ps ++ q /\
    write_pieces sink o total ps = (o', total', err) /\
    match err with
    | None => q = [] /\ exists c1, c' = left c1 /\ same_open c c1 /\ reading c1 sp e s' n evs' [] evs' /\
        Rx.remaining (rx c1) = 0 /\ Rx.MessageOpen (rx c1) = false
    | Some _ => same_open c c' /\ exists evs1, reading c' sp e s' n evs1 q evs' /\ (length evs1 <= length evs)%nat
    end.

Lemma copied_more c c1 n m evs evs1 p o total res :
  same_open c c1 -> (m <= n)%nat -> (length evs1 <= length evs)%nat -> copied c1 m evs1 p o total res -> copied c n evs p o total res.
Proof.
  intros Hs Hm Hl (c' & ps & q & o' & t' & err & E & X1 & X2 & X3 & X4). exists c', ps, q, o', t', err. split; [exact E |].
  split; [exact X1 |]. split; [exact X2 |]. split; [exact X3 |]. destruct err as [x |].
  - destruct X4 as (Y1 & evs2 & Y2 & Y3). split; [by eapply same_open_trans |]. exists evs2. split; [by eapply reading_weaken | lia].
  - destruct X4 as (-> & c2 & -> & Y1 & Y2 & Y3). split; [done |]. exists c2. split; [done |]. split; [by eapply same_open_trans |].
    split; [by eapply reading_weaken | exact Y3].
Qed.

(** A piece written, and copying goes on. *)
Lemma copied_piece c n evs chunk p o total o1 total1 res :
  chunk <> [] -> sink_write sink o total chunk = (o1, total1, None) -> copied c n evs p o1 total1 res ->
  copied c n evs (chunk ++ p) o total res.
Proof.
  intros Hne Ew (c' & ps & q & o' & t' & err & E & X1 & -> & X3 & X4). exists c', (chunk :: ps), q, o', t', err. split; [exact E |].
  split; [by constructor |]. split; [cbn; by rewrite app_assoc |]. rewrite write_pieces_cons. by rewrite Ew.
Qed.

(** The writer fails. *)
Lemma copied_stop c n evs chunk p o total o1 total1 x :
  chunk <> [] -> sink_write sink o total chunk = (o1, total1, Some x) -> reading c sp e s' n evs p evs' ->
  copied c n evs (chunk ++ p) o total (Some (c, Ok (o1, total1, Some x))).
Proof.
  intros Hne Ew Hrd. exists c, [chunk], p, o1, total1, (Some x). split; [done |]. split; [by repeat constructor |].
  split; [cbn; by rewrite app_nil_r |]. rewrite write_pieces_cons, Ew. split; [done |]. split; [apply same_open_refl |]. by exists evs.
Qed.

(** A turn of the loop past the piece. *)
Definition turned f (done : bool) (o : net) (total : Z) : io (net * Z * option error) :=
  if negb done then WriteTo_loop fuel f sink o total
  else
    let! more := get (fun c => Rx.MessageOpen (rx c)) in
    if negb more then put (fun c => {| c with inMessage := false |}) ;;; pure (o, total, None)
    else
      let! r := try (nextFrame fuel) in
      match r with
      | Err x => pure (o, total, Some x)
      | Ok _ => WriteTo_loop fuel f sink o total
      end.

Lemma WriteTo_turn f o total c :
  WriteTo_loop fuel (S f) sink o total c =
  (let! r := try next_piece in
   match r with
   | Err x => pure (o, total, Some x)
   | Ok None => WriteTo_loop fuel f sink o total
   | Ok (Some (chunk, done)) =>
       let '(o, total, err) := if negb (len chunk =? 0) then sink_write sink o total chunk else (o, total, None) in
       match err with
       | Some x => pure (o, total, Some x)
       | None => turned f done o total
       end
   end) c.
Proof. reflexivity. Qed.

Lemma WriteTo_loop_copies f c n evs p o total :
  reading c sp e s' n evs p evs' -> (length evs + n + 1 < f)%nat -> (length evs + n + 1 < fuel)%nat ->
  (forall w, P w -> 0 < fragmentSize w) -> copied c n evs p o total (WriteTo_loop fuel f sink o total c).
Proof using Hq MaskerOk0.
  intros Hrd Hf Hfu Hsz. revert c n evs p o total Hrd Hf Hfu. induction f as [| f IH]; intros c n evs p o total Hrd Hf Hfu; [lia |].
  assert (forall c1 m evs1 q done o1 total1, same_open c c1 -> (m <= n)%nat -> (length evs1 <= length evs)%nat ->
    reading c1 sp e s' m evs1 q evs' -> done = (Rx.remaining (rx c1) =? 0) -> (done = false -> (length evs1 + m < length evs + n)%nat) ->
    copied c n evs q o1 total1 (turned f done o1 total1 c1)) as Hturn.
  { intros c1 m evs1 q done o1 total1 Hs1 Hm Hl Hrd1 Ed Hlt. apply (copied_more c c1 n m evs evs1 q o1 total1 _ Hs1 Hm Hl). unfold turned. destruct done; cbn [negb].
    - rewrite bind_get. symmetry in Ed. apply Z.eqb_eq in Ed. destruct (Rx.MessageOpen (rx c1)) eqn:Eo; cbn [negb].
      + destruct (reading_next h P Q Hq fuel c1 sp e s' m evs1 q evs' Hrd1 Ed Eo ltac:(lia)) as (c2 & evs2 & E & X1 & X2 & X3).
        unfold bind at 1, try. rewrite E. cbn [mbind option_bind].
        apply (copied_more c1 c2 m m evs1 evs2 q o1 total1); [exact X1 | done | lia |]. apply IH; [exact X2 | lia | lia].
      + destruct (reading_end _ _ _ _ _ _ _ _ _ _ Hrd1 Ed Eo) as (-> & Ee). subst evs1. rewrite bind_put.
        exists (left c1), [], [], o1, total1, None. split; [done |]. split; [constructor |]. split; [done |]. split; [done |]. split; [done |].
        exists c1. split; [done |]. split; [apply same_open_refl | split; [exact Hrd1 | by split]].
    - specialize (Hlt eq_refl). apply IH; [exact Hrd1 | lia | lia]. }
  assert (forall c1 m evs1 chunk q done, same_open c c1 -> (m <= n)%nat -> chunk <> [] -> (length evs1 < length evs)%nat ->
    reading c1 sp e s' m evs1 q evs' -> done = (Rx.remaining (rx c1) =? 0) -> next_piece c = Some (c1, Ok (Some (chunk, done))) ->
    copied c n evs (chunk ++ q) o total (WriteTo_loop fuel (S f) sink o total c)) as Hpiece.
  { intros c1 m evs1 chunk q done Hs1 Hm Hne Hl Hrd1 Ed E. rewrite WriteTo_turn. unfold bind at 1, try. rewrite E.
    destruct (Z.eqb_spec (len chunk) 0) as [E0 | E0]; [by apply len_0_nil in E0 |]. cbn [negb].
    destruct (sink_write sink o total chunk) as [[o1 total1] [x |]] eqn:Ew.
    - apply (copied_more c c1 n m evs evs1); [exact Hs1 | exact Hm | lia |]. eapply copied_stop; [exact Hne | exact Ew | exact Hrd1].
    - eapply copied_piece; [exact Hne | exact Ew |]. apply (Hturn c1 m evs1 q done o1 total1); [exact Hs1 | exact Hm | lia | exact Hrd1 | exact Ed | intros _; lia]. }
  pose proof Hrd as [He Hat _ Hp _]. destruct (Z.eqb_spec (Rx.remaining (rx c)) 0) as [Hr | Hr].
  - pose proof (Payload_nothing c sp evs e s' n (Dec.Buffered (Rx.dec (rx c))) He Hr) as E.
    change (rx_call (fun r => Rx.PayloadN r _) c) with (rx_call Rx.Payload c) in E.
    assert (next_piece c = Some (c, Ok (Some ([], true)))) as En by (unfold next_piece; by rewrite (bind_ok _ _ _ _ _ E)).
    rewrite WriteTo_turn. unfold bind at 1, try. rewrite En. change (len []) with 0. cbn [Z.eqb negb].
    eapply Hturn; [apply same_open_refl | done | done | exact Hrd | by rewrite Hr | done].
  - destruct (reading_payload h P c sp e s' n evs p evs' (Dec.Buffered (Rx.dec (rx c))) Hrd Hr (len_nonneg _))
      as (c1 & chunk & q & evs1 & E & Hs1 & Ew & Ei & Eb & -> & Hrd1 & -> & Hr1 & Hl1 & Hp1).
    change (rx_call (fun r => Rx.PayloadN r _) c) with (rx_call Rx.Payload c) in E.
    destruct (Z.eqb_spec (len chunk) 0) as [E0 | N0].
    2: { apply (Hpiece c1 n evs1 chunk q (Rx.remaining (rx c1) =? 0)); try done.
         - by intros ->.
         - rewrite length_app, length_fmap. unfold len in N0. lia.
         - unfold next_piece. rewrite (bind_ok _ _ _ _ _ E). cbv beta iota. by destruct (Z.eqb_spec (len chunk) 0). }
    pose proof (live_remaining _ (proj1 He)) as Hrr. assert (0 < Rx.remaining (rx c)) as Hr0 by lia.
    apply len_0_nil in E0. subst chunk. cbn [app fmap list_fmap] in *. rewrite (nothing_buffered _ _ _ (or_intror eq_refl) Hr0 Hl1) in Hp1.
    rewrite len_nil, Z.sub_0_r in Hr1.
    assert (next_piece c = (let! remaining := get (fun c => Rx.remaining (rx c)) in
      let! b := get bufLen in
      if remaining <? b then fill ;;; pure None
      else
        let! staging := get empty_msg in
        let! f := get (fun c => fragmentSize (wr c)) in
        let! '(chunk, _) := readInto staging (Z.min remaining f) in
        let! rem := get (fun c => Rx.remaining (rx c)) in
        pure (Some (chunk, rem =? 0))) c1) as En.
    { unfold next_piece. rewrite (bind_ok _ _ _ _ _ E). cbv beta iota. rewrite Hr1. destruct (Z.eqb_spec (Rx.remaining (rx c)) 0); done. }
    rewrite !bind_get in En. destruct (Rx.remaining (rx c1) <? bufLen c1).
    + destruct (reading_fill h P c1 sp e s' n evs1 q evs' Hrd1 ltac:(by rewrite Hr1) Hp1) as (c2 & m2 & E2 & X1 & X2 & X3).
      rewrite (bind_ok _ _ _ _ _ E2) in En. rewrite WriteTo_turn. unfold bind at 1, try. rewrite En.
      apply (copied_more c c2 n m2 evs1 evs1); [by eapply same_open_trans | lia | done |]. apply IH; [exact X2 | lia | lia].
    + pose proof Hrd1 as [He1 Hat1 Hh1 Hw1 _]. rewrite !bind_get in En.
      set (k := Z.min (Rx.remaining (rx c1)) (fragmentSize (wr c1))) in *.
      assert (0 < k <= Rx.remaining (rx c1)) as Hk by (pose proof (Hsz _ Hw1); subst k; rewrite Hr1; lia).
      assert (empty_msg c1 = ([], (empty_msg c1).2)) as Em by (unfold empty_msg; by destruct (msg c1)). rewrite Em in En.
      destruct (readInto_post c1 sp evs1 e s' n k [] (empty_msg c1).2 He1 ltac:(by rewrite Hr1) Hat1 ltac:(by intros []) Hp1 Hk)
        as [[-> _] | (c2 & chunk & cap' & evs2 & m & E2 & Hpr & Ew2 & -> & Hne & He2 & Hm & Hat2 & Hin & Hrem & Hlk & _)].
      { exfalso. apply reading_more in Hrd1. by rewrite Hr1 in Hrd1. }
      rewrite (bind_ok _ _ _ _ _ E2) in En. cbn [app] in En. rewrite bind_get in En.
      destruct (reading_piece h P c1 c2 sp e s' n m evs2 q evs' chunk Hrd1 He2 Hat2 Hin ltac:(by destruct Hpr as (? & ? & ? & ? & ? & ? & ->)) Ew2 Hrem)
        as (q2 & -> & Hrd2).
      apply (Hpiece c2 m evs2 chunk q2 (Rx.remaining (rx c2) =? 0)); try done.
      * eapply same_open_trans; [exact Hs1 |]. split; [exact Hpr | split; apply Hin].
      * lia.
      * rewrite length_app, length_fmap. destruct chunk; [done | cbn; lia].
Qed.

(** A compressed message: what is inflated is written. *)
Lemma WriteTo_inflates f k c n raw q D evs o total :
  reading c sp e s' n evs raw evs' -> deflated fuel c raw q D -> (length evs + n + 1 < fuel)%nat -> 0 < k -> len q + 1 < Z.of_nat f ->
  exists c' ps q' o' total' err, WriteTo_inflating fuel f sink o k total c = Some (c', Ok (o', total', err)) /\
    Forall (fun b => b <> []) ps /\ q = concat ps ++ q' /\ write_pieces sink o total ps = (o', total', err) /\ settled c c' /\
    match err with
    | None => q' = [] /\ reading c' sp e s' n evs' [] evs' /\ spent c' /\ inMessage c' = false /\ mem_ok c' /\
        (rwindow c <> None -> history c' = lastn (reach_back c) D)
    | Some _ => exists raw1 evs1, reading c' sp e s' n evs1 raw1 evs' /\ deflated fuel c' raw1 q' D /\ (length evs1 <= length evs)%nat /\
        inMessage c' = inMessage c /\ Rx.MessageCompressed (rx c') = Rx.MessageCompressed (rx c)
    end.
Proof using Type*.
  intros Hrd Hd Hf Hk. revert c raw q evs o total Hrd Hd Hf. induction f as [| f IH]; intros c raw q evs o total Hrd Hd Hf Hq';
    [pose proof (len_nonneg q); lia |]. cbn [WriteTo_inflating]. unfold bind at 1, try.
  destruct (inflate_post h P Q Hq fuel sp e s' n evs' k c raw q D evs Hrd Hd Hf Hk)
    as [(-> & c' & -> & X1 & X2 & X3 & X4 & X5 & X6) | (c' & b & q' & raw1 & evs1 & -> & X1 & X2 & X3 & -> & X5 & X6 & X7 & X8 & X9)].
  - rewrite bool_decide_eq_true_2 by done. exists c', [], [], o, total, None. split; [done |]. split; [constructor |].
    split; [done |]. split; [done |]. split; [exact X1 |]. split; [done |]. by split_and!.
  - destruct (sink_write sink o total b) as [[o1 total1] [x |]] eqn:Ew.
    + exists c', [b], q', o1, total1, (Some x). split; [done |]. split; [by repeat constructor |].
      split; [cbn; by rewrite app_nil_r |]. rewrite write_pieces_cons, Ew. split; [done |]. split; [exact X1 |].
      by exists raw1, evs1.
    + assert (len b <> 0) by (by intros ->%len_0_nil). rewrite len_app in Hq'. pose proof (len_nonneg b).
      destruct (IH c' raw1 q' evs1 o1 total1) as (c2 & ps & q2 & o2 & t2 & err & E & Y1 & -> & Y3 & Y4 & Y5); [done | done | lia | lia |].
      exists c2, (b :: ps), q2, o2, t2, err. split; [exact E |]. split; [by constructor |].
      split; [cbn; by rewrite app_assoc |]. rewrite write_pieces_cons, Ew. split; [exact Y3 |].
      split; [by eapply settled_trans |]. destruct err as [x |].
      * destruct Y5 as (raw2 & evs2 & Z1 & Z2 & Z3 & Z4 & Z5). exists raw2, evs2. split_and!; try done; [lia | congruence | congruence].
      * destruct Y5 as (Z1 & Z2 & Z3 & Z4 & Z5 & Z6). split_and!; try done.
        destruct X1 as ((_ & _ & _ & Ewi) & _ & Er & _). by rewrite <- Ewi, <- Er.
Qed.

(** The whole call. *)
Lemma WriteTo_open c n evs q D o :
  open_message h P fuel sp e s' n evs' c evs q D -> (length evs + n + 1 < fuel)%nat -> len q + 1 < Z.of_nat fuel ->
  (forall w, P w -> 0 < fragmentSize w) ->
  exists c' ps q' o' total err, WriteTo fuel sink o c = Some (c', Ok (o', total, err)) /\
    Forall (fun b => b <> []) ps /\ q = concat ps ++ q' /\ write_pieces sink o 0 ps = (o', total, err) /\ settled c c' /\
    match err with
    | None => q' = [] /\ at_rest h P sp e s' n c' evs' /\ history c' = after c D
    | Some _ => exists evs1, open_message h P fuel sp e s' n evs' c' evs1 q' D /\ (length evs1 <= length evs)%nat
    end.
Proof using Type*.
  intros (Hre & Him & Hlim & raw & Hrd & Hd) Hf Hfq Hsz. unfold WriteTo.
  rewrite bind_get, Hre, bind_get, Him. cbn [negb]. rewrite bind_get. destruct (Rx.MessageCompressed (rx c)) eqn:Emc.
  - destruct (growMsg_post [] (empty_msg c).2 (fragmentSize (wr c)) c) as (m & dr & cap' & Eg); [by intros [] |].
    assert (growMsg (empty_msg c) (fragmentSize (wr c)) c = Some (Assembling.grown c m dr, Ok ([], cap'))) as Eg'.
    { assert (empty_msg c = ([], (empty_msg c).2)) as -> by (unfold empty_msg; by destruct (msg c)). exact Eg. }
    set (c1 := Assembling.grown c m dr) in *.
    assert (staging c = Some (c1, Ok (fragmentSize (wr c)))) as Est
      by (unfold staging; by rewrite bind_get, bind_get, (bind_ok _ _ _ _ _ Eg')).
    rewrite (bind_ok _ _ _ _ _ Est). assert (0 < fragmentSize (wr c)) as Hk by (destruct Hrd as [_ _ _ Hw _]; by apply Hsz).
    assert (reading c1 sp e s' n evs raw evs') as Hrd1 by (by destruct Hrd). assert (deflated fuel c1 raw q D) as Hd1 by exact Hd.
    destruct (WriteTo_inflates fuel (fragmentSize (wr c)) c1 n raw q D evs o 0 Hrd1 Hd1 Hf Hk Hfq)
      as (c' & ps & q' & o' & t' & err & E & X1 & X2 & X3 & X4 & X5).
    exists c', ps, q', o', t', err. split; [exact E |]. split; [exact X1 |]. split; [exact X2 |]. split; [exact X3 |].
    split; [exact X4 |]. destruct err as [x |].
    + destruct X5 as (raw1 & evs1 & Y1 & Y2 & Y3 & Y4 & Y5). exists evs1. split; [| exact Y3].
      pose proof X4 as ((_ & El & _) & Er & _). split; [by rewrite Er |]. split; [by rewrite Y4 |]. split; [by rewrite El |].
      exists raw1. split; [exact Y1 |]. rewrite Y5. change (Rx.MessageCompressed (rx c1)) with (Rx.MessageCompressed (rx c)). by rewrite Emc.
    + destruct X5 as (-> & Y1 & Y2 & Y3 & Y4 & Y5). split; [done |]. split; [by apply (ended_rest h P sp e s' n evs' c c') |].
      unfold after, keeps_history. destruct (bool_decide_reflect (rwindow c = None)) as [Ew | Ew]; cbn [negb]; [| by apply Y5].
      apply history_none. by destruct X4 as ((_ & _ & _ & ->) & _).
  - destruct Hd as (Hm & Hdec & -> & ->).
    destruct (WriteTo_loop_copies fuel c n evs raw o 0 Hrd Hf Hf Hsz) as (c' & ps & q' & o' & t' & err & E & X1 & X2 & X3 & X4).
    exists c', ps, q', o', t', err. split; [exact E |]. split; [exact X1 |]. split; [exact X2 |]. split; [exact X3 |]. destruct err as [x |].
    + destruct X4 as (Y1 & evs1 & Y2 & Y3). pose proof (same_open_settled _ _ Y1) as Hset. split; [exact Hset |]. exists evs1. split; [| exact Y3].
      pose proof Hset as ((_ & El & _) & Er & _). split; [by rewrite Er |].
      destruct Y1 as [(? & ? & ? & ? & ? & ? & ->) [Ec _]]. split; [done |]. split; [done |].
      exists q'. split; [exact Y2 |]. unfold Rx.MessageCompressed in *. cbn [rx] in *. by rewrite Ec, Emc.
    + destruct X4 as (-> & c1 & -> & Y1 & Y2 & Y3 & Y4). pose proof (same_open_settled _ _ Y1) as Hset. split; [exact Hset |]. split; [done |].
      split.
      * apply (ended_rest h P sp e s' n evs' c); try done; [by destruct Y2 |]. by destruct Y1 as [(? & ? & ? & ? & ? & ? & ->) _].
      * rewrite after_history. by destruct Y1 as [(? & ? & ? & ? & ? & ? & ->) _].
Qed.
End copying.

(** ** Property *)

Section due.
Context {M : Masker} `{!MaskerOk M} {G : Grow} `{!GrowOk G} {F : Flate} {I : Inflater} {IO : InflaterOk I} {IS : InflaterSpec I}.
Context {T : Transport} {W : World} {RW : ReadWorld} {RO : ReadWorldOk RW}.
Context (h : Handler) (P Q : wconn -> Prop) (Hq : answers h P Q).
Context (fuel : nat) (sp : spec) (e : error) (s' : script) (n : nat) (bad : Z -> list Z -> bool) (lim : Z).
Implicit Types (c : conn) (evs : list event) (out : list (Z * list Z)).

#[local] Abbreviation ready_for := (ready_for h P sp e s' n bad lim).
#[local] Abbreviation opened := (opened h P fuel sp e s' n bad lim).

Lemma WriteTo_opened sink o c evs evs' p out :
  opened c evs evs' p out -> roomy fuel n lim evs -> (forall w, P w -> 0 < fragmentSize w) ->
  exists c' ps q o' total err, WriteTo fuel sink o c = Some (c', Ok (o', total, err)) /\
    Forall (fun b => b <> []) ps /\ p = concat ps ++ q /\ write_pieces sink o 0 ps = (o', total, err) /\ settled c c' /\
    match err with
    | None => q = [] /\ ready_for c' evs' out
    | Some _ => exists evs1, opened c' evs1 evs' q out /\ (length evs1 <= length evs)%nat
    end.
Proof using Type*.
  intros (Hlp & D & Ho & Hc) [Hf Hfl] Hsz.
  destruct (WriteTo_open h P Q Hq fuel sp e s' evs' sink c n evs p D o Ho ltac:(lia) ltac:(lia) Hsz)
    as (c' & ps & q & o' & total & err & E & X1 & -> & X3 & Hset & X4).
  exists c', ps, q, o', total, err. split; [exact E |]. split; [exact X1 |]. split; [done |]. split; [exact X3 |]. split; [exact Hset |].
  pose proof (coming_settled _ _ _ _ _ _ _ Hset Hc) as Hc'. destruct err as [x |].
  - destruct X4 as (evs1 & Y1 & Y2). exists evs1. split; [| exact Y2]. rewrite len_app in Hlp. pose proof (len_nonneg (concat ps)).
    split; [lia |]. exists D. split; [exact Y1 |]. by rewrite (settled_after _ _ _ Hset).
  - destruct X4 as (-> & (R1 & R2 & R3 & R4 & R5) & Eh). rewrite <- Eh in Hc'. destruct Hc' as [T1 T2]. split; [done |].
    split; [split; [exact R1 | split; [exact R2 | split; [exact R3 | split; [exact T1 | exact T2]]]] | by split].
Qed.

Lemma WriteTo_next sink o c evs op p out :
  ready_for c evs ((op, p) :: out) -> roomy fuel n lim evs -> (forall w, P w -> 0 < fragmentSize w) ->
  exists c1 c2 ps q o' total err c3 evs',
    NextMessage fuel c = Some (c1, Ok op) /\ WriteTo fuel sink o c1 = Some (c2, Ok (o', total, err)) /\
    Forall (fun b => b <> []) ps /\ p = concat ps ++ q /\ write_pieces sink o 0 ps = (o', total, err) /\ (err = None -> q = []) /\
    (takes_all sink -> err = None /\ total = len p /\ written o' = written o ++ p) /\
    ready_for c3 evs' out /\ settled c c3 /\ NextMessage fuel c2 = NextMessage fuel c3 /\ ReadMessage fuel c2 = ReadMessage fuel c3.
Proof using Type*.
  intros Hrd Hr Hsz.
  destruct (next_opens h P Q Hq fuel sp e s' n bad lim c evs op p out Hrd Hr) as (c1 & evs1 & evs' & E1 & Ho & Hs1 & Hlt & _ & _).
  assert (roomy fuel n lim evs1) as Hr1 by (eapply roomy_less; [| exact Hr]; lia).
  destruct (WriteTo_opened sink o c1 evs1 evs' p out Ho Hr1 Hsz) as (c2 & ps & q & o' & total & err & E2 & X1 & -> & X3 & Hs2 & X4).
  pose proof (settled_trans _ _ _ Hs1 Hs2) as Hs.
  assert (takes_all sink -> err = None /\ total = len (concat ps) /\ written o' = written o ++ concat ps) as Hall.
  { intros Hta. destruct (takes_all_pieces sink o 0 ps Hta) as (k & Ek). rewrite Ek in X3. by injection X3 as <- <- <-. }
  destruct err as [x |].
  - destruct X4 as (evs2 & Ho2 & Hle).
    assert (0 < fragmentSize (wr c2)) as Hsz2 by (destruct Ho2 as (_ & D & (_ & _ & _ & raw & [_ _ _ Hp _] & _) & _); by apply Hsz).
    destruct (skip_opened h P Q Hq fuel sp e s' n bad lim c2 evs2 evs' q out Ho2) as (c3 & Hrd3 & Hs3 & En & Em);
      [exact (roomy_less _ _ _ evs1 evs2 Hle Hr1) | done |].
    exists c1, c2, ps, q, o', total, (Some x), c3, evs'. split; [exact E1 |]. split; [exact E2 |]. split; [exact X1 |]. split; [done |].
    split; [exact X3 |]. split; [done |]. split; [by intros Hta; destruct (Hall Hta) |]. split; [exact Hrd3 |].
    split; [by eapply settled_trans | done].
  - destruct X4 as (-> & Hrd2). exists c1, c2, ps, [], o', total, None, c2, evs'. split; [exact E1 |]. split; [exact E2 |].
    split; [exact X1 |]. split; [done |]. split; [exact X3 |]. split; [done |]. split; [by rewrite app_nil_r |]. split; [exact Hrd2 | done].
Qed.

Lemma WriteTo_takes sink o c evs op p out :
  ready_for c evs ((op, p) :: out) -> roomy fuel n lim evs -> (forall w, P w -> 0 < fragmentSize w) -> takes_all sink ->
  exists c1 c2 o', NextMessage fuel c = Some (c1, Ok op) /\ WriteTo fuel sink o c1 = Some (c2, Ok (o', len p, None)) /\
    written o' = written o ++ p.
Proof using Type*.
  intros Hrd Hr Hsz Hta.
  destruct (WriteTo_next sink o c evs op p out Hrd Hr Hsz) as (c1 & c2 & ps & q & o' & total & err & c3 & evs' & E1 & E2 & _ & _ & _ & _ & E3 & _).
  destruct (E3 Hta) as (-> & -> & E4). by exists c1, c2, o'.
Qed.

(** C9. [io.Copy] of a message.  Where [ReadMessage] would return [(op, p)],
    compressed or not, [NextMessage] returns [op] and [WriteTo] gives the
    writer [p] piece by piece, none of them empty: all of it, and then it
    returns the length and no error; or, if a write fails or is short, what was
    given up to there, with that error.  Either way the next message is the one
    after the whole of this one. *)
Theorem WriteTo_copies sink o c evs op p out :
  ready_for c evs ((op, p) :: out) -> roomy fuel n lim evs -> (forall w, P w -> 0 < fragmentSize w) ->
  exists c1 c2 ps q o' total err c3 evs',
    NextMessage fuel c = Some (c1, Ok op) /\ WriteTo fuel sink o c1 = Some (c2, Ok (o', total, err)) /\
    Forall (fun b => b <> []) ps /\ p = concat ps ++ q /\ write_pieces sink o 0 ps = (o', total, err) /\ (err = None -> q = []) /\
    (takes_all sink -> err = None /\ total = len p /\ written o' = written o ++ p) /\
    ready_for c3 evs' out /\ settled c c3 /\ NextMessage fuel c2 = NextMessage fuel c3 /\ ReadMessage fuel c2 = ReadMessage fuel c3.
Proof using Type*. apply WriteTo_next. Qed.
End due.

(** ** A connection, for the witness *)

#[local] Existing Instance swar_masker.
#[local] Existing Instance double_growth.
#[local] Existing Instance double_growth_ok.
#[local] Existing Instance stored_flate.
#[local] Existing Instance stored_flate_bytes.
#[local] Existing Instance perfect.
#[local] Existing Instance perfect_reliable.
#[local] Existing Instance stored_world.
#[local] Existing Instance stored_world_ok.
#[local] Existing Instance fresh_pools.
#[local] Existing Instance fresh_pools_ok.

Definition whole_sink : sink_writes := fun _ p => (len p, None).

Lemma WriteTo_copies_witness :
  exists c1 c2 o', NextMessage 4000 demo_conn = Some (c1, Ok Opcode.Text) /\
    WriteTo 4000 whole_sink {| written := []; calls := 0 |} c1 = Some (c2, Ok (o', 2, None)) /\ written o' = [72; 105].
Proof.
  destruct demo_ready as (P & sp & evs & Hq & Hs & Hrd & Hr).
  destruct (WriteTo_copies DefaultControlHandler P _ Hq 4000 sp (Io EOF) [] (length demo_bytes) (invalid_text demo_conn) 1000
    whole_sink {| written := []; calls := 0 |} demo_conn evs _ _ _ Hrd Hr Hs)
    as (c1 & c2 & ps & q & o' & total & err & c3 & evs' & E1 & E2 & _ & _ & _ & _ & E3 & _).
  destruct (E3 (fun _ _ => eq_refl)) as (-> & -> & E4). exists c1, c2, o'. split; [exact E1 |]. split; [exact E2 | exact E4].
Defined.
