(* ===== verification/Tunnel.v ===== *)
(** * The byte stream of a netConn

    What a [netConn] carries is the bytes written at the other end, whatever
    messages they went in, compressed or not. *)

From stdpp Require Import prelude gmap strings.
From S2P Require Import Prelude Mask Errors Header Encoder Decoder Utf8 Close Receiver Stream Refine Pump Wire Traffic Sender Bufpool Window Compressor Decompressor Stored Inflating Inflation Handshake Queue ConnCompress SendFlow ConnWrite WriteSpec Delivery Calls Conversation Sending ConnRead Reading Assembling Bounded NetConn Messages Exchange Streaming.

Import Cr.

(** ** Where the bytes end *)

Lemma quiet_byte ro comp sp x s1 : spec_byte ro comp sp x = (s1, []) -> s_mode s1 <> MHead [].
Proof.
  unfold spec_byte, on_header, end_control, end_data, spec_fail. intros E Hm.
  destruct (s_mode sp) as [acc | fin rem key off | op rem buf key off | | e] eqn:Em.
  - destruct (header_complete _); [| injection E as <-; cbn in Hm; injection Hm as Hm; by destruct acc].
    repeat case_match; try done; injection E as <-; cbn in Hm; congruence.
  - by destruct (rem =? 1).
  - destruct (rem =? 1); [| by injection E as <-]. repeat case_match; done.
  - injection E as <-. congruence.
  - injection E as <-. congruence.
Qed.

Lemma silent_run ro comp sp b s1 : run ro comp sp b = (s1, []) -> s_mode s1 = MHead [] -> b = [] /\ sp = s1.
Proof.
  revert sp. induction b as [| x b IH]; intros sp; cbn [run]; [by intros [= ->] |].
  destruct (spec_byte ro comp sp x) as [s2 e2] eqn:E1, (run ro comp s2 b) as [s3 e3] eqn:E2.
  intros [= -> [-> ->]%app_eq_nil] Hm. destruct (IH s2 E2 Hm) as [_ ->]. by apply quiet_byte in E1.
Qed.

(** A receiver with nothing of a frame or message is idle, so the transport's
    end is reported as it is. *)
Lemma starved_ended `{Flate} `{Inflater} (c : conn) r sp e : starved c r sp -> s_mode sp = MHead [] -> s_msg sp = 0 -> ended r e = e.
Proof.
  intros ((Hok & Hf & Hcl) & Ha & _) Hm Hs. unfold ended.
  assert (Rx.Idle r = true) as ->; [| by rewrite andb_false_r].
  unfold ahead in Ha. rewrite app_nil_r in Ha. apply silent_run in Ha as [Hp Ha]; [| done].
  rewrite <- Ha in Hm, Hs. unfold abs, abs_mode in Hm, Hs. cbn in Hm, Hs. rewrite Hf, Hcl in Hm.
  unfold Rx.Idle, Dec.Buffered. rewrite Hp, Hs.
  destruct (Rx.remaining r =? 0); [| done]. by destruct (Rx.controlOpen r).
Qed.

(** Traffic without a close frame. *)
Definition stays_open (evs : list event) : Prop :=
  Forall (fun e => match e with EvControl op _ => op <> Opcode.Close | _ => True end) evs.

Lemma stays_closed ro cmp sp fs sp' : legal_run ro cmp sp fs = Some sp' -> closed sp = true -> closed sp' = true.
Proof.
  revert sp. induction fs as [| f fs IH]; intros sp; cbn [legal_run]; [by intros [= ->] |].
  destruct (may_follow ro cmp sp f); [| done]. intros H Hc. apply (IH _ H). unfold step_spec. by rewrite Hc.
Qed.

Lemma seq_stays_open ro cmp sp fs sp' :
  legal_run ro cmp sp fs = Some sp' -> closed sp' = false -> stays_open (seq_events sp fs).
Proof.
  revert sp. induction fs as [| f fs IH]; intros sp; cbn [legal_run seq_events]; [constructor |].
  destruct (may_follow ro cmp sp f) eqn:Em; [| done]. intros Hrun Hc. destruct (closed sp) eqn:Ec; [constructor |].
  apply Forall_app. split; [| by apply IH]. unfold step_spec in Hrun. rewrite Ec in Hrun.
  unfold may_follow in Em. rewrite Ec in Em. apply andb_prop in Em as [_ Hcl].
  unfold frame_events in *. destruct (Opcode.Close <=? f_op f).
  - unfold end_control in *. destruct (Z.eqb_spec (f_op f) Opcode.Close) as [E | E]; [| by repeat constructor].
    cbn [negb orb] in Hcl. apply bool_decide_eq_true in Hcl. rewrite Hcl in Hrun. cbn [fst] in Hrun.
    exfalso. pose proof (stays_closed _ _ _ _ _ Hrun eq_refl). congruence.
  - cbn [snd]. constructor; [done |]. apply Forall_fmap, Forall_true. done.
Qed.

(** ** The stream *)

Section stream.
Context {M : Masker} `{!MaskerOk M} {G : Grow} `{!GrowOk G} {F : Flate} {I : Inflater} {IO : InflaterOk I} {IS : InflaterSpec I}.
Context {T : Transport} {W : World} {RW : ReadWorld} {RO : ReadWorldOk RW}.
Context (h : Handler) (P Q : wconn -> Prop) (Hq : answers h P Q).
Context (fuel : nat) (sp : spec) (e : error) (s' : script) (n : nat) (bad : Z -> list Z -> bool) (lim : Z).
Implicit Types (nc : Nc.netConn) (evs : list event) (rest : list Z).

#[local] Abbreviation ready_for := (ready_for h P sp e s' n bad lim).
#[local] Abbreviation opened := (opened h P fuel sp e s' n bad lim).

(** The bytes end between messages and without a close, the transport with
    [e]. *)
Definition ends_clean : Prop := s_mode sp = MHead [] /\ s_msg sp = 0 /\ exists x, e = Io x.

(** Nothing more is due: the transport's end. *)
Lemma next_ends (c : conn) evs :
  ready_for c evs [] -> roomy fuel n lim evs -> ends_clean -> whole evs -> stays_open evs ->
  exists c', NextMessage fuel c = Some (c', Err e).
Proof using Type*.
  intros Hrd [Hf _] (Hm & Hs & _) Hw Hso. assert (no_frames evs) as Hno by (eapply none_left; [exact Hrd | exact Hw]).
  destruct Hrd as (((Hre & Him & Hrm & Hmo & Hlim) & _ & He & _) & Hh & Hp).
  assert (Forall answerable evs) as Hans.
  { destruct Hno as [H | (ctl & p & -> & _)]; [done |]. apply Forall_app in Hso as [_ Hso]. by apply Forall_cons_1 in Hso as [Hso _]. }
  destruct (waiting_same c) as (S1 & S2 & S3 & S4 & S5 & S6 & S7 & S8 & S9 & S10). set (c0 := waiting c) in *.
  assert (expects c0 sp evs e s' n) as He0.
  { destruct He as (E1 & E2 & E3 & b & E4 & E5 & E6). apply (expects_intro _ b); by rewrite ?S5, ?S6, ?S9. }
  assert (hd c0 = hd c) as Eh by (unfold hd; by rewrite S2).
  pose proof (nextFrame_post fuel c0 sp evs e s' n He0 ltac:(by rewrite S5) ltac:(lia)) as Hn.
  destruct (to_frame_starves h P Q Hq (wr c) evs Hp Hans) as (w' & Ef & _). rewrite Eh, S1, Hh, Ef in Hn.
  destruct Hn as (r & E1 & Hst). rewrite (starved_ended _ _ _ e Hst Hm Hs) in E1.
  pose proof (NextMessage_waiting fuel c ltac:(lia) Hre Him) as En. fold c0 in En.
  rewrite (bind_err _ _ _ _ _ E1) in En. rewrite En. by eexists.
Qed.

(** A [netConn] with [rest] still to read, in the messages to come, all of
    its type. *)
Definition content nc (out : list (Z * list Z)) rest : Prop := Forall (fun m => m.1 = Nc.op nc) out /\ rest = concat out.*2.

Definition flowing nc evs rest : Prop :=
  Nc.err nc = None /\ exists out, 
  if Nc.inMsg nc
  then exists evs' p rest', opened (Nc.c nc) evs evs' p out /\ whole evs' /\ stays_open evs' /\ content nc out rest' /\ rest = p ++ rest'
  else ready_for (Nc.c nc) evs out /\ whole evs /\ stays_open evs /\ content nc out rest.

(** What a call of [Read] comes to. *)
Definition Nc_result f nc evs rest k : Prop :=
  (rest = [] /\ exists nc', Nc.Read_loop fuel f nc k = Some (nc', Err e)) \/
  (exists nc' chunk rest' evs1, Nc.Read_loop fuel f nc k = Some (nc', Ok chunk) /\ chunk <> [] /\ len chunk <= k /\
     rest = chunk ++ rest' /\ flowing nc' evs1 rest' /\ (length evs1 <= length evs)%nat).

(** Reading on in the open message. *)
Definition read_on f nc k : option (Nc.netConn * result (list Z)) :=
  '(c', r) ← Cr.Read fuel k (Nc.c nc);
  let nc := {| nc with Nc.c := c' |} in
  match r with
  | Ok chunk => Some (nc, Ok chunk)
  | Err e =>
      if bool_decide (e = Io EOF) then Nc.Read_loop fuel f {| nc with Nc.inMsg := false |} k
      else let '(nc, e) := Nc.readErr nc e in Some (nc, Err e)
  end.

Lemma opened_suffix c evs evs' p out : opened c evs evs' p out -> (length evs' <= length evs)%nat.
Proof. intros (_ & D & (_ & _ & _ & raw & [_ _ _ _ Hr] & _) & _). by apply remainder_shorter in Hr. Qed.

Lemma Nc_Read_post f nc evs rest k :
  flowing nc evs rest -> roomy fuel n lim evs -> (length evs + (if Nc.inMsg nc then 1 else 0) < f)%nat -> 0 < k -> ends_clean ->
  Nc_result f nc evs rest k.
Proof using Type*.
  revert nc evs. induction f as [| f IH]; intros nc evs Hfl Hr Hf Hk Hec; [lia |].
  assert (forall nc1 evs1 evs' p out rest', Nc.err nc1 = None -> Nc.inMsg nc1 = true -> opened (Nc.c nc1) evs1 evs' p out ->
    whole evs' -> stays_open evs' -> content nc1 out rest' -> rest = p ++ rest' ->
    (length evs1 <= length evs)%nat -> (length evs1 < f)%nat ->
    Nc.Read_loop fuel (S f) nc k = read_on f nc1 k -> Nc_result (S f) nc evs rest k) as Hin.
  { intros nc1 evs1 evs' p out rest' He1 Hi1 Ho Hw Hso Hc -> Hle Hlt E. unfold Nc_result. rewrite E. unfold read_on.
    pose proof (opened_suffix _ _ _ _ _ Ho) as Hsh.
    destruct (read_opened h P Q Hq fuel sp e s' n bad lim k (Nc.c nc1) evs1 evs' p out Ho ltac:(eapply roomy_less; [exact Hle | exact Hr]) Hk)
      as [(-> & c' & -> & Hrd & _) | (c' & chunk & q & evs2 & -> & Hne & Hl & -> & Ho2 & _ & Hle2)]; cbn [mbind option_bind].
    - rewrite bool_decide_eq_true_2 by done.
      set (nc2 := Nc.mkNetConn _ _ c' (Nc.op nc1) false (Nc.err nc1) (Nc.closeOnce nc1) (Nc.closeErr nc1)).
      destruct (IH nc2 evs') as [(-> & nc' & X) | (nc' & chunk & r2 & evs2 & X1 & X2 & X3 & X4 & X5 & X6)].
      + split; [done |]. exists out. by split_and!.
      + eapply roomy_less; [| exact Hr]. lia.
      + cbn. lia.
      + done.
      + done.
      + left. split; [done |]. by exists nc'.
      + right. exists nc', chunk, r2, evs2. split; [done |]. split; [done |]. split; [done |]. split; [done |]. split; [done | lia].
    - right. eexists _, chunk, (q ++ rest'), evs2. split; [done |]. split; [done |]. split; [done |].
      split; [by rewrite app_assoc |]. split; [| lia]. split; [done |]. exists out. cbn [Nc.inMsg Nc.c Nc.op].
      rewrite Hi1. by exists evs', q, rest'. }
  destruct Hfl as (He & out & Hfl). destruct (Nc.inMsg nc) eqn:Ei.
  - destruct Hfl as (evs' & p & rest' & Ho & Hw & Hso & Hc & Er).
    apply (Hin nc evs evs' p out rest' He Ei Ho Hw Hso Hc Er); [done | lia |].
    cbn [Nc.Read_loop]. rewrite Ei. cbn [mbind option_bind]. unfold read_on. by destruct nc as [? ? [] ? ? ?].
  - destruct Hfl as (Hrd & Hw & Hso & Hop & ->). destruct out as [| [op p] out].
    + destruct (next_ends (Nc.c nc) evs Hrd Hr Hec Hw Hso) as (c' & E). left. split; [done |].
      cbn [Nc.Read_loop]. rewrite Ei, E. cbn [mbind option_bind]. destruct Hec as (_ & _ & x & ->). cbn. by eexists.
    + apply Forall_cons in Hop as [Hop1 Hop]. cbn in Hop1. subst op.
      destruct (next_opens h P Q Hq fuel sp e s' n bad lim (Nc.c nc) evs (Nc.op nc) p out Hrd Hr) as (c' & evs1 & evs' & E & Ho & _ & Hlt & Hw' & Hsuf).
      apply (Hin (Nc.mkNetConn _ _ c' (Nc.op nc) true (Nc.err nc) (Nc.closeOnce nc) (Nc.closeErr nc)) evs1 evs' p out (concat out.*2));
        try done; [by apply Hw' | | lia | lia |].
      * destruct Hsuf as [k0 Ek]. unfold stays_open in Hso. rewrite Ek in Hso. by apply Forall_app in Hso as [_ Hso].
      * cbn [Nc.Read_loop]. rewrite Ei, E. cbn [mbind option_bind]. rewrite Z.eqb_refl. done.
Qed.
(** A reader of the stream: chunk after chunk, until an error. *)
Fixpoint read_stream (k : nat) (ns : nat -> Z) (nc : Nc.netConn) : option (Nc.netConn * list Z * error) :=
  match k with
  | O => None
  | S k =>
      '(nc, r) ← Nc.Read fuel nc (ns O);
      match r with
      | Err e => Some (nc, [], e)
      | Ok chunk => '(nc, l, e) ← read_stream k (fun i => ns (S i)) nc; Some (nc, chunk ++ l, e)
      end
  end.

Lemma read_stream_post k ns nc evs rest :
  flowing nc evs rest -> roomy fuel n lim evs -> (forall i, 0 < ns i) -> len rest < Z.of_nat k ->
  ends_clean -> exists nc', read_stream k ns nc = Some (nc', rest, e).
Proof using Type*.
  revert ns nc evs rest. induction k as [| k IH]; intros ns nc evs rest Hfl Hr Hns Hk Hec; [pose proof (len_nonneg rest); lia |].
  cbn [read_stream]. unfold Nc.Read. pose proof Hfl as (-> & _). pose proof (Hns O) as Hn0. destruct (Z.eqb_spec (ns O) 0); [lia |].
  pose proof Hr as [Hf _].
  destruct (Nc_Read_post fuel nc evs rest (ns O) Hfl Hr ltac:(destruct (Nc.inMsg nc); lia) Hn0 Hec)
    as [(-> & nc' & ->) | (nc' & chunk & rest' & evs1 & -> & Hne & _ & -> & Hfl1 & Hle)]; cbn [mbind option_bind].
  - by exists nc'.
  - destruct (IH (fun i => ns (S i)) nc' evs1 rest' Hfl1 ltac:(by eapply roomy_less) ltac:(intros i; apply Hns)) as (nc2 & ->).
    { rewrite len_app in Hk. destruct chunk; [done |]. rewrite len_cons in Hk. pose proof (len_nonneg chunk). lia. }
    { done. }
    cbn [mbind option_bind]. by exists nc2.
Qed.
End stream.

(** ** What is written *)

(** A writer of the stream, and what each [Write] returned. *)
Fixpoint write_all `{Masker} `{Grow} `{Flate} `{Inflater} `{Transport} `{World} (nc : Nc.netConn) (ps : list (list Z))
    : option (Nc.netConn * list (Z * option error)) :=
  match ps with
  | [] => Some (nc, [])
  | p :: ps =>
      '(nc, n, e) ← Nc.Write nc p;
      '(nc, rs) ← write_all nc ps; Some (nc, (n, e) :: rs)
  end.

Section tunnel.
Context {M : Masker} `{!MaskerOk M} {G : Grow} `{!GrowOk G} {F : Flate} {FO : FlateOk F} {FB : FlateBytes F}.
Context {I : Inflater} {T : Transport} {R : Reliable T} {W : World} {RW : ReadWorld} (cw : Z) {WO : WorldOk W cw}.
Context (ro : Role) (cfg : option Hs.Compression) (w0 : option Window).

(** Ready for [n] more writes. *)
Definition writable (nc : Nc.netConn) (ms : list (Z * list Z)) (n : Z) : Prop :=
  (exists fw fq, io_ok (wr (Nc.c nc)) fw fq /\ winv cw ro cfg w0 (wr (Nc.c nc)) (fw ++ fq) (Ghost None ms) n) /\
  starts (Nc.op nc) = true /\ fop (frag (wr (Nc.c nc))) = 0 /\ Tx.closeSent (tx (wr (Nc.c nc))) = false.

Lemma Nc_Write_post nc ms n p :
  0 <= n -> writable nc ms (1 + n) -> sendable p ->
  exists nc', Nc.Write nc p = Some (nc', len p, None) /\ Nc.op nc' = Nc.op nc /\
    writable nc' (ms ++ (if len p =? 0 then [] else [(Nc.op nc, p)])) n.
Proof.
  intros Hn ((fw & fq & Hio & Hinv) & Hop & Hf & Hc) Hp. unfold Nc.Write.
  destruct (Z.eqb_spec (len p) 0) as [E | E].
  - exists nc. rewrite E, app_nil_r. split; [done |]. split; [done |]. split; [| done]. exists fw, fq. split; [done |].
    eapply winv_weaken; [| exact Hinv]. lia.
  - destruct (Write_idle cw ro cfg w0 _ fw fq _ n (Nc.op nc) p Hn Hio Hinv Hp Hop Hf Hc) as (s' & -> & Hpost & Hf' & Hc' & _).
    eexists. split; [done |]. split; [done |]. by split.
Qed.

Lemma write_all_post ps nc ms n :
  0 <= n -> writable nc ms (len ps + n) -> Forall sendable ps ->
  exists nc' sent, write_all nc ps = Some (nc', (fun p => (len p, None)) <$> ps) /\ writable nc' (ms ++ sent) n /\
    concat sent.*2 = concat ps /\ Forall (fun m => m.1 = Nc.op nc) sent.
Proof.
  intros Hn Hw Hps. revert nc ms Hw. induction Hps as [| p ps Hp Hps IH]; intros nc ms Hw; cbn [write_all].
  { exists nc, []. rewrite app_nil_r. split; [done |]. split; [exact Hw | done]. }
  rewrite len_cons, <- Z.add_assoc in Hw. pose proof (len_nonneg ps).
  destruct (Nc_Write_post nc ms (len ps + n) p ltac:(lia) Hw Hp) as (nc1 & -> & Eop & Hw1). cbn [mbind option_bind].
  destruct (IH nc1 _ Hw1) as (nc2 & sent & -> & Hw2 & Ec & Ho). cbn [mbind option_bind]. rewrite <- app_assoc in Hw2.
  eexists nc2, _. split; [done |]. split; [exact Hw2 |]. rewrite fmap_app, concat_app, Ec, Eop in *. split.
  - destruct (Z.eqb_spec (len p) 0) as [E | E]; cbn; [by apply len_0_nil in E; subst p | by rewrite app_nil_r].
  - apply Forall_app. split; [| done]. destruct (_ =? 0); by repeat constructor.
Qed.

(** The bytes out, between messages. *)
Lemma writable_wire nc ms n :
  writable nc ms n -> exists fs sp raws peer,
    written (out (Cw.run 2 (wr (Nc.c nc)))) = concat (wire <$> fs) /\ Forall frame_ok fs /\
    legal_run (peer_role ro) (negb (bool_decide (cfg = None))) spec_init fs = Some sp /\ assembled fs = (raws, None) /\
    decoded w0 raws ms peer /\ s_mode sp = MHead [] /\ s_msg sp = 0.
Proof.
  intros ((fw & fq & Hio & Hb & sp & raws & cur & peer & [H1 H2 H3 H4] & Hl) & _ & _ & Hc).
  destruct (run_all _ fw fq Hio) as ([Ho _] & _). rewrite Hc in Hl. destruct Hl as [Hm (_ & Hs & -> & _)].
  by exists (fw ++ fq), sp, raws, peer.
Qed.
End tunnel.

Lemma concat_longest (l : list (list Z)) : Forall (fun b => len b <= len (concat l)) l.
Proof.
  induction l as [| b l IH]; constructor; cbn [concat]; rewrite len_app; [pose proof (len_nonneg (concat l)); lia |].
  eapply Forall_impl; [exact IH |]. cbn. intros x. pose proof (len_nonneg b). lia.
Qed.

Section theorem.
Context {M : Masker} `{!MaskerOk M} {G : Grow} `{!GrowOk G} {F : Flate} {FO : FlateOk F} {FB : FlateBytes F}.
Context {I : Inflater} {IO : InflaterOk I} {IS : InflaterSpec I} {AG : Agrees FO IS}.
Context {T : Transport} {R : Reliable T} {W : World} {RW : ReadWorld} {RO : ReadWorldOk RW}.

(** What a [netConn] was made from. *)
Definition made (cfg : Config) (h : option Handler) (op : Z) (s : script) (nc : Nc.netConn) : Prop :=
  MaxMessageSize cfg < 2 ^ 63 /\
  exists vec c, NewConn cfg h vec s = Ok c /\ Nc.NetConn c op = Some nc.

Lemma made_writable cfg {WO : WorldOk W (Sending.reach cfg)} h op s nc bits n :
  made cfg h op s nc -> 0 <= n < 2 ^ 64 -> Sending.reach cfg <= Win.Size (Window_new bits) ->
  writable (Sending.reach cfg) (cRole cfg) (cCompression cfg) (peer_window cfg bits) nc [] n /\ Nc.op nc = op.
Proof.
  intros (Hmax & vec & c & Hnew & Hnc) Hn Hb.
  destruct (NewConn_fresh _ _ _ _ _ Hnew Hmax) as (_ & _ & _ & _ & _ & _ & Hw & _).
  unfold Nc.NetConn in Hnc. destruct (negb (op =? Opcode.Text) && negb (op =? Opcode.Binary)) eqn:Eo; [done |].
  injection Hnc as <-. split; [| done]. unfold writable. cbn [Nc.c Nc.op]. rewrite Hw. split; [| split; [| done]].
  - exists [], []. split; [apply new_io |]. by apply new_winv.
  - unfold starts. by destruct (op =? Opcode.Text), (op =? Opcode.Binary).
Qed.

Lemma made_flowing fuel cfg h P op chunks nc fs sp raws ms v lim :
  made cfg h op (pieces chunks) nc -> P (wr (Nc.c nc)) ->
  Forall (fun b => b <> []) chunks -> concat chunks = concat (wire <$> fs) -> Forall frame_ok fs ->
  legal_run (cRole cfg) (negb (bool_decide (cCompression cfg = None))) spec_init fs = Some sp -> assembled fs = (raws, None) ->
  decoded (receive_window cfg) raws ms v -> Forall (fun m => m.1 = op) ms -> s_mode sp = MHead [] ->
  len (concat chunks) + len (concat ms.*2) <= lim ->
  exists evs, flowing (default DefaultControlHandler h) P fuel sp (Io EOF) [] (length (concat chunks)) (fun _ _ => false) lim nc evs (concat ms.*2) /\
    (length evs <= length (concat chunks))%nat.
Proof.
  intros (Hmax & vec & c & Hnew & Hnc) HP Hne Ech Hfs Hleg Has Hdec Hop Hm Hlim.
  unfold Nc.NetConn in Hnc. destruct (_ && _) in Hnc; [done |]. injection Hnc as <-. cbn [Nc.c] in *.
  pose proof (run_seq _ _ spec_init fs sp spec_init_at Hfs Hleg) as Hrun. rewrite <- Ech in Hrun.
  pose proof (run_events_length (cRole cfg) (negb (bool_decide (cCompression cfg = None))) spec_init (concat chunks)) as Hev.
  pose proof (len_nonneg (concat chunks)) as H1. pose proof (len_nonneg (concat ms.*2)) as H2.
  assert (fits lim (received (run (cRole cfg) (negb (bool_decide (cCompression cfg = None))) spec_init (concat chunks)).2)) as Hfit.
  { eapply Forall_impl; [apply received_short |]. cbn. unfold len in *. lia. }
  assert (decoded (receive_window cfg) (assembled fs).1 ms v) as Hdec' by (by rewrite Has).
  destruct (NewConn_due_within (fun _ _ => false) lim cfg h vec chunks c fs sp v ms Hnew Hmax Hne Ech Hfs Hleg Hdec' Hfit)
    as (Hdue & Hle & Eh & Ew & _).
  { pose proof (concat_longest ms.*2) as Hl. apply (proj1 (Forall_fmap _ _ _)) in Hl. eapply Forall_impl; [exact Hl |]. cbn. intros m Hlm. split; [lia | done]. }
  exists (seq_events spec_init fs). split; [| done]. split; [done |]. exists ms. cbn [Nc.inMsg Nc.c Nc.op].
  split; [by split |]. split; [| split; [eapply seq_stays_open; [exact Hleg | by unfold closed; rewrite Hm] | done]].
  pose proof (received_seq _ _ [] None spec_init fs sp Hleg) as Hrs. unfold assembled in Has. rewrite Has in Hrs.
  unfold whole. change None with (open_of None) at 1. by rewrite Hrs.
Qed.

(** C10. A [netConn] is a byte stream, compressed or not.  Every [Write]
    returns the length it was given and no error.  When the transport has
    carried those bytes, cut anywhere, the other end's [Read], called with
    buffers of any sizes, returns exactly the bytes written, in order and
    across message boundaries, and then [io.EOF]. *)
Theorem tunnel cfg {WO : WorldOk W (Sending.reach cfg)} wh op ws nw ps rcfg h P chunks nr fuel k ns :
  made cfg wh op ws nw -> Forall sendable ps -> len ps < 2 ^ 64 ->
  made rcfg h op (pieces chunks) nr -> peers cfg rcfg ->
  agreeable (default DefaultControlHandler h) P -> P (wr (Nc.c nr)) -> (forall i, 0 < ns i) ->
  exists nw', write_all nw ps = Some (nw', (fun p => (len p, None)) <$> ps) /\
    (concat chunks = written (out (Cw.run 2 (wr (Nc.c nw')))) -> Forall (fun b => b <> []) chunks ->
     2 * len (concat chunks) + len (concat ps) + 11 < Z.of_nat fuel -> len (concat ps) < Z.of_nat k ->
     exists nr', read_stream fuel k ns nr = Some (nr', concat ps, Io EOF)).
Proof.
  intros Hw Hps Hlen Hr Hpeer Hq HP Hns. pose proof (len_nonneg ps). destruct (peers_window _ _ Hpeer) as (Ecmp & Ewin & Hb).
  destruct (made_writable cfg wh op ws nw (receive_bits rcfg) (len ps + 0) Hw ltac:(lia) Hb) as [Hwr <-].
  destruct (write_all_post (Sending.reach cfg) (cRole cfg) (cCompression cfg) _ ps nw [] 0 ltac:(lia) Hwr Hps)
    as (nw' & sent & E & Hwr' & Ec & Ho). exists nw'. split; [exact E |]. intros Ech Hne Hf Hk.
  apply writable_wire in Hwr' as (fs & sp & raws & v & Hwire & Hfs & Hleg & Has & Hdec & Hm & Hs).
  rewrite Hwire in Ech. destruct Hpeer as [Hro _]. unfold compressing in Ecmp. rewrite <- Hro, Ecmp in Hleg. rewrite Ewin in Hdec.
  destruct (made_flowing fuel rcfg h P _ chunks nr fs sp raws sent v (len (concat chunks) + len (concat ps)) Hr HP Hne Ech Hfs Hleg Has Hdec Ho Hm)
    as (evs & Hfl & Hle); [by rewrite Ec |].
  rewrite Ec in Hfl. eapply read_stream_post; try done; [unfold roomy, len in *; lia |]. split; [done |]. by split; [| eexists].
Qed.
End theorem.

(** ** Concrete ends, for the witnesses *)

#[local] Existing Instance swar_masker.
#[local] Existing Instance double_growth.
#[local] Existing Instance double_growth_ok.
#[local] Existing Instance stored_flate.
#[local] Existing Instance stored_flate_bytes.
#[local] Existing Instance perfect.
#[local] Existing Instance perfect_reliable.
#[local] Existing Instance stored_world.
#[local] Existing Instance stored_world_ok.
#[local] Existing Instance fresh_pools.
#[local] Existing Instance fresh_pools_ok.

Definition near_config : Config := mkConfig Client 0 0 0 false (Some (Hs.mkCompression 6 1 true true 15 15)) false [].
Definition far_config : Config := mkConfig Server 8 0 0 false (Some (Hs.mkCompression 6 1 true true 15 15)) false [].

Definition open_end (cfg : Config) (s : script) : option Nc.netConn :=
  match NewConn cfg None false s with Ok c => Nc.NetConn c Opcode.Binary | Err _ => None end.

Definition tunnel_data : list (list Z) := [[1; 2; 3]; []; [4]].

Definition tunnel_bytes : list Z := Eval vm_compute in
  match open_end near_config [] with
  | Some nw => match write_all nw tunnel_data with Some (nw, _) => written (out (Cw.run 2 (wr (Nc.c nw)))) | None => [] end
  | None => []
  end.

Lemma tunnel_witness :
  exists nr nr', open_end far_config (pieces (cut 30 5 tunnel_bytes)) = Some nr /\
    read_stream 200 5 (fun _ => 2) nr = Some (nr', [1; 2; 3; 4], Io EOF).
Proof.
  destruct (open_end near_config []) as [nw |] eqn:Ew; [| discriminate Ew].
  destruct (open_end far_config (pieces (cut 30 5 tunnel_bytes))) as [nr |] eqn:Er; [| discriminate Er].
  destruct (default_agreeable far_config (WO := stored_world_ok) false) as (P & HP1 & HP2).
  pose proof (tunnel near_config None Opcode.Binary [] nw tunnel_data far_config None P
    (cut 30 5 tunnel_bytes) nr 200 5 (fun _ => 2)) as H.
  destruct H as (nw' & E & H).
  - split; [reflexivity |]. by eexists false, _.
  - repeat (apply Forall_cons; split; [split; [apply (bool_decide_unpack _); vm_compute; exact Logic.I | reflexivity] |]).
    apply Forall_nil_2.
  - reflexivity.
  - split; [reflexivity |]. by eexists false, _.
  - split; [reflexivity |]. split; [reflexivity | vm_compute; discriminate].
  - exact HP1.
  - injection Er as <-. exact HP2.
  - reflexivity.
  - exists nr. destruct H as (nr' & E').
    + assert (match write_all nw tunnel_data with Some (nw, _) => written (out (Cw.run 2 (wr (Nc.c nw)))) | None => [] end
        = tunnel_bytes) as Eb by (injection Ew as <-; vm_compute; reflexivity).
      rewrite E in Eb. rewrite Eb. vm_compute. reflexivity.
    + apply (bool_decide_unpack _). vm_compute. exact Logic.I.
    + vm_compute. reflexivity.
    + vm_compute. reflexivity.
    + exists nr'. split; [reflexivity | exact E'].
Defined.
