(* ===== verification/Serving.v ===== *)
(** * From request bytes to a connection

    What the server reads off the wire is the request the client wrote, and
    what it hands to the handler is what the handshake agreed and every byte
    behind the request, whatever way the transport cut them. *)

From stdpp Require Import prelude gmap strings.
From S2P Require Import Prelude Words Errors Strings Sha1 Handshake Inflating ConnRead Exchange Upgrade.

Import Up.

(** ** The buffered reader over a transport that keeps delivering *)

Definition nonempty (chunks : list (list Z)) : Prop := Forall (fun b => b <> []) chunks.

(** [b] is still to be read. *)
Definition feeding (r : breader) (b : list Z) : Prop :=
  rerr r = None /\ exists chunks, src r = pieces chunks /\ nonempty chunks /\ b = pending r ++ concat chunks.

Lemma transport_pieces c chunks n :
  c <> [] -> 0 < n -> exists d q, Cr.transport_read (pieces (c :: chunks)) n = (pieces q, (d, None)) /\ d <> [] /\
    c ++ concat chunks = d ++ concat q /\ (nonempty chunks -> nonempty q).
Proof.
  intros Hc Hn. cbn [pieces fmap list_fmap Cr.transport_read]. destruct (Z.leb_spec (len c) n) as [Hl | Hl].
  - by exists c, chunks.
  - exists (upto c n), (from c n :: chunks). split; [done |]. split; [by apply upto_pos |].
    split; [cbn [concat]; by rewrite app_assoc, upto_from |]. intros H. constructor; [| done].
    intros E. apply (f_equal len) in E. rewrite len_from in E. change (len []) with 0 in E. lia.
Qed.

Lemma fill_more tries r b :
  feeding r b -> len (pending r) < bufSize -> pending r <> b ->
  feeding (fill (S tries) r) b /\ exists d, pending (fill (S tries) r) = pending r ++ d /\ d <> [].
Proof.
  intros (He & chunks & Hs & Hne & ->) Hl Hb. destruct chunks as [| c chunks]; [by rewrite app_nil_r in Hb |].
  apply Forall_cons_1 in Hne as [Hc Hne].
  destruct (transport_pieces c chunks (bufSize - len (pending r)) Hc ltac:(lia)) as (d & q & E & Hd & Eq & Hq).
  cbn [fill]. rewrite Hs, E. cbn [fst snd src pending rerr].
  assert ((len d =? 0) = false) as ->.
  { destruct (Z.eqb_spec (len d) 0) as [H |]; [by apply len_0_nil in H | done]. }
  split; [| by exists d]. split; [done |]. exists q. split; [done |]. split; [by apply Hq |]. cbn [pending].
  cbn [concat]. by rewrite <- app_assoc, Eq.
Qed.

(** A line that fits the buffer. *)
Lemma ReadSlice_line fuel r line rest :
  feeding r (line ++ 10 :: rest) -> (10 ∉ line) -> len line < bufSize ->
  Z.max 0 (len line + 1 - len (pending r)) < Z.of_nat fuel ->
  exists r', ReadSlice fuel r = Some (r', line ++ [10], None) /\ feeding r' rest.
Proof.
  revert r. induction fuel as [| fuel IH]; intros r Hf Hn Hl Hfuel; [lia |]. cbn [ReadSlice].
  pose proof Hf as (He & chunks & Hs & Hne & Eb). pose proof (len_nonneg line).
  assert ((exists k, pending r = line ++ 10 :: k /\ rest = k ++ concat chunks) \/ exists k, line = pending r ++ k) as Hcase.
  { symmetry in Eb. apply app_eq_inv in Eb as [(k & E1 & E2) | (k & E1 & E2)]; [| by right; exists k].
    destruct k as [| x k]; [right; exists []; by rewrite E1, !app_nil_r |]. injection E2 as -> ->. left. by exists k. }
  destruct Hcase as [(k & Ep & ->) | [k Ek]].
  - rewrite Ep, cut_found by done. eexists. split; [done |]. split; [done |]. by exists chunks.
  - assert (10 ∉ pending r) as Hp by (rewrite Ek in Hn; by apply not_elem_of_app in Hn as [? _]).
    assert (len line = len (pending r) + len k) as El by (by rewrite Ek, len_app). pose proof (len_nonneg k).
    rewrite cut_missing by done. rewrite He. destruct (Z.leb_spec bufSize (len (pending r))); [lia |].
    destruct (fill_more 99 r _ Hf ltac:(lia)) as (Hf' & d & Ed & Hd).
    { intros E. apply (f_equal len) in E. rewrite len_app, len_cons in E. pose proof (len_nonneg rest). lia. }
    apply IH; [done | done | done |]. rewrite Ed, len_app.
    destruct d as [| x d]; [done |]. rewrite len_cons. pose proof (len_nonneg d). lia.
Qed.

Lemma readLine_line fuel r limit line rest :
  feeding r (line ++ crlf ++ rest) -> text line -> len line + 2 <= bufSize -> len line + 2 <= limit ->
  len line + 3 < Z.of_nat fuel ->
  exists r', readLine fuel r limit = Some (r', limit - (len line + 2), inl line) /\ feeding r' rest.
Proof.
  intros Hf Ht Hl Hlim Hfuel. pose proof (len_nonneg line). pose proof (len_nonneg (pending r)).
  destruct (ReadSlice_line fuel r (line ++ [13]) rest) as (r' & E & Hr').
  - by rewrite <- app_assoc.
  - apply not_elem_of_app. split; [apply Ht | by apply (bool_decide_unpack _)].
  - rewrite len_app. change (len [13]) with 1. lia.
  - rewrite len_app. change (len [13]) with 1. lia.
  - exists r'. split; [| done]. unfold readLine. rewrite E. cbn [mbind option_bind].
    rewrite <- app_assoc. change ([13] ++ [10]) with crlf. rewrite len_app. change (len crlf) with 2.
    destruct (Z.ltb_spec (limit - (len line + 2)) 0); [lia |]. by rewrite trim_crlf.
Qed.

(** ** The request a client writes *)

(** A header line, with the one space every client puts after the colon. *)
Definition header_line (h : list Z * list Z) : list Z := h.1 ++ 58 :: 32 :: h.2.

Definition head_bytes (method path : list Z) (hs : list (list Z * list Z)) : list Z :=
  method ++ 32 :: path ++ 32 :: str "HTTP/1.1" ++ crlf ++ concat ((fun h => header_line h ++ crlf) <$> hs) ++ crlf.

Definition header_ok (h : list Z * list Z) : Prop :=
  h.1 <> [] /\ Forall (fun b => b <> 58 /\ b <> 32 /\ b <> 9 /\ b <> 10 /\ b <> 13) h.1 /\ text h.2 /\
  len (header_line h) + 2 <= bufSize.

Lemma header_text h : header_ok h -> text (header_line h).
Proof.
  intros (_ & Hn & Hv & _). unfold header_line. apply text_app. split.
  - split; intros Hin; rewrite Forall_forall in Hn; apply Hn in Hin; lia.
  - destruct Hv. by split; rewrite !not_elem_of_cons.
Qed.

Lemma readHeaders_ok fuel line_fuel r limit req hs rest :
  feeding r (concat ((fun h => header_line h ++ crlf) <$> hs) ++ crlf ++ rest) -> Forall header_ok hs ->
  len (concat ((fun h => header_line h ++ crlf) <$> hs)) + 2 <= limit -> (length hs < fuel)%nat ->
  bufSize + 1 < Z.of_nat line_fuel ->
  exists r', readHeaders fuel line_fuel r limit req =
      Some (r', inl (foldl (fun req h => addHeader req h.1 (32 :: h.2)) req hs)) /\ feeding r' rest.
Proof.
  intros Hf Hhs. revert fuel r limit req Hf. induction Hhs as [| h hs Hh Hhs IH]; intros fuel r limit req Hf Hlim Hfuel Hlf;
    (destruct fuel as [| fuel]; [cbn in Hfuel; lia |]); cbn [readHeaders fmap list_fmap concat] in *.
  - destruct (readLine_line line_fuel r limit [] rest Hf) as (r' & -> & Hr'); [| done | done | |].
    { split; apply not_elem_of_nil. }
    { change (0 + 3 < Z.of_nat line_fuel). change bufSize with 4096 in Hlf. lia. }
    cbn [mbind option_bind]. by exists r'.
  - rewrite <- !app_assoc in Hf. rewrite !len_app in Hlim. change (len crlf) with 2 in Hlim.
    pose proof Hh as (Hn0 & Hn & Hv & Hl). pose proof (len_nonneg (concat ((fun h => header_line h ++ crlf) <$> hs))).
    destruct (readLine_line line_fuel r limit (header_line h) _ Hf (header_text h Hh) Hl ltac:(lia) ltac:(lia)) as (r' & -> & Hr').
    cbn [mbind option_bind]. unfold header_line at 1 2.
    assert (58 ∉ h.1) as Hc by (intros Hin; rewrite Forall_forall in Hn; apply Hn in Hin; lia).
    assert (exists b t, h.1 ++ 58 :: 32 :: h.2 = b :: t) as (b & t & Ebt) by (destruct h.1; [done | by eexists _, _]).
    rewrite Ebt, <- Ebt, cut_found by done. cbn [negb orb]. rewrite bool_decide_eq_false_2 by done. cbn [orb].
    assert (existsb (fun b => (b =? 32) || (b =? 9)) h.1 = false) as ->.
    { apply not_true_iff_false. rewrite existsb_exists. intros (x & Hx%list_elem_of_In & Hb). rewrite Forall_forall in Hn.
      apply Hn in Hx. apply orb_prop in Hb as [->%Z.eqb_eq | ->%Z.eqb_eq]; lia. }
    cbn [foldl]. apply IH; [done | lia | cbn in Hfuel; lia | done].
Qed.

Definition parsed (method path : list Z) (hs : list (list Z * list Z)) : Request :=
  foldl (fun req h => addHeader req h.1 (32 :: h.2)) {| Method := method; Path := path; Host := []; Header := ∅ |} hs.

(** A method or path: not empty, without spaces or line breaks. *)
Definition word (w : list Z) : Prop := w <> [] /\ (32 ∉ w) /\ text w.

Lemma readRequest_ok fuel line_fuel r limit method path hs rest :
  feeding r (head_bytes method path hs ++ rest) -> word method -> word path -> Forall header_ok hs ->
  len (method ++ 32 :: path ++ 32 :: str "HTTP/1.1") + 2 <= bufSize -> len (head_bytes method path hs) <= limit ->
  (length hs < fuel)%nat -> bufSize + 1 < Z.of_nat line_fuel ->
  exists r', readRequest fuel line_fuel r limit = Some (r', inl (parsed method path hs)) /\ feeding r' rest.
Proof.
  intros Hf (Hm0 & Hm & Hmt) (Hp0 & Hp & Hpt) Hhs Hl Hlim Hfuel Hlf. set (line := method ++ 32 :: path ++ 32 :: str "HTTP/1.1") in *.
  assert (head_bytes method path hs = line ++ crlf ++ concat ((fun h => header_line h ++ crlf) <$> hs) ++ crlf) as E.
  { unfold head_bytes, line. rewrite <- !app_assoc. cbn [app]. by rewrite <- !app_assoc. }
  assert (text line) as Ht.
  { apply text_app. split; [done |]. change (32 :: path ++ 32 :: str "HTTP/1.1") with ([32] ++ path ++ (32 :: str "HTTP/1.1")).
    rewrite !text_app. split; [by split; apply (bool_decide_unpack _) |]. split; [done |]. by split; apply (bool_decide_unpack _). }
  rewrite E, !len_app in Hlim. change (len crlf) with 2 in Hlim. rewrite E in Hf. rewrite <- !app_assoc in Hf.
  pose proof (len_nonneg (concat ((fun h => header_line h ++ crlf) <$> hs))).
  destruct (readLine_line line_fuel r limit line _ Hf Ht Hl ltac:(lia) ltac:(lia)) as (r1 & E1 & Hr1).
  unfold readRequest. rewrite E1. cbn [mbind option_bind]. unfold line at 1. rewrite cut_found by done. cbv beta iota. rewrite cut_found by done. cbv beta iota.
  cbn [negb orb]. rewrite !bool_decide_eq_false_2 by done. rewrite bool_decide_eq_true_2 by done. cbn [negb orb].
  apply (readHeaders_ok fuel line_fuel r1 _ _ hs rest); try done. lia.
Qed.

(** ** What its headers say *)

(** The values of the headers of a name, in any letter case. *)
Definition values (hs : list (list Z * list Z)) (name : list Z) : list (list Z) :=
  (fun h => TrimSpace (32 :: h.2)) <$> filter (fun h => canonicalHeader h.1 = name) hs.

Lemma join_cons sep p v vs : join sep ((p ++ sep ++ v) :: vs) = join sep (p :: v :: vs).
Proof. destruct vs; [done |]. cbn [join]. by rewrite <- !app_assoc. Qed.

Lemma parsed_lookup req hs name :
  name <> str "Host" ->
  Header (foldl (fun req h => addHeader req h.1 (32 :: h.2)) req hs) !! name =
  match Header req !! name, values hs name with
  | None, [] => None
  | None, vs => Some (join (str ", ") vs)
  | Some p, vs => Some (join (str ", ") (p :: vs))
  end.
Proof.
  intros Hn. revert req. induction hs as [| h hs IH]; intros req; cbn [foldl]; [by destruct (Header req !! name) |].
  rewrite IH. unfold values. rewrite filter_cons. unfold addHeader.
  destruct (decide (canonicalHeader h.1 = name)) as [-> | Hne].
  - rewrite bool_decide_eq_false_2 by done. cbn [Header]. rewrite lookup_insert_eq. cbn [fmap list_fmap].
    destruct (Header req !! name) as [p |]; [by rewrite join_cons |]. done.
  - case_bool_decide; [done |]. cbn [Header]. by rewrite lookup_insert_ne.
Qed.

Lemma parsed_header method path hs name :
  name <> str "Host" -> default [] (Header (parsed method path hs) !! name) = join (str ", ") (values hs name).
Proof. intros Hn. unfold parsed. rewrite parsed_lookup by done. cbn [Header]. rewrite lookup_empty. by destruct (values hs name). Qed.

Lemma parsed_line method path hs : Method (parsed method path hs) = method /\ Path (parsed method path hs) = path.
Proof.
  unfold parsed. enough (forall req, Method (foldl (fun req h => addHeader req h.1 (32 :: h.2)) req hs) = Method req /\
    Path (foldl (fun req h => addHeader req h.1 (32 :: h.2)) req hs) = Path req) as H by apply H.
  induction hs as [| h hs IH]; intros req; [done |]. cbn [foldl]. destruct (IH (addHeader req h.1 (32 :: h.2))) as [-> ->].
  unfold addHeader. by case_bool_decide.
Qed.

(** The headers ask for what [hreq] does, in whatever order and letter case,
    among whatever others. *)
Definition asks (hs : list (list Z * list Z)) (hreq : Hs.Request) : Prop :=
  let says name v := join (str ", ") (values hs (str name)) = v in
  says "Upgrade" (Hs.qUpgrade hreq) /\ says "Connection" (Hs.qConnection hreq) /\
  says "Sec-Websocket-Version" (Hs.qVersion hreq) /\ says "Sec-Websocket-Key" (Hs.Key hreq) /\
  says "Sec-Websocket-Extensions" (Hs.qExtensions hreq) /\ says "Sec-Websocket-Protocol" (Hs.qProtocols hreq).

Lemma parsed_request path hs hreq : asks hs hreq -> handshake_request (parsed (Hs.Method hreq) path hs) = hreq.
Proof.
  intros (H1 & H2 & H3 & H4 & H5 & H6). unfold handshake_request. rewrite !parsed_header by done.
  rewrite H1, H2, H3, H4, H5, H6. destruct (parsed_line (Hs.Method hreq) path hs) as [-> _]. by destruct hreq.
Qed.

(** ** The connection handed over *)

(** The results of reads of sizes [ns]. *)
Fixpoint conn_reads (c : Up.conn) (ns : list Z) : list (list Z * option error) :=
  match ns with [] => [] | n :: ns => let '(c, x) := Up.Read c n in x :: conn_reads c ns end.

Fixpoint script_reads (s : script) (ns : list Z) : list (list Z * option error) :=
  match ns with [] => [] | n :: ns => let '(s, x) := Cr.transport_read s n in x :: script_reads s ns end.

(** What the reads of a [bufferedConn] will give. *)
Definition script_of (c : Up.conn) : script :=
  match held c with Some ((_ :: _) as b) => (b, None) :: socket c | _ => socket c end.

Lemma Read_script c n : 0 <= n ->
  let '(c', x) := Up.Read c n in Cr.transport_read (script_of c) n = (script_of c', x).
Proof.
  intros Hn. destruct c as [[[| b l] |] s]; unfold Up.Read, script_of; cbn [held socket].
  - change (len [] =? 0) with true. cbn iota. by destruct (Cr.transport_read s n).
  - assert ((len (b :: l) =? 0) = false) as -> by (rewrite len_cons; pose proof (len_nonneg l); by apply Z.eqb_neq; lia).
    cbn [Cr.transport_read held socket]. destruct (Z.leb_spec (len (b :: l)) n) as [Hl | Hl].
    + by rewrite Z.min_r, from_all, upto_all by lia.
    + rewrite Z.min_l by lia. destruct (from (b :: l) n) as [| x k] eqn:E; [| done].
      apply (f_equal len) in E. rewrite len_from in E. change (len []) with 0 in E. lia.
  - by destruct (Cr.transport_read s n).
Qed.

Lemma conn_reads_script c ns : Forall (fun n => 0 <= n) ns -> conn_reads c ns = script_reads (script_of c) ns.
Proof.
  intros H. revert c. induction H as [| n ns Hn _ IH]; intros c; [done |]. cbn [conn_reads script_reads].
  pose proof (Read_script c n Hn) as E. destruct (Up.Read c n) as [c' x]. rewrite E. by rewrite IH.
Qed.

Lemma handOver_script r b :
  feeding r b -> exists chunks, script_of (handOver r) = pieces chunks /\ nonempty chunks /\ concat chunks = b.
Proof.
  intros (_ & chunks & Hs & Hne & ->). unfold handOver, script_of. destruct (pending r) as [| x p].
  - change (len [] =? 0) with true. cbn [held socket app]. by exists chunks.
  - assert ((len (x :: p) =? 0) = false) as -> by (rewrite len_cons; pose proof (len_nonneg p); by apply Z.eqb_neq; lia).
    cbn [held socket]. exists ((x :: p) :: chunks). rewrite Hs. split; [done |]. split; [by constructor | done].
Qed.

Lemma serve_ok net_error rnd oc s path hs chunks rest fuel line_fuel hreq :
  bytes_ok rnd -> len rnd = 16 -> Hs.validOptions oc = None -> Hs.validOptions (sHandshake s) = None ->
  Hs.NewRequest rnd oc = Ok hreq -> asks hs hreq ->
  nonempty chunks -> concat chunks = head_bytes (Hs.Method hreq) path hs ++ rest ->
  word path -> Forall header_ok hs -> len path + 15 <= bufSize ->
  len (head_bytes (Hs.Method hreq) path hs) <= maxHeaderBytes s ->
  match sAccept s with Some f => f (parsed (Hs.Method hreq) path hs) | None => 0 end = 0 ->
  (length hs < fuel)%nat -> bufSize + 1 < Z.of_nat line_fuel ->
  exists resp rs rc c chunks',
    serve net_error fuel line_fuel s (pieces chunks) None =
      Some {| written := [responseBytes resp]; handed := Some (c, rs, parsed (Hs.Method hreq) path hs) |} /\
    Hs.Negotiate hreq (sHandshake s) = Ok (resp, rs) /\
    Hs.Confirm hreq resp oc = Ok rc /\ Hs.rProtocol rc = Hs.rProtocol rs /\
    mirrored (Hs.rCompression rc) (Hs.rCompression rs) /\
    nonempty chunks' /\ concat chunks' = rest /\ script_of c = pieces chunks'.
Proof.
  intros Hb Hl Hoc Hos Hreq Hasks Hne Ech Hpath Hhs Hlp Hlim Hacc Hfuel Hlf.
  destruct (handshake_pair rnd oc (sHandshake s) Hb Hl Hoc Hos) as (req & resp & rs & rc & E1 & E2 & E3 & E4 & E5).
  rewrite Hreq in E1. injection E1 as <-.
  assert (Hs.Method hreq = str "GET") as Hget.
  { unfold Hs.NewRequest in Hreq. rewrite Hoc in Hreq. destruct (Hs.oCompression oc); by injection Hreq as <-. }
  destruct (readRequest_ok fuel line_fuel (newReader (pieces chunks)) (maxHeaderBytes s) (Hs.Method hreq) path hs rest) as (r & Er & Hr);
    try done.
  - split; [done |]. by exists chunks.
  - rewrite Hget. by split_and!; apply (bool_decide_unpack _).
  - rewrite Hget, len_app, len_cons, len_app. change (len (str "GET")) with 3. change (len (32 :: str "HTTP/1.1")) with 9. lia.
  - destruct (handOver_script r rest Hr) as (chunks' & Hc & Hne' & Hc').
    exists resp, rs, rc, (handOver r), chunks'. split.
    { unfold serve. rewrite Er. cbn [mbind option_bind]. rewrite Hacc. cbn [negb Z.eqb].
      by rewrite (parsed_request path hs hreq Hasks), E2. }
    split_and!; done.
Qed.

(** ** The answer on the wire *)

(** What the server's parser leaves as it is after [net/http]'s one space. *)
Definition clean (v : list Z) : Prop := v = [] \/ (text v /\ TrimSpace (32 :: v) = v).

Lemma clean_trim v : clean v -> TrimSpace (32 :: v) = v.
Proof. intros [-> | [_ H]]; [vm_compute; reflexivity | done]. Qed.

Lemma clean_text v : clean v -> text v.
Proof. intros [-> | [H _]]; [split; apply not_elem_of_nil | done]. Qed.

Lemma token_text v : Forall token_byte v -> text v.
Proof.
  intros H. rewrite Forall_forall in H. by split; intros Hin; apply H in Hin; unfold token_byte in Hin; lia.
Qed.

Lemma token_clean v : Forall token_byte v -> clean v.
Proof.
  intros H. destruct v as [| b v]; [by left | right]. split; [by apply token_text |]. by apply TrimSpace_space_token.
Qed.

Ltac plain_text := split; apply (bool_decide_unpack _); vm_compute; exact Logic.I.
Ltac plain_colon := apply (bool_decide_unpack _); vm_compute; exact Logic.I.
Ltac plain := right; split; [plain_text | vm_compute; reflexivity].

Lemma formatDeflate_clean c : bits_ok (Hs.SendWindowBits c) -> clean (Hs.formatDeflate c).
Proof.
  destruct c as [lv ms st rt sb rb]. cbn. intros Hb. unfold Hs.formatDeflate. cbn [Hs.SendContextTakeover Hs.ReceiveContextTakeover Hs.SendWindowBits].
  assert (sb = 0 \/ sb = 8 \/ sb = 9 \/ sb = 10 \/ sb = 11 \/ sb = 12 \/ sb = 13 \/ sb = 14 \/ sb = 15) as Hs
    by (unfold bits_ok in Hb; lia).
  destruct Hs as [-> | [-> | [-> | [-> | [-> | [-> | [-> | [-> | ->]]]]]]]]; destruct st, rt; plain.
Qed.

Lemma Negotiate_clean req opts resp res :
  Hs.Negotiate req opts = Ok (resp, res) -> Forall clean (Hs.Protocols opts) ->
  resp = Hs.mkResponse 101 (str "websocket") (str "Upgrade") (Hs.pAccept resp) (Hs.pExtensions resp) (Hs.pProtocol resp) /\
  clean (Hs.pAccept resp) /\ clean (Hs.pExtensions resp) /\ clean (Hs.pProtocol resp).
Proof.
  intros Hn Hp.
  assert (clean (Hs.Accept (Hs.Key req))) as Ha.
  { apply token_clean, b64_char_ok. unfold Sum. cbv zeta. rewrite !bytes_ok_app. by split_and!; apply bytes_ok_be_put. }
  assert (forall q ps, Forall clean ps -> clean (Hs.selectProtocol q ps)) as Hsel.
  { intros q ps H. induction H as [| p ps Hc _ IH]; cbn [Hs.selectProtocol]; [by left |]. by case_match. }
  unfold Hs.Negotiate in Hn. destruct (Hs.validOptions opts); [done |]. case_match; [done |]. case_match; [done |]. case_match; [done |].
  destruct (Hs.oCompression opts) as [c |].
  - destruct (Hs.parseExtensions (Hs.qExtensions req)) as [exts | e]; [| done]. injection Hn as <- <-. cbn.
    split; [done |]. split; [done |]. split; [| by apply Hsel].
    destruct (Hs.selectDeflate c exts) as [comp |] eqn:E; [| by left].
    apply formatDeflate_clean. apply selectDeflate_some in E as (e & p & _ & _ & Hd & ->). cbn. by apply parseDeflate_bits in Hd as [? _].
  - injection Hn as <- <-. cbn. split; [done |]. split; [done |]. split; [by left | by apply Hsel].
Qed.

(** A 101 response with these header fields, a line each. *)
Definition answer_bytes (hl : list (list Z * list Z)) : list Z :=
  str "HTTP/1.1 101 Switching Protocols" ++ crlf ++ concat ((fun h => header_line h ++ crlf) <$> hl) ++ crlf.

(** A field: a name a header line can start with, and a value without line
    breaks or blanks around it. *)
Definition field_ok (h : list Z * list Z) : Prop :=
  h.1 <> [] /\ Forall (fun b => b <> 58 /\ b <> 32 /\ b <> 9 /\ b <> 10 /\ b <> 13) h.1 /\ clean h.2.

(** What the fields of a name say, and the response a client reads off them. *)
Definition said (hl : list (list Z * list Z)) (name : string) : list (list Z) :=
  (filter (fun h => EqualFold h.1 (str name) = true) hl).*2.

Definition response_of (hl : list (list Z * list Z)) : Hs.Response :=
  let get name := join (str ", ") (said hl name) in
  Hs.mkResponse 101 (get "Upgrade") (get "Connection") (get "Sec-WebSocket-Accept") (get "Sec-WebSocket-Extensions")
    (get "Sec-WebSocket-Protocol").

(** The fields the server writes. *)
Definition answer_fields (resp : Hs.Response) : list (list Z * list Z) :=
  let optional name v := if bool_decide (v = []) then [] else [(name, v)] in
  [(str "Upgrade", str "websocket"); (str "Connection", str "Upgrade"); (str "Sec-WebSocket-Accept", Hs.pAccept resp)]
  ++ optional (str "Sec-WebSocket-Extensions") (Hs.pExtensions resp)
  ++ optional (str "Sec-WebSocket-Protocol") (Hs.pProtocol resp).

Lemma responseBytes_answer resp : responseBytes resp = answer_bytes (answer_fields resp).
Proof.
  unfold responseBytes, answer_bytes, answer_fields, header_line. cbv zeta.
  set (a := Hs.pAccept resp). set (x := Hs.pExtensions resp). set (p := Hs.pProtocol resp). clearbody a x p.
  case_bool_decide; case_bool_decide; cbn [app fmap list_fmap concat fst snd]; rewrite <- !app_assoc; reflexivity.
Qed.

Lemma answer_fields_ok resp :
  clean (Hs.pAccept resp) -> clean (Hs.pExtensions resp) -> clean (Hs.pProtocol resp) -> Forall field_ok (answer_fields resp).
Proof.
  intros Ha Hx Hp. unfold answer_fields. cbv zeta. rewrite !Forall_app. split_and!; repeat case_bool_decide;
    repeat (apply Forall_cons; split); try apply Forall_nil_2;
    (split; [discriminate | split; [plain_colon | first [done | plain]]]).
Qed.

Lemma answer_said resp :
  let hl := answer_fields resp in
  said hl "Upgrade" = [str "websocket"] /\ said hl "Connection" = [str "Upgrade"] /\
  said hl "Sec-WebSocket-Accept" = [Hs.pAccept resp] /\
  said hl "Sec-WebSocket-Extensions" = (if bool_decide (Hs.pExtensions resp = []) then [] else [Hs.pExtensions resp]) /\
  said hl "Sec-WebSocket-Protocol" = (if bool_decide (Hs.pProtocol resp = []) then [] else [Hs.pProtocol resp]).
Proof.
  cbv zeta. unfold said, answer_fields. cbv zeta.
  set (a := Hs.pAccept resp). set (x := Hs.pExtensions resp). set (p := Hs.pProtocol resp). clearbody a x p.
  case_bool_decide; case_bool_decide; by split_and!; vm_compute.
Qed.

Lemma answer_response resp :
  resp = Hs.mkResponse 101 (str "websocket") (str "Upgrade") (Hs.pAccept resp) (Hs.pExtensions resp) (Hs.pProtocol resp) ->
  response_of (answer_fields resp) = resp.
Proof.
  intros E. etransitivity; [| symmetry; exact E]. clear E. unfold response_of. cbv zeta.
  destruct (answer_said resp) as (-> & -> & -> & -> & ->).
  destruct (bool_decide_reflect (Hs.pExtensions resp = [])) as [-> | _];
    destruct (bool_decide_reflect (Hs.pProtocol resp = [])) as [-> | _]; reflexivity.
Qed.

Lemma Negotiate_accept req opts resp res : Hs.Negotiate req opts = Ok (resp, res) -> Hs.pAccept resp = Hs.Accept (Hs.Key req).
Proof.
  unfold Hs.Negotiate. destruct (Hs.validOptions opts); [done |]. case_match; [done |]. case_match; [done |]. case_match; [done |].
  destruct (Hs.oCompression opts); [destruct (Hs.parseExtensions _); [| done] |]; by intros [= <- <-].
Qed.

(** C12. The server's handshake over the wire.  A client's request, its headers
    in any order and letter case among any others, cut anywhere by the
    transport, is answered with one write: a [101] status line, header lines
    that upgrade to websocket and carry the accept value of the client's key,
    the extensions and the subprotocol once at most, and the empty line.  The
    client, reading those lines, accepts; the two ends hold mirrored
    compression parameters and the same subprotocol.  The connection handed to
    the handler gives exactly the bytes the client sent behind its request,
    the ones the parser had buffered first. *)
Theorem serve_upgrades net_error rnd oc s path hs chunks rest fuel line_fuel hreq :
  bytes_ok rnd -> len rnd = 16 -> Hs.validOptions oc = None -> Hs.validOptions (sHandshake s) = None ->
  Forall clean (Hs.Protocols (sHandshake s)) ->
  Hs.NewRequest rnd oc = Ok hreq -> asks hs hreq ->
  nonempty chunks -> concat chunks = head_bytes (Hs.Method hreq) path hs ++ rest ->
  word path -> Forall header_ok hs -> len path + 15 <= bufSize ->
  len (head_bytes (Hs.Method hreq) path hs) <= maxHeaderBytes s ->
  match sAccept s with Some f => f (parsed (Hs.Method hreq) path hs) | None => 0 end = 0 ->
  (length hs < fuel)%nat -> bufSize + 1 < Z.of_nat line_fuel ->
  exists hl rs rc c chunks',
    serve net_error fuel line_fuel s (pieces chunks) None =
      Some {| written := [answer_bytes hl]; handed := Some (c, rs, parsed (Hs.Method hreq) path hs) |} /\
    Forall field_ok hl /\ said hl "Upgrade" = [str "websocket"] /\ said hl "Connection" = [str "Upgrade"] /\
    said hl "Sec-WebSocket-Accept" =
      [EncodeToString (Sum (Hs.Key hreq ++ str "258EAFA5-E914-47DA-95CA-C5AB0DC85B11"))] /\
    len (said hl "Sec-WebSocket-Extensions") <= 1 /\ len (said hl "Sec-WebSocket-Protocol") <= 1 /\
    Hs.Confirm hreq (response_of hl) oc = Ok rc /\ Hs.rProtocol rc = Hs.rProtocol rs /\
    mirrored (Hs.rCompression rc) (Hs.rCompression rs) /\
    nonempty chunks' /\ concat chunks' = rest /\
    forall ns, Forall (fun n => 0 <= n) ns -> conn_reads c ns = script_reads (pieces chunks') ns.
Proof.
  intros. destruct (serve_ok net_error rnd oc s path hs chunks rest fuel line_fuel hreq)
    as (resp & rs & rc & c & chunks' & E1 & En & E2 & E3 & E4 & E5 & E6 & E7); try done.
  assert (Forall clean (Hs.Protocols (sHandshake s))) as Hclean by done.
  destruct (Negotiate_clean _ _ _ _ En Hclean) as (R1 & R2 & R3 & R4).
  destruct (answer_said resp) as (A1 & A2 & A3 & A4 & A5). rewrite (Negotiate_accept _ _ _ _ En) in A3.
  exists (answer_fields resp), rs, rc, c, chunks'. rewrite <- responseBytes_answer, answer_response by exact R1.
  split; [exact E1 |]. split; [by apply answer_fields_ok |]. rewrite A4, A5.
  assert (forall v : list Z, len (if bool_decide (v = []) then [] else [v]) <= 1) as Hopt
    by (intros v; unfold len; destruct (bool_decide (v = [])); cbn [length]; lia).
  split_and!; try done. intros ns Hns. by rewrite conn_reads_script, E7.
Qed.

(** A browser's request, and a frame right behind it. *)
Definition a_client : Hs.Options := Hs.mkOptions (Some (Hs.mkCompress 6 0 true)) [str "chat"; str "superchat"].
Definition a_server : Server := mkServer (Hs.mkOptions (Some (Hs.mkCompress 1 64 true)) [str "superchat"]) 0 None.

Definition a_request : Hs.Request :=
  match Hs.NewRequest (zeros 16) a_client with
  | Ok req => req
  | Err _ => Hs.mkRequest [] [] [] [] [] [] []
  end.

Definition a_header : list (list Z * list Z) :=
  [(str "host", str "example.com"); (str "Accept-Language", str "en, fr"); (str "SEC-WEBSOCKET-KEY", Hs.Key a_request);
   (str "connection", str "Upgrade"); (str "upgrade", str "websocket"); (str "Sec-WebSocket-Version", str "13");
   (str "Sec-WebSocket-Protocol", str "chat"); (str "Sec-WebSocket-Protocol", str "superchat");
   (str "Sec-WebSocket-Extensions", Hs.qExtensions a_request)].

Lemma serve_upgrades_witness :
  exists hl c rs req, serve (fun _ => false) 20 (Z.to_nat 5000) a_server
      (pieces (cut 40 20 (head_bytes (str "GET") (str "/chat") a_header ++ [129; 128; 0; 0; 0; 0]))) None
    = Some {| written := [answer_bytes hl]; handed := Some (c, rs, req) |} /\
    said hl "Sec-WebSocket-Accept" = [str "ICX+Yqv66kxgM0FcWaLWlFLwTAI="] /\
    exists chunks', concat chunks' = [129; 128; 0; 0; 0; 0] /\
      conn_reads c [4; 100] = script_reads (pieces chunks') [4; 100].
Proof.
  pose proof (serve_upgrades (fun _ => false) (zeros 16) a_client a_server (str "/chat") a_header
    (cut 40 20 (head_bytes (str "GET") (str "/chat") a_header ++ [129; 128; 0; 0; 0; 0])) [129; 128; 0; 0; 0; 0] 20 (Z.to_nat 5000)
    a_request) as H.
  destruct H as (hl & rs & rc & c & chunks' & E & _ & _ & _ & Ea & _ & _ & _ & _ & _ & _ & E4 & E5).
  - apply (bool_decide_unpack _). vm_compute. exact Logic.I.
  - reflexivity.
  - reflexivity.
  - reflexivity.
  - repeat (apply Forall_cons; split; [plain |]). apply Forall_nil_2.
  - vm_compute. reflexivity.
  - split_and!; vm_compute; reflexivity.
  - apply (bool_decide_unpack _). vm_compute. exact Logic.I.
  - vm_compute. reflexivity.
  - split; [discriminate |]. split; [apply (bool_decide_unpack _); vm_compute; exact Logic.I |].
    split; apply (bool_decide_unpack _); vm_compute; exact Logic.I.
  - repeat (apply Forall_cons; split; [split; [discriminate | split; [apply (bool_decide_unpack _); vm_compute; exact Logic.I |
      split; [split; apply (bool_decide_unpack _); vm_compute; exact Logic.I | vm_compute; discriminate]]] |]). apply Forall_nil_2.
  - vm_compute. discriminate.
  - vm_compute. discriminate.
  - reflexivity.
  - apply (bool_decide_unpack _). vm_compute. exact Logic.I.
  - reflexivity.
  - exists hl, c, rs, (parsed (Hs.Method a_request) (str "/chat") a_header). split; [exact E |].
    split; [rewrite Ea; vm_compute; reflexivity |].
    exists chunks'. split; [exact E4 | apply E5; apply (bool_decide_unpack _); vm_compute; exact Logic.I].
Defined.
