(* ===== verification/Dialing.v ===== *)
(** * A client dials a server

    [Dial] against [Server.serve]: the header the client sends among the
    caller's own, what the server answers, and the two connections that come
    of it.  [net/http]'s writing of the request and reading of the response
    are hypotheses. *)

From stdpp Require Import prelude gmap strings.
From S2P Require Import Prelude Words Errors Strings Sha1 Handshake Inflating ConnRead Exchange Upgrade Serving Dial.

Import Up Dl.

(** ** The request's header *)

(** The fields of the handshake and what [hreq] says in each. *)
Definition fields (hreq : Hs.Request) : list (list Z * list Z) :=
  [(str "Upgrade", Hs.qUpgrade hreq); (str "Connection", Hs.qConnection hreq);
   (str "Sec-Websocket-Version", Hs.qVersion hreq); (str "Sec-Websocket-Key", Hs.Key hreq);
   (str "Sec-Websocket-Extensions", Hs.qExtensions hreq); (str "Sec-Websocket-Protocol", Hs.qProtocols hreq)].

(** [Write] puts each value of a handshake field on a line of its own. *)
Definition carries (header : http_header) (hs : list (list Z * list Z)) : Prop :=
  forall name, name ∈ (fields (Hs.mkRequest [] [] [] [] [] [] [])).*1 ->
    (filter (fun h => canonicalHeader h.1 = name) hs).*2 = default [] (header !! name).

(** Whatever the caller's header holds, the handshake's fields are the
    request's: nothing of the caller's is left in them. *)
Lemma requestHeader_fields hreq extra name v :
  Hs.qUpgrade hreq <> [] -> Hs.qConnection hreq <> [] -> Hs.qVersion hreq <> [] -> Hs.Key hreq <> [] ->
  (name, v) ∈ fields hreq ->
  default [] (requestHeader hreq extra !! name) = if bool_decide (v = []) then [] else [v].
Proof.
  intros H1 H2 H3 H4 Hin. unfold requestHeader. set (h := foldl _ _ _). clearbody h. unfold fields in Hin.
  repeat (apply elem_of_cons in Hin as [[= -> ->] | Hin]); [.. | by apply not_elem_of_nil in Hin];
    (destruct (bool_decide_reflect (Hs.qExtensions hreq = [])) as [Ee | Ee];
     destruct (bool_decide_reflect (Hs.qProtocols hreq = [])) as [Ep | Ep]);
    unfold http_header in *;
    repeat ((rewrite lookup_insert_ne by done) || (rewrite lookup_delete_ne by done)
      || rewrite lookup_insert_eq || rewrite lookup_delete_eq);
    cbn [default]; rewrite ?Ee, ?Ep; rewrite ?bool_decide_eq_true_2 by done; rewrite ?bool_decide_eq_false_2 by done; done.
Qed.

Lemma carried_asks hreq extra hs :
  Hs.qUpgrade hreq <> [] -> Hs.qConnection hreq <> [] -> Hs.qVersion hreq <> [] -> Hs.Key hreq <> [] ->
  Forall (fun f => clean f.2) (fields hreq) -> carries (requestHeader hreq extra) hs -> asks hs hreq.
Proof.
  intros H1 H2 H3 H4 Hc Hhs. unfold asks. cbv zeta.
  assert (forall name v, (name, v) ∈ fields hreq -> join (str ", ") (values hs name) = v) as Hf.
  { intros name v Hin. unfold values.
    assert ((fun h : list Z * list Z => TrimSpace (32 :: h.2)) <$> filter (fun h => canonicalHeader h.1 = name) hs
      = (fun w => TrimSpace (32 :: w)) <$> (filter (fun h => canonicalHeader h.1 = name) hs).*2) as ->
      by (rewrite <- list_fmap_compose; done).
    rewrite Hhs by (change (name ∈ (fields hreq).*1); apply list_elem_of_fmap; by exists (name, v)).
    rewrite (requestHeader_fields hreq extra name v) by done.
    rewrite Forall_forall in Hc. specialize (Hc _ Hin). cbn [snd] in Hc.
    case_bool_decide as Ev; [by subst v |]. cbn. by apply clean_trim. }
  split_and!; apply Hf; unfold fields; set_solver.
Qed.

Lemma NewRequest_fields rnd opts hreq :
  bytes_ok rnd -> len rnd = 16 -> Hs.validOptions opts = None -> clean (join (str ", ") (Hs.Protocols opts)) ->
  Hs.NewRequest rnd opts = Ok hreq ->
  Hs.Method hreq = str "GET" /\ Hs.qUpgrade hreq <> [] /\ Hs.qConnection hreq <> [] /\ Hs.qVersion hreq <> [] /\
  Hs.Key hreq <> [] /\ Forall (fun f => clean f.2) (fields hreq).
Proof.
  intros Hb Hl Ho Hp. unfold Hs.NewRequest. rewrite Ho.
  assert (Hs.NewKey rnd <> [] /\ clean (Hs.NewKey rnd)) as [Hk Hkc].
  { split; [| apply token_clean; by apply b64_char_ok].
    intros E. pose proof (DecodeString_encode rnd Hb) as Hd. unfold Hs.NewKey in E. rewrite E in Hd. by destruct rnd. }
  assert (forall ext, clean ext -> Forall (fun f => clean f.2) (fields
    (Hs.mkRequest (str "GET") (str "websocket") (str "Upgrade") Hs.Version (Hs.NewKey rnd) ext (join (str ", ") (Hs.Protocols opts))))) as Hf.
  { intros ext He. unfold fields. repeat (apply Forall_cons; split; [cbn [fst snd Hs.qUpgrade Hs.qConnection Hs.qVersion Hs.Key
      Hs.qExtensions Hs.qProtocols] |]); [plain | plain | plain | done | done | done | constructor]. }
  destruct (Hs.oCompression opts) as [c |]; intros [= <-]; cbn; split_and!; try done; apply Hf; [| by left].
  destruct (Hs.ContextTakeover c); plain.
Qed.

(** ** The response *)

(** [http.ReadResponse] on the 101 the server writes: the status, the fields
    under their names, and the reader left behind the head. *)
Definition reads_responses (read : breader -> breader * (response + error)) : Prop :=
  forall r resp rest,
    resp = Hs.mkResponse 101 (str "websocket") (str "Upgrade") (Hs.pAccept resp) (Hs.pExtensions resp) (Hs.pProtocol resp) ->
    clean (Hs.pAccept resp) -> clean (Hs.pExtensions resp) -> clean (Hs.pProtocol resp) ->
    feeding r (responseBytes resp ++ rest) ->
    exists r' hr, read r = (r', inl hr) /\ confirm_response hr = resp /\ feeding r' rest.

(** ** The two ends *)

(** Every call of [Dial] before the response succeeds, and the connection's
    reads will give [s]. *)
Definition connects (nw : network) (opts : DialOptions) (u : URL) (s : script) : Prop :=
  exists useTLS s0,
    Parse nw = inl u /\ scheme_tls (Scheme u) = Some useTLS /\
    DialContext nw (address useTLS (uHost u)) = inl s0 /\
    (if useTLS then TLSHandshake nw (if bool_decide (ServerName opts = []) then Hostname (uHost u) else ServerName opts) s0
     else inl s0) = inl s /\
    NewRequestWithContext nw = None /\ Write nw = None.

Lemma Dial_connects nw rnd opts u s hreq r resp res :
  connects nw opts u s -> Hs.NewRequest rnd (oHandshake opts) = Ok hreq ->
  ReadResponse nw (newReader s) = (r, inl resp) ->
  Hs.Confirm hreq (confirm_response resp) (oHandshake opts) = Ok res ->
  outcome (Dial nw rnd opts) = inl (handOver r, res) /\ shut (Dial nw rnd opts) = false /\
  sent (Dial nw rnd opts) = Some (Hs.Method hreq, RequestURI u, requestHeader hreq (oHeader opts)).
Proof.
  intros (useTLS & s0 & E1 & E2 & E3 & E4 & E5 & E6) E7 E8 E9.
  unfold Dial. rewrite E1, E2, E7. cbv zeta. by rewrite E3, E4, E5, E6, E8, E9.
Qed.

(** A socket [Dial] has opened is handed over or closed, and when the context
    ended it is the context's error that is returned. *)
Lemma Dial_leaks_nothing nw rnd opts :
  let d := Dial nw rnd opts in
  match outcome d with
  | inl _ => shut d = false
  | inr e =>
      shut d = true /\ (forall c, ctxErr nw = Some c -> e = CallFailed c)
      \/ shut d = false /\ forall addr s, dialedTo d = Some addr -> DialContext nw addr <> inl s
  end.
Proof.
  unfold Dial. cbv zeta. destruct (Parse nw) as [u | e]; [| by right].
  destruct (scheme_tls (Scheme u)) as [tls |]; [| by right].
  destruct (Hs.NewRequest rnd (oHandshake opts)) as [hreq | e]; [| by right].
  destruct (DialContext nw (address tls (uHost u))) as [s0 | e] eqn:Ed.
  2: { right. split; [done |]. intros addr s [= <-]. by rewrite Ed. }
  destruct (if tls then _ else _) as [s | e]; [| left; by destruct (ctxErr nw); split; intros; simplify_eq].
  destruct (NewRequestWithContext nw); [left; by destruct (ctxErr nw); split; intros; simplify_eq |].
  destruct (Write nw); [left; by destruct (ctxErr nw); split; intros; simplify_eq |].
  destruct (ReadResponse nw _) as [r [resp | e]]; [| left; by destruct (ctxErr nw); split; intros; simplify_eq].
  destruct (Hs.Confirm _ _ _); [done |]. left; by destruct (ctxErr nw); split; intros; simplify_eq.
Qed.

Section dialing.
Context (net_error : Z -> bool) (nw : network) (rnd : list Z) (opts : DialOptions) (s : Server) (u : URL).
Context (Hrnd : bytes_ok rnd) (Hlen : len rnd = 16).
Context (Hoc : Hs.validOptions (oHandshake opts) = None) (Hos : Hs.validOptions (sHandshake s) = None).
Context (Hpc : clean (join (str ", ") (Hs.Protocols (oHandshake opts)))) (Hps : Forall clean (Hs.Protocols (sHandshake s))).
Context (Hread : reads_responses (ReadResponse nw)).

Lemma dial_ok hreq hs chunks rest replies behind fuel line_fuel out :
  Hs.NewRequest rnd (oHandshake opts) = Ok hreq -> connects nw opts u (pieces replies) ->
  carries (requestHeader hreq (oHeader opts)) hs ->
  nonempty chunks -> concat chunks = head_bytes (Hs.Method hreq) (RequestURI u) hs ++ rest ->
  word (RequestURI u) -> Forall header_ok hs -> len (RequestURI u) + 15 <= bufSize ->
  len (head_bytes (Hs.Method hreq) (RequestURI u) hs) <= maxHeaderBytes s ->
  match sAccept s with Some f => f (parsed (Hs.Method hreq) (RequestURI u) hs) | None => 0 end = 0 ->
  (length hs < fuel)%nat -> bufSize + 1 < Z.of_nat line_fuel ->
  serve net_error fuel line_fuel s (pieces chunks) None = Some out ->
  nonempty replies -> concat replies = concat (written out) ++ behind ->
  exists cc rc cs rs req to_client to_server,
    outcome (Dial nw rnd opts) = inl (cc, rc) /\ handed out = Some (cs, rs, req) /\
    Hs.rProtocol rc = Hs.rProtocol rs /\ mirrored (Hs.rCompression rc) (Hs.rCompression rs) /\
    nonempty to_client /\ concat to_client = behind /\ script_of cc = pieces to_client /\
    nonempty to_server /\ concat to_server = rest /\ script_of cs = pieces to_server.
Proof using Hrnd Hlen Hoc Hos Hpc Hps Hread.
  intros Hreq Hconn Hcar Hne Ech Hw Hhs Hlu Hlim Hacc Hfuel Hlf Hserve Hne' Erep.
  destruct (NewRequest_fields rnd _ hreq Hrnd Hlen Hoc Hpc Hreq) as (_ & F1 & F2 & F3 & F4 & F5).
  pose proof (carried_asks hreq _ hs F1 F2 F3 F4 F5 Hcar) as Hasks.
  destruct (serve_ok net_error rnd (oHandshake opts) s (RequestURI u) hs chunks rest fuel line_fuel hreq)
    as (resp & rs & rc & cs & to_server & E1 & E2 & E3 & E4 & E5 & E6 & E7 & E8); try done.
  rewrite Hserve in E1. injection E1 as ->. cbn [written concat] in Erep. rewrite app_nil_r in Erep.
  destruct (Negotiate_clean _ _ _ _ E2 Hps) as (R1 & R2 & R3 & R4).
  destruct (Hread (newReader (pieces replies)) resp behind R1 R2 R3 R4) as (r & hr & Er & Ec & Hf).
  { split; [done |]. by exists replies. }
  rewrite <- Ec in E3. destruct (Dial_connects nw rnd opts u _ hreq r hr rc Hconn Hreq Er E3) as (Ed & _ & _).
  destruct (handOver_script r behind Hf) as (to_client & Hc & Hn & Hc').
  exists (handOver r), rc, cs, rs. eexists _, to_client, to_server. split; [exact Ed |]. by split_and!.
Qed.

(** C15. A client dials a server.  Whatever header the caller adds, with TLS or
    without, the request [Dial] sends, written by [net/http] and cut anywhere
    by the transport, is upgraded by [Server.serve], and [Dial] accepts the
    response and returns a connection: the two ends hold mirrored compression
    parameters and the same subprotocol, the client's connection gives exactly
    what the server sent behind its response, and the server's exactly what
    the client sent behind its request. *)
Theorem dial_serves hreq hs chunks rest replies behind fuel line_fuel out :
  Hs.NewRequest rnd (oHandshake opts) = Ok hreq -> connects nw opts u (pieces replies) ->
  carries (requestHeader hreq (oHeader opts)) hs ->
  nonempty chunks -> concat chunks = head_bytes (Hs.Method hreq) (RequestURI u) hs ++ rest ->
  word (RequestURI u) -> Forall header_ok hs -> len (RequestURI u) + 15 <= bufSize ->
  len (head_bytes (Hs.Method hreq) (RequestURI u) hs) <= maxHeaderBytes s ->
  match sAccept s with Some f => f (parsed (Hs.Method hreq) (RequestURI u) hs) | None => 0 end = 0 ->
  (length hs < fuel)%nat -> bufSize + 1 < Z.of_nat line_fuel ->
  serve net_error fuel line_fuel s (pieces chunks) None = Some out ->
  nonempty replies -> concat replies = concat (written out) ++ behind ->
  exists cc rc cs rs req to_client to_server,
    outcome (Dial nw rnd opts) = inl (cc, rc) /\ handed out = Some (cs, rs, req) /\
    Hs.rProtocol rc = Hs.rProtocol rs /\ mirrored (Hs.rCompression rc) (Hs.rCompression rs) /\
    concat to_client = behind /\ concat to_server = rest /\
    forall ns, Forall (fun n => 0 <= n) ns ->
      conn_reads cc ns = script_reads (pieces to_client) ns /\ conn_reads cs ns = script_reads (pieces to_server) ns.
Proof using Hrnd Hlen Hoc Hos Hpc Hps Hread.
  intros. destruct (dial_ok hreq hs chunks rest replies behind fuel line_fuel out)
    as (cc & rc & cs & rs & req & to_client & to_server & E1 & E2 & E3 & E4 & _ & E5 & E6 & _ & E7 & E8); try done.
  exists cc, rc, cs, rs, req, to_client, to_server. split_and!; try done.
  intros ns Hns. split; [by rewrite conn_reads_script, E6 | by rewrite conn_reads_script, E8].
Qed.
End dialing.

(** ** A reader of responses, for the witness *)

Fixpoint head_lines (fuel : nat) (b : list Z) : option (list (list Z) * list Z) :=
  match fuel with
  | O => None
  | S fuel =>
      let '(line, rest, ok) := Strings.cut 10 b in
      if negb ok then None
      else
        match trim_right [[13]; [10]] (line ++ [10]) with
        | [] => Some ([], rest)
        | line => '(lines, rest) ← head_lines fuel rest; Some (line :: lines, rest)
        end
  end.

Definition add_line (h : http_header) (line : list Z) : http_header :=
  let '(name, value, _) := Strings.cut 58 line in
  let k := CanonicalHeaderKey name in
  <[k := default [] (h !! k) ++ [TrimSpace value]]> h.

Definition status_code (line : list Z) : Z := default 0 (Atoi (Strings.cut 32 (Strings.cut 32 line).1.2).1.1).

Definition read_response (r : breader) : breader * (response + error) :=
  let b := pending r ++ concat (src r).*1 in
  match head_lines (S (length b)) b with
  | Some (status :: lines, rest) =>
      ({| pending := rest; rerr := None; src := [] |}, inl (mkResponse (status_code status) (foldl add_line ∅ lines)))
  | _ => (r, inr (Io ErrUnexpectedEOF))
  end.

Lemma head_lines_ok fuel ls rest :
  Forall (fun l => text l /\ l <> []) ls -> (length ls < fuel)%nat ->
  head_lines fuel (concat ((fun l => l ++ crlf) <$> ls) ++ crlf ++ rest) = Some (ls, rest).
Proof.
  intros H. revert fuel. induction H as [| l ls [Ht Hl] _ IH]; intros fuel Hf; (destruct fuel as [| fuel]; [cbn in Hf; lia |]).
  - reflexivity.
  - cbn [head_lines fmap list_fmap concat].
    replace (((l ++ crlf) ++ concat ((fun l => l ++ crlf) <$> ls)) ++ crlf ++ rest)
      with ((l ++ [13]) ++ 10 :: (concat ((fun l => l ++ crlf) <$> ls) ++ crlf ++ rest)) by (unfold crlf; by rewrite <- !app_assoc).
    rewrite cut_found by (apply not_elem_of_app; split; [apply Ht | by apply (bool_decide_unpack _)]).
    cbn [negb]. rewrite <- app_assoc. change ([13] ++ [10]) with crlf. rewrite trim_crlf by done.
    destruct l as [| b l]; [done |]. rewrite IH by (cbn in Hf; lia). done.
Qed.

Lemma add_line_at h name k v :
  58 ∉ name -> CanonicalHeaderKey name = k -> clean v -> h !! k = None ->
  add_line h (name ++ 58 :: 32 :: v) = <[k := [v]]> h.
Proof.
  intros Hn <- Hv Hh. unfold add_line. rewrite cut_found by done. cbv zeta. rewrite clean_trim by done.
  unfold http_header in *. by rewrite Hh.
Qed.

(** The lines of a response: [add name v] is a line unless [v] is empty. *)
Definition optional (name v : list Z) : list (list Z) := if bool_decide (v = []) then [] else [name ++ 58 :: 32 :: v].

Definition response_lines (resp : Hs.Response) : list (list Z) :=
  [str "Upgrade" ++ 58 :: 32 :: str "websocket"; str "Connection" ++ 58 :: 32 :: str "Upgrade";
   str "Sec-WebSocket-Accept" ++ 58 :: 32 :: Hs.pAccept resp]
  ++ optional (str "Sec-WebSocket-Extensions") (Hs.pExtensions resp)
  ++ optional (str "Sec-WebSocket-Protocol") (Hs.pProtocol resp).

Lemma responseBytes_lines resp :
  responseBytes resp = concat ((fun l => l ++ crlf) <$> (str "HTTP/1.1 101 Switching Protocols" :: response_lines resp)) ++ crlf.
Proof.
  unfold responseBytes, response_lines, optional. cbv zeta.
  set (a := Hs.pAccept resp). set (x := Hs.pExtensions resp). set (p := Hs.pProtocol resp). clearbody a x p.
  case_bool_decide; case_bool_decide; cbn [app fmap list_fmap concat]; rewrite <- !app_assoc; reflexivity.
Qed.

Lemma text_line name v : text name -> clean v -> text (name ++ 58 :: 32 :: v).
Proof.
  intros Hn Hv%clean_text. apply text_app. split; [done |]. destruct Hv. by split; rewrite !not_elem_of_cons.
Qed.

Lemma read_response_ok : reads_responses read_response.
Proof.
  intros r resp rest Hr Ha Hx Hp (He & chunks & Hs & _ & Eb). unfold read_response.
  assert (pending r ++ concat (src r).*1 = responseBytes resp ++ rest) as ->.
  { rewrite Eb, Hs. f_equal. f_equal. unfold pieces. rewrite <- list_fmap_compose. apply list_fmap_id. }
  rewrite responseBytes_lines, <- app_assoc. set (ls := _ :: response_lines resp).
  assert (Forall (fun l => text l /\ l <> []) ls) as Hls.
  { assert (forall name v, text name -> name <> [] -> clean v -> text (name ++ 58 :: 32 :: v) /\ name ++ 58 :: 32 :: v <> []) as Hl
      by (intros name v ?? ?; split; [by apply text_line | by destruct name]).
    unfold ls, response_lines, optional. apply Forall_cons. split; [split; [plain_text | discriminate] |].
    rewrite !Forall_app. split_and!; repeat case_bool_decide; repeat (apply Forall_cons; split); try apply Forall_nil_2;
      apply Hl; try done; try plain_text; plain. }
  rewrite head_lines_ok; [| done |].
  2: { rewrite !length_app. unfold lt. apply le_n_S. etransitivity; [| apply Nat.le_add_r].
    clear -Hls. induction Hls as [| l ls [_ Hl] _ IH]; [done |]. cbn [fmap list_fmap concat length]. rewrite !length_app.
    destruct l; [done |]. cbn. lia. }
  subst ls. eexists _, _. split; [reflexivity |]. split.
  2: { split; [done |]. exists []. split; [done |]. split; [constructor | cbn; by rewrite app_nil_r]. }
  unfold confirm_response, response_lines, optional. cbn [StatusCode rHeader]. rewrite Hr.
  cbn [Hs.pAccept Hs.pExtensions Hs.pProtocol app].
  destruct (bool_decide_reflect (Hs.pExtensions resp = [])) as [Ex | Ex];
    destruct (bool_decide_reflect (Hs.pProtocol resp = [])) as [Ep | Ep]; cbn [app foldl];
    rewrite (add_line_at _ (str "Upgrade") (str "Upgrade")), (add_line_at _ (str "Connection") (str "Connection")),
      (add_line_at _ (str "Sec-WebSocket-Accept") (str "Sec-Websocket-Accept"))
      by first [plain_colon | reflexivity | plain | done];
    try (rewrite (add_line_at _ (str "Sec-WebSocket-Extensions") (str "Sec-Websocket-Extensions"))
      by first [plain_colon | reflexivity | done]);
    try (rewrite (add_line_at _ (str "Sec-WebSocket-Protocol") (str "Sec-Websocket-Protocol"))
      by first [plain_colon | reflexivity | done]).
  all: rewrite ?Ex, ?Ep; reflexivity.
Qed.

Definition a_url : URL := mkURL (str "ws") (str "example.com") (str "/chat").

(** The caller's own header, with a line the handshake overrides. *)
Definition a_dialer : DialOptions :=
  mkDialOptions a_client [(str "origin", [str "https://example.com"]); (str "Sec-WebSocket-Extensions", [str "x-other"])] [].

(** The lines [net/http] writes for it. *)
Definition dial_lines : list (list Z * list Z) :=
  [(str "Host", str "example.com"); (str "User-Agent", str "Go-http-client/1.1"); (str "Connection", str "Upgrade");
   (str "Origin", str "https://example.com"); (str "Sec-Websocket-Extensions", Hs.qExtensions a_request);
   (str "Sec-Websocket-Key", Hs.Key a_request); (str "Sec-Websocket-Protocol", str "chat, superchat");
   (str "Sec-Websocket-Version", str "13"); (str "Upgrade", str "websocket")].

Definition dial_request : list (list Z) :=
  Exchange.cut 40 50 (head_bytes (str "GET") (str "/chat") dial_lines ++ [129; 128; 0; 0; 0; 0]).

(** What the server answers, and a frame behind it. *)
Definition dial_answer : option (list Z) := Eval vm_compute in
  (fun out => concat (written out)) <$> serve (fun _ => false) 20 (Z.to_nat 5000) a_server (pieces dial_request) None.

Lemma dial_answer_eq :
  (fun out => concat (written out)) <$> serve (fun _ => false) 20 (Z.to_nat 5000) a_server (pieces dial_request) None = dial_answer.
Proof. vm_compute. reflexivity. Qed.

Definition dial_replies : list (list Z) := Exchange.cut 40 30 (default [] dial_answer ++ [129; 0]).

Definition a_network : network :=
  mkNetwork (inl a_url) (fun _ => inl (pieces dial_replies)) (fun _ s => inl s) None None read_response None.

Lemma dial_serves_witness :
  exists cc rc out cs rs req,
    outcome (Dial a_network (zeros 16) a_dialer) = inl (cc, rc) /\
    serve (fun _ => false) 20 (Z.to_nat 5000) a_server (pieces dial_request) None = Some out /\
    handed out = Some (cs, rs, req) /\ mirrored (Hs.rCompression rc) (Hs.rCompression rs).
Proof.
  destruct (serve (fun _ => false) 20 (Z.to_nat 5000) a_server (pieces dial_request) None) as [out |] eqn:E;
    [| vm_compute in E; discriminate E].
  destruct (dial_serves (fun _ => false) a_network (zeros 16) a_dialer a_server a_url) with (hreq := a_request) (hs := dial_lines)
    (chunks := dial_request) (rest := [129; 128; 0; 0; 0; 0]) (replies := dial_replies) (behind := [129; 0]) (fuel := 20%nat)
    (line_fuel := Z.to_nat 5000) (out := out) as (cc & rc & cs & rs & req & tc & ts & H1 & H2 & _ & H3 & _).
  - apply (bool_decide_unpack _). vm_compute. exact Logic.I.
  - reflexivity.
  - reflexivity.
  - reflexivity.
  - plain.
  - repeat (apply Forall_cons; split; [plain |]). apply Forall_nil_2.
  - exact read_response_ok.
  - vm_compute. reflexivity.
  - exists false, (pieces dial_replies). by split_and!.
  - intros name Hin. apply list_elem_of_fmap in Hin as ([n v] & -> & Hin). unfold fields in Hin.
    repeat (apply elem_of_cons in Hin as [[= -> ->] | Hin]; [vm_compute; reflexivity |]).
    exfalso. exact (not_elem_of_nil _ Hin).
  - apply (bool_decide_unpack _). vm_compute. exact Logic.I.
  - vm_compute. reflexivity.
  - split; [discriminate |]. split; [plain_colon | plain_text].
  - repeat (apply Forall_cons; split; [split; [discriminate | split; [plain_colon |
      split; [plain_text | vm_compute; discriminate]]] |]). apply Forall_nil_2.
  - vm_compute. discriminate.
  - vm_compute. discriminate.
  - reflexivity.
  - apply (bool_decide_unpack _). vm_compute. exact Logic.I.
  - reflexivity.
  - exact E.
  - apply (bool_decide_unpack _). vm_compute. exact Logic.I.
  - pose proof dial_answer_eq as Ea. rewrite E in Ea.
    assert (concat (written out) = default [] dial_answer) as -> by (rewrite <- Ea; reflexivity).
    vm_compute. reflexivity.
  - exists cc, rc, out, cs, rs, req. split; [exact H1 |]. split; [reflexivity |]. split; [exact H2 | exact H3].
Defined.

(** ** What [Dial] does not take *)

(** A response may split its [Connection] header over two lines; [Dial] looks
    at the first only. *)
Definition split_connection (r : breader) : breader * (response + error) :=
  let '(r, x) := read_response r in
  (r, match x with
      | inl resp => inl (mkResponse (StatusCode resp)
          (<[str "Connection" := [str "keep-alive"; str "Upgrade"]]> (rHeader resp)))
      | inr e => inr e
      end).

Example Dial_first_connection_line :
  exists h, outcome (Dial (mkNetwork (inl a_url) (fun _ => inl (pieces dial_replies)) (fun _ s => inl s) None None
    split_connection None) (zeros 16) a_dialer) = inr (HandshakeError 101 h (Errors.Handshake ErrNotWebSocket)) /\
    Values h "Connection" = [str "keep-alive"; str "Upgrade"].
Proof. eexists. split; vm_compute; reflexivity. Qed.

(** An empty port is dialed as it is, not as the scheme's default. *)
Example address_empty_port : address false (str "example.com:") = str "example.com:".
Proof. vm_compute. reflexivity. Qed.
