(* ===== verification/Events.v ===== *)
(** * The event loop (ws/serve.go, events/events.go)

    [Ev] is package events: a handler's callbacks around [ws.Serve].  The
    handler's state lives in the connection's user data.  A panic is the value
    it carries; where the source recovers it, it becomes the error that ends
    the connection.  Between the two nothing of the source runs; the read
    error the model leaves behind is seen by no one, since all that is called
    then is [OnClose], which may write to the connection but not read.

    Then the specification of both: [callbacks], what a stream of frames calls
    for, and [play], a handler called so until it fails. *)

From stdpp Require Import prelude gmap strings.
From S2P Require Import Prelude Mask Errors Header Encoder Decoder Utf8 Close Receiver Stream Refine Pump Wire Traffic Sender Bufpool Window Compressor Decompressor Stored Handshake Queue ConnCompress ConnWrite Conversation Sending ConnRead Reading Assembling Upgrade Dial NetConn Messages Exchange Serving.

Import Cr.

Module Ev.

(** How a callback comes back; [None] in its place: it does not. *)
Inductive outcome (A : Type) := Returns (a : A) | Panics (v : Z).
Arguments Returns {A} a.
Arguments Panics {A} v.

Section ops.
Context `{M : Masker} `{G : Grow} `{F : Flate} `{I : Inflater} `{T : Transport} `{W : World} `{RW : ReadWorld}.

(** [events.Conn]: the request, and the connection as far as a callback may
    use it. *)
Record Handler := mkHandler {
  OnOpen : Up.Request -> wconn -> wconn * option (outcome unit);
  OnMessage : Up.Request -> wconn -> Z -> list Z -> wconn * option (outcome (option error));
  OnPing : Up.Request -> wconn -> list Z -> wconn * option (outcome (option error));
  OnPong : Up.Request -> wconn -> list Z -> wconn * option (outcome (option error));
  OnClose : Up.Request -> wconn -> error -> wconn * option (outcome unit)
}.

(** What the recovering [serve] makes of a callback's end. *)
Definition recovered (x : wconn * option (outcome (option error))) : wconn * ret :=
  match x with
  | (w, None) => (w, None)
  | (w, Some (Returns err)) => (w, Some err)
  | (w, Some (Panics v)) => (w, Some (Some (PanicError v)))
  end.

(** [Base]: the defaults a handler may embed. *)
Definition base_ping (req : Up.Request) (w : wconn) (payload : list Z) : wconn * option (outcome (option error)) :=
  let '(w, r) := Cw.Pong w payload in (w, Returns <$> r).

Definition Base (on : Up.Request -> wconn -> Z -> list Z -> wconn * option (outcome (option error))) : Handler := {|
  OnOpen _ w := (w, Some (Returns tt));
  OnMessage := on;
  OnPing := base_ping;
  OnPong _ w _ := (w, Some (Returns None));
  OnClose _ w _ := (w, Some (Returns tt))
|}.

Definition controls (h : Handler) (req : Up.Request) : ConnRead.Handler := {|
  ConnRead.OnPing w payload := recovered (OnPing h req w payload);
  ConnRead.OnPong w payload := recovered (OnPong h req w payload);
  ConnRead.OnClose := ConnRead.OnClose DefaultControlHandler
|}.

Definition messages (h : Handler) (req : Up.Request) : Nc.MessageHandler :=
  fun w op payload => recovered (OnMessage h req w op payload).

Definition serve (conn_fuel fuel : nat) (h : Handler) (req : Up.Request) (c : conn) : option (conn * error) :=
  match OnOpen h req (wr c) with
  | (_, None) => None
  | (w, Some (Panics v)) => Some ({| c with wr := w |}, PanicError v)
  | (w, Some (Returns _)) => Nc.Serve conn_fuel fuel (messages h req) {| c with wr := w |}
  end.

(** How [run] ends: the error it returns, with the connection if one was made;
    or a panic of [OnClose]. *)
Inductive ended_run := Refused (err : error) | Ran (w : wconn) (err : error) | Crashed (w : wconn) (v : Z).

Definition run (conn_fuel fuel : nat) (h : Handler) (role : Role) (cfg : Config) (vectored : bool) (s : script)
    (res : Hs.Result) (req : Up.Request) : option ended_run :=
  let cfg := {| cfg with cRole := role; cCompression := Hs.rCompression res |} in
  match NewConn cfg (Some (controls h req)) vectored s with
  | Err err => Some (Refused err)
  | Ok c =>
      '(c, err) ← serve conn_fuel fuel h req c;
      match OnClose h req (wr c) err with
      | (_, None) => None
      | (w, Some (Panics v)) => Some (Crashed w v)
      | (w, Some (Returns _)) => Some (Ran w err)
      end
  end.

(** ** The three ways in *)

(** [Serve]: the handler of a [transport.Server]. *)
Definition Serve (conn_fuel fuel : nat) (h : Handler) (cfg : Config) (vectored : bool) (s : script) (res : Hs.Result)
    (req : Up.Request) : option ended_run :=
  run conn_fuel fuel h Server cfg vectored s res req.

(** [HTTP]: the reply, and the run of an upgraded connection. *)
Definition HTTP (conn_fuel fuel : nat) (h : Handler) (opts : Hs.Options) (cfg : Config)
    (vectored : bool) (req : Up.Request) (header : Up.http_header) (extra : list (list Z * list (list Z)))
    (hijack : option (error * list Z + Up.breader)) (sends : option error) : Up.reply * option ended_run :=
  let '(reply, r) := Up.Upgrade (Up.Method req) header extra hijack sends opts in
  (reply, match r with
          | inr _ => None
          | inl (c, res) =>
              run conn_fuel fuel h Server cfg vectored (script_of c) res
                {| Up.Method := Up.Method req; Up.Path := Up.Path req; Up.Host := Up.Host req; Up.Header := ∅ |}
          end).

(** [Dial]: [path] is the path of [rawURL]. *)
Definition Dial (conn_fuel fuel : nat) (nw : Dl.network) (rnd : list Z)
    (opts : Dl.DialOptions) (path : list Z) (h : Handler) (cfg : Config) (vectored : bool) : Dl.dial_error + option ended_run :=
  match Dl.outcome (Dl.Dial nw rnd opts) with
  | inr err => inl err
  | inl (c, res) =>
      let host := match Dl.Parse nw with inl u => Dl.uHost u | inr _ => [] end in
      inr (run conn_fuel fuel h Client cfg vectored (script_of c) res
        {| Up.Method := Strings.str "GET"; Up.Path := path; Up.Host := host; Up.Header := ∅ |})
  end.

End ops.
End Ev.

(** ** What a stream of events calls for *)

Inductive callback := CbPing (p : list Z) | CbPong (p : list Z) | CbMessage (op : Z) (p : list Z).

(** Why the calls stop: a failure, with its close frame; the peer's close; the
    end of the stream. *)
Inductive finale := Fails (e : error) | Closes (p : list Z) | StreamEnds.

Section callbacks.
Context (lim : Z) (validate : bool).

Definition fail_with (code : Z) (e : ws_error) : list callback * finale := ([], Fails (WsError code (Ws e))).

Definition after_call (cb : callback) (x : list callback * finale) : list callback * finale := (cb :: x.1, x.2).

(** A frame's payload is complete: [m] is what the message has so far. *)
Definition frame_done (op : Z) (m : list Z) (fin : bool) (rest : option (Z * list Z) -> list callback * finale)
    : list callback * finale :=
  if fin then
    if (op =? Opcode.Text) && validate && negb (Utf8.Valid m) then fail_with 1007 ErrInvalidUTF8
    else after_call (CbMessage op m) (rest None)
  else rest (Some (op, m)).

(** [msg] is the open message's opcode and what it has so far; [fin] and [n]
    say whether the open frame is its last, and what it still misses. *)
Fixpoint callbacks (msg : option (Z * list Z)) (fin : bool) (n : nat) (evs : list event) : list callback * finale :=
  match evs with
  | [] => ([], StreamEnds)
  | EvFail e :: _ => ([], Fails e)
  | EvControl op p :: evs =>
      if op =? Opcode.Ping then after_call (CbPing p) (callbacks msg fin n evs)
      else if op =? Opcode.Pong then after_call (CbPong p) (callbacks msg fin n evs)
      else if op =? Opcode.Close then ([], Closes p)
      else callbacks msg fin n evs
  | EvFrame fin op _ len' :: evs =>
      let '(op, m) := default (op, []) msg in
      if lim - len m <? len' then fail_with 1009 ErrMessageTooLarge
      else if len' =? 0 then frame_done op m fin (fun msg => callbacks msg false 0 evs)
      else callbacks (Some (op, m)) fin (Z.to_nat len') evs
  | EvData b :: evs =>
      match msg, n with
      | Some (op, m), S n =>
          let m := m ++ [b] in
          match n with
          | O => frame_done op m fin (fun msg => callbacks msg false 0 evs)
          | S _ => callbacks (Some (op, m)) fin n evs
          end
      | _, _ => ([], StreamEnds)
      end
  end.
End callbacks.

(** ** A handler called so *)

Section play.
Context {M : Masker} {G : Grow} {F : Flate} {T : Transport} {W : World}.

(** [Ended]: with that error; [Cut]: by the end of the stream; [Stuck]: a
    callback does not return. *)
Inductive served := Ended (w : wconn) (e : error) | Cut (w : wconn) | Stuck.

Definition call (h : ConnRead.Handler) (on : Nc.MessageHandler) (w : wconn) (cb : callback) : wconn * ret :=
  match cb with
  | CbPing p => OnPing h w p
  | CbPong p => OnPong h w p
  | CbMessage op p => on w op p
  end.

Definition finish_play (h : ConnRead.Handler) (w : wconn) (f : finale) : served :=
  match f with
  | Fails e => Ended (closing w e) e
  | Closes p =>
      match reply h w Opcode.Close p with
      | (w, Some (Some e)) => Ended w e
      | (w, Some None) => Cut w
      | (_, None) => Stuck
      end
  | StreamEnds => Cut w
  end.

Fixpoint play (h : ConnRead.Handler) (on : Nc.MessageHandler) (w : wconn) (cbs : list callback) (f : finale) : served :=
  match cbs with
  | [] => finish_play h w f
  | cb :: cbs =>
      match call h on w cb with
      | (w, Some None) => play h on w cbs f
      | (w, Some (Some e)) => Ended w e
      | (_, None) => Stuck
      end
  end.
End play.

(** ** The loop does what the stream calls for *)

(** Payload bytes come right behind their frame's header, all of them, unless
    the stream ends first. *)
Fixpoint well_framed (n : nat) (evs : list event) : Prop :=
  match evs with
  | [] => True
  | EvData _ :: evs => match n with S n => well_framed n evs | O => False end
  | EvFrame _ _ _ len' :: evs => n = 0%nat /\ 0 <= len' /\ well_framed (Z.to_nat len') evs
  | EvControl _ _ :: evs => n = 0%nat /\ well_framed 0 evs
  | EvFail _ :: evs => n = 0%nat
  end.

Definition missing (m : mode) : nat := match m with MData _ rem _ _ => Z.to_nat rem | _ => 0 end.

Definition mode_ok (m : mode) : Prop :=
  match m with MData _ rem _ _ => 0 < rem | MHead acc => bytes_ok acc | _ => True end.

Lemma run_over ro cmp s b : s_mode s = MClosed \/ (exists e, s_mode s = MFailed e) -> (Stream.run ro cmp s b).2 = [].
Proof.
  intros Hs. revert s Hs. induction b as [| x b IH]; intros s Hs; [done |]. cbn [Stream.run].
  assert (spec_byte ro cmp s x = (s, [])) as -> by (unfold spec_byte; destruct Hs as [-> | [e ->]]; done).
  specialize (IH s Hs). destruct (Stream.run ro cmp s b). by cbn in *.
Qed.

(** What one byte's events leave for the next. *)
Definition leaves (n : nat) (p : spec * list event) : Prop :=
  match p.2 with
  | [] => missing (s_mode p.1) = n
  | [EvData _] => n = S (missing (s_mode p.1))
  | [EvFrame _ _ _ len'] => n = 0%nat /\ 0 <= len' /\ missing (s_mode p.1) = Z.to_nat len'
  | [EvControl _ _] => n = 0%nat /\ missing (s_mode p.1) = 0%nat
  | [EvFail e] => n = 0%nat /\ s_mode p.1 = MFailed e
  | _ => False
  end.

Lemma end_control_leaves s op p : let q := end_control s op p in mode_ok (s_mode q.1) /\ leaves 0 q.
Proof.
  unfold end_control, spec_fail. destruct (op =? Opcode.Close); [destruct (validateClose p); by split |].
  split; [apply Forall_nil_2 | by split].
Qed.

Lemma spec_byte_leaves ro cmp s x :
  mode_ok (s_mode s) -> is_byte x ->
  let q := spec_byte ro cmp s x in mode_ok (s_mode q.1) /\ leaves (missing (s_mode s)) q.
Proof.
  intros Hm Hx. unfold spec_byte.
  destruct (s_mode s) as [acc | fin rem key off | op rem buf key off | | e] eqn:Es; cbn [missing mode_ok] in *.
  - assert (bytes_ok (acc ++ [x])) as Ha by (apply bytes_ok_app; split; [done | by apply Forall_singleton]).
    destruct (header_complete (acc ++ [x])); [| by split]. unfold on_header, spec_fail.
    destruct (bad_length (acc ++ [x])); [by split |]. cbv zeta. destruct (negb _); [by split |].
    destruct (Opcode.Close <=? _).
    + destruct (wire_plen _ =? 0); [apply end_control_leaves | by split].
    + pose proof (wire_plen_range _ Ha). destruct (Z.eqb_spec (wire_plen (acc ++ [x])) 0) as [E | E]; cbn.
      * split; [apply Forall_nil_2 |]. rewrite E. by split_and!.
      * split; [lia |]. split_and!; done || lia.
  - destruct (Z.eqb_spec rem 1) as [-> | E]; cbn; [split; [apply Forall_nil_2 | done] |]. split; [lia |].
    unfold leaves. cbn. lia.
  - destruct (rem =? 1); [apply end_control_leaves | by split].
  - unfold leaves. cbn. rewrite Es. by split.
  - unfold leaves. cbn. rewrite Es. by split.
Qed.

Lemma run_well_framed ro cmp b s :
  bytes_ok b -> mode_ok (s_mode s) -> well_framed (missing (s_mode s)) (Stream.run ro cmp s b).2.
Proof.
  intros Hb. revert s. induction Hb as [| x b Hx Hb IH]; intros s Hs; [done |]. cbn [Stream.run].
  destruct (spec_byte_leaves ro cmp s x Hs Hx) as [Hm Hl].
  pose proof (run_over ro cmp (spec_byte ro cmp s x).1 b) as Ho.
  destruct (spec_byte ro cmp s x) as [s1 e1]. cbn [fst] in *. specialize (IH s1 Hm).
  destruct (Stream.run ro cmp s1 b) as [s2 e2]. cbn [snd] in *. unfold leaves in Hl. cbn [fst snd] in Hl.
  destruct e1 as [| ev [|]]; [by rewrite <- Hl | | by destruct ev].
  destruct ev as [fin op rsv len' | y | op p | e]; cbn [app well_framed].
  - destruct Hl as (-> & Hl & E). by rewrite <- E.
  - by rewrite Hl.
  - destruct Hl as [-> E]. by rewrite <- E.
  - by destruct Hl as [-> _].
Qed.

Section loop.
Context {M : Masker} `{!MaskerOk M} {G : Grow} {F : Flate} {I : Inflater} {T : Transport} {W : World} {RW : ReadWorld}.
Context (h : ConnRead.Handler) (on : Nc.MessageHandler) (lim : Z) (validate : bool).
Implicit Types (c : conn).

(** [Nc.Serve], of the events to come. *)
Fixpoint serve_events (fuel : nat) (w : wconn) (evs : list event) : served :=
  match fuel with
  | O => Stuck
  | S fuel =>
      match read_spec h lim validate w evs with
      | Took w (op, p) evs =>
          match on w op p with
          | (w, Some None) => serve_events fuel w evs
          | (w, Some (Some e)) => Ended w e
          | (_, None) => Stuck
          end
      | Stopped w e => Ended w e
      | Starved w => Cut w
      | Hangs => Stuck
      end
  end.

(** The rest of a turn of the loop, once the message is read. *)
Definition with_message (fuel : nat) (op : Z) (x : took (list Z)) : served :=
  match x with
  | Took w p evs =>
      if (op =? Opcode.Text) && validate && negb (Utf8.Valid p)
      then let e := WsError 1007 (Ws ErrInvalidUTF8) in Ended (closing w e) e
      else
        match on w op p with
        | (w, Some None) => serve_events fuel w evs
        | (w, Some (Some e)) => Ended w e
        | (_, None) => Stuck
        end
  | Stopped w e => Ended w e
  | Starved w => Cut w
  | Hangs => Stuck
  end.

(** From between two frames of a message. *)
Definition next_gather (fuel : nat) (w : wconn) (m : list Z) (evs : list event) : took (list Z) :=
  match to_frame h w evs with
  | Took w (fin, _, _, n) evs => gather fuel h lim w m fin n evs
  | Stopped w e => Stopped w e
  | Starved w => Starved w
  | Hangs => Hangs
  end.

Definition played (w : wconn) (x : list callback * finale) : served := play h on w x.1 x.2.

Lemma played_call w cb x :
  played w (after_call cb x) =
  match call h on w cb with
  | (w, Some None) => played w x
  | (w, Some (Some e)) => Ended w e
  | (_, None) => Stuck
  end.
Proof. done. Qed.

(** The payload of an open frame. *)
Lemma callbacks_data op m fin n evs :
  well_framed (S n) evs ->
  callbacks lim validate (Some (op, m)) fin (S n) evs =
  match take_data (S n) evs with
  | None => ([], StreamEnds)
  | Some (data, evs) => frame_done validate op (m ++ data) fin (fun msg => callbacks lim validate msg false 0 evs)
  end.
Proof.
  revert m evs. induction n as [| n IH]; intros m evs Hw; destruct evs as [| [| b | |] evs]; try done;
    try (by destruct Hw); cbn [callbacks].
  change (take_data (S (S n)) (EvData b :: evs)) with ('(bs, evs) ← take_data (S n) evs; Some (b :: bs, evs)).
  rewrite IH by done.
  destruct (take_data (S n) evs) as [[data evs'] |]; [| done]. cbn [mbind option_bind]. by rewrite <- app_assoc.
Qed.

Lemma take_data_framed n evs data evs' :
  well_framed n evs -> take_data n evs = Some (data, evs') -> well_framed 0 evs' /\ (length evs' <= length evs)%nat.
Proof.
  revert evs data. induction n as [| n IH]; intros evs data Hw; cbn [take_data]; [by intros [= <- <-] |].
  destruct evs as [| [| b | |] evs]; try done. cbn [well_framed] in Hw.
  destruct (take_data n evs) as [[data' evs2] |] eqn:E; [| done]. intros [= <- <-].
  destruct (IH evs data' Hw E). split; [done | cbn; lia].
Qed.

Lemma played_frame_done w op m fin rest :
  played w (frame_done validate op m fin rest) =
  if fin then
    if (op =? Opcode.Text) && validate && negb (Utf8.Valid m)
    then let e := WsError 1007 (Ws ErrInvalidUTF8) in Ended (closing w e) e
    else
      match on w op m with
      | (w, Some None) => played w (rest None)
      | (w, Some (Some e)) => Ended w e
      | (_, None) => Stuck
      end
  else played w (rest (Some (op, m))).
Proof. unfold frame_done. destruct fin; [| done]. by destruct (_ && negb _). Qed.

Lemma read_spec_control w op p evs :
  read_spec h lim validate w (EvControl op p :: evs) =
  match reply h w op p with
  | (w, Some None) => read_spec h lim validate w evs
  | (w, Some (Some e)) => Stopped w e
  | (_, None) => Hangs
  end.
Proof. unfold read_spec, raw_read. cbn [to_frame]. by destruct (reply h w op p) as [w' [[e |] |]]. Qed.

(** A control frame between two others, when the rest is played. *)
Lemma played_control w msg op p evs (go : wconn -> served) :
  (forall w, go w = played w (callbacks lim validate msg false 0 evs)) ->
  match reply h w op p with
  | (w, Some None) => go w
  | (w, Some (Some e)) => Ended w e
  | (_, None) => Stuck
  end = played w (callbacks lim validate msg false 0 (EvControl op p :: evs)).
Proof.
  intros Hgo. cbn [callbacks].
  destruct (Z.eqb_spec op Opcode.Ping) as [-> | H1]; [rewrite played_call; cbn; destruct (OnPing h w p) as [? [[|]|]]; done || apply Hgo |].
  destruct (Z.eqb_spec op Opcode.Pong) as [-> | H2]; [rewrite played_call; cbn; destruct (OnPong h w p) as [? [[|]|]]; done || apply Hgo |].
  destruct (Z.eqb_spec op Opcode.Close) as [-> | H3].
  - unfold played. cbn [fst snd play finish_play]. unfold reply. cbn.
    destruct (parseClose p) as [code reason]. by destruct (OnClose h w code reason) as [? [[|]|]].
  - unfold reply. apply Z.eqb_neq in H1, H2, H3. by rewrite H1, H2, H3.
Qed.

Definition plays (evs : list event) : Prop :=
  (forall k w, (length evs < k)%nat -> serve_events k w evs = played w (callbacks lim validate None false 0 evs)) /\
  (forall fuel k w op m, (length evs <= fuel)%nat -> (length evs < k)%nat ->
    with_message k op (next_gather fuel w m evs) = played w (callbacks lim validate (Some (op, m)) false 0 evs)).

Definition frame_calls (op : Z) (m : list Z) (fin : bool) (n : Z) (evs : list event) : list callback * finale :=
  if lim - len m <? n then fail_with 1009 ErrMessageTooLarge
  else if n =? 0 then frame_done validate op m fin (fun msg => callbacks lim validate msg false 0 evs)
  else callbacks lim validate (Some (op, m)) fin (Z.to_nat n) evs.

Lemma frame_plays evs n :
  0 <= n -> well_framed (Z.to_nat n) evs ->
  (forall evs', (length evs' <= length evs)%nat -> well_framed 0 evs' -> plays evs') ->
  forall fuel k w op m fin, (length evs < fuel)%nat -> (length evs < k)%nat ->
  with_message k op (gather fuel h lim w m fin n evs) = played w (frame_calls op m fin n evs).
Proof.
  intros Hn Hw Hplays [| fuel] k w op m fin Hf Hk; [lia |]. unfold frame_calls. cbn [gather].
  destruct (lim - len m <? n); [done |].
  assert (forall data evs', take_data (Z.to_nat n) evs = Some (data, evs') ->
    with_message k op (if fin then Took w (m ++ data) evs' else next_gather fuel w (m ++ data) evs') =
    played w (frame_done validate op (m ++ data) fin (fun msg => callbacks lim validate msg false 0 evs'))) as Hdone.
  { intros data evs' E. destruct (take_data_framed _ _ _ _ Hw E) as [Hw' Hl]. destruct (Hplays evs' Hl Hw') as [P1 P2].
    rewrite played_frame_done. destruct fin; [| by rewrite P2 by lia]. cbn [with_message].
    destruct (_ && negb _); [done |]. destruct (on w op (m ++ data)) as [w' [[e |] |]]; try done. by rewrite P1 by lia. }
  destruct (Z.eqb_spec n 0) as [-> | Hn0].
  - specialize (Hdone [] evs eq_refl). rewrite !app_nil_r in Hdone. rewrite <- Hdone.
    change (take_data (Z.to_nat 0) evs) with (Some (@nil Z, evs)). cbv beta iota. by rewrite app_nil_r.
  - destruct (Z.to_nat n) as [| n'] eqn:En; [lia |]. rewrite callbacks_data by done.
    destruct (take_data (S n') evs) as [[data evs'] |] eqn:E; [| done]. exact (Hdone data evs' eq_refl).
Qed.

Lemma loop_plays evs : well_framed 0 evs -> plays evs.
Proof.
  remember (length evs) as N eqn:EN. revert evs EN. induction N as [N IH] using lt_wf_ind. intros evs -> Hw.
  destruct evs as [| ev evs]; [split; [intros [| k] w Hk; [lia | done] | done] |].
  assert (forall evs', (length evs' <= length evs)%nat -> well_framed 0 evs' -> plays evs') as Hplays
    by (intros; eapply IH; [| done | done]; cbn; lia). clear IH.
  destruct ev as [fin op rsv n | b | op p | e]; cbn [well_framed] in Hw.
  - destruct Hw as (_ & Hn & Hw). pose proof (frame_plays evs n Hn Hw Hplays) as Hfr. split.
    + intros [| k] w Hk; [lia |]. cbn in Hk. cbn [serve_events callbacks]. unfold read_spec, raw_read. cbn [to_frame default].
      change (if lim - len [] <? n then _ else _) with (frame_calls op [] fin n evs).
      rewrite <- (Hfr (S (length evs)) k) by lia.
      destruct (gather _ _ _ _ _ _ _ _) as [w' p evs' | | |]; try done. cbn [with_message]. by destruct (_ && negb _).
    + intros fuel k w op' m Hf Hk. cbn in Hf, Hk. unfold next_gather. cbn [to_frame callbacks default].
      apply Hfr; lia.
  - done.
  - destruct Hw as [_ Hw]. destruct (Hplays evs ltac:(lia) Hw) as [P1 P2]. split.
    + intros [| k] w Hk; [lia |]. cbn in Hk. rewrite <- (played_control w None op p evs (fun w => serve_events (S k) w evs)).
      * cbn [serve_events]. rewrite read_spec_control. by destruct (reply h w op p) as [w' [[e |] |]].
      * intros w'. apply P1. lia.
    + intros fuel k w op' m Hf Hk. cbn in Hf, Hk.
      rewrite <- (played_control w (Some (op', m)) op p evs (fun w => with_message k op' (next_gather fuel w m evs))).
      * unfold next_gather. cbn [to_frame]. by destruct (reply h w op p) as [w' [[e |] |]].
      * intros w'. apply P2; lia.
  - split; [intros [| k] w Hk; [lia | done] | done].
Qed.
End loop.

Section serve.
Context {M : Masker} `{!MaskerOk M} {G : Grow} {F : Flate} {I : Inflater} {T : Transport} {W : World} {RW : ReadWorld}.
Implicit Types (c : conn).

(** [Nc.Serve] does, of the events its connection expects, what [serve_events]
    does. *)
Lemma Serve_events on fuel k c sp evs e s' n :
  between c -> expects c sp evs e s' n -> Rx.compression (rx c) = false -> (length evs + n < fuel)%nat ->
  match serve_events (hd c) on (limit c) (validateUTF8 c) k (wr c) evs with
  | Ended w x => exists c', Nc.Serve fuel k on c = Some (c', x) /\ wr c' = w
  | Cut w => exists c', Nc.Serve fuel k on c = Some (c', ended (rx c') e) /\ wr c' = w
  | Stuck => Nc.Serve fuel k on c = None
  end.
Proof.
  revert c evs. induction k as [| k IH]; intros c evs Hb He Hnc Hf; [done |]. cbn [serve_events Nc.Serve].
  pose proof (ReadMessage_spec fuel c sp evs e s' n Hb He Hnc Hf) as H.
  destruct (read_spec _ _ _ _ _) as [w [op p] evs' | w x | w |].
  - destruct H as (c1 & -> & Hw & Hb1 & He1 & Hnc1 & (S1 & S2 & S3 & _) & Hl). cbn [mbind option_bind]. rewrite Hw.
    destruct (on w op p) as [w' [[x |] |]]; [by eexists | | done]. rewrite <- S1, <- S2, <- S3.
    by apply (IH {| c1 with wr := w' |}); [.. | lia].
  - destruct H as (c' & -> & Hw & _). by exists c'.
  - destruct H as (c' & -> & Hw & _). by exists c'.
  - by rewrite H.
Qed.

(** ** The specification of package events *)

(** The callback of the handler that a call is. *)
Definition notify (h : Ev.Handler) (req : Up.Request) (w : wconn) (cb : callback)
    : wconn * option (Ev.outcome (option error)) :=
  match cb with
  | CbPing p => Ev.OnPing h req w p
  | CbPong p => Ev.OnPong h req w p
  | CbMessage op p => Ev.OnMessage h req w op p
  end.

(** The handler told of the calls, until one fails or panics; a peer's close is
    echoed. *)
Fixpoint tell (h : Ev.Handler) (req : Up.Request) (w : wconn) (cbs : list callback) (f : finale) : served :=
  match cbs with
  | [] => finish_play DefaultControlHandler w f
  | cb :: cbs =>
      match notify h req w cb with
      | (w, Some (Ev.Returns None)) => tell h req w cbs f
      | (w, Some (Ev.Returns (Some e))) => Ended w e
      | (w, Some (Ev.Panics v)) => Ended w (PanicError v)
      | (_, None) => Stuck
      end
  end.

Lemma tell_play h req w cbs f : tell h req w cbs f = play (Ev.controls h req) (Ev.messages h req) w cbs f.
Proof.
  revert w. induction cbs as [| cb cbs IH]; intros w; [by destruct f |]. cbn [tell play].
  destruct cb as [p | p | op p]; cbn [notify call Ev.controls Ev.messages ConnRead.OnPing ConnRead.OnPong]; unfold Ev.messages, Ev.recovered.
  - destruct (Ev.OnPing h req w p) as [w' [[[e |] | v] |]]; done || apply IH.
  - destruct (Ev.OnPong h req w p) as [w' [[[e |] | v] |]]; done || apply IH.
  - destruct (Ev.OnMessage h req w op p) as [w' [[[e |] | v] |]]; done || apply IH.
Qed.

(** What is left of [run] once the loop is over. *)
Definition closed_run (h : Ev.Handler) (req : Up.Request) (w : wconn) (err : error) : option Ev.ended_run :=
  match Ev.OnClose h req w err with
  | (_, None) => None
  | (w, Some (Ev.Panics v)) => Some (Ev.Crashed w v)
  | (w, Some (Ev.Returns _)) => Some (Ev.Ran w err)
  end.

(** C14. Package events, on an uncompressed connection of either role.  The
    handler is told of exactly what the peer's bytes call for, whatever way
    the transport cut them: after [OnOpen], each ping, pong and whole message
    in the order they end on the wire, a message over the limit or of invalid
    text, a protocol failure or the peer's close ending them; and [OnClose]
    last, once, with the reason: the first error a callback returned, the
    value it panicked with, the failure whose close frame was sent, the peer's
    [CloseError], or the end of the stream.  It returns, with that error, if
    the callbacks do. *)
Theorem run_tells (h : Ev.Handler) role cfg vectored chunks proto req fuel k :
  let cfg' := {| cfg with cRole := role; cCompression := None |} in
  validConfig cfg' = true -> MaxMessageSize cfg < 2 ^ 63 -> nonempty chunks -> bytes_ok (concat chunks) ->
  (2 * length (concat chunks) < fuel)%nat -> (length (concat chunks) < k)%nat ->
  let evs := (Stream.run role false spec_init (concat chunks)).2 in
  let '(cbs, fin) := callbacks (message_limit cfg) (ValidateUTF8 cfg) None false 0 evs in
  let ran := Ev.run fuel k h role cfg vectored (pieces chunks) (Hs.mkResult None proto) req in
  match Ev.OnOpen h req (newWrite cfg' vectored) with
  | (_, None) => ran = None
  | (w, Some (Ev.Panics v)) => ran = closed_run h req w (PanicError v)
  | (w, Some (Ev.Returns _)) =>
      match tell h req w cbs fin with
      | Ended w err => ran = closed_run h req w err
      | Cut w => exists err, (err = Io EOF \/ err = Io ErrUnexpectedEOF) /\ ran = closed_run h req w err
      | Stuck => ran = None
      end
  end.
Proof.
  intros cfg' Hv Hmax Hne Hb Hf Hk evs. unfold Ev.run. cbn [Hs.rCompression]. fold cfg'.
  destruct (NewConn cfg' (Some (Ev.controls h req)) vectored (pieces chunks)) as [c | e] eqn:En;
    [| unfold NewConn in En; by rewrite Hv in En].
  destruct (NewConn_fresh _ _ _ _ _ En Hmax) as (B & _ & N1 & N2 & N3 & N4 & N5 & N6 & N7 & _).
  cbn in N2, N4. change (message_limit cfg') with (message_limit cfg) in N6.
  change (ValidateUTF8 cfg') with (ValidateUTF8 cfg) in N7.
  pose proof (run_events_length role false spec_init (concat chunks)) as Hlen. fold evs in Hlen.
  assert (well_framed 0 evs) as Hw by (apply (run_well_framed role false (concat chunks) spec_init Hb); apply Forall_nil_2).
  assert (expects c (Stream.run role false spec_init (concat chunks)).1 evs (Io EOF) [] (length (concat chunks))) as He.
  { apply (expects_intro _ (concat chunks)); try done.
    - rewrite N2. destruct (Init_ok Rx.zero role false) as (Hok & _). by split.
    - rewrite N3. by apply pieces_ok, bytes_ok_concat.
    - rewrite N3. by apply segment_pieces.
    - rewrite N2. exact (surjective_pairing (Stream.run role false spec_init (concat chunks))). }
  assert (Rx.compression (rx c) = false) as Hnc by (by rewrite N2).
  destruct (callbacks _ _ _ _ _ evs) as [cbs fin] eqn:Ecb. cbv zeta. unfold Ev.serve. rewrite N5.
  destruct (Ev.OnOpen h req (newWrite cfg' vectored)) as [w [[[] | v] |]]; [| done | done].
  set (c0 := {| c with wr := w |}).
  pose proof (Serve_events (Ev.messages h req) fuel k c0 _ evs _ _ _ B He Hnc ltac:(lia)) as Hs.
  assert (hd c0 = Ev.controls h req /\ limit c0 = message_limit cfg /\ validateUTF8 c0 = ValidateUTF8 cfg /\ wr c0 = w)
    as (L1 & L2 & L3 & L4) by done.
  rewrite L1, L2, L3, L4 in Hs.
  destruct (loop_plays (Ev.controls h req) (Ev.messages h req) (message_limit cfg) (ValidateUTF8 cfg) evs Hw) as [Hp _].
  rewrite (Hp k w ltac:(lia)) in Hs. unfold played in Hs. rewrite Ecb in Hs. cbn [fst snd] in Hs.
  rewrite tell_play. destruct (play _ _ w cbs fin) as [w' x | w' |].
  - destruct Hs as (c' & -> & <-). done.
  - destruct Hs as (c' & -> & <-). exists (ended (rx c') (Io EOF)). split; [| done].
    unfold ended. destruct (_ && _); auto.
  - by rewrite Hs.
Qed.
End serve.

(** ** A handler, for the witness *)

#[local] Existing Instance swar_masker.
#[local] Existing Instance double_growth.
#[local] Existing Instance raw_flate.
#[local] Existing Instance perfect.
#[local] Existing Instance demo_world.
#[local] Existing Instance fresh_pools.

(** It logs in its user data, and panics at the message "!". *)
Definition log (w : wconn) (entry : list Z) : wconn := {| w with userData := userData w ++ entry |}.

Definition logger : Ev.Handler := {|
  Ev.OnOpen _ w := (log w [0], Some (Ev.Returns tt));
  Ev.OnMessage _ w op p :=
    if bool_decide (p = [33]) then (log w [9], Some (Ev.Panics 7)) else (log w (op :: p), Some (Ev.Returns None));
  Ev.OnPing := Ev.base_ping;
  Ev.OnPong _ w _ := (w, Some (Ev.Returns None));
  Ev.OnClose _ w _ := (log w [8], Some (Ev.Returns tt))
|}.

(** The bytes of [sample] (a text message and a ping), then "!" and more. *)
Definition event_bytes : list Z := sample ++ [129; 129; 0; 0; 0; 0; 33] ++ sample.

Definition event_config : Config := mkConfig Server 0 100 0 true None false [].

Definition no_request : Up.Request := Up.mkRequest [] [] [] ∅.

Lemma run_tells_witness :
  exists w, Ev.run 100 60 logger Server event_config true (pieces (Exchange.cut 60 5 event_bytes)) (Hs.mkResult None []) no_request
    = Some (Ev.Ran w (PanicError 7)) /\ userData w = [0; 1; 72; 105; 9; 8].
Proof.
  pose proof (run_tells logger Server event_config true (Exchange.cut 60 5 event_bytes) [] no_request 100 60) as H.
  cbv zeta in H. specialize (H ltac:(vm_compute; reflexivity) ltac:(vm_compute; reflexivity)
    ltac:(apply (bool_decide_unpack _); vm_compute; exact Logic.I) ltac:(apply (bool_decide_unpack _); vm_compute; exact Logic.I)
    ltac:(apply (bool_decide_unpack _); vm_compute; exact Logic.I) ltac:(apply (bool_decide_unpack _); vm_compute; exact Logic.I)).
  assert (callbacks (message_limit event_config) (ValidateUTF8 event_config) None false 0
    (Stream.run Server false spec_init (concat (Exchange.cut 60 5 event_bytes))).2
    = ([CbMessage 1 [72; 105]; CbPing [7]; CbMessage 1 [33]; CbMessage 1 [72; 105]; CbPing [7]], StreamEnds)) as E
    by (vm_compute; reflexivity).
  rewrite E in H. cbn [Ev.OnOpen logger] in H.
  match type of H with match ?p with _ => _ end =>
    assert (exists w, p = Ended w (PanicError 7) /\ userData (log w [8]) = [0; 1; 72; 105; 9; 8]) as (w & Ep & Eu)
      by (eexists; split; [reflexivity | vm_compute; reflexivity]) end.
  rewrite Ep in H. exists (log w [8]). split; [exact H | exact Eu].
Defined.
