(* ===== verification/Listen.v ===== *)
(** * The accept loops of a server (transport/serve.go)

    [Server.Serve] and [Server.Close] as steps on the state they share: the
    calls of [Serve] running, each between its critical sections and its
    [Accept]s, in any interleaving, with listeners that anyone may close.
    The handshake each accepted connection then goes through is [Upgrade]'s
    [serve]; how long a back-off really sleeps is not modelled. *)

From stdpp Require Import prelude gmap.
From S2P Require Import Prelude Errors.

Module Ln.

(** What a call of [Serve] returns. *)
Inductive serve_error := ErrNoHandler | ErrServerClosed | AcceptFailed (e : error).

(** Where a call is: about to accept; past a failed accept, before it looks at
    [closed]; past that, before its deferred delete; returned. *)
Inductive phase := Accepting | Failing (e : error) | Leaving (r : option serve_error) | Done (r : option serve_error).

(** One call: its listener, its back-off (in nanoseconds). *)
Record loop := mkLoop { ln : nat; delay : Z; at_ : phase }.

(** [closed] and [listeners] are the server's, under its mutex; [calls] the
    calls of [Serve] by number, [shut] the listeners closed, [served] the
    connections handed to [serve], in order. *)
Record state := mkState {
  closed : bool; listeners : gset nat; calls : gmap nat loop; shut : gset nat; served : list Z
}.

Definition init : state := mkState false ∅ ∅ ∅ [].

Definition millisecond : Z := 1000000.
Definition second : Z := 1000 * millisecond.

Definition backoff (delay : Z) : Z := Z.min (Z.max (2 * delay) (5 * millisecond)) second.

(** What [Accept] gives: a connection, or an error that is a timeout or not. *)
Inductive accepted := Conn (c : Z) | AcceptError (e : error) (timeout : bool).

Definition set_call (s : state) (i : nat) (l : loop) : state := {| s with calls := <[i := l]> (calls s) |}.

(** [Serve] up to its loop. *)
Definition start (has_handler : bool) (s : state) (i lis : nat) : state :=
  if negb has_handler then set_call s i (mkLoop lis 0 (Done (Some ErrNoHandler)))
  else if closed s then set_call s i (mkLoop lis 0 (Done (Some ErrServerClosed)))
  else
    let s := {| s with listeners := {[lis]} ∪ listeners s |} in
    set_call s i (mkLoop lis 0 Accepting).

(** One turn of the loop. *)
Definition accept (s : state) (i : nat) (l : loop) (a : accepted) : state :=
  match a with
  | Conn c =>
      let s := {| s with served := served s ++ [c] |} in
      set_call s i {| l with delay := 0 |}
  | AcceptError e timeout =>
      if timeout then set_call s i {| l with delay := backoff (delay l) |}
      else set_call s i {| l with at_ := Failing e |}
  end.

(** The look at [closed]. *)
Definition look (s : state) (i : nat) (l : loop) (e : error) : state :=
  set_call s i {| l with at_ := Leaving (if closed s then None else Some (AcceptFailed e)) |}.

(** The deferred delete, and the return. *)
Definition leave (s : state) (i : nat) (l : loop) (r : option serve_error) : state :=
  let s := {| s with listeners := listeners s ∖ {[ln l]} |} in
  set_call s i {| l with at_ := Done r |}.

(** [Close]: its result is the first error of the listeners' own. *)
Definition Close (s : state) : state := {| s with closed := true; shut := listeners s ∪ shut s |}.

(** [Accept] on a closed listener fails at once, and not with a timeout. *)
Definition may_accept (s : state) (l : loop) (a : accepted) : Prop :=
  match a with AcceptError _ false => True | _ => ln l ∉ shut s end.

(** The steps, labelled with the call that makes them, if one does. *)
Inductive step (has_handler : bool) : option nat -> state -> state -> Prop :=
  | step_start s i lis : calls s !! i = None -> step has_handler None s (start has_handler s i lis)
  | step_accept s i l a :
      calls s !! i = Some l -> at_ l = Accepting -> may_accept s l a -> step has_handler (Some i) s (accept s i l a)
  | step_look s i l e : calls s !! i = Some l -> at_ l = Failing e -> step has_handler (Some i) s (look s i l e)
  | step_leave s i l r : calls s !! i = Some l -> at_ l = Leaving r -> step has_handler (Some i) s (leave s i l r)
  | step_Close s : step has_handler None s (Close s)
  | step_shut s lis : step has_handler None s {| s with shut := {[lis]} ∪ shut s |}.

End Ln.

Import Ln.

(** ** The invariant *)

Definition running (l : loop) : Prop := match at_ l with Done _ => False | _ => True end.

Definition delay_ok (d : Z) : Prop := d = 0 \/ 5 * millisecond <= d <= second.

Lemma backoff_ok d : delay_ok d -> delay_ok (backoff d).
Proof. unfold delay_ok, backoff, second, millisecond. lia. Qed.

(** A call's result says what happened: [nil] and [net.ErrClosed] that the
    server was closed. *)
Definition result_ok (s : state) (r : option serve_error) : Prop :=
  match r with None | Some ErrServerClosed => closed s = true | _ => True end.

Definition call_ok (s : state) (l : loop) : Prop :=
  delay_ok (delay l) /\ match at_ l with Leaving r | Done r => result_ok s r | _ => True end.

(** No listener is given to two calls of [Serve] at a time. *)
Definition unshared (s : state) : Prop :=
  forall i j l k, calls s !! i = Some l -> calls s !! j = Some k -> running l -> running k -> ln l = ln k -> i = j.

Record server_ok (s : state) : Prop := {
  ok_calls : map_Forall (fun _ l => call_ok s l) (calls s);
  ok_closed : closed s = true -> listeners s ⊆ shut s;
  ok_registered : map_Forall (fun _ l => running l -> ln l ∈ listeners s) (calls s)
}.

(** States any interleaving reaches, no listener being shared on the way. *)
Inductive reach (has_handler : bool) : state -> Prop :=
  | reach_init : reach has_handler init
  | reach_step a s s' : reach has_handler s -> step has_handler a s s' -> unshared s' -> reach has_handler s'.

Lemma reach_unshared hh s : reach hh s -> unshared s.
Proof. intros [| a s0 s1 _ _ H]; [| done]. intros i j l k Hi. unfold init in Hi. cbn [calls] in Hi.
  by rewrite lookup_empty in Hi.
Qed.

(** A call changed, everything else about the calls kept. *)
Lemma set_call_ok s i l :
  server_ok s -> call_ok s l -> (running l -> ln l ∈ listeners s) -> server_ok (set_call s i l).
Proof.
  intros [H1 H2 H3] Hl Hr. split; [| done |]; cbn [set_call calls]; apply map_Forall_insert_2; done.
Qed.

Lemma call_ok_mono s s' l : (closed s = true -> closed s' = true) -> call_ok s l -> call_ok s' l.
Proof.
  intros Hc [Hd Hr]. split; [done |]. unfold result_ok in *.
  destruct (at_ l) as [| | [[]|] | [[]|]]; auto.
Qed.

Lemma step_ok hh a s s' : unshared s -> server_ok s -> step hh a s s' -> server_ok s'.
Proof.
  intros Hu Hok Hs. pose proof Hok as [H1 H2 H3].
  destruct Hs as [s i lis Hi | s i l a Hi Ha Hm | s i l e Hi Ha | s i l r Hi Ha | s | s lis].
  - unfold start. destruct hh; cbn [negb]; [destruct (closed s) eqn:Ec |].
    + apply set_call_ok; [done | by split; [left |] | done].
    + apply set_call_ok.
      * split; cbn; [intros j k Hj; eapply call_ok_mono, (H1 j k Hj); cbn; by rewrite Ec | done | intros j k Hj Hk; specialize (H3 j k Hj Hk); set_solver].
      * by split; [left |].
      * intros _. cbn. set_solver.
    + apply set_call_ok; [done | by split; [left |] | done].
  - destruct (H1 i l Hi) as [Hd _]. pose proof (H3 i l Hi ltac:(unfold running; by rewrite Ha)) as Hl.
    unfold accept. destruct a as [c | e []]; apply set_call_ok; try done.
    + split; [by left | cbn; by rewrite Ha].
    + split; [by apply backoff_ok | cbn; by rewrite Ha].
  - destruct (H1 i l Hi) as [Hd _]. pose proof (H3 i l Hi ltac:(unfold running; by rewrite Ha)) as Hl.
    apply set_call_ok; [done | | done]. split; [done |]. cbn. destruct (closed s) eqn:Ec; done.
  - destruct (H1 i l Hi) as [Hd Hr]. rewrite Ha in Hr. unfold leave.
    split; cbn [set_call calls closed listeners shut].
    + apply map_Forall_insert_2; [by split |]. exact H1.
    + intros Hc x [Hx _]%elem_of_difference. by apply (H2 Hc).
    + intros j k Hj Hk. destruct (decide (j = i)) as [-> | Hne].
      * rewrite lookup_insert_eq in Hj. by injection Hj as <-.
      * rewrite lookup_insert_ne in Hj by done. apply elem_of_difference. split; [exact (H3 j k Hj Hk) |].
        rewrite elem_of_singleton. intros E. apply Hne.
        apply (Hu j i k l); try done. unfold running. by rewrite Ha.
  - split; cbn; [| set_solver | done]. intros j k Hj. by eapply call_ok_mono, (H1 j k Hj).
  - split; cbn; [done | | done]. intros Hc. specialize (H2 Hc). set_solver.
Qed.

Lemma reach_ok hh s : reach hh s -> server_ok s.
Proof.
  induction 1 as [| a s s' Hr IH Hs Hu].
  - split; [| done |]; intros i l Hi; unfold init in Hi; cbn [calls] in Hi; by rewrite lookup_empty in Hi.
  - eapply step_ok; [by eapply reach_unshared | done | done].
Qed.

(** ** After [Close] *)

Inductive trace (has_handler : bool) : list (option nat) -> state -> state -> Prop :=
  | trace_nil s : trace has_handler [] s s
  | trace_cons a w s s' s'' : step has_handler a s s' -> trace has_handler w s' s'' -> trace has_handler (a :: w) s s''.

(** The steps a call has left to take. *)
Definition rank (p : phase) : nat :=
  match p with Accepting => 3 | Failing _ => 2 | Leaving _ => 1 | Done _ => 0 end.

(** A call on its way to returning [nil]. *)
Definition stopping (s : state) (i : nat) (n : nat) : Prop :=
  closed s = true /\
  exists l, calls s !! i = Some l /\ rank (at_ l) = n /\ ln l ∈ shut s /\
    match at_ l with Leaving r | Done r => r = None | _ => True end.

Definition own (i : nat) (w : list (option nat)) : nat := length (filter (fun a => a = Some i) w).

Lemma stopping_step hh a s s' i n :
  stopping s i n -> step hh a s s' ->
  if bool_decide (a = Some i) then exists m, n = S m /\ stopping s' i m else stopping s' i n.
Proof.
  intros (Hc & l & Hi & Hn & Hl & Hr) Hs.
  destruct Hs as [s j lis Hj | s j k a Hj Ha Hm | s j k e Hj Ha | s j k r Hj Ha | s | s lis].
  1: { rewrite bool_decide_eq_false_2 by done. assert (i <> j) as Hne by (intros ->; by rewrite Hj in Hi).
    unfold start. rewrite Hc. split; [by destruct hh |]. exists l. destruct hh; cbn; rewrite lookup_insert_ne by done; done. }
  1-3: destruct (decide (j = i)) as [-> | Hne];
    [rewrite bool_decide_eq_true_2 by done; rewrite Hi in Hj; injection Hj as <-; rewrite Ha in *; cbn in Hn; subst n
    | rewrite bool_decide_eq_false_2 by congruence].
  - destruct a as [c | e []]; cbn in Hm; try done. exists 2%nat. split; [done |]. split; [done |].
    eexists. split; [apply lookup_insert_eq |]. by split_and!.
  - split; [by destruct a as [c | e []] |]. exists l. destruct a as [c | e []]; cbn; rewrite lookup_insert_ne by done; done.
  - exists 1%nat. split; [done |]. split; [done |]. eexists. split; [apply lookup_insert_eq |]. cbn. rewrite Hc. by split_and!.
  - split; [done |]. exists l. cbn. rewrite lookup_insert_ne by done. done.
  - exists 0%nat. split; [done |]. split; [done |]. eexists. split; [apply lookup_insert_eq |]. by split_and!.
  - split; [done |]. exists l. cbn. rewrite lookup_insert_ne by done. done.
  - rewrite bool_decide_eq_false_2 by done. split; [done |]. exists l. cbn. split_and!; try done. set_solver.
  - rewrite bool_decide_eq_false_2 by done. split; [done |]. exists l. cbn. split_and!; try done. set_solver.
Qed.

Lemma stopping_trace hh w s s' i n :
  stopping s i n -> trace hh w s s' -> exists m, n = (own i w + m)%nat /\ stopping s' i m.
Proof.
  intros Hs Ht. revert n Hs. induction Ht as [s | a w s s1 s2 Hst _ IH]; intros n Hs; [by exists n |].
  pose proof (stopping_step _ _ _ _ _ _ Hs Hst) as H. unfold own. rewrite filter_cons.
  case_bool_decide as E.
  - destruct H as (m & -> & Hm). destruct (IH m Hm) as (m' & -> & Hm'). rewrite decide_True by done. by exists m'.
  - destruct (IH n H) as (m' & -> & Hm'). rewrite decide_False by done. by exists m'.
Qed.

(** C28. [Close] stops every [Serve], as long as no listener is given to two
    running calls at a time ([reach]; [Close_misses_shared] shows that it fails
    else).  Once the server is closed, a call that is still accepting, or has just failed to, returns [nil] within three steps of
    its own, whatever the other calls, listeners and closes do in between: its
    listener is closed, so that each [Accept] fails at once, it takes no
    connection any more, and it always has a next step until it returns. *)
Theorem Close_stops hh s i l :
  reach hh s -> closed s = true -> calls s !! i = Some l -> (at_ l = Accepting \/ exists e, at_ l = Failing e) ->
  forall w s', trace hh w s s' ->
    (own i w <= 3)%nat /\
    exists l', calls s' !! i = Some l' /\ (own i w + rank (at_ l') = rank (at_ l))%nat /\
      (forall a, may_accept s' l' a -> exists e, a = AcceptError e false) /\
      (rank (at_ l') = 0%nat -> at_ l' = Done None) /\
      (rank (at_ l') <> 0%nat -> exists s'', step hh (Some i) s' s'').
Proof.
  intros Hr Hc Hi Ha w s' Ht. destruct (reach_ok _ _ Hr) as [_ H2 H3].
  assert (stopping s i (rank (at_ l))) as Hs.
  { split; [done |]. exists l. split; [done |]. split; [done |].
    split; [| by destruct Ha as [-> | [e ->]]]. apply H2; [done |]. apply (H3 i l Hi). unfold running.
    by destruct Ha as [-> | [e ->]]. }
  destruct (stopping_trace _ _ _ _ _ _ Hs Ht) as (m & Em & Hc' & l' & Hi' & <- & Hl & Hres).
  split; [destruct Ha as [E | [e E]]; rewrite E in Em; cbn in Em; lia |].
  exists l'. split; [done |]. split; [done |]. split; [| split].
  - intros [c | e []]; cbn; [done | done | by eexists].
  - destruct (at_ l'); cbn; try lia. by rewrite Hres.
  - intros Hrank. destruct (at_ l') eqn:E; cbn in Hrank; [| | | done]; eexists.
    + by apply (step_accept hh s' i l' (AcceptError (Io EOF) false)).
    + by apply step_look.
    + by apply step_leave.
Qed.

(** A server with one call, closed while it accepts: the call's three steps. *)
Lemma Close_stops_witness :
  exists s', trace true [Some 0%nat; Some 0%nat; Some 0%nat] (Close (start true init 0 5)) s' /\
    (own 0 [Some 0%nat; Some 0%nat; Some 0%nat] <= 3)%nat /\
    exists l', calls s' !! 0%nat = Some l' /\ at_ l' = Done None.
Proof.
  assert (reach true (start true init 0 5)) as H1.
  { eapply reach_step; [apply reach_init | by apply step_start |].
    intros i j l k Hi Hj _ _ _. cbn in Hi, Hj. apply lookup_singleton_Some in Hi as [<- _].
    by apply lookup_singleton_Some in Hj as [<- _]. }
  assert (reach true (Close (start true init 0 5))) as H2.
  { eapply reach_step; [exact H1 | apply step_Close | exact (reach_unshared _ _ H1)]. }
  assert (exists s', trace true [Some 0%nat; Some 0%nat; Some 0%nat] (Close (start true init 0 5)) s') as [s' Ht].
  { eexists. eapply trace_cons; [by apply (step_accept _ _ 0 (mkLoop 5 0 Accepting) (AcceptError (Io EOF) false)) |].
    eapply trace_cons; [by apply (step_look _ _ 0 (mkLoop 5 0 (Failing (Io EOF)))) |].
    eapply trace_cons; [by apply (step_leave _ _ 0 (mkLoop 5 0 (Leaving None))) |]. apply trace_nil. }
  destruct (Close_stops true _ 0 (mkLoop 5 0 Accepting) H2 eq_refl eq_refl (or_introl eq_refl) _ s' Ht)
    as (Hn & l' & Hl & Hr & _ & Hd & _).
  exists s'. split; [exact Ht |]. split; [exact Hn |]. exists l'. split; [exact Hl |]. apply Hd.
  change (own 0 [Some 0%nat; Some 0%nat; Some 0%nat]) with 3%nat in Hr. cbn [rank at_] in Hr. lia.
Defined.

(** Two calls on one listener: the first to fail takes it off the list, and
    [Close] leaves the other accepting on an open listener. *)
Definition shared_run : state :=
  let s := start true (start true init 0 5) 1 5 in
  let s := accept s 0 (mkLoop 5 0 Accepting) (AcceptError (Other 1) false) in
  let s := look s 0 (mkLoop 5 0 (Failing (Other 1))) (Other 1) in
  let s := leave s 0 (mkLoop 5 0 (Leaving (Some (AcceptFailed (Other 1))))) (Some (AcceptFailed (Other 1))) in
  Close s.

Lemma Close_misses_shared :
  (exists w, trace true w init shared_run) /\ closed shared_run = true /\
  exists l, calls shared_run !! 1%nat = Some l /\ at_ l = Accepting /\ may_accept shared_run l (Conn 0).
Proof.
  split.
  - eexists. eapply trace_cons; [by apply (step_start _ _ 0 5) |]. eapply trace_cons; [by apply (step_start _ _ 1 5) |].
    eapply trace_cons; [by apply (step_accept _ _ 0 (mkLoop 5 0 Accepting) (AcceptError (Other 1) false)) |].
    eapply trace_cons; [by apply (step_look _ _ 0 (mkLoop 5 0 (Failing (Other 1)))) |].
    eapply trace_cons; [by apply (step_leave _ _ 0 (mkLoop 5 0 (Leaving (Some (AcceptFailed (Other 1)))))) |].
    eapply trace_cons; [apply step_Close |]. apply trace_nil.
  - split; [done |]. exists (mkLoop 5 0 Accepting). split; [done |]. split; [done |].
    apply (bool_decide_unpack _). vm_compute. exact I.
Qed.
