(* ===== verification/Session.v ===== *)
(** * A session, from the dial to the messages

    [Dial] and [Server.serve] leave two connections; a [ws.Conn] made on each
    from what the handshake agreed reads exactly what the other sends. *)

From stdpp Require Import prelude gmap strings.
From S2P Require Import Prelude Mask Errors Strings Header Encoder Utf8 Close Receiver Stream Traffic Sender Window Compressor Decompressor Stored Handshake Queue ConnCompress ConnWrite WriteSpec Delivery Calls Conversation Sending ConnRead Reading Assembling Messages Exchange Upgrade Serving Dial Dialing.

(** ** What the handshake agreed, as configurations *)

(** A caller's configuration with the role and compression of one end. *)
Definition endpoint (base : Config) (r : Role) (res : Hs.Result) : Config :=
  {| base with cRole := r; cCompression := Hs.rCompression res |}.

Lemma Size_bits n : bits_ok n -> Win.Size (Window_new n) = 2 ^ window_bits n.
Proof.
  unfold bits_ok, Win.Size, window_bits. change (Bits (Window_new n)) with n. intros [-> | Hn]; [reflexivity |].
  destruct (Z.leb_spec 8 n), (Z.leb_spec n 15), (Z.eqb_spec n 0); cbn [andb]; try lia.
  by rewrite Z.shiftl_mul_pow2, Z.mul_1_l by lia.
Qed.

Lemma Size_mono a b : bits_ok a -> bits_ok b -> window_bits a <= window_bits b ->
  Win.Size (Window_new a) <= Win.Size (Window_new b).
Proof. intros Ha Hb Hab. rewrite !Size_bits by done. apply Z.pow_le_mono_r; lia. Qed.

(** Mirrored results make peers of each other. *)
Lemma mirrored_peers base_c base_s rc rs :
  mirrored (Hs.rCompression rc) (Hs.rCompression rs) ->
  peers (endpoint base_s Receiver.Server rs) (endpoint base_c Receiver.Client rc) /\
  peers (endpoint base_c Receiver.Client rc) (endpoint base_s Receiver.Server rs).
Proof.
  unfold mirrored, peers, endpoint, Sending.reach. cbn [cRole cCompression].
  destruct (Hs.rCompression rc) as [c |], (Hs.rCompression rs) as [s |]; try done.
  intros (H1 & H2 & H3 & H4 & B1 & B2 & B3 & B4).
  split; (split; [done |]); (split; [done |]); by apply Size_mono.
Qed.

Section session.
Context {M : Masker} `{!MaskerOk M} {G : Grow} `{!GrowOk G} {F : Flate} {FO : FlateOk F} {FB : FlateBytes F}.
Context {I : Inflater} {IO : InflaterOk I} {IS : InflaterSpec I} {AG : Agrees FO IS}.
Context {T : Transport} {R : Reliable T} {W : World} {RW : ReadWorld} {RO : ReadWorldOk RW}.

(** Made from [cfg], a connection that wrote [bytes] in any calls is read, by
    one made from [rcfg] over a transport whose reads are [s], as exactly the
    messages those calls sent. *)
Definition delivers (cfg rcfg : Config) (bytes : list Z) (s : script) : Prop :=
  forall (WO : WorldOk W (Sending.reach cfg)) vectored os h vec P c fuel k,
  Forall wop_ok os -> len os < 2 ^ 64 -> MaxMessageSize rcfg < 2 ^ 63 ->
  let '(w, rs) := do_ops (newWrite cfg vectored) os in
  let sent := sent_messages os rs in
  bytes = written (out (Cw.run 2 w)) -> Cr.NewConn rcfg h vec s = Ok c ->
  agreeable (default DefaultControlHandler h) P -> P (newWrite rcfg vec) ->
  fits (message_limit rcfg) (received (run (peer_role (cRole cfg)) (compressing cfg) spec_init bytes).2) ->
  Forall (fun m => len m.2 <= message_limit rcfg /\
    (m.1 = Opcode.Text -> ValidateUTF8 rcfg = true -> Utf8.Valid m.2 = true)) sent ->
  2 * len bytes + 2 * message_limit rcfg + 11 < Z.of_nat fuel -> (length sent < k)%nat ->
  exists c' e, read_all fuel k c = Some (c', sent, e).

Lemma peers_deliver cfg rcfg chunks : peers cfg rcfg -> nonempty chunks -> delivers cfg rcfg (concat chunks) (pieces chunks).
Proof.
  intros Hp Hne WO vectored os h vec P c fuel k Hos Hl Hm.
  pose proof (exchange_ok cfg vectored os rcfg h vec P chunks c fuel k Hp Hos Hl Hm) as H.
  destruct (do_ops (newWrite cfg vectored) os) as [w rs]. intros sent Hb Hc. by apply H.
Qed.

Import Up Dl.

Context (net_error : Z -> bool) (nw : network) (rnd : list Z) (opts : DialOptions) (srv : Server) (u : URL).
Context (Hrnd : bytes_ok rnd) (Hlen : len rnd = 16).
Context (Hoc : Hs.validOptions (oHandshake opts) = None) (Hos : Hs.validOptions (sHandshake srv) = None).
Context (Hpc : clean (join (str ", ") (Hs.Protocols (oHandshake opts)))) (Hps : Forall clean (Hs.Protocols (sHandshake srv))).
Context (Hread : reads_responses (ReadResponse nw)).

(** C1. A whole session.  A client dials, with whatever header and options of
    its own, and the server's [serve] upgrades it; the request and the response
    cross cut anywhere, each with what the connection then writes right behind
    it.  [Dial] returns a connection and the server's handler is called with
    one, and with a [ws.Conn] made on each, from any configuration with the
    compression the handshake gave that end, each end's [ReadMessage] returns
    exactly the messages the other sent, in order, compressed or not, whatever
    mix of calls sent them. *)
Theorem session hreq hs chunks rest replies behind fuel line_fuel o :
  Hs.NewRequest rnd (oHandshake opts) = Ok hreq -> connects nw opts u (pieces replies) ->
  carries (requestHeader hreq (oHeader opts)) hs ->
  nonempty chunks -> concat chunks = head_bytes (Hs.Method hreq) (RequestURI u) hs ++ rest ->
  word (RequestURI u) -> Forall header_ok hs -> len (RequestURI u) + 15 <= bufSize ->
  len (head_bytes (Hs.Method hreq) (RequestURI u) hs) <= maxHeaderBytes srv ->
  match sAccept srv with Some f => f (parsed (Hs.Method hreq) (RequestURI u) hs) | None => 0 end = 0 ->
  (length hs < fuel)%nat -> bufSize + 1 < Z.of_nat line_fuel ->
  serve net_error fuel line_fuel srv (pieces chunks) None = Some o ->
  nonempty replies -> concat replies = concat (Up.written o) ++ behind ->
  exists cc rc cs rs req,
    outcome (Dial nw rnd opts) = inl (cc, rc) /\ handed o = Some (cs, rs, req) /\
    forall base_c base_s,
      delivers (endpoint base_s Receiver.Server rs) (endpoint base_c Receiver.Client rc) behind (script_of cc) /\
      delivers (endpoint base_c Receiver.Client rc) (endpoint base_s Receiver.Server rs) rest (script_of cs).
Proof using All.
  intros. destruct (dial_ok net_error nw rnd opts srv u Hrnd Hlen Hoc Hos Hpc Hps Hread
    hreq hs chunks rest replies behind fuel line_fuel o)
    as (cc & rc & cs & rs & req & tc & ts & E1 & E2 & _ & Hm & N1 & C1 & S1 & N2 & C2 & S2); try done.
  exists cc, rc, cs, rs, req. split; [done |]. split; [done |]. intros base_c base_s.
  destruct (mirrored_peers base_c base_s rc rs Hm) as [P1 P2]. rewrite S1, S2, <- C1, <- C2.
  split; by apply peers_deliver.
Qed.
End session.

(** ** One session, evaluated *)

#[local] Existing Instance swar_masker.
#[local] Existing Instance double_growth.
#[local] Existing Instance double_growth_ok.
#[local] Existing Instance stored_flate.
#[local] Existing Instance stored_flate_bytes.
#[local] Existing Instance perfect.
#[local] Existing Instance perfect_reliable.
#[local] Existing Instance stored_world.
#[local] Existing Instance stored_world_ok.
#[local] Existing Instance fresh_pools.
#[local] Existing Instance fresh_pools_ok.

(** What the dial of [Dialing] agrees at either end. *)
Definition server_result : Hs.Result := Eval vm_compute in
  match Hs.Negotiate a_request (Up.sHandshake a_server) with Ok (_, rs) => rs | Err _ => Hs.mkResult None [] end.

Definition client_result : Hs.Result := Eval vm_compute in
  match Hs.Negotiate a_request (Up.sHandshake a_server) with
  | Ok (resp, _) => match Hs.Confirm a_request resp a_client with Ok rc => rc | Err _ => Hs.mkResult None [] end
  | Err _ => Hs.mkResult None []
  end.

Definition session_base : Config := mkConfig Receiver.Server 0 1000 0 true None false [].

Definition server_end : Config := endpoint session_base Receiver.Server server_result.
Definition client_end : Config := endpoint session_base Receiver.Client client_result.

Definition server_bytes : list Z := Eval vm_compute in
  written (out (Cw.run 2 (do_ops (newWrite server_end true) demo_ops).1)).
Definition client_bytes : list Z := Eval vm_compute in
  written (out (Cw.run 2 (do_ops (newWrite client_end true) demo_ops).1)).

Definition session_request : list (list Z) :=
  Exchange.cut 90 50 (head_bytes (str "GET") (str "/chat") dial_lines ++ client_bytes).
Definition session_replies : list (list Z) := Exchange.cut 90 30 (default [] dial_answer ++ server_bytes).

Definition session_network : Dl.network :=
  Dl.mkNetwork (inl a_url) (fun _ => inl (Exchange.pieces session_replies)) (fun _ s => inl s) None None read_response None.

Definition session_sent : list (Z * list Z) :=
  [(Opcode.Text, [72; 105]); (Opcode.Binary, [1; 2; 3]); (Opcode.Binary, [9; 9])].

Lemma session_request_bytes :
  concat session_request = head_bytes (str "GET") (str "/chat") dial_lines ++ client_bytes.
Proof. vm_compute. reflexivity. Qed.

Lemma session_dials : option_map snd (match Dl.outcome (Dl.Dial session_network (zeros 16) a_dialer) with
  inl x => Some x | inr _ => None end) = Some client_result.
Proof. vm_compute. reflexivity. Qed.

Lemma session_serves :
  (fun o => (concat (Up.written o), (fun h => h.1.2) <$> Up.handed o)) <$>
    Up.serve (fun _ => false) 20 (Z.to_nat 5000) a_server (Exchange.pieces session_request) None
  = Some (default [] dial_answer, Some server_result).
Proof. vm_compute. reflexivity. Qed.

(** The other end's sends, read at this one. *)
Lemma delivered cfg rcfg bytes s :
  delivers cfg rcfg bytes s -> Sending.reach cfg = windowSize -> Sending.reach rcfg = windowSize -> MaxMessageSize rcfg = 1000 ->
  bytes = written (out (Cw.run 2 (do_ops (newWrite cfg true) demo_ops).1)) ->
  sent_messages demo_ops (do_ops (newWrite cfg true) demo_ops).2 = session_sent ->
  fits (message_limit rcfg) (received (run (peer_role (cRole cfg)) (compressing cfg) spec_init bytes).2) ->
  message_limit rcfg = 1000 -> len bytes < 100 ->
  forall c, Cr.NewConn rcfg None false s = Ok c ->
  exists c' e, read_all 4000 9 c = Some (c', session_sent, e).
Proof.
  intros H Hr Hrr Hm Hb Hs Hf Hl Hlen c Hc. unfold delivers in H. rewrite Hr in H.
  assert (exists P, agreeable DefaultControlHandler P /\ P (newWrite rcfg false)) as (P & HP1 & HP2).
  { apply default_agreeable. rewrite Hrr. exact stored_world_ok. }
  specialize (H stored_world_ok true demo_ops None false P c 4000%nat 9%nat stored_ops_ok
    ltac:(vm_compute; reflexivity) ltac:(rewrite Hm; lia)).
  destruct (do_ops (newWrite cfg true) demo_ops) as [w rs]. cbn [fst snd] in *. rewrite Hs in H.
  apply H; [done | done | exact HP1 | exact HP2 | done | | rewrite Hl; lia | cbn; lia].
  rewrite Hl. repeat (apply Forall_cons; split; [split; [vm_compute; discriminate | intros _ _; vm_compute; reflexivity] |]).
  apply Forall_nil_2.
Qed.

Ltac observed H :=
  eapply H; [vm_compute; reflexivity | vm_compute; reflexivity | reflexivity | vm_compute; reflexivity | vm_compute; reflexivity
    | apply (bool_decide_unpack _); vm_compute; exact Logic.I | reflexivity | vm_compute; reflexivity | eassumption].

Lemma session_witness :
  exists cc cs req,
    Dl.outcome (Dl.Dial session_network (zeros 16) a_dialer) = inl (cc, client_result) /\
    option_map Up.handed (Up.serve (fun _ => false) 20 (Z.to_nat 5000) a_server (Exchange.pieces session_request) None)
      = Some (Some (cs, server_result, req)) /\
    (exists c c' e, Cr.NewConn client_end None false (script_of cc) = Ok c /\
       read_all 4000 9 c = Some (c', session_sent, e)) /\
    (exists c c' e, Cr.NewConn server_end None false (script_of cs) = Ok c /\
       read_all 4000 9 c = Some (c', session_sent, e)).
Proof.
  pose proof session_serves as Es. pose proof session_dials as Ed.
  destruct (Up.serve (fun _ => false) 20 (Z.to_nat 5000) a_server (Exchange.pieces session_request) None) as [o |] eqn:E;
    [| discriminate Es].
  injection Es as Ew Eh.
  destruct (session (fun _ => false) session_network (zeros 16) a_dialer a_server a_url) with (hreq := a_request) (hs := dial_lines)
    (chunks := session_request) (rest := client_bytes) (replies := session_replies) (behind := server_bytes) (fuel := 20%nat)
    (line_fuel := Z.to_nat 5000) (o := o) as (cc & rc & cs & rs & req & H1 & H2 & H3).
  - apply (bool_decide_unpack _). vm_compute. exact Logic.I.
  - reflexivity.
  - reflexivity.
  - reflexivity.
  - plain.
  - repeat (apply Forall_cons; split; [plain |]). apply Forall_nil_2.
  - exact read_response_ok.
  - vm_compute. reflexivity.
  - exists false, (Exchange.pieces session_replies). by split_and!.
  - intros name Hin. apply list_elem_of_fmap in Hin as ([n v] & -> & Hin). unfold fields in Hin.
    repeat (apply elem_of_cons in Hin as [[= -> ->] | Hin]; [vm_compute; reflexivity |]).
    exfalso. exact (not_elem_of_nil _ Hin).
  - apply (bool_decide_unpack _). vm_compute. exact Logic.I.
  - exact session_request_bytes.
  - split; [discriminate |]. split; [plain_colon | plain_text].
  - repeat (apply Forall_cons; split; [split; [discriminate | split; [plain_colon |
      split; [plain_text | vm_compute; discriminate]]] |]). apply Forall_nil_2.
  - vm_compute. discriminate.
  - vm_compute. discriminate.
  - reflexivity.
  - apply (bool_decide_unpack _). vm_compute. exact Logic.I.
  - reflexivity.
  - exact E.
  - apply (bool_decide_unpack _). vm_compute. exact Logic.I.
  - rewrite Ew. vm_compute. reflexivity.
  - rewrite H1 in Ed. injection Ed as ->. rewrite H2 in Eh. injection Eh as ->.
    exists cc, cs, req. split; [exact H1 |]. split; [cbn [option_map]; by rewrite H2 |].
    destruct (H3 session_base session_base) as [D1 D2]. split.
    + assert (exists c, Cr.NewConn client_end None false (script_of cc) = Ok c) as [c Hc] by (eexists; reflexivity).
      exists c. assert (exists c' e, read_all 4000 9 c = Some (c', session_sent, e)) as (c' & e & He)
        by observed (delivered server_end client_end server_bytes _ D1).
      exists c', e. split; [exact Hc | exact He].
    + assert (exists c, Cr.NewConn server_end None false (script_of cs) = Ok c) as [c Hc] by (eexists; reflexivity).
      exists c. assert (exists c' e, read_all 4000 9 c = Some (c', session_sent, e)) as (c' & e & He)
        by observed (delivered client_end server_end client_bytes _ D2).
      exists c', e. split; [exact Hc | exact He].
Defined.
