(* ===== verification/Echo.v ===== *)
(** * An echo server, and what its client gets back

    The handler of examples/echo on a connection the server has upgraded, and
    the two ends together: each connection reads and writes at once. *)

From stdpp Require Import prelude gmap.
From S2P Require Import Prelude Mask Errors Header Encoder Utf8 Receiver Stream Wire Traffic Sender Window Compressor Decompressor Stored Inflating Handshake Queue ConnCompress ConnWrite WriteSpec Delivery Calls Conversation Sending ConnRead Reading Assembling NetConn Messages Exchange.

Import Cr.

(** ** The handler *)

Section echo.
Context {M : Masker} {G : Grow} {F : Flate} {I : Inflater} {T : Transport} {W : World} {RW : ReadWorld}.

(** The configuration it makes a connection from. *)
Definition echo_config (res : Hs.Result) : Config :=
  mkConfig Server 0 (Z.shiftl 32 20) 0 true (Hs.rCompression res) false [].

(** Its loop; a connection whose read or write fails is left to the server. *)
Fixpoint echo_loop (conn_fuel fuel : nat) (c : conn) : option conn :=
  match fuel with
  | O => None
  | S fuel =>
      '(c, r) ← ReadMessage conn_fuel c;
      match r with
      | Err _ => Some c
      | Ok (op, p) =>
          let '(w, r) := Cw.Write (wr c) op p in
          let c := {| c with wr := w |} in
          match r with
          | None => None
          | Some (Some _) => Some c
          | Some None => echo_loop conn_fuel fuel c
          end
      end
  end.

Definition echo (conn_fuel fuel : nat) (vectored : bool) (s : script) (res : Hs.Result) : option (result conn) :=
  match NewConn (echo_config res) None vectored s with
  | Err e => Some (Err e)
  | Ok c => c ← echo_loop conn_fuel fuel c; Some (Ok c)
  end.

(** It is [ws.Serve] with a handler that writes back. *)
Lemma echo_loop_Serve conn_fuel fuel c :
  echo_loop conn_fuel fuel c = fst <$> Nc.Serve conn_fuel fuel (fun w op p => Cw.Write w op p) c.
Proof.
  revert c. induction fuel as [| fuel IH]; intros c; [done |]. cbn [echo_loop Nc.Serve].
  destruct (ReadMessage conn_fuel c) as [[c' [[op p] | e]] |]; cbn [mbind option_bind]; [| done..].
  destruct (Cw.Write (wr c') op p) as [w [[e |] |]]; [done | apply IH | done].
Qed.
End echo.

(** ** [ws.Serve] over legal traffic *)

Section serve.
Context {M : Masker} `{!MaskerOk M} {G : Grow} `{!GrowOk G} {F : Flate} {I : Inflater} {IO : InflaterOk I} {IS : InflaterSpec I}.
Context {T : Transport} {W : World} {RW : ReadWorld} {RO : ReadWorldOk RW}.

(** A handler that takes messages as they are to come: [P n ms] holds of the
    write side when [ms] have been handled and [n] more may be. *)
Context (on : Nc.MessageHandler) (P : Z -> list (Z * list Z) -> wconn -> Prop) (Q : list (Z * list Z) -> wconn -> Prop).
Context (good : Z * list Z -> Prop).
Context (Hon : forall n ms w m, 0 <= n -> good m -> P (1 + n) ms w ->
  exists w', on w m.1 m.2 = (w', Some None) /\ P n (ms ++ [m]) w').

Lemma due_wr (c : conn) sp evs e s' n out w : due c sp evs e s' n out -> due {| c with wr := w |} sp evs e s' n out.
Proof. done. Qed.

Lemma Serve_due fuel k c sp evs e s' n ms out :
  due c sp evs e s' n out -> (forall m ms, 0 <= m -> answers (hd c) (P m ms) (Q ms)) -> P (len out) ms (wr c) ->
  Forall good out -> (length evs + n < fuel)%nat -> 2 * limit c + 11 < Z.of_nat fuel -> (length out < k)%nat ->
  exists c' x, Nc.Serve fuel k on c = Some (c', x) /\
    (stopped (P 0 (ms ++ out)) (Q (ms ++ out)) (wr c') \/ P 0 (ms ++ out) (wr c')).
Proof.
  revert c evs ms out. induction k as [| k IH]; intros c evs ms out Hd Hq Hp Hg Hf Hfl Hk; [lia |].
  pose proof (read_next fuel _ _ c sp evs e s' n out Hd (Hq _ ms (len_nonneg out)) Hp Hf Hfl) as H.
  cbn [Nc.Serve]. destruct out as [| m out].
  - destruct H as (c' & x & -> & H). exists c', x. rewrite app_nil_r. by split.
  - destruct H as (c' & evs' & -> & Hp' & (Z1 & Z2 & _) & Hsh & Hd'). cbn [mbind option_bind].
    apply Forall_cons in Hg as [Hm Hg]. rewrite len_cons in Hp'.
    destruct (Hon (len out) ms (wr c') m (len_nonneg out) Hm Hp') as (w & E & Hw). destruct m as [op p]. cbn [fst snd] in E. rewrite E.
    destruct (IH {| c' with wr := w |} evs' (ms ++ [(op, p)]) out (due_wr _ _ _ _ _ _ _ _ Hd')) as (c2 & x & -> & H); try done.
    + change (forall m ms, 0 <= m -> answers (hd c') (P m ms) (Q ms)). by rewrite Z1.
    + lia.
    + change (2 * limit c' + 11 < Z.of_nat fuel). by rewrite Z2.
    + cbn in Hk. lia.
    + exists c2, x. split; [done |]. by rewrite <- app_assoc in H.
Qed.
End serve.

(** ** The server's side *)

Section server.
Context {M : Masker} `{!MaskerOk M} {G : Grow} `{!GrowOk G} {F : Flate} {FO : FlateOk F} {FB : FlateBytes F}.
Context {I : Inflater} {IO : InflaterOk I} {IS : InflaterSpec I} {AG : Agrees FO IS}.
Context {T : Transport} {R : Reliable T} {W : World} {RW : ReadWorld} {RO : ReadWorldOk RW}.
Context (cw : Z) {WO : WorldOk W cw} (ro : Role) (cfg : option Hs.Compression) (w0 : option Window).

(** Between messages, [ms] sent and [n] more to go. *)
Definition answering (n : Z) (ms : list (Z * list Z)) (w : wconn) : Prop :=
  post cw ro cfg w0 w (Ghost None ms) n /\ fop (frag w) = 0 /\ Tx.closeSent (tx w) = false /\ queue w = None.

Definition answered (ms : list (Z * list Z)) (w : wconn) : Prop := post cw ro cfg w0 w (Ghost None ms) 0.

Definition echoable (m : Z * list Z) : Prop := message_ok m /\ len m.2 < 2 ^ 62.

Lemma default_answering n ms : 0 <= n -> answers DefaultControlHandler (answering n ms) (answered ms).
Proof.
  intros Hn. eapply answers_weaken; [| by apply default_answers]. intros w (fw & fq & Hio & Hw). exists fw, fq.
  split; [done |]. by eapply winv_weaken.
Qed.

Lemma Write_echoes n ms w m :
  0 <= n -> echoable m -> answering (1 + n) ms w ->
  exists w', Cw.Write w m.1 m.2 = (w', Some None) /\ answering n (ms ++ [m]) w'.
Proof.
  intros Hn [[Hs Hb] Hl] [(fw & fq & Hio & Hw) (Hf & Hc & Hq)].
  destruct (Write_idle cw ro cfg w0 w fw fq _ n m.1 m.2 Hn Hio Hw (conj Hb Hl) Hs Hf Hc) as (w' & E & Hp & Hf' & Hc' & Hq').
  exists w'. split; [done |]. split; [| by auto]. by destruct m.
Qed.

(** However reading stops, what was written stays what it was. *)
Lemma stopped_answered ms w : stopped (answering 0 ms) (answered ms) w \/ answering 0 ms w -> answered ms w.
Proof.
  intros [[H | (w1 & code & x & Hcode & [(fw & fq & Hio & Hw) (_ & _ & Hq)] & ->)] | H]; [done | | apply H].
  assert (fq = []) as -> by (destruct Hio as [_ Hio]; by rewrite Hq in Hio). by apply (sendClose_keeps cw ro cfg w0 w1 fw).
Qed.
End server.

(** ** Property *)

Section echoes.
Context {M : Masker} `{!MaskerOk M} {G : Grow} `{!GrowOk G} {F : Flate} {FO : FlateOk F} {FB : FlateBytes F}.
Context {I : Inflater} {IO : InflaterOk I} {IS : InflaterSpec I} {AG : Agrees FO IS}.
Context {T : Transport} {R : Reliable T} {RW : ReadWorld} {RO : ReadWorldOk RW} {Wc Ws : World}.

(** The server's side: a loop that writes back what it is given, begun after
    [NewConn] on a write side [w0]. *)
Lemma serves_back cfg res vec vecs os chunks fuel k on hd0 c0 (P : Z -> list (Z * list Z) -> wconn -> Prop) Q w0
    {WOc : WorldOk Wc (Sending.reach cfg)} :
  let sc := echo_config res in
  peers cfg sc -> Forall wop_ok os -> len os < 2 ^ 64 -> 
  let '(w, rs) := do_ops (W := Wc) (newWrite cfg vec) os in
  let sent := sent_messages os rs in
  concat chunks = written (out (Cw.run 2 w)) -> Forall (fun b => b <> []) chunks ->
  fits (message_limit sc) (received (run Server (compressing cfg) spec_init (concat chunks)).2) ->
  Forall (fun m => len m.2 <= message_limit sc /\ (m.1 = Opcode.Text -> Utf8.Valid m.2 = true)) sent ->
  2 * len (concat chunks) + 2 * message_limit sc + 11 < Z.of_nat fuel -> (length sent < k)%nat ->
  NewConn sc hd0 vecs (pieces chunks) = Ok c0 ->
  (forall n ms w m, 0 <= n -> echoable m -> P (1 + n) ms w -> exists w', on w m.1 m.2 = (w', Some None) /\ P n (ms ++ [m]) w') ->
  (forall m ms, 0 <= m -> answers (default DefaultControlHandler hd0) (P m ms) (Q ms)) -> P (len sent) [] w0 ->
  exists c x, Nc.Serve (W := Ws) fuel k on {| c0 with wr := w0 |} = Some (c, x) /\
    (stopped (P 0 sent) (Q sent) (wr c) \/ P 0 sent (wr c)).
Proof.
  intros sc Hp1 Hos Hlen. pose proof (len_nonneg os) as Hpos. destruct (peers_window _ _ Hp1) as (_ & _ & Hr).
  pose proof (new_winv cfg vec (receive_bits sc) (len os + 0) ltac:(lia) Hr) as Hinv.
  pose proof (do_ops_post (W := Wc) (Sending.reach cfg) (cRole cfg) (cCompression cfg) (peer_window cfg (receive_bits sc)) os _ [] [] _ 0
    ltac:(lia) (new_io cfg vec) Hinv Hos) as H.
  pose proof (sent_messages_ok (W := Wc) (newWrite cfg vec) os Hos) as Hgood.
  destruct (do_ops (newWrite cfg vec) os) as [w rs]. destruct H as [_ Hpost]. cbn [snd] in Hgood. cbv zeta in Hgood.
  intros sent Ech Hne Hfit Hms Hfuel Hk Ec Hon Hans HP. destruct Hgood as [Hgood _]. fold sent in Hgood.
  assert (cRole sc = peer_role (cRole cfg)) as Hro by apply Hp1.
  destruct (post_due (W := Ws) cfg _ w _ _ sc hd0 vecs chunks c0 Hp1 eq_refl Hpost Ech Hne Ec) as (sp & evs & Hd & Hev & E1 & E2 & E3 & E4).
  { by rewrite <- Hro. }
  { eapply Forall_impl; [exact Hms |]. intros m (? & Hu). split; [done | auto]. }
  destruct (read_fuel evs chunks (limit c0) fuel Hev E4) as [F1 F2]; [by rewrite E3 |].
  assert (Forall echoable sent) as Hecho.
  { rewrite Forall_forall in Hgood, Hms. apply Forall_forall. intros m Hm. split; [by apply Hgood |].
    pose proof (Hms m Hm) as (Hl & _). change (message_limit sc) with 33554432 in Hl. lia. }
  apply (Serve_due on P Q echoable Hon fuel k {| c0 with wr := w0 |} sp evs (Io EOF) [] (length (concat chunks)) [] sent
    (due_wr _ _ _ _ _ _ _ w0 Hd)); try done.
  intros m ms Hm. change (hd (W := Ws) {| c0 with wr := w0 |}) with (hd (W := Ws) c0). rewrite E1. by apply Hans.
Qed.

(** The client's side. *)
Lemma reads_back cfg res vec os ws {WOc : WorldOk Wc (Sending.reach cfg)} :
  let sc := echo_config res in
  peers cfg sc -> peers sc cfg -> Forall wop_ok os -> len os < 2 ^ 64 -> MaxMessageSize cfg < 2 ^ 63 ->
  let '(w, rs) := do_ops (W := Wc) (newWrite cfg vec) os in
  let sent := sent_messages os rs in
  answered (Sending.reach sc) (cRole sc) (cCompression sc) (peer_window sc (receive_bits cfg)) sent ws ->
  Forall (fun m => len m.2 <= message_limit cfg /\ (m.1 = Opcode.Text -> Utf8.Valid m.2 = true)) sent ->
  forall replies cc fuel' k', concat replies = written (out (Cw.run 2 ws)) -> Forall (fun b => b <> []) replies ->
    NewConn cfg None vec (pieces replies) = Ok cc ->
    fits (message_limit cfg) (received (run (cRole cfg) (compressing sc) spec_init (concat replies)).2) ->
    2 * len (concat replies) + 2 * message_limit cfg + 11 < Z.of_nat fuel' -> (length sent < k')%nat ->
    exists cc' e, read_all (W := Wc) fuel' k' {| cc with wr := w |} = Some (cc', sent, e).
Proof.
  intros sc Hp1 Hp2 Hos Hlen Hmax. pose proof (len_nonneg os) as Hpos. destruct (peers_window _ _ Hp1) as (_ & _ & Hr).
  pose proof (new_winv cfg vec (receive_bits sc) (len os + 0) ltac:(lia) Hr) as Hinv.
  pose proof (do_ops_post (W := Wc) (Sending.reach cfg) (cRole cfg) (cCompression cfg) (peer_window cfg (receive_bits sc)) os _ [] [] _ 0
    ltac:(lia) (new_io cfg vec) Hinv Hos) as H.
  destruct (do_ops (newWrite cfg vec) os) as [w rs]. destruct H as [_ Hpost]. cbv zeta.
  intros Hst Hms replies cc fuel' k' Erep Hne' Ecc Hfit' Hfuel' Hk'.
  assert (peer_role (cRole sc) = cRole cfg) as Hro2 by (symmetry; apply Hp2).
  destruct (post_due (W := Wc) sc _ ws _ _ cfg None vec replies cc Hp2 Hmax Hst Erep Hne' Ecc) as (sp' & evs' & Hd' & Hev' & X1 & X2 & X3 & X4).
  { by rewrite Hro2. }
  { eapply Forall_impl; [exact Hms |]. intros m (? & Hu). split; [done | auto]. }
  destruct (read_fuel evs' replies (limit cc) fuel' Hev' X4) as [G1 G2]; [by rewrite X3 |].
  pose proof (due_wr _ _ _ _ _ _ _ w Hd') as Hdw.
  pose proof (default_keeps (W := Wc) (Sending.reach cfg) (cRole cfg) (cCompression cfg) (peer_window cfg (receive_bits sc))
    (foldl ghost_step (Ghost None []) (zip os rs)) 0) as Hd0.
  eapply (read_all_post (W := Wc) fuel' k' _ _ _ sp' evs' (Io EOF) [] _ _ Hdw).
  - assert (hd (W := Wc) {| cc with wr := w |} = hd (W := Wc) cc) as -> by done. rewrite X1. exact Hd0.
  - exact Hpost.
  - exact G1.
  - exact G2.
  - exact Hk'.
Qed.

(** C3. An echo.  A client sends messages by any mix of calls; the echo server
    reads them, however the transport cuts the bytes, answers the pings and
    the close in between, writes each message back, and its handler returns.
    The client, reading on the very connection it has written to, gets exactly
    the messages it sent, in order and unchanged, compressed either way or
    not. *)
Theorem echo_returns cfg res vec vecs os chunks fuel k
    {WOc : WorldOk Wc (Sending.reach cfg)} {WOs : WorldOk Ws (Sending.reach (echo_config res))} :
  peers cfg (echo_config res) -> peers (echo_config res) cfg -> validConfig (echo_config res) = true ->
  Forall wop_ok os -> len os < 2 ^ 64 -> MaxMessageSize cfg < 2 ^ 63 ->
  let '(w, rs) := do_ops (W := Wc) (newWrite cfg vec) os in
  let sent := sent_messages os rs in
  concat chunks = written (out (Cw.run 2 w)) -> Forall (fun b => b <> []) chunks ->
  fits (message_limit (echo_config res)) (received (run Server (compressing cfg) spec_init (concat chunks)).2) ->
  Forall (fun m => len m.2 <= message_limit (echo_config res) /\ len m.2 <= message_limit cfg /\
    (m.1 = Opcode.Text -> Utf8.Valid m.2 = true)) sent ->
  2 * len (concat chunks) + 2 * message_limit (echo_config res) + 11 < Z.of_nat fuel -> (length sent < k)%nat ->
  exists c, echo (W := Ws) fuel k vecs (pieces chunks) res = Some (Ok c) /\
    forall replies cc fuel' k', concat replies = written (out (Cw.run 2 (wr c))) -> Forall (fun b => b <> []) replies ->
      NewConn cfg None vec (pieces replies) = Ok cc ->
      fits (message_limit cfg) (received (run (cRole cfg) (compressing (echo_config res)) spec_init (concat replies)).2) ->
      2 * len (concat replies) + 2 * message_limit cfg + 11 < Z.of_nat fuel' -> (length sent < k')%nat ->
      exists cc' e, read_all (W := Wc) fuel' k' {| cc with wr := w |} = Some (cc', sent, e).
Proof.
  intros Hp1 Hp2 Hv Hos Hlen Hmax. set (sc := echo_config res) in *. pose proof (len_nonneg os) as Hpos. destruct (peers_window _ _ Hp2) as (_ & _ & Hr2).
  pose proof (fun c0 => serves_back cfg res vec vecs os chunks fuel k (fun w op p => Cw.Write (W := Ws) w op p) None c0
    (answering (Sending.reach sc) (cRole sc) (cCompression sc) (peer_window sc (receive_bits cfg)))
    (answered (Sending.reach sc) (cRole sc) (cCompression sc) (peer_window sc (receive_bits cfg))) (wr c0) Hp1 Hos Hlen) as Hserve.
  pose proof (fun ws => reads_back cfg res vec os ws Hp1 Hp2 Hos Hlen Hmax) as Hread.
  pose proof (sent_messages_ok (W := Wc) (newWrite cfg vec) os Hos) as Hgood.
  destruct (do_ops (newWrite cfg vec) os) as [w rs]. cbn [snd] in Hgood. cbv zeta in Hgood. destruct Hgood as [_ Hcount].
  intros sent Ech Hne Hfit Hms Hfuel Hk. unfold echo. fold sc.
  destruct (NewConn sc None vecs (pieces chunks)) as [c0 | e] eqn:Ec; [| unfold NewConn in Ec; by rewrite Hv in Ec].
  assert (wr c0 = newWrite sc vecs) as E2 by (unfold NewConn in Ec; rewrite Hv in Ec; cbn [negb] in Ec; by injection Ec as <-).
  destruct (Hserve c0 Ech Hne Hfit) as (c & x & Es & Hst); try done.
  { eapply Forall_impl; [exact Hms |]. by intros m (? & _ & ?). }
  { apply (Write_echoes _ (WO := WOs)). }
  { intros m ms Hm. by apply (default_answering _ (WO := WOs)). }
  { rewrite E2. apply (new_answering (W := Ws) sc vecs (receive_bits cfg) (len sent)); [split; [apply len_nonneg |] | exact Hr2]. clear -Hcount Hlen. fold sent in Hcount. unfold len in *. lia. }
  exists c. rewrite echo_loop_Serve. replace {| c0 with wr := wr c0 |} with c0 in Es by (by destruct c0). rewrite Es. split; [done |].
  apply (stopped_answered (W := Ws) _ (WO := WOs)) in Hst. apply (Hread _ Hst).
  eapply Forall_impl; [exact Hms |]. by intros m (_ & ? & ?).
Qed.
End echoes.

(** ** One echo, evaluated *)

#[local] Existing Instance swar_masker.
#[local] Existing Instance double_growth.
#[local] Existing Instance double_growth_ok.
#[local] Existing Instance stored_flate.
#[local] Existing Instance stored_flate_bytes.
#[local] Existing Instance perfect.
#[local] Existing Instance perfect_reliable.
#[local] Existing Instance stored_world.
#[local] Existing Instance stored_world_ok.
#[local] Existing Instance fresh_pools.
#[local] Existing Instance fresh_pools_ok.

Definition echo_result : Hs.Result := Hs.mkResult (Some (Hs.mkCompression 1 2 true true 15 15)) [].

Definition echo_sent : list (Z * list Z) := [(Opcode.Text, [72; 105]); (Opcode.Binary, [1; 2; 3]); (Opcode.Binary, [9; 9])].

Definition echo_input : list (list Z) := Eval vm_compute in
  cut 40 7 (written (out (Cw.run 2 (do_ops (newWrite demo_client true) demo_ops).1))).

Definition echo_written (r : result conn) : list Z :=
  match r with Ok c => written (out (Cw.run 2 (wr c))) | Err _ => [] end.

Definition echo_bytes : list Z := Eval vm_compute in
  default [] (echo_written <$> echo 4000 9 false (pieces echo_input) echo_result).

(** The limit's fuel is not used up. *)
Lemma echo_runs n : echo_written <$> echo (4000 + n) 9 false (pieces echo_input) echo_result = Some echo_bytes.
Proof. vm_compute. reflexivity. Qed.

Lemma echo_returns_witness :
  exists c w cc cc' e, echo (4000 + Z.to_nat 70000000) 9 false (pieces echo_input) echo_result = Some (Ok c) /\
    (do_ops (newWrite demo_client true) demo_ops).1 = w /\
    NewConn demo_client None true (pieces (cut 30 5 (written (out (Cw.run 2 (wr c)))))) = Ok cc /\
    read_all 4000 9 {| cc with wr := w |} = Some (cc', echo_sent, e).
Proof.
  pose proof (echo_returns demo_client echo_result true false demo_ops echo_input (4000 + Z.to_nat 70000000) 9
    (WOc := stored_world_ok) (WOs := stored_world_ok)) as H.
  specialize (H ltac:(split; [reflexivity | split; [reflexivity | vm_compute; discriminate]])
    ltac:(split; [reflexivity | split; [reflexivity | vm_compute; discriminate]]) eq_refl stored_ops_ok
    ltac:(vm_compute; reflexivity) ltac:(vm_compute; reflexivity)).
  assert (sent_messages demo_ops (do_ops (newWrite demo_client true) demo_ops).2 = echo_sent) as Es by (vm_compute; reflexivity).
  assert (concat echo_input = written (out (Cw.run 2 (do_ops (newWrite demo_client true) demo_ops).1))) as Eb by (vm_compute; reflexivity).
  pose proof (echo_runs (Z.to_nat 70000000)) as Er.
  destruct (do_ops (newWrite demo_client true) demo_ops) as [w rs] eqn:Eo. cbn [fst snd] in *. rewrite Es in H.
  destruct H as (c & E & H).
  - exact Eb.
  - apply (bool_decide_unpack _). vm_compute. exact Logic.I.
  - apply (bool_decide_unpack _). vm_compute. exact Logic.I.
  - repeat (apply Forall_cons; split; [split_and!; [vm_compute; discriminate | vm_compute; discriminate | intros _; vm_compute; reflexivity] |]).
    apply Forall_nil_2.
  - rewrite Nat2Z.inj_add, Z2Nat.id by lia. apply (bool_decide_unpack _). vm_compute. exact Logic.I.
  - apply (bool_decide_unpack _). vm_compute. exact Logic.I.
  - assert (written (out (Cw.run 2 (wr c))) = echo_bytes) as Ew by (rewrite E in Er; injection Er as Er; exact Er).
    rewrite Ew in H.
    destruct (NewConn demo_client None true (pieces (cut 30 5 echo_bytes))) as [cc |] eqn:Ecc; [| discriminate Ecc].
    destruct (H (cut 30 5 echo_bytes) cc 4000%nat 9%nat) as (cc' & e & Hr).
    + vm_compute. reflexivity.
    + apply (bool_decide_unpack _). vm_compute. exact Logic.I.
    + exact Ecc.
    + apply (bool_decide_unpack _). vm_compute. exact Logic.I.
    + vm_compute. reflexivity.
    + apply (bool_decide_unpack _). vm_compute. exact Logic.I.
    + exists c, w, cc, cc', e. split; [exact E |]. split; [reflexivity |]. 
      split; [rewrite Ew; exact Ecc | exact Hr].
Defined.
