(* ===== verification/EchoEvents.v ===== *)
(** * The echo server of events

    examples/echo-events: an [events.Handler] with a method for each event,
    behind [events.Serve], and the client that gets its messages back.  The
    read deadlines it sets are the transport's and are left out, as is what it
    logs. *)

From stdpp Require Import prelude gmap.
From S2P Require Import Prelude Mask Errors Header Encoder Utf8 Close Receiver Stream Wire Traffic Sender Window Compressor Decompressor Stored Inflating Handshake Queue ConnCompress ConnWrite WriteSpec Delivery Calls Conversation Sending ConnRead Reading Assembling Upgrade NetConn Messages Exchange Events Echo.

Import Cr.

Module Ee.
Section echo.
Context {M : Masker} {G : Grow} {F : Flate} {I : Inflater} {T : Transport} {W : World} {RW : ReadWorld}.

(** [now] is [time.Now()] at the opening; [assertion] the panic of a type
    assertion on a user datum that is not there. *)
Definition handler (now : any) (assertion : Z) : Ev.Handler := {|
  Ev.OnOpen _ w := ({| w with userData := now |}, Some (Ev.Returns tt));
  Ev.OnMessage _ w op payload := let '(w, r) := Cw.Write w op payload in (w, Ev.Returns <$> r);
  Ev.OnPing _ w payload := let '(w, r) := Cw.Pong w payload in (w, Ev.Returns <$> r);
  Ev.OnPong _ w _ := (w, Some (Ev.Returns None));
  Ev.OnClose _ w _ := (w, Some (if bool_decide (userData w = []) then Ev.Panics assertion else Ev.Returns tt))
|}.

Definition config : Config := mkConfig Server 0 (Z.shiftl 32 20) 0 true None false [].

Definition serve (conn_fuel fuel : nat) (now : any) (assertion : Z) (vectored : bool) (s : script) (res : Hs.Result)
    (req : Up.Request) : option Ev.ended_run :=
  Ev.Serve conn_fuel fuel (handler now assertion) config vectored s res req.
End echo.
End Ee.

(** ** User data

    No call of a connection touches it. *)

Section kept.
Context {M : Masker} {G : Grow} {F : Flate} {T : Transport} {W : World}.
Implicit Types (s : wconn).

Lemma tx_call_userData {A} s (f : list Z -> Tx.sender -> Tx.sender * A) : userData (Cw.tx_call s f).1 = userData s.
Proof. unfold Cw.tx_call. by destruct (f _ _). Qed.

Lemma write_userData s h b : userData (Cw.write s h b).1 = userData s.
Proof. unfold Cw.write. repeat case_match; by simplify_eq. Qed.

Lemma sendFrame_userData s h b : userData (Cw.sendFrame s h b).1 = userData s.
Proof.
  unfold Cw.sendFrame, Cw.enqueue. pose proof (write_userData s h b).
  destruct (queue s); [by destruct (Qu.enqueue _ _ _ _ _) | by destruct (Cw.write s h b)].
Qed.

Lemma run_userData fuel s : userData (Cw.run fuel s) = userData s.
Proof.
  revert s. induction fuel as [| fuel IH]; intros s; cbn [Cw.run]; [done |]. destruct (queue s); [| done].
  repeat case_match; try done. by rewrite IH.
Qed.

Lemma await_userData s r : userData (Cw.await s r).1 = userData s.
Proof. destruct r as [[seq |] | e]; [apply (run_userData 2) | done..]. Qed.

Lemma encodeData_userData s op p : userData (Cw.encodeData s op p).1 = userData s.
Proof.
  unfold Cw.encodeData. destruct (_ || _); [apply tx_call_userData |]. cbv zeta.
  destruct (if bool_decide _ then _ else _) as [s1 pooled] eqn:E1.
  assert (userData s1 = userData s) as <- by (destruct (bool_decide _); by injection E1 as <- _).
  destruct (Cc.compressorFor _ _) as [[cc c] sh]. destruct (Cmp.Compress _ _ _) as [[c' w] r].
  set (s2 := {| s1 with comp := _ |}). assert (userData s2 = userData s1) as <- by done.
  destruct r as [bs | e]; [| by destruct sh]. pose proof (tx_call_userData s2 (fun rnd t => Tx.EncodeCompressed rnd t op bs)) as H.
  destruct (Cw.tx_call s2 _) as [s3 r]. by destruct sh.
Qed.

Lemma Write_userData s op p : userData (Cw.Write s op p).1 = userData s.
Proof.
  unfold Cw.Write. repeat (destruct (_ && _) || destruct (negb _); [done |]). pose proof (encodeData_userData s op p) as H.
  destruct (Cw.encodeData s op p) as [s1 [[h b] | e]]; [| done]. pose proof (sendFrame_userData s1 h b) as H2.
  destruct (Cw.sendFrame s1 h b) as [s2 r]. rewrite await_userData. cbn in *. congruence.
Qed.

Lemma send_userData s op p : userData (Cw.send s op p).1 = userData s.
Proof.
  unfold Cw.send. destruct (_ && _); [done |]. pose proof (tx_call_userData s (fun rnd t => Tx.Encode rnd t op p)) as H.
  destruct (Cw.tx_call s _) as [s1 [[h b] | e]]; [| done]. pose proof (write_userData s1 h b) as H2.
  destruct (Cw.write s1 h b). cbn in *. congruence.
Qed.

Lemma Close_userData s code reason : userData (Cw.Close s code reason).1 = userData s.
Proof.
  unfold Cw.Close. pose proof (tx_call_userData s (fun rnd t => Tx.EncodeClose rnd t code reason)) as H.
  destruct (Cw.tx_call s _) as [s1 [[h b] | e]]; [| done]. pose proof (sendFrame_userData s1 h b) as H2.
  destruct (Cw.sendFrame s1 h b). rewrite await_userData. cbn in *. congruence.
Qed.

Lemma sendClose_userData s code : userData (Cw.sendClose s code) = userData s.
Proof.
  unfold Cw.sendClose. destruct (Tx.CloseSent _); [done |]. pose proof (tx_call_userData s (fun rnd t => Tx.EncodeClose rnd t code [])) as H.
  destruct (Cw.tx_call s _) as [s1 [[h b] | e]]; [| done]. rewrite write_userData. done.
Qed.
End kept.

(** ** The handler writes back, and keeps the time it was opened *)

Section handler.
Context {M : Masker} `{!MaskerOk M} {G : Grow} `{!GrowOk G} {F : Flate} {FO : FlateOk F} {FB : FlateBytes F}.
Context {I : Inflater} {IO : InflaterOk I} {IS : InflaterSpec I} {AG : Agrees FO IS}.
Context {T : Transport} {R : Reliable T} {W : World} {RW : ReadWorld} {RO : ReadWorldOk RW}.
Context (cw : Z) {WO : WorldOk W cw} (ro : Role) (cfg : option Hs.Compression) (w0 : option Window) (now : any).

Definition opened (w : wconn) : Prop := userData w = now.

Lemma answering_user n ms w : answering cw ro cfg w0 n ms w -> answering cw ro cfg w0 n ms {| w with userData := now |}.
Proof using Type. done. Qed.

Lemma event_write assertion req n ms w m :
  0 <= n -> echoable m -> answering cw ro cfg w0 (1 + n) ms w /\ opened w ->
  exists w', Ev.messages (Ee.handler now assertion) req w m.1 m.2 = (w', Some None) /\
    answering cw ro cfg w0 n (ms ++ [m]) w' /\ opened w'.
Proof using All.
  intros Hn Hm [Hw Hu]. destruct (Write_echoes cw ro cfg w0 n ms w m Hn Hm Hw) as (w' & E & Hw'). exists w'.
  unfold Ev.messages. cbn [Ev.OnMessage Ee.handler]. pose proof (Write_userData w m.1 m.2) as H. rewrite E in H |- *.
  split; [done |]. split; [done |]. unfold opened in *. cbn in H. congruence.
Qed.

Lemma event_answers assertion req n ms :
  0 <= n ->
  answers (Ev.controls (Ee.handler now assertion) req) (fun w => answering cw ro cfg w0 n ms w /\ opened w)
    (fun w => answered cw ro cfg w0 ms w /\ opened w).
Proof using All.
  intros Hn. destruct (default_answering cw ro cfg w0 n ms Hn) as [H1 H2 H3]. split.
  - intros w p Hp [Hw Hu]. destruct (H1 w p Hp Hw) as (w' & E & Hw'). exists w'. cbn [OnPing Ev.controls Ev.OnPing Ee.handler].
    cbn [OnPing DefaultControlHandler] in E. pose proof (send_userData w Opcode.Pong p) as H. unfold Cw.Pong in *.
    rewrite E in H |- *. split; [done |]. split; [done |]. unfold opened in *. cbn in H. congruence.
  - intros w p Hp Hw. by exists w.
  - intros w code reason Hc Hr [Hw Hu]. destruct (H3 w code reason Hc Hr Hw) as (w' & r & E & Hw'). exists w', r.
    change (OnClose (Ev.controls (Ee.handler now assertion) req)) with (OnClose DefaultControlHandler). split; [done |]. split; [done |].
    pose proof (Close_userData w (if code =? NoStatus then 0 else code) []) as H. cbn [OnClose DefaultControlHandler] in E.
    unfold opened in *. destruct (Cw.Close _ _ _) as [w1 r1]. injection E as <- _. cbn in H. congruence.
Qed.

Lemma stopped_opened ms w :
  stopped (fun w => answering cw ro cfg w0 0 ms w /\ opened w) (fun w => answered cw ro cfg w0 ms w /\ opened w) w \/
    (answering cw ro cfg w0 0 ms w /\ opened w) ->
  answered cw ro cfg w0 ms w /\ opened w.
Proof using All.
  intros H. split.
  - apply (stopped_answered cw). destruct H as [[H | (w1 & code & x & Hc & [Hw _] & ->)] | [H _]]; [by left; left; destruct H | | by right].
    left. right. by exists w1, code, x.
  - destruct H as [[[_ H] | (w1 & code & x & Hc & [_ Hw] & ->)] | [_ H]]; [done | | done].
    unfold opened, closing in *. by rewrite sendClose_userData.
Qed.
End handler.

(** ** Property *)

Section echoes.
Context {M : Masker} `{!MaskerOk M} {G : Grow} `{!GrowOk G} {F : Flate} {FO : FlateOk F} {FB : FlateBytes F}.
Context {I : Inflater} {IO : InflaterOk I} {IS : InflaterSpec I} {AG : Agrees FO IS}.
Context {T : Transport} {R : Reliable T} {RW : ReadWorld} {RO : ReadWorldOk RW} {Wc Ws : World}.

(** C8. An echo by events.  A client sends messages by any mix of calls to the
    server whose handler has a method for each event; [events.Serve] calls
    them for what the bytes hold, however they are cut and compressed or not,
    and returns, without a panic, when the client is done.  The client, reading
    on the connection it has written to, gets exactly the messages it sent, in
    order and unchanged. *)
Theorem event_echo_returns cfg res vec vecs os chunks fuel k now assertion req
    {WOc : WorldOk Wc (Sending.reach cfg)} {WOs : WorldOk Ws (Sending.reach (echo_config res))} :
  peers cfg (echo_config res) -> peers (echo_config res) cfg -> validConfig (echo_config res) = true ->
  Forall wop_ok os -> len os < 2 ^ 64 -> MaxMessageSize cfg < 2 ^ 63 -> now <> [] ->
  let '(w, rs) := do_ops (W := Wc) (newWrite cfg vec) os in
  let sent := sent_messages os rs in
  concat chunks = written (out (Cw.run 2 w)) -> Forall (fun b => b <> []) chunks ->
  fits (message_limit (echo_config res)) (received (run Server (compressing cfg) spec_init (concat chunks)).2) ->
  Forall (fun m => len m.2 <= message_limit (echo_config res) /\ len m.2 <= message_limit cfg /\
    (m.1 = Opcode.Text -> Utf8.Valid m.2 = true)) sent ->
  2 * len (concat chunks) + 2 * message_limit (echo_config res) + 11 < Z.of_nat fuel -> (length sent < k)%nat ->
  exists ws err, Ee.serve (W := Ws) fuel k now assertion vecs (pieces chunks) res req = Some (Ev.Ran ws err) /\ userData ws = now /\
    forall replies cc fuel' k', concat replies = written (out (Cw.run 2 ws)) -> Forall (fun b => b <> []) replies ->
      NewConn cfg None vec (pieces replies) = Ok cc ->
      fits (message_limit cfg) (received (run (cRole cfg) (compressing (echo_config res)) spec_init (concat replies)).2) ->
      2 * len (concat replies) + 2 * message_limit cfg + 11 < Z.of_nat fuel' -> (length sent < k')%nat ->
      exists cc' e, read_all (W := Wc) fuel' k' {| cc with wr := w |} = Some (cc', sent, e).
Proof.
  intros Hp1 Hp2 Hv Hos Hlen Hmax Hnow. set (sc := echo_config res) in *. destruct (peers_window _ _ Hp2) as (_ & _ & Hr2).
  set (h := Ee.handler now assertion).
  pose proof (fun c0 => serves_back cfg res vec vecs os chunks fuel k (Ev.messages h req) (Some (Ev.controls h req)) c0
    (fun n ms w => answering (Sending.reach sc) (cRole sc) (cCompression sc) (peer_window sc (receive_bits cfg)) n ms w /\ opened now w)
    (fun ms w => answered (Sending.reach sc) (cRole sc) (cCompression sc) (peer_window sc (receive_bits cfg)) ms w /\ opened now w)
    (let w := wr c0 in {| w with userData := now |}) Hp1 Hos Hlen) as Hserve.
  pose proof (fun ws => reads_back cfg res vec os ws Hp1 Hp2 Hos Hlen Hmax) as Hread.
  pose proof (sent_messages_ok (W := Wc) (newWrite cfg vec) os Hos) as Hgood. pose proof (len_nonneg os) as Hpos.
  destruct (do_ops (newWrite cfg vec) os) as [w rs]. cbn [snd] in Hgood. cbv zeta in Hgood. destruct Hgood as [_ Hcount].
  intros sent Ech Hne Hfit Hms Hfuel Hk. unfold Ee.serve, Ev.Serve, Ev.run. cbv zeta.
  change {| Ee.config with cRole := Server; cCompression := Hs.rCompression res |} with sc. fold h.
  destruct (NewConn sc (Some (Ev.controls h req)) vecs (pieces chunks)) as [c0 | e] eqn:Ec; [| unfold NewConn in Ec; by rewrite Hv in Ec].
  assert (wr c0 = newWrite sc vecs) as E2 by (unfold NewConn in Ec; rewrite Hv in Ec; cbn [negb] in Ec; by injection Ec as <-).
  destruct (Hserve c0 Ech Hne Hfit) as (c & x & Es & Hst); try done.
  { eapply Forall_impl; [exact Hms |]. by intros m (? & _ & ?). }
  { intros n ms w1 m. by apply (event_write _ (WO := WOs)). }
  { intros m ms Hm. by apply (event_answers _ (WO := WOs)). }
  { split; [| done]. apply answering_user. rewrite E2.
    apply (new_answering (W := Ws) sc vecs (receive_bits cfg) (len sent)); [split; [apply len_nonneg |] | exact Hr2].
    clear -Hcount Hlen. fold sent in Hcount. unfold len in *. lia. }
  apply (stopped_opened (W := Ws) _ (WO := WOs)) in Hst as [Hst Hu]. assert (Ev.serve fuel k h req c0 = Some (c, x)) as -> by exact Es.
  subst h. cbn [mbind option_bind Ev.OnClose Ee.handler]. rewrite bool_decide_eq_false_2 by (by rewrite Hu).
  exists (wr c), x. split; [done |]. split; [exact Hu |]. apply (Hread _ Hst).
  eapply Forall_impl; [exact Hms |]. by intros m (_ & ? & ?).
Qed.
End echoes.

(** ** One echo, evaluated *)

#[local] Existing Instance swar_masker.
#[local] Existing Instance double_growth.
#[local] Existing Instance double_growth_ok.
#[local] Existing Instance stored_flate.
#[local] Existing Instance stored_flate_bytes.
#[local] Existing Instance perfect.
#[local] Existing Instance perfect_reliable.
#[local] Existing Instance stored_world.
#[local] Existing Instance stored_world_ok.
#[local] Existing Instance fresh_pools.
#[local] Existing Instance fresh_pools_ok.

Definition ran_bytes (r : Ev.ended_run) : list Z :=
  match r with Ev.Ran w _ => written (out (Cw.run 2 w)) | _ => [] end.

Definition events_request : Up.Request := Up.mkRequest [] [] [] ∅.

Definition events_written : list Z := Eval vm_compute in
  default [] (ran_bytes <$> Ee.serve 4000 9 [1] 0 false (pieces echo_input) echo_result events_request).

(** The limit's fuel is not used up. *)
Lemma events_runs n :
  ran_bytes <$> Ee.serve (4000 + n) 9 [1] 0 false (pieces echo_input) echo_result events_request = Some events_written.
Proof. vm_compute. reflexivity. Qed.

Lemma event_echo_returns_witness :
  exists ws err w cc cc' e,
    Ee.serve (4000 + Z.to_nat 70000000) 9 [1] 0 false (pieces echo_input) echo_result events_request = Some (Ev.Ran ws err) /\
    (do_ops (newWrite demo_client true) demo_ops).1 = w /\
    NewConn demo_client None true (pieces (cut 30 5 (written (out (Cw.run 2 ws))))) = Ok cc /\
    read_all 4000 9 {| cc with wr := w |} = Some (cc', echo_sent, e).
Proof.
  pose proof (event_echo_returns demo_client echo_result true false demo_ops echo_input (4000 + Z.to_nat 70000000) 9 [1] 0 events_request
    (WOc := stored_world_ok) (WOs := stored_world_ok)) as H.
  specialize (H ltac:(split; [reflexivity | split; [reflexivity | vm_compute; discriminate]])
    ltac:(split; [reflexivity | split; [reflexivity | vm_compute; discriminate]]) eq_refl stored_ops_ok
    ltac:(vm_compute; reflexivity) ltac:(vm_compute; reflexivity) ltac:(discriminate)).
  assert (sent_messages demo_ops (do_ops (newWrite demo_client true) demo_ops).2 = echo_sent) as Es by (vm_compute; reflexivity).
  assert (concat echo_input = written (out (Cw.run 2 (do_ops (newWrite demo_client true) demo_ops).1))) as Eb by (vm_compute; reflexivity).
  pose proof (events_runs (Z.to_nat 70000000)) as Er.
  destruct (do_ops (newWrite demo_client true) demo_ops) as [w rs] eqn:Eo. cbn [fst snd] in *. rewrite Es in H.
  destruct H as (ws & err & E & _ & H).
  - exact Eb.
  - apply (bool_decide_unpack _). vm_compute. exact Logic.I.
  - apply (bool_decide_unpack _). vm_compute. exact Logic.I.
  - repeat (apply Forall_cons; split; [split_and!; [vm_compute; discriminate | vm_compute; discriminate | intros _; vm_compute; reflexivity] |]).
    apply Forall_nil_2.
  - rewrite Nat2Z.inj_add, Z2Nat.id by lia. apply (bool_decide_unpack _). vm_compute. exact Logic.I.
  - apply (bool_decide_unpack _). vm_compute. exact Logic.I.
  - assert (written (out (Cw.run 2 ws)) = events_written) as Ew by (rewrite E in Er; injection Er as Er; exact Er).
    rewrite Ew in H.
    destruct (NewConn demo_client None true (pieces (cut 30 5 events_written))) as [cc |] eqn:Ecc; [| discriminate Ecc].
    destruct (H (cut 30 5 events_written) cc 4000%nat 9%nat) as (cc' & e & Hr).
    + vm_compute. reflexivity.
    + apply (bool_decide_unpack _). vm_compute. exact Logic.I.
    + exact Ecc.
    + apply (bool_decide_unpack _). vm_compute. exact Logic.I.
    + vm_compute. reflexivity.
    + apply (bool_decide_unpack _). vm_compute. exact Logic.I.
    + exists ws, err, w, cc, cc', e. split; [exact E |]. split; [reflexivity |].
      split; [rewrite Ew; exact Ecc | exact Hr].
Defined.
