(* ===== verification/EchoStream.v ===== *)
(** * An echo server that does not hold the message

    The handler of examples/echo-stream: what is read of a message is written
    on while the rest of it arrives, the connection being its own reader. *)

From stdpp Require Import prelude gmap.
From S2P Require Import Prelude Mask Errors Header Encoder Utf8 Close Receiver Stream Wire Traffic Sender Window Compressor Decompressor Stored Inflating Inflation Handshake Queue ConnCompress SendFlow ConnWrite WriteSpec Delivery Calls Conversation StreamWrite Sending ConnRead Reading Assembling NetConn Messages Exchange Streaming Copying.

Import Cr.

(** ** The handler *)

(** [WriteFrom] when the reader is the connection itself: its reads answer
    control frames, so they write too. *)
Module Relay.
Section relay.
Context {M : Masker} {G : Grow} {F : Flate} {I : Inflater} {T : Transport} {W : World} {RW : ReadWorld}.
Context (conn_fuel : nat).
Implicit Types (c : conn).

(** [io.ReadFull] into a buffer of [size] bytes, [got] of them read. *)
Fixpoint ReadFull (fuel : nat) (size : Z) (got : list Z) c : option (conn * list Z * option error) :=
  match fuel with
  | O => None
  | S fuel =>
      if size <=? len got then Some (c, got, None)
      else
        '(c, r) ← Cr.Read conn_fuel (size - len got) c;
        match r with
        | Ok chunk => ReadFull fuel size (got ++ chunk) c
        | Err e =>
            let e := if bool_decide (e = Io EOF) && (0 <? len got) then Io ErrUnexpectedEOF else e in
            Some (c, got, Some e)
        end
  end.

Fixpoint WriteFrom_loop (fuel : nat) c (cur : list Z) (total : Z) : option (conn * Z * ret) :=
  match fuel with
  | O => None
  | S fuel =>
      '(c, next, err) ← ReadFull conn_fuel (fragmentSize (wr c)) [] c;
      match err with
      | Some e =>
          if negb (bool_decide (e = Io EOF)) && negb (bool_decide (e = Io ErrUnexpectedEOF))
          then Some (c, total, Some (Some e))
          else
            let final := bool_decide (e = Io EOF) in
            let '(w, werr) := Cw.writeFragment (wr c) cur final in
            let c := {| c with wr := w |} in
            match werr with
            | Some None =>
                let total := total + len cur in
                if final : bool then Some (c, total, Some None)
                else
                  let '(w, werr) := Cw.writeFragment (wr c) next true in
                  let c := {| c with wr := w |} in
                  match werr with
                  | Some None => Some (c, total + len next, Some None)
                  | _ => Some (c, total, werr)
                  end
            | _ => Some (c, total, werr)
            end
      | None =>
          let '(w, werr) := Cw.writeFragment (wr c) cur false in
          let c := {| c with wr := w |} in
          match werr with
          | Some None => WriteFrom_loop fuel c next (total + len cur)
          | _ => Some (c, total, werr)
          end
      end
  end.

Definition WriteFrom (fuel : nat) (op : Z) c : option (conn * Z * ret) :=
  if negb (op =? Opcode.Text) && negb (op =? Opcode.Binary)
  then Some (c, 0, Some (Some (Ws ErrProtocol)))
  else
    '(c, cur, err) ← ReadFull conn_fuel (fragmentSize (wr c)) [] c;
    match err with
    | Some e =>
        if bool_decide (e = Io EOF) || bool_decide (e = Io ErrUnexpectedEOF)
        then let '(w, err) := Cw.Write (wr c) op cur in Some ({| c with wr := w |}, len cur, err)
        else Some (c, 0, Some (Some e))
    | None =>
        let '(w, err) := Cw.BeginMessage (wr c) op in
        let c := {| c with wr := w |} in
        match err with
        | Some None => WriteFrom_loop fuel c cur 0
        | _ => Some (c, 0, err)
        end
    end.

(** The configuration it makes a connection from. *)
Definition config (res : Hs.Result) : Config :=
  mkConfig Server 0 0 (Z.shiftl 64 10) false (Hs.rCompression res) false [].

(** The handler's loop. *)
Fixpoint loop (fuel : nat) c : option conn :=
  match fuel with
  | O => None
  | S fuel =>
      '(c, r) ← NextMessage conn_fuel c;
      match r with
      | Err _ => Some c
      | Ok op =>
          '(c, _, err) ← WriteFrom conn_fuel op c;
          match err with
          | None => None
          | Some (Some _) => Some c
          | Some None => loop fuel c
          end
      end
  end.

Definition serve (fuel : nat) (vectored : bool) (s : script) (res : Hs.Result) : option (result conn) :=
  match NewConn (config res) None vectored s with
  | Err e => Some (Err e)
  | Ok c => c ← loop fuel c; Some (Ok c)
  end.
End relay.
End Relay.

(** ** Reading a full buffer *)

Section full.
Context {M : Masker} `{!MaskerOk M} {G : Grow} `{!GrowOk G} {F : Flate} {I : Inflater} {IO : InflaterOk I} {IS : InflaterSpec I}.
Context {T : Transport} {W : World} {RW : ReadWorld} {RO : ReadWorldOk RW}.
Context (h : Handler) (P Q : wconn -> Prop) (Hq : answers h P Q).
Context (fuel : nat) (sp : spec) (e : error) (s' : script) (n : nat) (bad : Z -> list Z -> bool) (lim : Z).
Implicit Types (c : conn) (evs : list event) (out : list (Z * list Z)).

#[local] Abbreviation ready_for := (ready_for h P sp e s' n bad lim).
#[local] Abbreviation opened := (opened h P fuel sp e s' n bad lim).

(** A buffer filled, or the message's end. *)
Definition filled size (got : list Z) evs evs' (p : list Z) out (res : option (conn * list Z * option error)) : Prop :=
  if size <=? len got + len p
  then exists c' l q evs1, res = Some (c', got ++ l, None) /\ p = l ++ q /\ len got + len l = size /\
    opened c' evs1 evs' q out /\ (length evs1 <= length evs)%nat
  else exists c', res = Some (c', got ++ p, Some (if len got + len p =? 0 then Io EOF else Io ErrUnexpectedEOF)) /\
    ready_for c' evs' out /\ (length evs' <= length evs)%nat.

Lemma ReadFull_post f size got c evs evs' p out :
  opened c evs evs' p out -> roomy fuel n lim evs -> len got <= size -> size - len got < Z.of_nat f ->
  filled size got evs evs' p out (Relay.ReadFull fuel f size got c).
Proof using Type*.
  revert got c evs p. induction f as [| f IH]; intros got c evs p Ho Hr Hle Hf; [lia |]. unfold filled.
  cbn [Relay.ReadFull]. destruct (Z.leb_spec size (len got)) as [Hs | Hs].
  { pose proof (len_nonneg p). destruct (Z.leb_spec size (len got + len p)); [| lia]. exists c, [], p, evs.
    rewrite app_nil_r. split; [done |]. split; [done |]. split; [change (len []) with 0; lia |]. by split. }
  destruct (read_opened h P Q Hq fuel sp e s' n bad lim (size - len got) c evs evs' p out Ho Hr ltac:(lia))
    as [(-> & c1 & -> & Hrd & _ & Hle1) | (c1 & chunk & q & evs1 & -> & Hne & Hl & -> & Ho1 & _ & Hle1)]; cbn [mbind option_bind].
  - rewrite app_nil_r. change (len []) with 0. destruct (Z.leb_spec size (len got + 0)); [lia |]. exists c1.
    rewrite bool_decide_eq_true_2 by done. cbn [andb]. split; [| by split]. do 3 f_equal. pose proof (len_nonneg got).
    destruct (Z.ltb_spec 0 (len got)), (Z.eqb_spec (len got + 0) 0); (done || lia).
  - assert (0 < len chunk) by (destruct chunk; [done | rewrite len_cons; pose proof (len_nonneg chunk); lia]).
    pose proof (IH (got ++ chunk) c1 evs1 q Ho1 ltac:(by eapply roomy_less)) as Hi. unfold filled in Hi.
    rewrite !len_app in *. rewrite <- Z.add_assoc in Hi. specialize (Hi ltac:(lia) ltac:(lia)).
    destruct (size <=? len got + (len chunk + len q)).
    + destruct Hi as (c2 & l & q2 & evs2 & -> & -> & X1 & X2 & X3). exists c2, (chunk ++ l), q2, evs2.
      rewrite <- !app_assoc. split; [done |]. split; [done |]. split; [rewrite len_app; lia |]. split; [done | lia].
    + destruct Hi as (c2 & -> & X1 & X2). exists c2. rewrite <- app_assoc. split; [done |]. split; [done | lia].
Qed.

(** Nothing more is due. *)
Lemma next_stops c evs :
  ready_for c evs [] -> roomy fuel n lim evs -> whole evs ->
  exists c' x, NextMessage fuel c = Some (c', Err x) /\ (Q (wr c') \/ P (wr c')).
Proof using Type*.
  intros Hrd [Hf _] Hw. assert (no_frames evs) as Hno by (eapply none_left; [exact Hrd | exact Hw]).
  destruct Hrd as (((Hre & Him & Hrm & Hmo & Hlim) & _ & He & _) & Hh & Hp).
  destruct (waiting_same c) as (S1 & S2 & S3 & S4 & S5 & S6 & S7 & S8 & S9 & S10). set (c0 := waiting c) in *.
  assert (expects c0 sp evs e s' n) as He0.
  { destruct He as (E1 & E2 & E3 & b & E4 & E5 & E6). apply (expects_intro _ b); by rewrite ?S5, ?S6, ?S9. }
  assert (hd c0 = hd c) as Eh by (unfold hd; by rewrite S2).
  pose proof (nextFrame_post fuel c0 sp evs e s' n He0 ltac:(by rewrite S5) ltac:(lia)) as Hn.
  rewrite Eh, S1, Hh in Hn. pose proof (NextMessage_waiting fuel c ltac:(lia) Hre Him) as En. fold c0 in En.
  destruct Hno as [Hans | (ctl & p & -> & Hans & Hctl)].
  - destruct (to_frame_starves h P Q Hq (wr c) evs Hp Hans) as (w' & Ef & Hw'). rewrite Ef in Hn. destruct Hn as (r & E1 & _).
    rewrite (bind_err _ _ _ _ _ E1) in En. rewrite En. eexists _, _. split; [done |]. by right.
  - destruct (to_frame_controls h P Q Hq (wr c) ctl [EvControl Opcode.Close p] Hp Hans) as (w' & Ef & Hw'). rewrite Ef in Hn.
    cbn [to_frame] in Hn. unfold reply in Hn. change (Opcode.Close =? Opcode.Ping) with false in Hn.
    change (Opcode.Close =? Opcode.Pong) with false in Hn. rewrite Z.eqb_refl in Hn. cbn iota in Hn.
    pose proof (parseClose_range p (proj1 Hctl)) as Hr. destruct (parseClose p) as [code reason]. destruct Hr as [Hr1 Hr2].
    destruct (answer_close _ _ _ Hq w' code reason Hr1 Hr2 Hw') as (w2 & r & Ec & Hw2). rewrite Ec in Hn.
    destruct r; destruct Hn as (r' & s & E1); rewrite (bind_err _ _ _ _ _ E1) in En; rewrite En; (eexists _, _; split; [done |]; by left).
Qed.
End full.

(** ** Relaying a message *)

Lemma sendable_parts (l q : list Z) : sendable (l ++ q) -> sendable l /\ sendable q.
Proof.
  intros [[Hl Hq]%bytes_ok_app Hlen]. rewrite len_app in Hlen. pose proof (len_nonneg l). pose proof (len_nonneg q).
  split; (split; [done | lia]).
Qed.

Section relay.
Context {M : Masker} `{!MaskerOk M} {G : Grow} `{!GrowOk G} {F : Flate} {FO : FlateOk F} {FB : FlateBytes F}.
Context {I : Inflater} {IO : InflaterOk I} {IS : InflaterSpec I}.
Context {T : Transport} {R : Reliable T} {W : World} {RW : ReadWorld} {RO : ReadWorldOk RW}.
Context (cw : Z) {WO : WorldOk W cw} (ro : Role) (cfg : option Hs.Compression) (w0 : option Window) (size : Z).
Context (fuel : nat) (sp : spec) (e : error) (s' : script) (n : nat) (bad : Z -> list Z -> bool) (lim : Z).
Implicit Types (c : conn) (evs : list event) (out : list (Z * list Z)) (g : ghost).

#[local] Abbreviation h := DefaultControlHandler.
#[local] Abbreviation post := (post cw ro cfg w0).

(** The write side while a message is relayed: [g] is what it has sent, [k]
    how much more it may. *)
Definition carrying g (k : Z) (w : wconn) : Prop :=
  post w g k /\ Tx.closeSent (tx w) = false /\ fragmentSize w = size.

Definition closing_down g (k : Z) (w : wconn) : Prop := post w g k.

#[local] Abbreviation ready_for P := (ready_for h P sp e s' n bad lim).
#[local] Abbreviation opened P := (opened h P fuel sp e s' n bad lim).

Lemma post_less w g k m : m <= k -> post w g k -> post w g m.
Proof. intros Hm (fw & fq & H1 & H2). exists fw, fq. split; [done |]. by eapply winv_weaken. Qed.

Lemma carrying_less g k m w : m <= k -> carrying g k w -> carrying g m w.
Proof. intros Hm [H1 H2]. split; [by eapply post_less | done]. Qed.

Lemma carrying_answers g k : answers h (carrying g k) (closing_down g k).
Proof using WO FB R GrowOk0 MaskerOk0.
  split; [| by intros w p _ Hw; exists w |].
  - intros w p Hp (Hw & Hc & Hs). destruct (default_ping cw ro cfg w0 g k w p Hp Hw) as (w' & E & H & _ & Ec & _).
    exists w'. split; [exact E |]. split; [done |]. split; [congruence |]. pose proof (send_size w Opcode.Pong p) as Hsz.
    change (Cw.send w Opcode.Pong p) with (Cw.Pong w p) in Hsz. rewrite E in Hsz. cbn in Hsz. congruence.
  - intros w code reason Hc _ (Hw & _). exact (default_close cw ro cfg w0 g k w code reason Hc Hw).
Qed.

(** Something is written between two reads. *)
Lemma opened_move (P P' : wconn -> Prop) c w evs evs' p out :
  opened P c evs evs' p out -> P' w -> opened P' {| c with wr := w |} evs evs' p out.
Proof.
  intros (H1 & D & (H2 & H3 & H4 & raw & [H5 H6 H7 _ H9] & H10) & H11) Hw. split; [done |]. exists D. split; [| done].
  split; [done |]. split; [done |]. split; [done |]. exists raw. split; [by constructor | exact H10].
Qed.

Lemma ready_move (P P' : wconn -> Prop) c w evs out :
  ready_for P c evs out -> P' w -> ready_for P' {| c with wr := w |} evs out.
Proof. by intros (H1 & H2 & _) Hw. Qed.

Lemma opened_writes (P : wconn -> Prop) c evs evs' p out : opened P c evs evs' p out -> P (wr c).
Proof. by intros (_ & D & (_ & _ & _ & raw & [_ _ _ H _] & _) & _). Qed.

(** The rest of a message relayed: [op] its opcode, [data] what has been sent
    of it, [cur] the chunk in hand. *)
Lemma WriteFrom_relays f c evs evs' p out g op data cur total m :
  0 < size < Z.of_nat fuel -> 0 <= m -> (length p < f)%nat -> roomy fuel n lim evs ->
  opened (carrying g (len p + 2 + m)) c evs evs' p out -> g_open g = Some (op, data) -> sendable cur -> sendable p ->
  exists c', Relay.WriteFrom_loop fuel f c cur total = Some (c', total + len cur + len p, Some None) /\
    ready_for (carrying (Ghost None (g_sent g ++ [(op, data ++ cur ++ p)])) m) c' evs' out /\ (length evs' <= length evs)%nat.
Proof using Type*.
  intros Hsz Hm. revert c evs p g data cur total. induction f as [| f IH]; intros c evs p g data cur total Hf Hr Ho Hg Hcur Hp; [lia |].
  cbn [Relay.WriteFrom_loop]. pose proof (len_nonneg p) as Hl0. pose proof (opened_writes _ _ _ _ _ _ Ho) as (_ & _ & Esz).
  rewrite Esz. pose proof (ReadFull_post h _ _ (carrying_answers g (len p + 2 + m)) fuel sp e s' n bad lim fuel size [] c evs evs' p out Ho Hr) as Hfull.
  change (len []) with 0 in Hfull. specialize (Hfull ltac:(lia) ltac:(lia)). unfold filled in Hfull. change (len []) with 0 in Hfull.
  cbn [app] in Hfull. rewrite !Z.add_0_l in Hfull.
  destruct (size <=? len p).
  - destruct Hfull as (c1 & l & q & evs1 & -> & -> & Hl & Ho1 & Hle). cbn [mbind option_bind].
    pose proof (opened_writes _ _ _ _ _ _ Ho1) as (Hw1 & Hc1 & Esz1). rewrite len_app in *.
    destruct (fragment_ok cw ro cfg w0 (wr c1) g (len q + 2 + m) cur false op data) as (w1 & -> & Hc2 & Hs2 & Hp2); try done;
      [pose proof (len_nonneg q); lia | eapply post_less; [| exact Hw1]; lia |].
    unfold fragment_ghost in Hp2. rewrite Hg in Hp2.
    destruct (sendable_parts l q Hp) as [Hpl Hpq].
    destruct (IH {| c1 with wr := w1 |} evs1 q (Ghost (Some (op, data ++ cur)) (g_sent g)) (data ++ cur) l (total + len cur))
      as (c2 & E & Hrd & Hle2); try done.
    + rewrite length_app in Hf. unfold len in Hl. lia.
    + by eapply roomy_less.
    + eapply opened_move; [exact Ho1 |]. split; [done |]. split; [done | congruence].
    + exists c2. rewrite E. split; [do 3 f_equal; lia |]. cbn [g_sent] in Hrd. rewrite <- app_assoc in Hrd. split; [exact Hrd | lia].
  - destruct Hfull as (c1 & -> & Hrd & Hle). cbn [mbind option_bind]. pose proof Hrd as (_ & _ & Hw1 & Hc1 & Esz1).
    assert (forall b : bool, negb (bool_decide ((if b then Io EOF else Io ErrUnexpectedEOF) = Io EOF)) &&
      negb (bool_decide ((if b then Io EOF else Io ErrUnexpectedEOF) = Io ErrUnexpectedEOF)) = false) as -> by (by intros []).
    destruct (Z.eqb_spec (len p) 0) as [E0 | E0].
    + apply len_0_nil in E0 as ->. rewrite bool_decide_eq_true_2 by done.
      destruct (fragment_ok cw ro cfg w0 (wr c1) g m cur true op data) as (w1 & -> & Hc2 & Hs2 & Hp2); try done.
      { eapply post_less; [| exact Hw1]. change (len (@nil Z)) with 0. lia. }
      unfold fragment_ghost in Hp2. rewrite Hg in Hp2. eexists. split; [do 3 f_equal; change (len (@nil Z)) with 0; lia |].
      split; [| done]. rewrite app_nil_r. eapply ready_move; [exact Hrd |]. split; [exact Hp2 |]. split; [done | congruence].
    + rewrite bool_decide_eq_false_2 by done.
      destruct (fragment_ok cw ro cfg w0 (wr c1) g (1 + m) cur false op data) as (w1 & -> & Hc2 & Hs2 & Hp2); try done; [lia | |].
      { eapply post_less; [| exact Hw1]. lia. }
      unfold fragment_ghost in Hp2. rewrite Hg in Hp2. cbn [wr].
      destruct (fragment_ok cw ro cfg w0 w1 (Ghost (Some (op, data ++ cur)) (g_sent g)) m p true op (data ++ cur))
        as (w2 & -> & Hc3 & Hs3 & Hp3); try done.
      eexists. split; [done |]. split; [| done]. unfold fragment_ghost in Hp3. cbn in Hp3. rewrite <- app_assoc in Hp3.
      eapply ready_move; [eapply (ready_move _ (fun _ => True)); [exact Hrd | done] |]. split; [exact Hp3 |]. split; [done | congruence].
Qed.

Lemma carrying_idle g k w : carrying g k w -> g_open g = None -> fop (frag w) = 0.
Proof.
  intros ((fw & fq & _ & _ & sp1 & raws & cur & peer & _ & Hl) & Hc & _) Hg. rewrite Hc, Hg in Hl. apply Hl.
Qed.

(** One message relayed. *)
Lemma WriteFrom_relay c evs evs' p out g op m :
  0 < size < Z.of_nat fuel -> 0 <= m -> roomy fuel n lim evs -> g_open g = None -> starts op = true -> sendable p ->
  opened (carrying g (len p + 3 + m)) c evs evs' p out ->
  exists c', Relay.WriteFrom fuel fuel op c = Some (c', len p, Some None) /\
    ready_for (carrying (Ghost None (g_sent g ++ [(op, p)])) m) c' evs' out /\ (length evs' <= length evs)%nat.
Proof using Type*.
  intros Hsz Hm Hr Hg Hop Hp Ho. unfold Relay.WriteFrom. rewrite starts_guard, Hop. cbn [negb]. pose proof (len_nonneg p) as Hl0.
  pose proof (opened_writes _ _ _ _ _ _ Ho) as (_ & _ & Esz). rewrite Esz. pose proof Ho as [Hlp _].
  pose proof (ReadFull_post h _ _ (carrying_answers g (len p + 3 + m)) fuel sp e s' n bad lim fuel size [] c evs evs' p out Ho Hr) as Hfull.
  change (len []) with 0 in Hfull. specialize (Hfull ltac:(lia) ltac:(lia)). unfold filled in Hfull. change (len []) with 0 in Hfull.
  cbn [app] in Hfull. rewrite !Z.add_0_l in Hfull. destruct (size <=? len p).
  - destruct Hfull as (c1 & l & q & evs1 & -> & -> & Hl & Ho1 & Hle). cbn [mbind option_bind].
    pose proof (opened_writes _ _ _ _ _ _ Ho1) as Hc1. pose proof (carrying_idle _ _ _ Hc1 Hg) as Hf1.
    destruct Hc1 as ((fw & fq & Hio & Hinv) & Hc1 & Esz1). destruct (sendable_parts l q Hp) as [Hpl Hpq]. rewrite len_app in *.
    pose proof (BeginMessage_post cw ro cfg w0 (wr c1) fw fq g (len q + 2 + m) op) as H1.
    destruct (BeginMessage_size (wr c1) op) as [Hs1 Ht1]. destruct (Cw.BeginMessage (wr c1) op) as [w1 res]. cbn in Hs1, Ht1.
    rewrite Hop, Hf1, Hc1 in H1. pose proof (len_nonneg q). destruct H1 as [-> Hp1];
      [lia | exact Hio | eapply winv_weaken; [| exact Hinv]; lia |].
    assert (roomy fuel n lim evs1) as Hr1 by (by eapply roomy_less).
    destruct (WriteFrom_relays fuel {| c1 with wr := w1 |} evs1 evs' q out (Ghost (Some (op, [])) (g_sent g)) op [] l 0 m)
      as (c2 & -> & Hrd & Hle2); try done.
    + unfold roomy, len in *. lia.
    + eapply opened_move; [exact Ho1 |]. split; [exact Hp1 |]. split; [by rewrite Ht1 | congruence].
    + exists c2. split; [done |]. split; [exact Hrd | lia].
  - destruct Hfull as (c1 & -> & Hrd & Hle). cbn [mbind option_bind].
    assert (forall b : bool, bool_decide ((if b then Io EOF else Io ErrUnexpectedEOF) = Io EOF) ||
      bool_decide ((if b then Io EOF else Io ErrUnexpectedEOF) = Io ErrUnexpectedEOF) = true) as -> by (by intros []).
    pose proof Hrd as (_ & _ & Hc1). pose proof (carrying_idle _ _ _ Hc1 Hg) as Hf1. destruct Hc1 as ((fw & fq & Hio & Hinv) & Hc1 & Esz1).
    pose proof (Write_size (wr c1) op p) as Hs2.
    destruct (Write_idle cw ro cfg w0 (wr c1) fw fq g m op p Hm Hio ltac:(eapply winv_weaken; [| exact Hinv]; lia) Hp Hop Hf1 Hc1)
      as (w2 & E & Hp2 & _ & Hc2 & _). rewrite E in Hs2 |- *. cbn in Hs2. eexists. split; [done |]. split; [| done].
    eapply ready_move; [exact Hrd |]. split; [exact Hp2 |]. split; [done | congruence].
Qed.

(** How much is written to echo [out]. *)
Definition cost out : Z := foldr (fun m k => len m.2 + 3 + k) 0 out.

Lemma cost_nonneg out : 0 <= cost out.
Proof. induction out as [| m out IH]; cbn [cost foldr]; [done |]. fold (cost out). pose proof (len_nonneg m.2). lia. Qed.

Lemma loop_relays k c evs out g :
  0 < size < Z.of_nat fuel -> roomy fuel n lim evs -> whole evs -> g_open g = None ->
  Forall (fun m => starts m.1 = true /\ sendable m.2) out -> ready_for (carrying g (cost out)) c evs out -> (length out < k)%nat ->
  exists c', Relay.loop fuel k c = Some c' /\ post (wr c') (Ghost None (g_sent g ++ out)) 0.
Proof using Type*.
  intros Hsz. revert c evs out g. induction k as [| k IH]; intros c evs out g Hr Hw Hg Hok Hrd Hk; [lia |]. cbn [Relay.loop].
  destruct out as [| [op p] out].
  - destruct (next_stops h _ _ (carrying_answers g (cost [])) fuel sp e s' n bad lim c evs Hrd Hr Hw) as (c' & x & -> & Hst).
    cbn [mbind option_bind]. exists c'. split; [done |]. rewrite app_nil_r. destruct g as [o sent]. cbn in *. subst o.
    destruct Hst as [H | (H & _)]; exact H.
  - apply Forall_cons in Hok as [[Hop Hp] Hok]. cbn [fst snd] in Hop, Hp. change (cost ((op, p) :: out)) with (len p + 3 + cost out) in Hrd.
    destruct (next_opens h _ _ (carrying_answers g _) fuel sp e s' n bad lim c evs op p out Hrd Hr) as (c1 & evs1 & evs' & -> & Ho & _ & Hlt & Hw' & _).
    cbn [mbind option_bind]. assert (roomy fuel n lim evs1) as Hr1 by (eapply roomy_less; [| exact Hr]; lia).
    destruct (WriteFrom_relay c1 evs1 evs' p out g op (cost out) Hsz (cost_nonneg out) Hr1 Hg Hop Hp Ho) as (c2 & -> & Hrd2 & Hle).
    cbn [mbind option_bind].
    destruct (IH c2 evs' out (Ghost None (g_sent g ++ [(op, p)]))) as (c3 & E & Hpost); try done;
      [by eapply roomy_less | by apply Hw' | cbn in Hk; lia |].
    exists c3. split; [exact E |]. cbn [g_sent] in Hpost. by rewrite <- app_assoc in Hpost.
Qed.
End relay.

(** ** Property *)

Section echoes.
Context {M : Masker} `{!MaskerOk M} {G : Grow} `{!GrowOk G} {F : Flate} {FO : FlateOk F} {FB : FlateBytes F}.
Context {I : Inflater} {IO : InflaterOk I} {IS : InflaterSpec I} {AG : Agrees FO IS}.
Context {T : Transport} {R : Reliable T} {RW : ReadWorld} {RO : ReadWorldOk RW} {Wc Ws : World}.

Lemma received_fits ro cmp b x : 0 <= x -> fits (len b + x) (received (run ro cmp spec_init b).2).
Proof.
  intros Hx. eapply Forall_impl; [apply received_short |]. cbn. intros m Hm. pose proof (run_events_length ro cmp spec_init b).
  unfold len in *. lia.
Qed.

Lemma cost_sizes out : Forall (fun m => len m.2 <= cost out) out.
Proof.
  induction out as [| m out IH]; constructor; cbn [cost foldr]; fold (cost out); [pose proof (cost_nonneg out); lia |].
  eapply Forall_impl; [exact IH |]. cbn. intros m'. pose proof (len_nonneg m.2). lia.
Qed.

(** The server's run: whatever has been sent to it is echoed. *)
Lemma serve_post cfg res vecs chunks fuel k w g n cwc {WOs : WorldOk Ws (Sending.reach (Relay.config res))} :
  peers cfg (Relay.config res) -> peers (Relay.config res) cfg -> validConfig (Relay.config res) = true ->
  post cwc (cRole cfg) (cCompression cfg) (peer_window cfg (receive_bits (Relay.config res))) w g n ->
  concat chunks = written (out (Cw.run 2 w)) -> Forall (fun b => b <> []) chunks ->
  whole (run Server (compressing cfg) spec_init (concat chunks)).2 ->
  Forall (fun m => starts m.1 = true /\ sendable m.2) (g_sent g) ->
  cost (g_sent g) < 2 ^ 64 -> 2 * len (concat chunks) + cost (g_sent g) + 65547 < Z.of_nat fuel -> (length (g_sent g) < k)%nat ->
  exists c, Relay.serve (W := Ws) fuel k vecs (pieces chunks) res = Some (Ok c) /\
    post (Sending.reach (Relay.config res)) Server (cCompression (Relay.config res))
      (peer_window (Relay.config res) (receive_bits cfg)) (wr c) (Ghost None (g_sent g)) 0.
Proof.
  intros Hp1 Hp2 Hv Hpost Ech Hne Hwhole Hok Hcost Hfuel Hk. set (sc := Relay.config res) in *. set (sent := g_sent g) in *.
  destruct (peers_window _ _ Hp2) as (_ & _ & Hr2).
  destruct (NewConn sc None vecs (pieces chunks)) as [c0 | e] eqn:Ec; [| unfold NewConn in Ec; by rewrite Hv in Ec].
  assert (cRole sc = peer_role (cRole cfg)) as Hro by apply Hp1. change (cRole sc) with Server in Hro.
  pose proof (len_nonneg (concat chunks)) as Hcl. pose proof (cost_nonneg sent) as Hcn.
  destruct (post_due_within (W := Ws) (fun _ _ => false) (len (concat chunks) + cost sent) cfg _ w _ _ sc None vecs chunks c0
    Hp1 eq_refl Hpost Ech Hne Ec) as (sp & Hd & Hev & E1 & E2 & _).
  { by apply received_fits. }
  { eapply Forall_impl; [exact (cost_sizes sent) |]. cbn. intros m Hm. split; [lia | done]. }
  rewrite <- Hro in Hd, Hev. set (evs := (run Server (compressing cfg) spec_init (concat chunks)).2) in *.
  destruct (new_answering (W := Ws) sc vecs (receive_bits cfg) (cost sent) ltac:(lia) Hr2) as (Hnew & _).
  destruct (loop_relays (W := Ws) (Sending.reach sc) (cRole sc) (cCompression sc) (peer_window sc (receive_bits cfg)) 65536
    fuel sp (Io EOF) [] (length (concat chunks)) (fun _ _ => false) (len (concat chunks) + cost sent) k c0 evs sent (Ghost None []))
    as (c & E & Hst); try done.
  - lia.
  - unfold roomy, len in *. lia.
  - split; [exact Hd |]. split; [exact E1 |]. rewrite E2. by split.
  - cbn [g_sent app] in Hst. exists c. split; [unfold Relay.serve; fold sc; by rewrite Ec, E | exact Hst].
Qed.

(** C6. An echo in bounded memory.  The server of examples/echo-stream writes
    each message on while it is still arriving, as fragments of a new one,
    inflated on the way in and deflated on the way out, and answers pings
    between the fragments of its own; whatever calls a client's messages were
    sent with, and however the transport cuts the bytes, it gets back exactly
    the messages it sent, each whole, in order and unchanged, of any size. *)
Theorem stream_returns cfg res vec vecs os chunks fuel k
    {WOc : WorldOk Wc (Sending.reach cfg)} {WOs : WorldOk Ws (Sending.reach (Relay.config res))} :
  peers cfg (Relay.config res) -> peers (Relay.config res) cfg -> validConfig (Relay.config res) = true ->
  Forall wop_ok os -> len os < 2 ^ 64 -> MaxMessageSize cfg < 2 ^ 63 ->
  let '(w, rs) := do_ops (W := Wc) (newWrite cfg vec) os in
  let sent := sent_messages os rs in
  concat chunks = written (out (Cw.run 2 w)) -> Forall (fun b => b <> []) chunks ->
  whole (run Server (compressing cfg) spec_init (concat chunks)).2 ->
  Forall (fun m => len m.2 <= message_limit cfg /\ len m.2 < 2 ^ 62 /\ (m.1 = Opcode.Text -> Utf8.Valid m.2 = true)) sent ->
  cost sent < 2 ^ 64 -> 2 * len (concat chunks) + cost sent + 65547 < Z.of_nat fuel -> (length sent < k)%nat ->
  exists c, Relay.serve (W := Ws) fuel k vecs (pieces chunks) res = Some (Ok c) /\
    forall replies cc fuel' k', concat replies = written (out (Cw.run 2 (wr c))) -> Forall (fun b => b <> []) replies ->
      NewConn cfg None vec (pieces replies) = Ok cc ->
      fits (message_limit cfg) (received (run (cRole cfg) (compressing (Relay.config res)) spec_init (concat replies)).2) ->
      2 * len (concat replies) + 2 * message_limit cfg + 11 < Z.of_nat fuel' -> (length sent < k')%nat ->
      exists cc' e, read_all (W := Wc) fuel' k' {| cc with wr := w |} = Some (cc', sent, e).
Proof.
  intros Hp1 Hp2 Hv Hos Hlen Hmax. pose proof (len_nonneg os) as Hpos. destruct (peers_window _ _ Hp1) as (_ & _ & Hr).
  pose proof (new_winv cfg vec (receive_bits (Relay.config res)) (len os + 0) ltac:(lia) Hr) as Hinv.
  pose proof (do_ops_post (Sending.reach cfg) (cRole cfg) (cCompression cfg) (peer_window cfg (receive_bits (Relay.config res)))
    os _ [] [] _ 0 ltac:(lia) (new_io cfg vec) Hinv Hos) as H.
  pose proof (sent_messages_ok (W := Wc) (newWrite cfg vec) os Hos) as Hgood.
  destruct (do_ops (newWrite cfg vec) os) as [w rs]. destruct H as [_ Hpost]. cbn [snd] in Hgood. cbv zeta in Hgood.
  intros sent Ech Hne Hwhole Hms Hcost Hfuel Hk. fold sent in Hgood. destruct Hgood as [Hgood _].
  destruct (serve_post cfg res vecs chunks fuel k w _ 0 (Sending.reach cfg) Hp1 Hp2 Hv Hpost Ech Hne Hwhole) as (c & E & Hst); try done.
  { rewrite Forall_forall in Hgood, Hms. apply Forall_forall. intros m Hm. destruct (Hgood m Hm) as [X1 X2].
    split; [done |]. split; [done | by apply (Hms m Hm)]. }
  exists c. split; [exact E |]. intros replies cc fuel' k' Erep Hne' Ecc Hfit' Hfuel' Hk'.
  assert (peer_role Server = cRole cfg) as Hro2 by (symmetry; apply Hp2).
  destruct (post_due (W := Wc) (Relay.config res) _ (wr c) _ _ cfg None vec replies cc Hp2 Hmax Hst Erep Hne' Ecc)
    as (sp' & evs' & Hd' & Hev' & X1 & X2 & X3 & X4).
  { change (cRole (Relay.config res)) with Server. by rewrite Hro2. }
  { eapply Forall_impl; [exact Hms |]. intros m (? & _ & Hu). split; [done | auto]. }
  destruct (read_fuel evs' replies (limit cc) fuel' Hev' X4) as [G1 G2]; [by rewrite X3 |].
  pose proof (default_keeps (W := Wc) (Sending.reach cfg) (cRole cfg) (cCompression cfg) (peer_window cfg (receive_bits (Relay.config res)))
    (foldl ghost_step (Ghost None []) (zip os rs)) 0) as Hd0.
  eapply (read_all_post fuel' k' _ _ {| cc with wr := w |} sp' evs' (Io EOF) [] _ sent Hd').
  - assert (hd (W := Wc) {| cc with wr := w |} = hd (W := Wc) cc) as -> by done. rewrite X1. exact Hd0.
  - exact Hpost.
  - exact G1.
  - exact G2.
  - exact Hk'.
Qed.
End echoes.

(** ** A client of it

    The -file mode of examples/client: the file goes out as one message while
    what comes back is hashed as it arrives. *)

Module Client.
Section client.
Context {M : Masker} {G : Grow} {F : Flate} {I : Inflater} {T : Transport} {W : World} {RW : ReadWorld}.

Inductive outcome := Intact (n : Z) | Differs (n : Z) | Failed (e : error).

(** A hash takes all it is given; [sum] is what it makes of it. *)
Definition hash_writes : sink_writes := fun _ p => (len p, None).

(** The writer's goroutine shares only the write side with the reads, which
    answer control frames there: its writes stand before them.  What the tee
    has hashed of a file sent without an error is its whole content. *)
Definition sendFile (sum : list Z -> list Z) (fuel : nat) (c : conn) (f : reader) : option (conn * outcome) :=
  let '(w, _, sent) := Cw.WriteFrom (wr c) Opcode.Binary f in
  let c := {| c with wr := w |} in
  '(c, r) ← NextMessage fuel c;
  match r with
  | Err e => Some (c, Failed e)
  | Ok _ =>
      '(c, r) ← WriteTo fuel hash_writes {| written := []; calls := 0 |} c;
      match r with
      | Err e | Ok (_, _, Some e) => Some (c, Failed e)
      | Ok (o, n, None) =>
          match sent with
          | None => None
          | Some (Some e) => Some (c, Failed e)
          | Some None => Some (c, if bool_decide (sum (content f) = sum (written o)) then Intact n else Differs n)
          end
      end
  end.
End client.
End Client.

Section file.
Context {M : Masker} `{!MaskerOk M} {G : Grow} `{!GrowOk G} {F : Flate} {FO : FlateOk F} {FB : FlateBytes F}.
Context {I : Inflater} {IO : InflaterOk I} {IS : InflaterSpec I} {AG : Agrees FO IS}.
Context {T : Transport} {R : Reliable T} {RW : ReadWorld} {RO : ReadWorldOk RW} {Wc Ws : World}.

(** A connection between messages has left none open on the wire. *)
Lemma idle_whole cfg (cw : Z) w0 w g n chunks :
  post cw (cRole cfg) (cCompression cfg) w0 w g n -> g_open g = None -> Tx.closeSent (tx w) = false ->
  concat chunks = written (out (Cw.run 2 w)) ->
  whole (run (peer_role (cRole cfg)) (compressing cfg) spec_init (concat chunks)).2.
Proof.
  intros (fw & fq & Hio & Hb & sp & raws & cur & peer & [H1 H2 H3 H4] & Hl) Hg Hc Ech. rewrite Hc, Hg in Hl.
  destruct Hl as [Hm (_ & _ & -> & _)]. destruct (run_all _ fw fq Hio) as ([Ho _] & _). rewrite Ho in Ech. rewrite Ech.
  unfold compressing. rewrite (run_seq _ _ spec_init (fw ++ fq) sp spec_init_at H1 H2). cbn [snd].
  pose proof (received_seq _ _ [] None spec_init (fw ++ fq) sp H2) as Hrs. unfold assembled in H3. rewrite H3 in Hrs.
  unfold whole. change None with (open_of None) at 1. by rewrite Hrs.
Qed.

(** C7. A file sent to the streaming echo server comes back intact.  The
    client writes it as one message, fragmented as it is read and compressed
    if that was agreed; the server relays it while it is arriving; the client
    copies the reply into a hash, and its hashes agree, whatever they are,
    over the number of bytes of the file: no limit on a message's size applies,
    and neither end holds it. *)
Theorem file_returns cfg res vec vecs sum f chunks fuel k
    {WOc : WorldOk Wc (Sending.reach cfg)} {WOs : WorldOk Ws (Sending.reach (Relay.config res))} :
  peers cfg (Relay.config res) -> peers (Relay.config res) cfg -> validConfig (Relay.config res) = true ->
  0 <= FragmentSize cfg -> MaxMessageSize cfg < 2 ^ 63 -> sendable (content f) -> ending f = Io EOF ->
  concat chunks = written (out (Cw.run 2 (Cw.WriteFrom (W := Wc) (newWrite cfg vec) Opcode.Binary f).1.1)) ->
  Forall (fun b => b <> []) chunks ->
  2 * len (concat chunks) + len (content f) + 65550 < Z.of_nat fuel -> (1 < k)%nat ->
  exists c, Relay.serve (W := Ws) fuel k vecs (pieces chunks) res = Some (Ok c) /\
    forall replies cc fuel', concat replies = written (out (Cw.run 2 (wr c))) -> Forall (fun b => b <> []) replies ->
      NewConn cfg None vec (pieces replies) = Ok cc -> 2 * len (concat replies) + len (content f) + 14 < Z.of_nat fuel' ->
      exists cc', Client.sendFile (W := Wc) sum fuel' cc f = Some (cc', Client.Intact (len (content f))).
Proof.
  intros Hp1 Hp2 Hv Hfs Hmax Hsend Heof Ech Hne Hfuel Hk. destruct (peers_window _ _ Hp1) as (_ & _ & Hr).
  pose proof (len_nonneg (content f)) as Hl0. pose proof Hsend as [_ Hlf].
  pose proof (new_winv cfg vec (receive_bits (Relay.config res)) (len (content f) + 3 + 0) ltac:(lia) Hr) as Hinv.
  assert (0 < fragmentSize (newWrite cfg vec)) as Hsz by (cbn; unfold Or; destruct (Z.eqb_spec (FragmentSize cfg) 0); [done | lia]).
  destruct (WriteFrom_post (W := Wc) (Sending.reach cfg) (cRole cfg) (cCompression cfg) (peer_window cfg (receive_bits (Relay.config res)))
    (newWrite cfg vec) [] [] (Ghost None []) Opcode.Binary f 0 ltac:(done) (new_io cfg vec) Hinv Hsz eq_refl eq_refl Hsend (or_introl Heof))
    as (w & E & Hpost & Hc & Hs). rewrite E in Ech. cbn [fst] in Ech. cbn [g_sent app] in Hpost.
  assert (cRole (Relay.config res) = peer_role (cRole cfg)) as Hro by apply Hp1. change (cRole (Relay.config res)) with Server in Hro.
  pose proof (idle_whole cfg _ _ w _ _ chunks Hpost eq_refl Hc Ech) as Hwhole. rewrite <- Hro in Hwhole.
  destruct (serve_post cfg res vecs chunks fuel k w _ 0 (Sending.reach cfg) Hp1 Hp2 Hv Hpost Ech Hne Hwhole) as (c & Es & Hst).
  { apply Forall_cons; split; [by split | apply Forall_nil_2]. }
  { cbn. lia. }
  { cbn. lia. }
  { done. }
  exists c. split; [exact Es |]. intros replies cc fuel' Erep Hne' Ecc Hfuel'. cbn [g_sent] in Hst.
  assert (peer_role Server = cRole cfg) as Hro2 by (symmetry; apply Hp2). pose proof (len_nonneg (concat replies)) as Hrl.
  destruct (post_due_within (W := Wc) (fun _ _ => false) (len (concat replies) + len (content f)) (Relay.config res) _ (wr c) _ _ cfg None vec
    replies cc Hp2 Hmax Hst Erep Hne' Ecc) as (sp & Hd & Hev & X1 & X2 & _).
  { by apply received_fits. }
  { apply Forall_cons; split; [split; [cbn; lia | done] | apply Forall_nil_2]. }
  pose proof (carrying_answers (W := Wc) (Sending.reach cfg) (cRole cfg) (cCompression cfg) (peer_window cfg (receive_bits (Relay.config res)))
    (fragmentSize (newWrite cfg vec)) (Ghost None [(Opcode.Binary, content f)]) 0) as Hq.
  set (evs := (run _ _ spec_init (concat replies)).2) in *.
  destruct (WriteTo_takes (W := Wc) DefaultControlHandler _ _ Hq fuel' sp (Io EOF) [] (length (concat replies)) (fun _ _ => false)
    (len (concat replies) + len (content f)) Client.hash_writes {| written := []; calls := 0 |} {| cc with wr := w |} evs
    Opcode.Binary (content f) []) as (c1 & c2 & o & E1 & E2 & E3).
  { split; [exact Hd |]. split; [exact X1 |]. split; [exact Hpost |]. by split. }
  { unfold roomy, len in *. lia. }
  { intros w1 (_ & _ & ->). exact Hsz. }
  { done. }
  exists c2. unfold Client.sendFile. rewrite X2, E, E1. cbn [mbind option_bind]. rewrite E2. cbn [mbind option_bind].
  by rewrite E3, bool_decide_eq_true_2.
Qed.
End file.

(** ** One echo, evaluated *)

#[local] Existing Instance swar_masker.
#[local] Existing Instance double_growth.
#[local] Existing Instance double_growth_ok.
#[local] Existing Instance stored_flate.
#[local] Existing Instance stored_flate_bytes.
#[local] Existing Instance perfect.
#[local] Existing Instance perfect_reliable.
#[local] Existing Instance stored_world.
#[local] Existing Instance stored_world_ok.
#[local] Existing Instance fresh_pools.
#[local] Existing Instance fresh_pools_ok.

Definition stream_result : Hs.Result := Hs.mkResult (Some (Hs.mkCompression 1 2 true true 15 15)) [].

Definition stream_sent : list (Z * list Z) := [(Opcode.Text, [72; 105]); (Opcode.Binary, [1; 2; 3]); (Opcode.Binary, [9; 9])].

Definition stream_input : list (list Z) := Eval vm_compute in
  cut 40 7 (written (out (Cw.run 2 (do_ops (newWrite demo_client true) demo_ops).1))).

Definition stream_written (r : result conn) : list Z :=
  match r with Ok c => written (out (Cw.run 2 (wr c))) | Err _ => [] end.

Definition stream_bytes : list Z := Eval vm_compute in
  default [] (stream_written <$> Relay.serve 1000 9 false (pieces stream_input) stream_result).

(** The fuel is not used up. *)
Lemma stream_runs n : stream_written <$> Relay.serve (1000 + n) 9 false (pieces stream_input) stream_result = Some stream_bytes.
Proof. vm_compute. reflexivity. Qed.

(** A client cut off inside a message, here after the first fragment of one:
    the read ends with [io.ErrUnexpectedEOF], which [WriteFrom] takes for the
    end of its content, so what came is echoed as a whole message. *)
Example truncated_echo :
  stream_written <$> Relay.serve 1000 9 false (pieces [[1; 130; 0; 0; 0; 0; 72; 105]]) (Hs.mkResult None [])
  = Some [129; 2; 72; 105].
Proof. vm_compute. reflexivity. Qed.

Lemma stream_returns_witness :
  exists c w cc cc' e, Relay.serve (1000 + Z.to_nat 70000) 9 false (pieces stream_input) stream_result = Some (Ok c) /\
    (do_ops (newWrite demo_client true) demo_ops).1 = w /\
    NewConn demo_client None true (pieces (cut 30 5 (written (out (Cw.run 2 (wr c)))))) = Ok cc /\
    read_all 4000 9 {| cc with wr := w |} = Some (cc', stream_sent, e).
Proof.
  pose proof (stream_returns demo_client stream_result true false demo_ops stream_input (1000 + Z.to_nat 70000) 9
    (WOc := stored_world_ok) (WOs := stored_world_ok)) as H.
  specialize (H ltac:(split; [reflexivity | split; [reflexivity | vm_compute; discriminate]])
    ltac:(split; [reflexivity | split; [reflexivity | vm_compute; discriminate]]) eq_refl stored_ops_ok
    ltac:(vm_compute; reflexivity) ltac:(vm_compute; reflexivity)).
  assert (sent_messages demo_ops (do_ops (newWrite demo_client true) demo_ops).2 = stream_sent) as Es by (vm_compute; reflexivity).
  assert (concat stream_input = written (out (Cw.run 2 (do_ops (newWrite demo_client true) demo_ops).1))) as Eb by (vm_compute; reflexivity).
  pose proof (stream_runs (Z.to_nat 70000)) as Er.
  destruct (do_ops (newWrite demo_client true) demo_ops) as [w rs] eqn:Eo. cbn [fst snd] in *. rewrite Es in H.
  destruct H as (c & E & H).
  - exact Eb.
  - apply (bool_decide_unpack _). vm_compute. exact Logic.I.
  - vm_compute. reflexivity.
  - repeat (apply Forall_cons; split; [split_and!; [vm_compute; discriminate | vm_compute; reflexivity | intros _; vm_compute; reflexivity] |]).
    apply Forall_nil_2.
  - vm_compute. reflexivity.
  - rewrite Nat2Z.inj_add, Z2Nat.id by lia. apply (bool_decide_unpack _). vm_compute. exact Logic.I.
  - apply (bool_decide_unpack _). vm_compute. exact Logic.I.
  - assert (written (out (Cw.run 2 (wr c))) = stream_bytes) as Ew by (rewrite E in Er; injection Er as Er; exact Er).
    rewrite Ew in H.
    destruct (NewConn demo_client None true (pieces (cut 30 5 stream_bytes))) as [cc |] eqn:Ecc; [| discriminate Ecc].
    destruct (H (cut 30 5 stream_bytes) cc 4000%nat 9%nat) as (cc' & e & Hr).
    + vm_compute. reflexivity.
    + apply (bool_decide_unpack _). vm_compute. exact Logic.I.
    + exact Ecc.
    + apply (bool_decide_unpack _). vm_compute. exact Logic.I.
    + vm_compute. reflexivity.
    + apply (bool_decide_unpack _). vm_compute. exact Logic.I.
    + exists c, w, cc, cc', e. split; [exact E |]. split; [reflexivity |]. 
      split; [rewrite Ew; exact Ecc | exact Hr].
Defined.

Definition file_client : Config := mkConfig Client 0 0 2 false (Some (Hs.mkCompression 6 1 true true 15 15)) false [].

Definition demo_file : reader := mkReader [1; 2; 3; 4; 5] (Io EOF).

Definition file_input : list (list Z) := Eval vm_compute in
  cut 40 7 (written (out (Cw.run 2 (Cw.WriteFrom (newWrite file_client true) Opcode.Binary demo_file).1.1))).

Definition file_bytes : list Z := Eval vm_compute in
  default [] (stream_written <$> Relay.serve 1000 9 false (pieces file_input) stream_result).

Lemma file_runs n : stream_written <$> Relay.serve (1000 + n) 9 false (pieces file_input) stream_result = Some file_bytes.
Proof. vm_compute. reflexivity. Qed.

Lemma file_returns_witness :
  exists cc cc', NewConn file_client None true (pieces (cut 30 5 file_bytes)) = Ok cc /\
    Client.sendFile id 400 cc demo_file = Some (cc', Client.Intact 5).
Proof.
  pose proof (file_returns file_client stream_result true false id demo_file file_input (1000 + Z.to_nat 70000) 9
    (WOc := stored_world_ok) (WOs := stored_world_ok)) as H.
  pose proof (file_runs (Z.to_nat 70000)) as Er. destruct H as (c & E & H).
  - split; [reflexivity | split; [reflexivity | vm_compute; discriminate]].
  - split; [reflexivity | split; [reflexivity | vm_compute; discriminate]].
  - reflexivity.
  - vm_compute. discriminate.
  - reflexivity.
  - split; [apply (bool_decide_unpack _); vm_compute; exact Logic.I | reflexivity].
  - reflexivity.
  - vm_compute. reflexivity.
  - apply (bool_decide_unpack _). vm_compute. exact Logic.I.
  - rewrite Nat2Z.inj_add, Z2Nat.id by lia. apply (bool_decide_unpack _). vm_compute. exact Logic.I.
  - apply (bool_decide_unpack _). vm_compute. exact Logic.I.
  - assert (written (out (Cw.run 2 (wr c))) = file_bytes) as Ew by (rewrite E in Er; injection Er as Er; exact Er).
    rewrite Ew in H.
    destruct (NewConn file_client None true (pieces (cut 30 5 file_bytes))) as [cc |] eqn:Ecc; [| discriminate Ecc].
    destruct (H (cut 30 5 file_bytes) cc 400%nat) as (cc' & Hr).
    + vm_compute. reflexivity.
    + apply (bool_decide_unpack _). vm_compute. exact Logic.I.
    + exact Ecc.
    + vm_compute. reflexivity.
    + exists cc, cc'. split; [reflexivity | exact Hr].
Defined.
