(* ===== verification/Hub.v ===== *)
(** * A broadcast hub

    examples/broadcast: every message a client sends goes to all of them,
    through a queue each.  The goroutines are steps: the handlers, each relay
    and round of pings walking the set of clients, the writers. *)

From stdpp Require Import prelude gmap.
From S2P Require Import Prelude Mask Errors Header Encoder Utf8 Close Receiver Stream Wire Traffic Sender Window Compressor Decompressor Stored Inflating Handshake Queue ConnCompress ConnWrite WriteSpec Delivery Calls Conversation Sending ConnRead Reading Assembling Messages Exchange.

Module Hub.
Section hub.
Context {M : Masker} {G : Grow} {F : Flate} {T : Transport}.

(** What the pools and the random source give a connection, by what its
    handshake agreed: pools are per level and window. *)
Context (pools : Hs.Result -> World).

Definition hub_config (res : Hs.Result) : Config := mkConfig Server 0 0 0 false (Hs.rCompression res) true [].

Definition queueLimit : Z := Z.shiftl 1 20.

(** A client: the write side of its connection, whose queue is [cl.q]; whether
    its transport has been closed; and, for the record, the relays queued to
    it. *)
Record client := mkClient { res : Hs.Result; cconn : wconn; dropped : bool; got : list (nat * (Z * list Z)) }.

(** What a walk over the set calls for each client. *)
Inductive cast := Relay (p : Prepared) | Pings.

(** A walk: the clients visited, and the ones there when it began. *)
Record walk := mkWalk { call : cast; seen : gset nat; owed : gset nat; over : bool }.

(** [used] are the clients there have been: no two are the same. *)
Record hub := mkHub { clients : gmap nat client; walks : gmap nat walk; used : gset nat }.

Definition init : hub := mkHub ∅ ∅ ∅.

(** The message of a relay. *)
Definition message (p : Prepared) : Z * list Z := (pop p, ppayload p).

(** The handler up to its loop; [vec] is whether the transport has a
    [SyscallConn]. *)
Definition serve (r : Hs.Result) (vec : bool) : option client :=
  if validConfig (hub_config r)
  then Some {| res := r; cconn := Cw.NewQueue (newWrite (hub_config r) vec) queueLimit; dropped := false; got := [] |}
  else None.

(** The call of [each], and the close of a client it fails for. *)
Definition visit (b : nat) (c : cast) (cl : client) : option (client * cast) :=
  match c with
  | Relay p =>
      match queue (cconn cl) with
      | None => None
      | Some q =>
          let '(w, p', err) := Cw.SendPrepared (W := pools (res cl)) (cconn cl) q p in
          Some (match err with
                | None => {| cl with cconn := w; got := got cl ++ [(b, message p)] |}
                | Some _ => {| cl with cconn := w; dropped := true |}
                end, Relay p')
      end
  | Pings =>
      let '(w, r) := Cw.Ping (W := pools (res cl)) (cconn cl) [] in
      match r with
      | None => None
      | Some None => Some ({| cl with cconn := w |}, c)
      | Some (Some _) => Some ({| cl with cconn := w; dropped := true |}, c)
      end
  end.

Definition set_client (h : hub) (i : nat) (cl : client) : hub := {| h with clients := <[i := cl]> (clients h) |}.

Definition set_walk (h : hub) (b : nat) (f : walk) : hub := {| h with walks := <[b := f]> (walks h) |}.

(** [broadcast] of a message, and a tick of [pingAll], up to their walk. *)
Definition start (h : hub) (b : nat) (c : cast) : hub :=
  set_walk h b {| call := c; seen := ∅; owed := dom (clients h); over := false |}.

Inductive step : hub -> hub -> Prop :=
  | step_store h i r vec cl :
      i ∉ used h -> serve r vec = Some cl ->
      step h {| h with clients := <[i := cl]> (clients h); used := {[i]} ∪ used h |}
  | step_delete h i : step h {| h with clients := delete i (clients h) |}
  (** What [ReadMessage] returns is bytes, within the limit; when [Prepare]
      refuses it nothing happens. *)
  | step_broadcast h b op payload p :
      walks h !! b = None -> sendable payload -> Cw.Prepare op payload = Ok p -> step h (start h b (Relay p))
  | step_pings h b : walks h !! b = None -> step h (start h b Pings)
  (** [Range] comes to no client twice. *)
  | step_visit h b i f cl cl' c' :
      walks h !! b = Some f -> over f = false -> i ∉ seen f -> clients h !! i = Some cl ->
      visit b (call f) cl = Some (cl', c') ->
      step h (set_walk (set_client h i cl') b {| call := c'; seen := {[i]} ∪ seen f; owed := owed f; over := false |})
  (** It ends when it has come to all that were there throughout; clients
      stored meanwhile it may or may not come to. *)
  | step_over h b f :
      walks h !! b = Some f -> owed f ∩ dom (clients h) ⊆ seen f ->
      step h (set_walk h b {| f with over := true |})
  (** The answers of [keepalive] in the loop's [ReadMessage]. *)
  | step_ping h i cl p w r :
      clients h !! i = Some cl -> control_ok p -> Cw.Pong (W := pools (res cl)) (cconn cl) p = (w, r) ->
      step h (set_client h i {| cl with cconn := w |})
  | step_close h i cl code reason w r :
      clients h !! i = Some cl -> 0 <= code < 2 ^ 16 ->
      OnClose (DefaultControlHandler (W := pools (res cl))) (cconn cl) code reason = (w, r) ->
      step h (set_client h i {| cl with cconn := w |})
  (** A read that fails the connection: the handler returns, and the server
      closes its transport. *)
  | step_fail h i cl code :
      clients h !! i = Some cl ->
      step h (set_client h i {| cl with cconn := Cw.sendClose (W := pools (res cl)) (cconn cl) code; dropped := true |})
  (** The writer goroutine. *)
  | step_write h i cl :
      clients h !! i = Some cl -> step h (set_client h i {| cl with cconn := Cw.run 2 (cconn cl) |})
  (** Whatever a closed transport makes of a connection. *)
  | step_lost h i cl w :
      clients h !! i = Some cl -> dropped cl = true -> is_Some (queue w) -> step h (set_client h i {| cl with cconn := w |}).

Definition reach (h : hub) : Prop := rtc step init h.

End hub.
End Hub.

Import Cr Hub.

(** ** One client *)

Section client.
Context {M : Masker} {G : Grow} {F : Flate} {T : Transport} {W : World}.

(** The calls leave a queue a queue. *)
Lemma tx_call_queue {A} s (f : list Z -> Tx.sender -> Tx.sender * A) s' r : Cw.tx_call s f = (s', r) -> queue s' = queue s.
Proof. unfold Cw.tx_call. destruct (f _ _). by intros [= <- _]. Qed.

Lemma encodeData_queue s op p s' r : Cw.encodeData s op p = (s', r) -> queue s' = queue s.
Proof.
  unfold Cw.encodeData, Cw.getCompressor. intros E. repeat (case_match; simplify_eq/=);
    repeat match goal with H : Cw.tx_call _ _ = _ |- _ => apply tx_call_queue in H; cbn in H end; done.
Qed.

Lemma send_queue s op p w r : Cw.send s op p = (w, r) -> queue w = queue s.
Proof.
  unfold Cw.send. destruct (_ && _ && _ && _); [by intros [= <- _] |].
  destruct (Cw.tx_call _ _) as [s1 [[hd body] | e]] eqn:E; apply tx_call_queue in E; [| by intros [= <- _]].
  unfold Cw.write. intros E2. repeat (case_match; simplify_eq/=); done.
Qed.

Lemma sendClose_queue s code : queue (Cw.sendClose s code) = queue s.
Proof.
  unfold Cw.sendClose. destruct (Tx.CloseSent _); [done |].
  destruct (Cw.tx_call _ _) as [s1 [[hd body] | e]] eqn:E; apply tx_call_queue in E; [| done].
  unfold Cw.write. repeat (case_match; simplify_eq/=); done.
Qed.

Lemma run_queue n s : is_Some (queue s) -> is_Some (queue (Cw.run n s)).
Proof.
  revert s. induction n as [| n IH]; intros s Hs; [done |]. cbn [Cw.run]. destruct Hs as [q Eq]. rewrite Eq.
  destruct (negb _); [by exists q |]. destruct (Qu.take q) as [q' []]; cbn [negb]; [| by eexists].
  destruct (Qu.flush _ _ _) as [o e]. apply IH. by eexists.
Qed.

Lemma Close_queue s code reason : is_Some (queue s) -> is_Some (queue (Cw.Close s code reason).1).
Proof.
  intros Hs. unfold Cw.Close. destruct (Cw.tx_call _ _) as [s1 [[hd body] | e]] eqn:E; apply tx_call_queue in E; [| cbn; by rewrite E].
  destruct Hs as [q Eq]. unfold Cw.sendFrame, Cw.enqueue. rewrite E, Eq. destruct (Qu.enqueue _ _ _ _ _) as [q' [seq | e]];
    cbn [Cw.await]; [apply run_queue; by eexists | by eexists].
Qed.

Lemma SendPrepared_queue s q p w p' e : queue s = Some q -> Cw.SendPrepared s q p = (w, p', e) -> is_Some (queue w).
Proof.
  intros Eq. unfold Cw.SendPrepared, Cw.Send, Cw.preparedFrame, Cw.frameFor, Cw.getCompressor, Cw.enqueue. intros E.
  repeat (case_match; simplify_eq/=); try (by eexists);
    repeat match goal with H : Cw.encodeData _ _ _ = _ |- _ => apply encodeData_queue in H end; exists q; cbn; congruence.
Qed.
End client.

(** ** Who has been given what *)

Section relays.
Context {F : Flate}.

(** What a client has been given is what the walks that came to it relay. *)
Definition given (h : hub) (i : nat) (cl : client) : Prop :=
  dropped cl = false ->
  NoDup (got cl).*1 /\
  (forall b m, (b, m) ∈ got cl -> exists f p, walks h !! b = Some f /\ call f = Relay p /\ i ∈ seen f /\ m = message p) /\
  (forall b f p, walks h !! b = Some f -> call f = Relay p -> i ∈ seen f -> (b, message p) ∈ got cl).

(** A walk that comes to nobody new. *)
Lemma given_set h i cl b f f' :
  walks h !! b = Some f -> call f' = call f -> seen f' = seen f -> given h i cl -> given (set_walk h b f') i cl.
Proof.
  intros Hb Ec Es Hg Hd. destruct (Hg Hd) as (G1 & G2 & G3). split; [done |]. cbn [walks set_walk]. split.
  - intros b1 m Hin. destruct (G2 b1 m Hin) as (f1 & p & Hf1 & Hp & Hs & Hm). destruct (decide (b1 = b)) as [-> | Hne].
    + exists f', p. rewrite lookup_insert_eq. split; [done |]. rewrite Ec, Es. rewrite Hb in Hf1. by injection Hf1 as ->.
    + exists f1, p. by rewrite lookup_insert_ne.
  - intros b1 f1 p. rewrite lookup_insert_Some. intros [[<- <-] | [_ Hf1]]; [| by apply G3].
    rewrite Ec, Es. by apply G3.
Qed.

Lemma given_start h i cl b c : walks h !! b = None -> given h i cl -> given (start h b c) i cl.
Proof.
  intros Hb Hg Hd. destruct (Hg Hd) as (G1 & G2 & G3). split; [done |]. cbn [walks set_walk start]. split.
  - intros b1 m Hin. destruct (G2 b1 m Hin) as (f1 & p & Hf1 & H). exists f1, p. rewrite lookup_insert_ne; [done |].
    intros <-. by rewrite Hb in Hf1.
  - intros b1 f1 p. rewrite lookup_insert_Some. intros [[<- <-] | [_ Hf1]]; [cbn; set_solver | by apply G3].
Qed.

(** A walk comes to a client: its call is made, and whatever becomes of the
    shared message it is the same message. *)
Section visited.
Context (h : hub) (b i : nat) (f : walk) (cl cl' : client) (c' : cast).
Context (Hb : walks h !! b = Some f) (Hs : i ∉ seen f).
Context (Hgot : match call f, c' with
  | Relay p, Relay p' => message p' = message p /\ (dropped cl' = false -> got cl' = got cl ++ [(b, message p)])
  | Pings, Pings => got cl' = got cl
  | _, _ => False
  end).

Definition visited : walk := {| call := c'; seen := {[i]} ∪ seen f; owed := owed f; over := false |}.

Lemma visited_call p : call f = Relay p -> exists p', c' = Relay p' /\ message p' = message p.
Proof using Hgot. intros E. rewrite E in Hgot. destruct c' as [p' |]; [| done]. exists p'. by split; [| apply Hgot]. Qed.

Lemma call_visited p' : c' = Relay p' -> exists p, call f = Relay p /\ message p' = message p.
Proof using Hgot. intros E. rewrite E in Hgot. destruct (call f) as [p |]; [| done]. exists p. by split; [| apply Hgot]. Qed.

Lemma given_other h' j cl1 : walks h' = walks h -> i <> j -> given h j cl1 -> given (set_walk h' b visited) j cl1.
Proof using Hgot Hb Hs.
  intros Ew Hne Hg1 Hd1. destruct (Hg1 Hd1) as (G1 & G2 & G3). split; [done |]. cbn [walks set_walk]. rewrite Ew. split.
  - intros b1 m Hin. destruct (G2 b1 m Hin) as (f1 & p & Hf1 & Hp & Hs1 & ->). destruct (decide (b1 = b)) as [-> | Hnb].
    + rewrite Hb in Hf1. injection Hf1 as <-. destruct (visited_call p Hp) as (p' & Ep & Em). exists visited, p'.
      rewrite lookup_insert_eq, Em. split; [done |]. split; [done |]. split; [cbn; set_solver | done].
    + exists f1, p. by rewrite lookup_insert_ne.
  - intros b1 f1 p1. rewrite lookup_insert_Some. intros [[<- <-] | [_ Hf1]] Hp1 Hs1; [| by eapply G3].
    cbn in Hp1, Hs1. destruct (call_visited p1 Hp1) as (p & Ep & ->). eapply G3; [exact Hb | exact Ep |].
    by apply elem_of_union in Hs1 as [->%elem_of_singleton | ?].
Qed.

Lemma got_visited x : dropped cl' = false -> x ∈ got cl' <-> x ∈ got cl \/ exists p, call f = Relay p /\ x = (b, message p).
Proof using Hgot.
  intros Hd. destruct (call f) as [p |]; destruct c' as [p' |]; try done.
  - destruct Hgot as [_ Eg]. rewrite (Eg Hd), elem_of_app, list_elem_of_singleton. split; [intros [? | ->]; eauto |].
    intros [? | (p1 & [= <-] & ->)]; auto.
  - rewrite Hgot. split; [by left |]. by intros [? | (? & ? & _)].
Qed.

Lemma given_visited h' : walks h' = walks h -> (dropped cl' = false -> dropped cl = false) -> given h i cl ->
  given (set_walk h' b visited) i cl'.
Proof using Hgot Hb Hs.
  intros Ew Hd Hg Hd'. destruct (Hg (Hd Hd')) as (G1 & G2 & G3). cbn [walks set_walk]. rewrite Ew.
  assert (b ∉ (got cl).*1) as Hnew.
  { intros ([b1 m] & Eb & Hin)%list_elem_of_fmap. cbn in Eb. subst b1. destruct (G2 _ _ Hin) as (f1 & p & Hf1 & _ & Hs1 & _).
    rewrite Hb in Hf1. by injection Hf1 as <-. }
  split; [| split].
  - destruct (call f) as [p |]; destruct c' as [p' |]; try done; [| by rewrite Hgot].
    destruct Hgot as [_ Eg]. rewrite (Eg Hd'), fmap_app. apply NoDup_app. split; [done |]. cbn. split; [| apply NoDup_singleton].
    by intros x Hx1 ->%list_elem_of_singleton.
  - intros b1 m [Hin | (p & Ep & [= -> ->])]%got_visited; [| | done].
    + destruct (G2 b1 m Hin) as (f1 & p & Hf1 & Hp & Hs1 & Hm). exists f1, p. rewrite lookup_insert_ne; [done |].
      intros <-. apply Hnew, list_elem_of_fmap. by exists (b, m).
    + destruct (visited_call p Ep) as (p' & Ec & Em). exists visited, p'. rewrite lookup_insert_eq, Em. split; [done |].
      split; [done |]. split; [cbn; set_solver | done].
  - intros b1 f1 p1. rewrite lookup_insert_Some. intros [[<- <-] | [Hne Hf1]] Hp1 Hs1; apply got_visited; try done.
    + right. cbn in Hp1. destruct (call_visited p1 Hp1) as (p & Ep & ->). by exists p.
    + left. by eapply G3.
Qed.
End visited.
End relays.

(** ** The invariant *)

Section proofs.
Context {M : Masker} `{!MaskerOk M} {G : Grow} `{!GrowOk G} {F : Flate} {FO : FlateOk F} {FB : FlateBytes F}.
Context {T : Transport} {R : Reliable T} (pools : Hs.Result -> World).
Context (Hpools : forall r, validConfig (hub_config r) = true -> WorldOk (pools r) (Sending.reach (hub_config r))).

Definition cast_ok (c : cast) : Prop := match c with Relay p => prepared_ok p | Pings => True end.

(** What the peer of a client can be told from: the messages it has been
    given, and room in its window's count for more. *)
Definition told (cl : client) : Prop :=
  forall bits, Sending.reach (hub_config (res cl)) <= Win.Size (Window_new bits) -> len (got cl) < 2 ^ 63 ->
  post (Sending.reach (hub_config (res cl))) Server (Hs.rCompression (res cl)) (peer_window (hub_config (res cl)) bits)
    (cconn cl) (Ghost None (got cl).*2) (2 ^ 63 - len (got cl)).

Record client_ok (cl : client) : Prop := {
  ok_config : validConfig (hub_config (res cl)) = true;
  ok_queue : is_Some (queue (cconn cl));
  ok_told : dropped cl = false -> told cl
}.

Lemma serve_client r vec cl : serve r vec = Some cl -> client_ok cl.
Proof.
  unfold serve. destruct (validConfig (hub_config r)) eqn:Ev; [| done]. intros [= <-].
  split; [done | by eexists |]. intros _ bits Hr _.
  pose proof (new_winv (hub_config r) vec bits (2 ^ 63 - 0) ltac:(lia) Hr) as Hw.
  destruct (NewQueue_post (Sending.reach (hub_config r)) Server (Hs.rCompression r) (peer_window (hub_config r) bits) _ [] [] _ _
    queueLimit (new_io (hub_config r) vec) Hw) as (H1 & H2 & _). by exists [], [].
Qed.

(** [Prepared] stays what it was, whatever connection uses it. *)
Lemma SendPrepared_prepared {W : World} cw {WO : WorldOk W cw} s q p w p' e :
  prepared_ok p -> Cw.SendPrepared s q p = (w, p', e) -> prepared_ok p' /\ message p' = message p.
Proof.
  intros Hp. unfold Cw.SendPrepared, message. destruct (decide _); [destruct (Cw.Send _ _ _ _); by intros [= _ <- _] |].
  destruct (Qu.reserve _ _); [by intros [= _ <- _] |].
  assert (forall s1 p1 r, Cw.preparedFrame s p = (s1, p1, r) -> prepared_ok p1 /\ pop p1 = pop p /\ ppayload p1 = ppayload p) as H.
  { unfold Cw.preparedFrame, Cw.frameFor, Cw.getCompressor. intros s1 p1 r.
    destruct (negb _); [by intros [= _ <- _] |]. destruct (Tx.CloseSent _); [by intros [= _ <- _] |].
    destruct (config (comp s)) as [c |]; [| by intros [= _ <- _]]. destruct (_ <? _); [by intros [= _ <- _] |].
    destruct (Cw.compressedFor p c (pooledCompressor (ticks s))) as [p2 bs] eqn:E. intros [= _ <- _].
    destruct (pool_ok (ticks s)) as (H1 & _ & _ & H2). by destruct (compressedFor_ok p c _ p2 bs Hp H1 H2 E) as (? & _ & ?). }
  destruct (Cw.preparedFrame s p) as [[s1 p1] r]. destruct (H s1 p1 r eq_refl) as (H1 & H2 & H3).
  destruct r as [frame | er]; [destruct (Cw.enqueue _ _ _ _ _) as [s2 er] |]; intros [= _ <- _]; by rewrite H2, H3.
Qed.

Lemma told_ping cl w op p r {WO : WorldOk (pools (res cl)) (Sending.reach (hub_config (res cl)))} :
  told cl -> sendable p -> op = Opcode.Ping \/ op = Opcode.Pong -> Cw.send (W := pools (res cl)) (cconn cl) op p = (w, r) ->
  told {| cl with cconn := w |}.
Proof.
  intros Ht Hp Hop E bits Hr Hl. destruct (Ht bits Hr Hl) as (fw & fq & Hio & Hw).
  pose proof (send_ping_keeps (W := pools (res cl)) (Sending.reach (hub_config (res cl))) (WO := WO) Server (Hs.rCompression (res cl)) (peer_window (hub_config (res cl)) bits)
    (cconn cl) fw fq _ _ op p Hio Hw Hp Hop) as H. rewrite E in H. by destruct H as (_ & _ & _ & _ & H).
Qed.

Lemma visit_ok b c cl cl' c' :
  client_ok cl -> cast_ok c -> visit pools b c cl = Some (cl', c') ->
  client_ok cl' /\ cast_ok c' /\ (dropped cl' = false -> dropped cl = false) /\ res cl' = res cl /\
  match c, c' with
  | Relay p, Relay p' => message p' = message p /\ (dropped cl' = false -> got cl' = got cl ++ [(b, message p)])
  | Pings, Pings => got cl' = got cl
  | _, _ => False
  end.
Proof.
  intros [H1 H2 H3] Hc. pose proof (Hpools _ H1) as HW. destruct c as [p |]; cbn [visit].
  - destruct (queue (cconn cl)) as [q |] eqn:Eq; [| done].
    destruct (Cw.SendPrepared (cconn cl) q p) as [[w p'] e] eqn:E. intros [= <- <-].
    destruct (SendPrepared_prepared _ _ _ _ _ _ _ Hc E) as [Hp' Em]. pose proof (SendPrepared_queue _ _ _ _ _ _ Eq E) as Hq.
    split; [| split; [done |]; by destruct e].
    destruct e as [e |]; [by split |]. split; [done | done |]. cbn. intros Hd bits Hr Hl. cbn [got res cconn] in *.
    rewrite len_app in Hl. change (len [(b, message p)]) with 1 in Hl.
    destruct (H3 Hd bits Hr ltac:(lia)) as (fw & fq & Hio & Hw).
    pose proof (SendPrepared_post (W := pools (res cl)) (Sending.reach (hub_config (res cl))) Server (Hs.rCompression (res cl))
      (peer_window (hub_config (res cl)) bits) (cconn cl) q fw fq (Ghost None (got cl).*2) (2 ^ 63 - (len (got cl) + 1)) p ltac:(lia) Eq Hio) as Hs.
    replace (1 + (2 ^ 63 - (len (got cl) + 1))) with (2 ^ 63 - len (got cl)) in Hs by lia. specialize (Hs Hw Hc). rewrite E in Hs.
    destruct Hs as [_ Hs]. rewrite len_app, fmap_app. change (len [(b, message p)]) with 1.
    destruct (_ && _ && _); [by destruct Hs as [_ Hs] | by destruct Hs as [[x Hx] _]].
  - destruct (Cw.Ping (cconn cl) []) as [w [[e |] |]] eqn:E; [| | done]; intros [= <- <-];
      pose proof (send_queue _ _ _ _ _ E) as Hq; rewrite <- Hq in H2; [by split |].
    split; [| by split_and!]. split; [done | done |]. cbn. intros Hd.
    apply (told_ping cl w Opcode.Ping [] (Some None)); [by apply H3 | by split; [apply Forall_nil_2 |] | by left | exact E].
Qed.

(** What the rest of the program does to a client. *)
Lemma client_pong cl p w r :
  client_ok cl -> control_ok p -> Cw.Pong (W := pools (res cl)) (cconn cl) p = (w, r) -> client_ok {| cl with cconn := w |}.
Proof.
  intros [H1 H2 H3] [Hb Hl] E. pose proof (Hpools _ H1) as HW. split; [done | |]; cbn.
  - unfold Cw.Pong in E. by rewrite (send_queue _ _ _ _ _ E).
  - intros Hd. apply (told_ping cl w Opcode.Pong p r); [by apply H3 | split; [done | lia] | by right | exact E].
Qed.

Lemma client_close cl code reason w r :
  client_ok cl -> 0 <= code < 2 ^ 16 ->
  OnClose (DefaultControlHandler (W := pools (res cl))) (cconn cl) code reason = (w, r) -> client_ok {| cl with cconn := w |}.
Proof.
  intros [H1 H2 H3] Hc E. pose proof (Hpools _ H1) as HW. split; [done | |]; cbn.
  - cbn [OnClose DefaultControlHandler] in E. pose proof (Close_queue (W := pools (res cl)) (cconn cl) (if code =? NoStatus then 0 else code) [] H2) as Hq.
    destruct (Cw.Close _ _ _) as [w' r']. by injection E as <- _.
  - intros Hd bits Hr Hl. destruct (default_close (W := pools (res cl)) (Sending.reach (hub_config (res cl))) Server (Hs.rCompression (res cl))
      (peer_window (hub_config (res cl)) bits) _ _ (cconn cl) code reason Hc (H3 Hd bits Hr Hl)) as (w' & r' & E' & H).
    rewrite E' in E. by injection E as <- _.
Qed.

Lemma client_write cl : client_ok cl -> client_ok {| cl with cconn := Cw.run 2 (cconn cl) |}.
Proof.
  intros [H1 H2 H3]. split; [done | |]; cbn [dropped cconn]; [by apply run_queue |].
  intros Hd bits Hr Hl. destruct (H3 Hd bits Hr Hl) as (fw & fq & Hio & Hw). destruct (run_all _ _ _ Hio) as (Hio' & Hs & _).
  exists (fw ++ fq), []. split; [done |]. rewrite app_nil_r. by eapply winv_io.
Qed.

Lemma client_dropped cl w : client_ok cl -> is_Some (queue w) -> client_ok (mkClient (res cl) w true (got cl)).
Proof. intros [H1 _ _] Hq. by split. Qed.
(** ** The whole hub *)

Record hub_ok (h : hub) : Prop := {
  hub_clients : map_Forall (fun i cl => client_ok cl /\ given h i cl) (clients h);
  hub_used : dom (clients h) ⊆ used h;
  hub_walks : map_Forall (fun b f => cast_ok (call f) /\ seen f ⊆ used h /\ owed f ⊆ used h /\
    (over f = true -> owed f ∩ dom (clients h) ⊆ seen f)) (walks h)
}.

Lemma client_in h i cl : hub_ok h -> clients h !! i = Some cl -> i ∈ used h /\ client_ok cl /\ given h i cl.
Proof. intros [H1 H2 _] Hi. destruct (H1 i cl Hi). split; [| done]. apply H2. by apply elem_of_dom. Qed.

(** A step of one client alone. *)
Lemma set_client_ok h i cl cl' :
  hub_ok h -> clients h !! i = Some cl -> client_ok cl' -> got cl' = got cl -> (dropped cl' = false -> dropped cl = false) ->
  hub_ok (set_client h i cl').
Proof.
  intros Hh Hi Hcl Eg Hd. destruct (client_in h i cl Hh Hi) as (Hu & _ & Hg). destruct Hh as [H1 H2 H3].
  assert (dom (<[i := cl']> (clients h)) = dom (clients h)) as Ed by (apply dom_insert_lookup_L; by eexists).
  split; cbn; rewrite ?Ed; [| done | done].
  apply map_Forall_insert_2; [split; [done |] | exact H1]. intros Hd'. rewrite Eg. by apply Hg, Hd.
Qed.

Lemma start_ok h b c : hub_ok h -> walks h !! b = None -> cast_ok c -> hub_ok (start h b c).
Proof.
  intros [H1 H2 H3] Hb Hc. split; [| done |].
  - intros i cl Hi. destruct (H1 i cl Hi) as [? Hg]. split; [done | by apply given_start].
  - apply map_Forall_insert_2; [| exact H3]. cbn. split; [done |]. split; [set_solver |]. by split.
Qed.

Lemma visited_ok h b i f cl cl' c' :
  hub_ok h -> walks h !! b = Some f -> over f = false -> i ∉ seen f -> clients h !! i = Some cl ->
  visit pools b (call f) cl = Some (cl', c') -> hub_ok (set_walk (set_client h i cl') b (visited i f c')).
Proof.
  intros Hh Hb Ho Hs Hi Hv. destruct (client_in h i cl Hh Hi) as (Hu & Hcl & Hg). destruct Hh as [H1 H2 H3].
  destruct (H3 b f Hb) as (Hc & W1 & W2 & W3).
  destruct (visit_ok b (call f) cl cl' c' Hcl Hc Hv) as (Hcl' & Hc' & Hd & _ & Hgot).
  assert (dom (<[i := cl']> (clients h)) = dom (clients h)) as Ed by (apply dom_insert_lookup_L; by eexists).
  split; cbn [clients walks used set_walk set_client]; rewrite ?Ed; [| done |].
  - intros j cl1. rewrite lookup_insert_Some. intros [[<- <-] | [Hne Hj]].
    + split; [done |]. by apply (given_visited h b i f cl).
    + destruct (H1 j cl1 Hj) as [? Hg1]. split; [done |]. by apply (given_other h b i f cl cl').
  - apply map_Forall_insert_2; [| exact H3]. cbn. split; [done |]. split; [| by split].
    apply union_subseteq. by rewrite singleton_subseteq_l.
Qed.

Lemma hub_step h h' : hub_ok h -> step pools h h' -> hub_ok h'.
Proof.
  intros Hh Hs. destruct Hs as [h i r vec cl Hi Hcl | h i | h b op payload p Hb Hp E | h b Hb | h b i f cl cl' c' Hb Ho Hs Hi Hv
    | h b f Hb Hov | h i cl p w r Hi Hp E | h i cl code reason w r Hi Hc E | h i cl code Hi | h i cl Hi | h i cl w Hi Hd Hq].
  - destruct Hh as [H1 H2 H3]. split; cbn.
    + apply map_Forall_insert_2; [split; [by eapply serve_client |] | exact H1]. intros _.
      assert (got cl = []) as -> by (unfold serve in Hcl; destruct (validConfig _); by simplify_eq/=).
      split; [apply NoDup_nil_2 |]. split; [intros b m Hin; exfalso; exact (not_elem_of_nil _ Hin) |].
      intros b f p Hb _ Hs. destruct (H3 b f Hb) as (_ & W & _). set_solver.
    + rewrite dom_insert_L. set_solver.
    + intros b f Hb. destruct (H3 b f Hb) as (W1 & W2 & W3 & W4). split; [done |]. split; [set_solver |]. split; [set_solver |].
      intros Ho. rewrite dom_insert_L. specialize (W4 Ho). set_solver.
  - destruct Hh as [H1 H2 H3]. split; cbn; [by apply map_Forall_delete | rewrite dom_delete_L; set_solver |].
    intros b f Hb. destruct (H3 b f Hb) as (W1 & W2 & W3 & W4). split_and!; try done.
    intros Ho. rewrite dom_delete_L. specialize (W4 Ho). set_solver.
  - apply start_ok; [done | done |]. by apply (Prepare_ok op payload p).
  - by apply start_ok.
  - by apply (visited_ok h b i f cl).
  - destruct Hh as [H1 H2 H3]. split; cbn; [| done |].
    + intros i cl Hi. destruct (H1 i cl Hi) as [? Hg]. split; [done |]. by apply (given_set h i cl b f).
    + apply map_Forall_insert_2; [| exact H3]. destruct (H3 b f Hb) as (W1 & W2 & W3 & W4). by split_and!.
  - destruct (client_in h i cl Hh Hi) as (_ & Hcl & _). apply (set_client_ok h i cl); try done. by apply (client_pong cl p w r).
  - destruct (client_in h i cl Hh Hi) as (_ & Hcl & _). apply (set_client_ok h i cl); try done.
    by apply (client_close cl code reason w r).
  - destruct (client_in h i cl Hh Hi) as (_ & Hcl & _). apply (set_client_ok h i cl); try done.
    apply (client_dropped cl _ Hcl). rewrite sendClose_queue. apply Hcl.
  - destruct (client_in h i cl Hh Hi) as (_ & Hcl & _). apply (set_client_ok h i cl); try done. by apply client_write.
  - destruct (client_in h i cl Hh Hi) as (_ & Hcl & _). apply (set_client_ok h i cl); try done.
    pose proof (client_dropped cl w Hcl Hq) as H. by rewrite <- Hd in H.
Qed.

Lemma hub_reach h : reach pools h -> hub_ok h.
Proof.
  intros Hr. unfold reach in Hr. remember init as h0 eqn:E0. assert (hub_ok h0) as H0 by (subst h0; by split).
  clear E0. induction Hr as [| h1 h2 h3 Hs _ IH]; [done |]. apply IH. by eapply hub_step.
Qed.

(** A walk never waits: whatever state a client is in, the call for it
    returns. *)
Lemma walk_proceeds h b f i cl :
  reach pools h -> walks h !! b = Some f -> clients h !! i = Some cl -> is_Some (visit pools b (call f) cl).
Proof.
  intros Hr Hb Hi. destruct (client_in h i cl (hub_reach h Hr) Hi) as (_ & [_ [q Eq] _] & _). unfold visit.
  destruct (call f) as [p |].
  - rewrite Eq. destruct (Cw.SendPrepared _ _ _) as [[w p'] e]. by eexists.
  - unfold Cw.Ping, Cw.send. destruct (_ && _ && _ && _); [by eexists |]. destruct (Cw.tx_call _ _) as [s1 [[hd body] | e]]; [| by eexists].
    destruct (Cw.write _ _ _) as [s2 [e |]]; by eexists.
Qed.

(** ** Property *)

Context {I : Inflater} {IO : InflaterOk I} {IS : InflaterSpec I} {AG : Agrees FO IS} {RW : ReadWorld} {RO : ReadWorldOk RW}.

(** C13. No gaps.  Whatever relays, rounds of pings, joins, departures, reads
    and writers do in between, a client that is still connected and whose
    transport has not been closed has been given, once, every relay that began
    while it was there and has ended, though other clients have failed or are
    slow; and what its connection has written is read by its peer as exactly
    the messages given to it, in that order, prepared once for all and
    compressed or not. *)
Theorem hub_no_gaps {W : World} h i cl :
  reach pools h -> clients h !! i = Some cl -> dropped cl = false -> len (got cl) < 2 ^ 63 ->
  NoDup (got cl).*1 /\
  (forall b f p, walks h !! b = Some f -> over f = true -> i ∈ owed f -> call f = Relay p -> (b, message p) ∈ got cl) /\
  (forall b m, (b, m) ∈ got cl -> exists f p, walks h !! b = Some f /\ call f = Relay p /\ m = message p) /\
  forall rcfg hd vec P chunks c fuel k,
    peers (hub_config (res cl)) rcfg -> MaxMessageSize rcfg < 2 ^ 63 ->
    concat chunks = written (out (Cw.run 2 (cconn cl))) -> Forall (fun b => b <> []) chunks ->
    NewConn rcfg hd vec (pieces chunks) = Ok c ->
    agreeable (default DefaultControlHandler hd) P -> P (newWrite rcfg vec) ->
    fits (message_limit rcfg) (received (run Client (compressing (hub_config (res cl))) spec_init (concat chunks)).2) ->
    Forall (fun m => len m.2 <= message_limit rcfg /\
      (m.1 = Opcode.Text -> ValidateUTF8 rcfg = true -> Utf8.Valid m.2 = true)) (got cl).*2 ->
    2 * len (concat chunks) + 2 * message_limit rcfg + 11 < Z.of_nat fuel -> (length (got cl) < k)%nat ->
    exists c' e, read_all fuel k c = Some (c', (got cl).*2, e).
Proof.
  intros Hr Hi Hd Hl. pose proof (hub_reach h Hr) as Hh. destruct (client_in h i cl Hh Hi) as (_ & [_ _ Ht] & Hg).
  destruct (Hg Hd) as (G1 & G2 & G3). split; [done |]. split; [| split].
  - intros b f p Hb Ho Hin Hp. destruct (hub_walks h Hh b f Hb) as (_ & _ & _ & Hw). eapply G3; [exact Hb | exact Hp |].
    apply (Hw Ho). apply elem_of_intersection. split; [done | by apply elem_of_dom].
  - intros b m Hin. destruct (G2 b m Hin) as (f & p & ? & ? & _ & ?). by exists f, p.
  - intros rcfg hdl vec P chunks c fuel k Hp Hmax Ech Hne Hc Hq HP Hfit Hms Hfuel Hk.
    destruct (peers_window _ _ Hp) as (_ & _ & Hw). pose proof (Ht Hd (receive_bits rcfg) Hw Hl) as Hpost.
    destruct (post_due _ _ _ _ _ rcfg hdl vec chunks c Hp Hmax Hpost Ech Hne Hc Hfit Hms) as (sp & evs & Hdue & Hev & E1 & E2 & E3 & E4).
    destruct (read_fuel evs chunks (limit c) fuel Hev E4) as [F1 F2]; [by rewrite E3 |].
    eapply (read_all_post fuel k P _ c sp evs (Io EOF) []); try done; [by rewrite E1 | by rewrite E2 | by rewrite length_fmap].
Qed.
End proofs.

(** ** Two clients and a relay, evaluated *)

#[local] Existing Instance swar_masker.
#[local] Existing Instance double_growth.
#[local] Existing Instance double_growth_ok.
#[local] Existing Instance stored_flate.
#[local] Existing Instance stored_flate_bytes.
#[local] Existing Instance perfect.
#[local] Existing Instance perfect_reliable.
#[local] Existing Instance stored_world.
#[local] Existing Instance stored_world_ok.
#[local] Existing Instance fresh_pools.
#[local] Existing Instance fresh_pools_ok.

Definition hub_pools (r : Hs.Result) : World := {|
  rand _ := [1; 2; 3; 4];
  pooledCompressor _ := mkCompressor stored_flate ([], Sending.reach (hub_config r)) [] (Sending.reach (hub_config r)) None 0 false;
  pooledArena := arena_new
|}.

Lemma hub_pools_ok r : validConfig (hub_config r) = true -> WorldOk (hub_pools r) (Sending.reach (hub_config r)).
Proof.
  intros _. split; [intros t | intros t | done].
  - split; [apply (bool_decide_unpack _); vm_compute; exact Logic.I | done].
  - split_and!; try done. unfold comp_ok. cbn. apply Z.max_r. unfold Sending.reach.
    destruct (cCompression _); [pose proof (Size_pos (Window_new (Hs.SendWindowBits c))); lia | done].
Qed.

Definition packed : Hs.Result := Hs.mkResult (Some (Hs.mkCompression 1 1 true true 15 15)) [].
Definition plain : Hs.Result := Hs.mkResult None [].

Definition client_of (r : Hs.Result) : client :=
  mkClient r (Cw.NewQueue (newWrite (hub_config r) true) queueLimit) false [].

Definition hi : Prepared := match Cw.Prepare Opcode.Text [72; 105] with Ok p => p | Err _ => mkPrepared 0 [] [] [] end.

(** The relay comes to the first client, then to the second. *)
Definition after_first : client * cast := default (client_of packed, Relay hi) (visit hub_pools 7 (Relay hi) (client_of packed)).
Definition after_second : client * cast := default (client_of plain, Relay hi) (visit hub_pools 7 after_first.2 (client_of plain)).

Definition joined : hub :=
  mkHub (<[1%nat := client_of plain]> (<[0%nat := client_of packed]> ∅)) ∅ ({[1%nat]} ∪ ({[0%nat]} ∪ ∅)).
Definition asked : walk := {| call := Relay hi; seen := ∅; owed := dom (clients joined); over := false |}.
Definition relayed : hub :=
  let h := start joined 7 (Relay hi) in
  let h := set_walk (set_client h 0 after_first.1) 7 (visited 0 asked after_first.2) in
  let h := set_walk (set_client h 1 after_second.1) 7 (visited 1 (visited 0 asked after_first.2) after_second.2) in
  let f := visited 1 (visited 0 asked after_first.2) after_second.2 in
  set_walk h 7 {| f with over := true |}.

Lemma visit_default (o : option (client * cast)) d : bool_decide (is_Some o) = true -> o = Some ((default d o).1, (default d o).2).
Proof. intros H. apply bool_decide_eq_true in H as [[cl c] ->]. done. Qed.

Lemma first_visit : visit hub_pools 7 (Relay hi) (client_of packed) = Some (after_first.1, after_first.2).
Proof. apply visit_default. vm_compute. reflexivity. Qed.

Lemma second_visit : visit hub_pools 7 after_first.2 (client_of plain) = Some (after_second.1, after_second.2).
Proof. apply visit_default. vm_compute. reflexivity. Qed.

Lemma relayed_reach : reach hub_pools relayed.
Proof.
  eapply rtc_l; [by apply (step_store _ init 0 packed true (client_of packed)) |].
  eapply rtc_l; [apply (step_store _ _ 1 plain true (client_of plain)); [set_solver | done] |].
  eapply rtc_l; [apply (step_broadcast _ _ 7 Opcode.Text [72; 105] hi); [done | | done] |].
  { split; [apply (bool_decide_unpack _); vm_compute; exact Logic.I | done]. }
  eapply rtc_l; [apply (step_visit _ _ 7 0 asked (client_of packed) after_first.1 after_first.2); [done | done | set_solver | done | exact first_visit] |].
  eapply rtc_l; [apply (step_visit _ _ 7 1 (visited 0 asked after_first.2) (client_of plain) after_second.1 after_second.2);
    [done | done | cbn; set_solver | done | exact second_visit] |].
  eapply rtc_l; [apply (step_over _ _ 7 (visited 1 (visited 0 asked after_first.2) after_second.2)); [done |] |]; [| apply rtc_refl].
  apply (bool_decide_unpack _). vm_compute. exact Logic.I.
Qed.

Definition hi_bytes : list Z := Eval vm_compute in written (out (Cw.run 2 (cconn after_first.1))).

Lemma hub_no_gaps_witness :
  exists cl c c' e, reach hub_pools relayed /\ clients relayed !! 0%nat = Some cl /\ (7%nat, (Opcode.Text, [72; 105])) ∈ got cl /\
    NewConn demo_client None false (pieces (cut 30 3 (written (out (Cw.run 2 (cconn cl)))))) = Ok c /\
    read_all 4000 3 c = Some (c', [(Opcode.Text, [72; 105])], e).
Proof.
  assert (clients relayed !! 0%nat = Some after_first.1) as Hcl by done.
  assert ((got after_first.1) = [(7%nat, (Opcode.Text, [72; 105]))]) as Eg by (vm_compute; reflexivity).
  assert (written (out (Cw.run 2 (cconn after_first.1))) = hi_bytes) as Eb by (vm_compute; reflexivity).
  assert (res after_first.1 = packed) as Er by (vm_compute; reflexivity).
  destruct (default_agreeable demo_client (WO := stored_world_ok) false) as (P & HP1 & HP2).
  destruct (NewConn demo_client None false (pieces (cut 30 3 hi_bytes))) as [c |] eqn:Ec; [| discriminate Ec].
  destruct (hub_no_gaps (W := stored_world) hub_pools hub_pools_ok relayed 0 after_first.1 relayed_reach Hcl) as (_ & H1 & _ & H2).
  - vm_compute. reflexivity.
  - rewrite Eg. vm_compute. reflexivity.
  - destruct (H2 demo_client None false P (cut 30 3 hi_bytes) c 4000%nat 3%nat) as (c' & e & Hr).
    + rewrite Er. split; [reflexivity | split; [reflexivity | vm_compute; discriminate]].
    + vm_compute. reflexivity.
    + rewrite Eb. vm_compute. reflexivity.
    + apply (bool_decide_unpack _). vm_compute. exact Logic.I.
    + exact Ec.
    + exact HP1.
    + exact HP2.
    + rewrite Er. apply (bool_decide_unpack _). vm_compute. exact Logic.I.
    + rewrite Eg. apply Forall_cons. split; [| apply Forall_nil_2]. split; [vm_compute; discriminate | intros _ _; vm_compute; reflexivity].
    + vm_compute. reflexivity.
    + rewrite Eg. apply (bool_decide_unpack _). vm_compute. exact Logic.I.
    + rewrite Eg in Hr. exists after_first.1, c, c', e. split; [exact relayed_reach |]. split; [exact Hcl |].
      split; [rewrite Eg; by apply list_elem_of_singleton |]. split; [rewrite Eb; exact Ec | exact Hr].
Defined.
