(* ===== verification/Decimal.v ===== *)
(** * Decimal numbers

    [strconv.ParseFloat] and the [%.nf] of package fmt, as far as the report
    of the benchmarks uses them: a float64 is a [spec_float], a decimal is
    rounded to it and it is rounded to decimals, both to nearest even. *)

From Stdlib Require Import SpecFloat.
From stdpp Require Import prelude strings.
From S2P Require Import Prelude Strings.

Abbreviation float64 := spec_float.

Definition of_int (n : Z) : float64 :=
  match n with
  | Z0 => S754_zero false
  | Zpos m => binary_normalize 53 1024 n 0 false
  | Zneg m => binary_normalize 53 1024 n 0 false
  end.

Definition fdiv (x y : float64) : float64 := SFdiv 53 1024 x y.
Definition fadd (x y : float64) : float64 := SFadd 53 1024 x y.
Definition fsub (x y : float64) : float64 := SFsub 53 1024 x y.
Definition fmul (x y : float64) : float64 := SFmul 53 1024 x y.
Definition flt (x y : float64) : bool := SFltb x y.
Definition fle (x y : float64) : bool := SFleb x y.

Definition zero : float64 := S754_zero false.

(** ** Reading *)

(** The quotient of two exact integers, rounded once. *)
Definition ratio (m d : Z) : float64 :=
  match m, d with
  | Zpos m, Zpos d => SFdiv 53 1024 (S754_finite false m 0) (S754_finite false d 0)
  | _, _ => zero
  end.

(** [ParseFloat] of a string of digits and dots, its error ignored: no number
    is zero, one too large infinite. *)
Definition ParseFloat (l : list Z) : float64 :=
  let '(whole, frac, _) := Strings.cut 46 l in
  match digits 0 (whole ++ frac) with
  | Some m => if bool_decide (whole ++ frac = []) then zero else ratio m (10 ^ len frac)
  | None => zero
  end.

(** A conversion to int: toward zero. *)
Definition to_int (x : float64) : Z :=
  match x with
  | S754_finite s m e =>
      let n := if 0 <=? e then Zpos m * 2 ^ e else Zpos m / 2 ^ (- e) in
      let n := if (s : bool) then - n else n in
      if (- 2 ^ 63 <=? n) && (n <? 2 ^ 63) then n else - 2 ^ 63
  | S754_zero _ => 0
  | _ => - 2 ^ 63
  end.

(** ** Writing *)

Definition nearest_even (num den : Z) : Z :=
  let q := num / den in
  let r := num mod den in
  if (2 * r <? den) || ((2 * r =? den) && Z.even q) then q else q + 1.

(** The digits of a number of any size. *)
Definition decimal (n : Z) : list Z := itoa_digits (S (Z.to_nat (Z.log2 n))) n [].

Definition fixed (p : Z) (n : Z) : list Z :=
  let whole := decimal (n / 10 ^ p) in
  if p =? 0 then whole
  else
    let frac := decimal (n mod 10 ^ p) in
    whole ++ str "." ++ replicate (Z.to_nat (p - len frac)) 48 ++ frac.

(** [%.pf] *)
Definition format_fixed (p : Z) (x : float64) : list Z :=
  let minus (s : bool) := if s then str "-" else [] in
  match x with
  | S754_zero s => minus s ++ fixed p 0
  | S754_infinity s => if s : bool then str "-Inf" else str "+Inf"
  | S754_nan => str "NaN"
  | S754_finite s m e =>
      minus s ++
      fixed p (if 0 <=? e then Zpos m * 2 ^ e * 10 ^ p else nearest_even (Zpos m * 10 ^ p) (2 ^ (- e)))
  end.

Example parse_614_4 : ParseFloat (str "614.4") = S754_finite false 5404319552844595 (-43).
Proof. vm_compute. reflexivity. Qed.

Example format_half_even : (fun p => format_fixed p (ParseFloat (str "0.125"))) <$> [0; 1; 2; 3]
  = [str "0"; str "0.1"; str "0.12"; str "0.125"].
Proof. vm_compute. reflexivity. Qed.

Example parse_more : ParseFloat <$> [str "1.2.3"; str "."; str "5."; str ".5"]
  = [zero; zero; of_int 5; ratio 1 2].
Proof. vm_compute. reflexivity. Qed.
