(* ===== verification/Regexp.v ===== *)
(** * Regular expressions

    The matching of package regexp, for expressions that are sequences of
    literals and repeated classes: leftmost, and among the matches there the
    one backtracking would find first. *)

From stdpp Require Import prelude strings.
From S2P Require Import Prelude Strings.

(** A literal; or one or more bytes ([plus], else any number) of a class, as
    many or as few as it takes ([greedy]), remembered or not. *)
Inductive item :=
  | Lit (l : list Z)
  | Rep (capture greedy plus : bool) (p : Z -> bool).

Section rep.
Context {A : Type} (p : Z -> bool) (k : list Z -> list Z -> option A).

(** [acc] is what has been taken, [s] what is left. *)
Fixpoint most (acc s : list Z) : option A :=
  match s with
  | x :: s' =>
      if p x then match most (acc ++ [x]) s' with Some r => Some r | None => k acc s end
      else k acc s
  | [] => k acc s
  end.

Fixpoint fewest (acc s : list Z) : option A :=
  match k acc s with
  | Some r => Some r
  | None =>
      match s with
      | x :: s' => if p x then fewest (acc ++ [x]) s' else None
      | [] => None
      end
  end.
End rep.

(** [anchored] is a [$] at the end; the captures in order. *)
Fixpoint matches (anchored : bool) (its : list item) (s : list Z) : option (list (list Z)) :=
  match its with
  | [] => if anchored && negb (bool_decide (s = [])) then None else Some []
  | Lit l :: its => s ← strip_prefix l s; matches anchored its s
  | Rep capture greedy plus p :: its =>
      let k acc s := caps ← matches anchored its s; Some (if capture then acc :: caps else caps) in
      let go := if greedy then most p k else fewest p k in
      if plus then match s with x :: s => if p x then go [x] s else None | [] => None end
      else go [] s
  end.

(** Not tied to the start: the leftmost match. *)
Fixpoint search (its : list item) (s : list Z) : option (list (list Z)) :=
  match matches false its s with
  | Some caps => Some caps
  | None => match s with [] => None | _ :: s => search its s end
  end.

(** ** Classes *)

Definition is_digit (b : Z) : bool := (48 <=? b) && (b <=? 57).
Definition is_word (b : Z) : bool := is_digit b || ((65 <=? b) && (b <=? 90)) || ((97 <=? b) && (b <=? 122)) || (b =? 95).
Definition is_space (b : Z) : bool := (b =? 9) || (b =? 10) || (b =? 12) || (b =? 13) || (b =? 32).
Definition not_space (b : Z) : bool := negb (is_space b).
Definition is_decimal (b : Z) : bool := is_digit b || (b =? 46).
Definition is_any (b : Z) : bool := negb (b =? 10).

(** ** Matching *)

Definition starts_in (p : Z -> bool) (s : list Z) : bool := match s with x :: _ => p x | [] => false end.

Lemma strip_prefix_app l s : strip_prefix l (l ++ s) = Some s.
Proof. induction l as [| b l IH]; [done |]. cbn [app strip_prefix]. by rewrite Z.eqb_refl. Qed.

Lemma strip_prefix_Some l s r : strip_prefix l s = Some r -> s = l ++ r.
Proof.
  revert s. induction l as [| b l IH]; intros s; cbn [strip_prefix]; [by intros [= ->] |].
  destruct s as [| c s]; [done |]. destruct (Z.eqb_spec b c) as [-> |]; [| done]. intros E. by rewrite (IH s E).
Qed.

Lemma matches_Lit an l its s : matches an (Lit l :: its) (l ++ s) = matches an its s.
Proof. cbn [matches]. by rewrite strip_prefix_app. Qed.

Lemma most_all {A} p (k : list Z -> list Z -> option A) acc w s r :
  forallb p w = true -> starts_in p s = false -> k (acc ++ w) s = Some r -> most p k acc (w ++ s) = Some r.
Proof.
  revert acc. induction w as [| x w IH]; intros acc Hw Hs Hk; cbn [app].
  - rewrite app_nil_r in Hk. destruct s as [| y s]; [exact Hk |]. cbn [most starts_in] in *. by rewrite Hs.
  - cbn [forallb] in Hw. apply andb_prop in Hw as [Hx Hw]. cbn [most]. rewrite Hx.
    by rewrite (IH (acc ++ [x]) Hw Hs ltac:(by rewrite <- app_assoc)).
Qed.

Lemma most_none {A} p (k : list Z -> list Z -> option A) acc s :
  (forall w r, s = w ++ r -> forallb p w = true -> k (acc ++ w) r = None) -> most p k acc s = None.
Proof.
  revert acc. induction s as [| x s IH]; intros acc Hk; cbn [most].
  { specialize (Hk [] [] eq_refl eq_refl). by rewrite app_nil_r in Hk. }
  assert (k acc (x :: s) = None) as E0 by (rewrite <- (app_nil_r acc); by apply (Hk [])).
  destruct (p x) eqn:Ex; [| done]. rewrite IH; [done |]. intros w r -> Hw. rewrite <- app_assoc. apply (Hk (x :: w) r eq_refl).
  cbn. by rewrite Ex.
Qed.

Lemma fewest_all {A} p (k : list Z -> list Z -> option A) acc w s r :
  forallb p w = true -> (forall w1 w2, w = w1 ++ w2 -> w2 <> [] -> k (acc ++ w1) (w2 ++ s) = None) ->
  k (acc ++ w) s = Some r -> fewest p k acc (w ++ s) = Some r.
Proof.
  revert acc. induction w as [| x w IH]; intros acc Hw Hno Hk.
  - rewrite app_nil_r in Hk. cbn [app]. destruct s; cbn [fewest]; by rewrite Hk.
  - cbn [forallb] in Hw. apply andb_prop in Hw as [Hx Hw]. cbn [app fewest].
    pose proof (Hno [] (x :: w) eq_refl ltac:(done)) as E0. rewrite app_nil_r in E0. cbn [app] in E0. rewrite E0, Hx.
    apply IH; [done | | by rewrite <- app_assoc]. intros w1 w2 -> Hn. rewrite <- app_assoc. by apply (Hno (x :: w1)).
Qed.

(** A greedy repetition that takes a whole run. *)
Lemma matches_run an capture p its w s caps :
  forallb p w = true -> w <> [] -> starts_in p s = false -> matches an its s = Some caps ->
  matches an (Rep capture true true p :: its) (w ++ s) = Some (if capture then w :: caps else caps).
Proof.
  intros Hw Hn Hs Hm. destruct w as [| x w]; [done |]. cbn [forallb] in Hw. apply andb_prop in Hw as [Hx Hw].
  cbn [matches app]. rewrite Hx. eapply most_all; [done | done |]. by rewrite Hm.
Qed.

(** The last repetition takes what is left. *)
Lemma matches_rest p s : forallb p s = true -> matches true [Rep true true false p] s = Some [s].
Proof.
  intros Hs. assert (forall t, t = s ++ [] -> matches true [Rep true true false p] t = Some [s]) as H.
  { intros t ->. cbn [matches]. by apply most_all. }
  apply H. by rewrite app_nil_r.
Qed.

(** ** What matches *)

Inductive parse : list item -> list Z -> list Z -> list (list Z) -> Prop :=
  | parse_end rest : parse [] rest rest []
  | parse_lit l its s rest caps : parse its s rest caps -> parse (Lit l :: its) (l ++ s) rest caps
  | parse_rep (capture greedy plus : bool) p its w s rest caps :
      forallb p w = true -> (plus = true -> w <> []) -> parse its s rest caps ->
      parse (Rep capture greedy plus p :: its) (w ++ s) rest (if capture then w :: caps else caps).

Lemma most_sound {A} p (k : list Z -> list Z -> option A) acc s r :
  most p k acc s = Some r -> exists w s', s = w ++ s' /\ forallb p w = true /\ k (acc ++ w) s' = Some r.
Proof.
  revert acc. induction s as [| x s IH]; intros acc; cbn [most].
  { intros E. exists [], []. rewrite ?app_nil_r. by split_and!. }
  destruct (p x) eqn:Ex; [| intros E; exists [], (x :: s); rewrite ?app_nil_r; by split_and!].
  destruct (most p k (acc ++ [x]) s) as [r' |] eqn:Em; [| intros E; exists [], (x :: s); rewrite ?app_nil_r; by split_and!].
  intros [= ->]. destruct (IH _ Em) as (w & s' & -> & Hw & Hk). exists (x :: w), s'. cbn [app forallb]. rewrite Ex, Hw.
  rewrite <- app_assoc in Hk. by split_and!.
Qed.

Lemma fewest_sound {A} p (k : list Z -> list Z -> option A) acc s r :
  fewest p k acc s = Some r -> exists w s', s = w ++ s' /\ forallb p w = true /\ k (acc ++ w) s' = Some r.
Proof.
  revert acc. induction s as [| x s IH]; intros acc; cbn [fewest].
  { destruct (k acc []) as [r' |] eqn:Ek; [| done]. intros [= ->]. exists [], []. rewrite ?app_nil_r. by split_and!. }
  destruct (k acc (x :: s)) as [r' |] eqn:Ek; [intros [= ->]; exists [], (x :: s); rewrite ?app_nil_r; by split_and! |].
  destruct (p x) eqn:Ex; [| done]. intros E. destruct (IH _ E) as (w & s' & -> & Hw & Hk). exists (x :: w), s'.
  cbn [app forallb]. rewrite Ex, Hw. by rewrite <- app_assoc in Hk.
Qed.

Lemma matches_sound an its s caps :
  matches an its s = Some caps -> exists rest, parse its s rest caps /\ (an = true -> rest = []).
Proof.
  revert s caps. induction its as [| it its IH]; intros s caps.
  { cbn [matches]. destruct (bool_decide_reflect (s = [])) as [-> | Hs]; destruct an; cbn; try done; intros [= <-];
      eexists; (split; [constructor | done]). }
  destruct it as [l | capture greedy plus p]; cbn [matches].
  - destruct (strip_prefix l s) as [s' |] eqn:E; [| done]. apply strip_prefix_Some in E as ->. cbn. intros Hm.
    destruct (IH _ _ Hm) as (rest & Hp & Hr). exists rest. split; [by constructor | done].
  - set (k := fun acc s => caps ← matches an its s; Some (if capture then acc :: caps else caps)).
    assert (forall acc s0, (if greedy then most p k else fewest p k) acc s0 = Some caps ->
      exists w s', s0 = w ++ s' /\ forallb p w = true /\ k (acc ++ w) s' = Some caps) as Hgo
      by (intros acc s0; destruct greedy; [apply most_sound | apply fewest_sound]).
    assert (forall w s', k w s' = Some caps -> forallb p w = true -> (plus = true -> w <> []) ->
      exists rest, parse (Rep capture greedy plus p :: its) (w ++ s') rest caps /\ (an = true -> rest = [])) as Hend.
    { intros w s' Hk Hw Hn. unfold k in Hk. destruct (matches an its s') as [caps' |] eqn:Em; [| done]. cbn in Hk. injection Hk as <-.
      destruct (IH _ _ Em) as (rest & Hp & Hr). exists rest. split; [by constructor | done]. }
    destruct plus.
    + destruct s as [| x s]; [done |]. destruct (p x) eqn:Ex; [| done]. intros E.
      destruct (Hgo [x] s E) as (w & s' & -> & Hw & Hk). rewrite app_comm_cons. apply Hend; [exact Hk | cbn; by rewrite Ex | done].
    + intros E. destruct (Hgo [] s E) as (w & s' & -> & Hw & Hk). by apply Hend.
Qed.

Lemma search_sound its s caps :
  search its s = Some caps -> exists pre s' rest, s = pre ++ s' /\ parse its s' rest caps.
Proof.
  induction s as [| x s IH]; cbn [search].
  - destruct (matches false its []) as [caps' |] eqn:E; [| done]. intros [= ->].
    destruct (matches_sound _ _ _ _ E) as (rest & Hp & _). by exists [], [], rest.
  - destruct (matches false its (x :: s)) as [caps' |] eqn:E.
    + intros [= ->]. destruct (matches_sound _ _ _ _ E) as (rest & Hp & _). by exists [], (x :: s), rest.
    + intros Hs. destruct (IH Hs) as (pre & s' & rest & -> & Hp). by exists (x :: pre), s', rest.
Qed.
