(* ===== verification/Results.v ===== *)
(** * The report of the benchmarks

    bench/cmd/results: lines of [go test -bench] output become tables, charts
    and a comparison with the committed run.  A line of input is its bytes. *)

From Stdlib Require Import SpecFloat.
From stdpp Require Import prelude strings gmap.
From S2P Require Import Prelude Strings Regexp Decimal.

Module Rs.

(** ** Data *)

Record result := mkResult { ns : float64; mbs : float64; msgs : float64; cpu : float64; bytes : Z; allocs : Z }.

Record record := mkRecord {
  family : list Z; dims : gmap (list Z) (list Z); dimKeys : list (list Z); lib : list Z; measured : result
}.

(** Family, row dimensions joined, compression, library. *)
Definition key : Type := list Z * list Z * list Z * list Z.

Record provenance := mkProvenance { pcpu : list Z; goVersion : list Z; kernel : list Z; commit : list Z; procs : Z }.

Record report := mkReport {
  rows : gmap key result;
  records : list record;
  famOrder : list (list Z);
  dimOrder : gmap (list Z) (list (list Z));
  libOrder : gmap (list Z) (list (list Z));
  rowLabels : gmap (list Z) (list (list Z));
  seen : gset (list Z);
  pv : provenance
}.

Definition empty_report : report := mkReport ∅ [] [] ∅ ∅ ∅ ∅ (mkProvenance [] [] [] [] 0).

(** A map of slices; a key that is not there is a nil slice. *)
Definition slice_at (m : gmap (list Z) (list (list Z))) (k : list Z) : list (list Z) := default [] (m !! k).

(** ** Reading *)

Definition line : list item :=
  [Lit (str "Benchmark"); Rep true true true is_word; Lit (str "/"); Rep true false true not_space; Lit (str "-");
   Rep true true true is_digit; Rep false true true is_space; Rep false true true is_digit; Rep false true true is_space;
   Rep true true true is_decimal; Lit (str " ns/op"); Rep true true false is_any].

Definition metric (rest unit : list Z) : float64 :=
  match search [Rep true true true is_decimal; Lit (str " " ++ unit)] rest with
  | Some (v :: _) => ParseFloat v
  | _ => zero
  end.

Definition note (p : provenance) (text : list Z) : provenance :=
  let p := match strip_prefix (str "cpu: ") text with Some v => {| p with pcpu := TrimSpace v |} | None => p end in
  match strip_prefix (str "# ") text with
  | Some v =>
      let '(k, val, _) := Strings.cut 58 v in
      let val := TrimSpace val in
      if bool_decide (k = str "go") then {| p with goVersion := val |}
      else if bool_decide (k = str "kernel") then {| p with kernel := val |}
      else if bool_decide (k = str "commit") then {| p with commit := val |}
      else p
  | None => p
  end.

(** [s] up to its first "=", and what is behind it. *)
Definition dim_key (s : list Z) : list Z := (Strings.cut 61 s).1.1.
Definition dim_value (s : list Z) : list Z := (Strings.cut 61 s).1.2.

(** The compress value and the other dimensions of a name. *)
Definition split_dims (segs : list (list Z)) : list Z * list (list Z) :=
  foldl (fun '(comp, ds) s =>
    if bool_decide (dim_key s = str "compress") then (dim_value s, ds) else (comp, ds ++ [s])) ([], []) segs.

(** One benchmark line taken apart. *)
Record entry := mkEntry { e_dims : list (list Z); e_comp : list Z; e_record : record }.

Definition measure (ns rest : list Z) : result :=
  mkResult (ParseFloat ns) (metric rest (str "MB/s")) (metric rest (str "msgs/s")) (metric rest (str "cpu-ns/msg"))
    (to_int (metric rest (str "B/op"))) (to_int (metric rest (str "allocs/op"))).

(** [None]: no server column. *)
Definition entry_of (fam name ns rest : list Z) : option entry :=
  let segs := split 47 name in
  let lib := List.last segs [] in
  if existsb (Z.eqb 61) lib then None
  else
    let inner := removelast segs in
    let '(comp, ds) := split_dims inner in
    let m := foldl (fun m s => <[dim_key s := dim_value s]> m) ∅ inner in
    Some (mkEntry ds comp (mkRecord fam m (dim_key <$> inner) lib (measure ns rest))).

Definition e_label (e : entry) : list Z := join (str "/") (e_dims e).
Definition e_key (e : entry) : key := (family (e_record e), e_label e, e_comp e, lib (e_record e)).

(** What is appended once. *)
Definition once (s : gset (list Z)) (mark : list Z) (m : gmap (list Z) (list (list Z))) (k v : list Z)
    : gset (list Z) * gmap (list Z) (list (list Z)) :=
  if bool_decide (mark ∈ s) then (s, m) else ({[mark]} ∪ s, <[k := slice_at m k ++ [v]]> m).

Definition fc_of (fam comp : list Z) : list Z := fam ++ str "/" ++ comp.

Definition add (st : report) (e : entry) : report :=
  let r := e_record e in
  let fam := family r in
  let fc := fc_of fam (e_comp e) in
  let '(sn, fo) := if bool_decide (fam ∈ seen st) then (seen st, famOrder st) else ({[fam]} ∪ seen st, famOrder st ++ [fam]) in
  let dor :=
    if bool_decide (slice_at (dimOrder st) fam = []) && negb (bool_decide (e_dims e = []))
    then <[fam := dim_key <$> e_dims e]> (dimOrder st) else dimOrder st in
  let '(sn, lo) := once sn (str "l/" ++ fc ++ str "/" ++ lib r) (libOrder st) fc (lib r) in
  let '(sn, rl) := once sn (str "r/" ++ fc ++ str "/" ++ e_label e) (rowLabels st) fc (e_label e) in
  {| st with rows := <[e_key e := measured r]> (rows st); records := records st ++ [r]; famOrder := fo; dimOrder := dor;
     libOrder := lo; rowLabels := rl; seen := sn |}.

(** [strconv.Atoi] of a run of digits, its error ignored. *)
Definition atoi_digits (l : list Z) : Z := default (2 ^ 63 - 1) (Atoi l).

Definition read_line (st : report) (text : list Z) : report :=
  match matches true line text with
  | Some [fam; name; procs'; ns'; rest] =>
      let p := pv st in
      let st := {| st with pv := {| p with procs := atoi_digits procs' |} |} in
      match entry_of fam name ns' rest with
      | Some e => add st e
      | None => st
      end
  | _ => {| st with pv := note (pv st) text |}
  end.

Definition read_all (texts : list (list Z)) : report := foldl read_line empty_report texts.

(** [bufio.Scanner] on the lines of a text, and whether it reached the end:
    it stops at a line too long for its 64 KiB.  A carriage return before the
    line feed goes, and what follows the last line feed is a line if it is
    not empty. *)
Definition drop_cr (l : list Z) : list Z := match List.last l 0 with 13 => removelast l | _ => l end.

Fixpoint scan_lines (ls : list (list Z)) : list (list Z) * bool :=
  match ls with
  | [] | [[]] => ([], true)
  | l :: ls => if 65536 <=? len l then ([], false) else let '(r, ok) := scan_lines ls in (drop_cr l :: r, ok)
  end.

Definition scan (text : list Z) : list (list Z) * bool := scan_lines (split 10 text).

(** ** Cells *)

Definition score (r : result) : float64 := if flt zero (msgs r) then msgs r else mbs r.

Definition throughput (r : result) : list Z :=
  if fle (of_int 1000000) (msgs r) then format_fixed 2 (fdiv (msgs r) (of_int 1000000)) ++ str "M msgs/s"
  else if flt zero (msgs r) then format_fixed 0 (fdiv (msgs r) (of_int 1000)) ++ str "k msgs/s"
  else if fle (of_int 1000) (mbs r) then format_fixed 1 (fdiv (mbs r) (of_int 1000)) ++ str " GB/s"
  else if flt zero (mbs r) then format_fixed 0 (mbs r) ++ str " MB/s"
  else format_fixed 0 (fdiv (ns r) (of_int 1000)) ++ str " µs".

Definition cpuPerMsg (r : result) : list Z :=
  if fle (cpu r) zero then str "n/a"
  else if fle (of_int 1000) (cpu r) then format_fixed 1 (fdiv (cpu r) (of_int 1000)) ++ str " µs"
  else format_fixed 0 (cpu r) ++ str " ns".

Definition alloc_cell (r : result) : list Z :=
  Itoa (allocs r) ++ if 1024 <=? bytes r then str " (" ++ Itoa (Z.quot (bytes r) 1024) ++ str " KB)" else [].

(** "size=16384/conns=32" as "16 KiB | 32". *)
Definition row_cell (d : list Z) : list Z :=
  match Atoi (dim_value d) with
  | Some n =>
      if bool_decide (dim_key d = str "size") then
        if n <? 1024 then Itoa n ++ str " B"
        else if n <? 2 ^ 20 then Itoa (Z.quot n 1024) ++ str " KiB"
        else Itoa (Z.quot n (2 ^ 20)) ++ str " MiB"
      else dim_value d
  | None => dim_value d
  end.

Definition rowCells (label : list Z) : list Z := join (str " | ") (row_cell <$> split 47 label).

(** ** Orders *)

(** [<] on strings. *)
Fixpoint str_less (a b : list Z) : bool :=
  match a, b with
  | _, [] => false
  | [], _ :: _ => true
  | x :: a, y :: b => if x =? y then str_less a b else x <? y
  end.

Fixpoint dims_less (a b : list (list Z)) : bool :=
  match a, b with
  | x :: a, y :: b =>
      let av := dim_value x in
      let bv := dim_value y in
      match Atoi av, Atoi bv with
      | Some an, Some bn => if negb (an =? bn) then an <? bn else if negb (bool_decide (av = bv)) then str_less av bv else dims_less a b
      | _, _ => if negb (bool_decide (av = bv)) then str_less av bv else dims_less a b
      end
  | _, _ => false
  end.

Definition dimLess (a b : list Z) : bool := dims_less (split 47 a) (split 47 b).

Definition known : list (list Z) :=
  [str "ews"; str "ews-shared"; str "ews-stream"; str "ews-events"; str "ews-sync"; str "gws"; str "gws-stream";
   str "gws-events"; str "coder"; str "coder-stream"; str "gorilla"; str "gorilla-stream"].

Fixpoint rank_in (l : list (list Z)) (i : Z) (name : list Z) : Z :=
  match l with
  | [] => 100
  | k :: l => if bool_decide (name = k) then i else rank_in l (i + 1) name
  end.

Definition libRank (name : list Z) : Z := rank_in known 0 name.

Definition valueLess (a b : list Z) : bool :=
  match Atoi a, Atoi b with Some an, Some bn => an <? bn | _, _ => false end.

(** [sort.SliceStable] by insertion, as package sort does it for up to twenty
    values; for more the result is the same where [less] orders.  A value
    moves left past the ones it is less than; [rev] is the sorted part, last
    value first. *)
Fixpoint insert_back {A} (less : A -> A -> bool) (x : A) (rev : list A) : list A :=
  match rev with
  | [] => [x]
  | y :: r => if less x y then y :: insert_back less x r else x :: rev
  end.

Definition stable_sort {A} (less : A -> A -> bool) (l : list A) : list A :=
  reverse (foldl (fun rev x => insert_back less x rev) [] l).

Definition by_rank (a b : list Z) : bool := libRank a <? libRank b.

(** ** Tables *)

Definition comps_of (st : report) (fam : list Z) : list (list Z) :=
  if bool_decide (is_Some (rowLabels st !! fc_of fam (str "false")))
  then filter (fun c => is_Some (rowLabels st !! fc_of fam c)) [str "false"; str "true"; str "nocontext"]
  else [[]].

Definition title_of (comp : list Z) : list Z :=
  if bool_decide (comp = str "false") then str "Uncompressed"
  else if bool_decide (comp = str "true") then str "Compressed with context takeover"
  else if bool_decide (comp = str "nocontext") then str "Compressed without context takeover"
  else str "Results".

(** [strings.ToUpper] of a string of one byte: what is no character becomes
    the replacement character. *)
Definition upper_byte (b : Z) : list Z :=
  if (97 <=? b) && (b <=? 122) then [b - 32] else if b <? 128 then [b] else [0xEF; 0xBF; 0xBD].

(** A column's head; [d[:1]] panics on an empty name. *)
Definition head_of (d : list Z) : option (list Z) :=
  match d with [] => None | b :: d => Some (upper_byte b ++ d) end.

Definition sorted_libs (st : report) (fc : list Z) : list (list Z) := stable_sort by_rank (slice_at (libOrder st) fc).
Definition sorted_labels (st : report) (fc : list Z) : list (list Z) := stable_sort dimLess (slice_at (rowLabels st) fc).

(** The three cells of a label and a library. *)
Definition cells (st : report) (fam comp label lib : list Z) : list Z * list Z * list Z :=
  match rows st !! ((fam, label, comp, lib) : key) with
  | Some r => (throughput r, cpuPerMsg r, alloc_cell r)
  | None => (str "n/a", str "n/a", str "n/a")
  end.

Definition has_cpu (st : report) (fam comp : list Z) (labels libs : list (list Z)) : bool :=
  existsb (fun label => existsb (fun lib =>
    match rows st !! ((fam, label, comp, lib) : key) with Some r => flt zero (cpu r) | None => false end) libs) labels.

Definition table_row (st : report) (fam comp : list Z) (libs : list (list Z)) (hasCPU : bool) (label : list Z) : list Z :=
  let cs := (fun lib => cells st fam comp label lib) <$> libs in
  let cpuCell := if hasCPU then str " " ++ join (str " / ") ((fun c => c.1.2) <$> cs) ++ str " |" else [] in
  str "| " ++ rowCells label ++ str " | " ++ join (str " | ") ((fun c => c.1.1) <$> cs) ++ str " |" ++ cpuCell ++
  str " " ++ join (str " / ") ((fun c => c.2) <$> cs) ++ str " |" ++ [10].

Definition table_head (title : list Z) (heads libs : list (list Z)) (hasCPU : bool) : list Z :=
  let cpuHead := if hasCPU then str " CPU/msg " ++ join (str " / ") libs ++ str " |" else [] in
  let bars n := concat (replicate n (str "---|")) in
  str "## " ++ title ++ [10; 10] ++ str "| " ++ join (str " | ") heads ++ str " | " ++ join (str " | ") libs ++ str " |" ++
  cpuHead ++ str " allocs/op " ++ join (str " / ") libs ++ str " |" ++ [10] ++
  str "|" ++ bars (length heads) ++ bars (length libs) ++ (if hasCPU then str "---|" else []) ++ str "---|" ++ [10].

(** The part of [main] for one compression mode; [None] is a panic. *)
Definition table (st : report) (fam comp : list Z) : option (list Z) :=
  let fc := fc_of fam comp in
  let libs := sorted_libs st fc in
  heads ← mapM head_of (slice_at (dimOrder st) fam);
  let labels := sorted_labels st fc in
  let hasCPU := has_cpu st fam comp labels libs in
  Some (table_head (title_of comp) heads libs hasCPU ++ concat (table_row st fam comp libs hasCPU <$> labels) ++ [10]).

Definition tables (st : report) (fam : list Z) : option (list Z) :=
  ts ← mapM (table st fam) (comps_of st fam); Some (concat ts).

(** ** The committed run *)

(** The benchmark's name after the family, as it stood in the line. *)
Definition cellName (r : record) : list Z :=
  join (str "/") ((fun k => k ++ str "=" ++ default [] (dims r !! k)) <$> dimKeys r) ++ str "/" ++ lib r.

Definition old_score (old : gmap (list Z) float64) (text : list Z) : gmap (list Z) float64 :=
  match matches true line text with
  | Some [fam; name; _; ns; _] =>
      let r := mkResult zero (metric ns (str "MB/s")) (metric ns (str "msgs/s")) zero 0 0 in
      <[fam ++ str "/" ++ name := score r]> old
  | _ => old
  end.

Definition old_scores (texts : list (list Z)) : gmap (list Z) float64 := foldl old_score ∅ texts.

(** What is said of the comparison: the number of cells compared and the
    median of their ratios, and the cells that moved with theirs. *)
Inductive comparison :=
  | Silent
  | Within (n : Z) (median : float64)
  | Moved (cells : list (list Z * float64)) (n : Z) (median : float64).

(** [sort.Float64s]: what is no number comes first. *)
Definition is_nan (x : float64) : bool := match x with S754_nan => true | _ => false end.
Definition float_less (x y : float64) : bool := flt x y || (is_nan x && negb (is_nan y)).

Definition is_zero (x : float64) : bool := SFeqb x zero.

Definition compare_record (old : gmap (list Z) float64) (st : list float64 * list (list Z * float64)) (r : record)
    : list float64 * list (list Z * float64) :=
  let '(ratios, moved) := st in
  let k := family r ++ str "/" ++ cellName r in
  let cur := score (measured r) in
  match old !! k with
  | None => st
  | Some prev =>
      if is_zero prev || is_zero cur then st
      else
        let q := fdiv cur prev in
        (ratios ++ [q], if flt (ratio 5 4) q || flt q (ratio 4 5) then moved ++ [(k, q)] else moved)
  end.

(** [committed] is the file at HEAD, if there is one. *)
Definition checkBaseline (committed : option (list Z)) (rs : list record) : comparison :=
  match committed with
  | None => Silent
  | Some text =>
      let old := old_scores (scan text).1 in
      if bool_decide (old = ∅) then Silent
      else
        let '(ratios, moved) := foldl (compare_record old) ([], []) rs in
        if bool_decide (ratios = []) then Silent
        else
          let median := default zero (stable_sort float_less ratios !! (length ratios / 2)%nat) in
          if bool_decide (moved = []) then Within (len ratios) median else Moved moved (len ratios) median
  end.
End Rs.

(** Numbers and names in one dimension have no order. *)
Example dimLess_cycle :
  (fun '(a, b) => Rs.dimLess (str "n=" ++ str a) (str "n=" ++ str b)) <$> [("2", "10"); ("10", "1a"); ("1a", "2")]%string
  = [true; true; true].
Proof. vm_compute. reflexivity. Qed.
