(* ===== verification/Charts.v ===== *)
(** * The charts of the benchmarks

    bench/cmd/results/charts.go: an SVG of the throughput of the selected
    cells, as the text the tool writes. *)

From Stdlib Require Import SpecFloat.
From stdpp Require Import prelude strings gmap.
From S2P Require Import Prelude Strings Decimal Results.

Module Ch.
Import Rs.

Record chartSpec := mkSpec {
  file : list Z; title : list Z; grouped : bool; panel : list Z; column : list Z; columns : list (list Z);
  fixed : list (list Z * list Z); libs : option (list (list Z))
}.

Definition sizes : list (list Z) := [str "64"; str "1024"; str "16384"; str "262144"].

Definition charts (family : list Z) : list chartSpec :=
  if bool_decide (family = str "Echo") then [
    mkSpec (str "echo-sizes-compressed") (str "Echo by payload size, compressed with context takeover, 128 connections") true
      [] (str "size") sizes [(str "compress", str "true"); (str "conns", str "128")] (Some [str "ews"; str "gws"; str "coder"]);
    mkSpec (str "echo-sizes-nocontext") (str "Echo by payload size, compressed without context takeover, 128 connections") true
      [] (str "size") sizes [(str "compress", str "nocontext"); (str "conns", str "128")]
      (Some [str "ews"; str "gws"; str "coder"; str "gorilla"]);
    mkSpec (str "echo-sizes") (str "Echo by payload size, uncompressed, 128 connections") true
      [] (str "size") sizes [(str "compress", str "false"); (str "conns", str "128")]
      (Some [str "ews"; str "gws"; str "coder"; str "gorilla"]);
    mkSpec (str "echo-plain") (str "Echo, uncompressed") false (str "size") (str "conns") [str "1"; str "128"; str "2048"]
      [(str "compress", str "false")] None;
    mkSpec (str "echo-compressed") (str "Echo, compressed with context takeover") false (str "size") (str "conns")
      [str "1"; str "128"; str "2048"] [(str "compress", str "true")] None;
    mkSpec (str "echo-nocontext") (str "Echo, compressed without context takeover") false (str "size") (str "conns")
      [str "1"; str "128"; str "2048"] [(str "compress", str "nocontext")] None]
  else if bool_decide (family = str "Broadcast") then [
    mkSpec (str "broadcast-plain") (str "Broadcast, one message to every connection, uncompressed") false (str "size")
      (str "conns") [str "128"; str "2048"; str "8192"] [(str "compress", str "false")] None;
    mkSpec (str "broadcast-compressed") (str "Broadcast, one message to every connection, compressed") false (str "size")
      (str "conns") [str "128"; str "2048"; str "8192"] [(str "compress", str "true")] None;
    mkSpec (str "broadcast-nocontext") (str "Broadcast, one message to every connection, compressed without context takeover")
      false (str "size") (str "conns") [str "128"; str "2048"; str "8192"] [(str "compress", str "nocontext")] None]
  else if bool_decide (family = str "UTF8") then [
    mkSpec (str "utf8-1conn") (str "Text echo with UTF-8 validation, one connection") false (str "kind") (str "size")
      [str "1024"; str "16384"] [(str "conns", str "1")] None;
    mkSpec (str "utf8-128conn") (str "Text echo with UTF-8 validation, 128 connections") false (str "kind") (str "size")
      [str "1024"; str "16384"] [(str "conns", str "128")] None]
  else [].

Definition colors (lib : list Z) : list Z :=
  if bool_decide (lib = str "ews") then str "#50c878"
  else if bool_decide (lib = str "ews-shared") then str "#5aa9e6"
  else if bool_decide (lib = str "ews-stream") then str "#a3e4b0"
  else if bool_decide (lib = str "ews-sync") then str "#5aa9e6"
  else if bool_decide (lib = str "gws") then str "#ef8354"
  else if bool_decide (lib = str "gws-stream") then str "#f2c14e"
  else if bool_decide (lib = str "coder") then str "#b388eb"
  else if bool_decide (lib = str "coder-stream") then str "#e76f9a"
  else if bool_decide (lib = str "gorilla") then str "#c9a86a"
  else if bool_decide (lib = str "gorilla-stream") then str "#e8d5a3"
  else [].

Definition svgStyle : list Z := str "text{font-family:ui-monospace,SFMono-Regular,Menlo,Consolas,monospace;fill:#d8dee9}.title{font-family:ui-sans-serif,system-ui,sans-serif;font-size:28px;font-weight:700}.subtitle{font-family:ui-sans-serif,system-ui,sans-serif;font-size:15px;fill:#aab4c3}.group{font-family:ui-sans-serif,system-ui,sans-serif;font-size:18px;font-weight:650}.contract{font-family:ui-sans-serif,system-ui,sans-serif;font-size:14px;font-weight:650;fill:#9eabbc}.series{font-size:13px;fill:#c4ccd8}.value{font-size:13px;font-weight:650}.panel{fill:#151c27}".

(** ** Labels *)

Definition allocLabel (n : Z) : list Z := if n =? 1 then str "1 alloc" else Itoa n ++ str " allocs".

Definition dimLabel (dim value : list Z) : list Z :=
  if bool_decide (dim = str "size") then
    match Atoi value with
    | Some n => if 1024 <=? n then Itoa (Z.quot n 1024) ++ str " KiB messages" else value ++ str " B messages"
    | None => value ++ str " B messages"
    end
  else if bool_decide (dim = str "conns") then
    if bool_decide (value = str "1") then str "1 connection" else value ++ str " connections"
  else if bool_decide (dim = str "compress") then
    if bool_decide (value = str "true") then str "Compressed" else str "Uncompressed"
  else if bool_decide (dim = str "kind") then
    if bool_decide (value = str "ascii") then str "ASCII"
    else if bool_decide (value = str "mixed") then str "Mixed, JSON with Japanese values"
    else if bool_decide (value = str "multibyte") then str "Multibyte, Japanese prose"
    else value
  else value.

(** [html.EscapeString] *)
Definition escape (l : list Z) : list Z :=
  concat ((fun b => if b =? 38 then str "&amp;" else if b =? 39 then str "&#39;" else if b =? 60 then str "&lt;"
    else if b =? 62 then str "&gt;" else if b =? 34 then str "&#34;" else [b]) <$> l).

(** ** Selection *)

(** A missing dimension is empty. *)
Definition dim (r : record) (k : list Z) : list Z := default [] (dims r !! k).

Definition selected (spec : chartSpec) (r : record) : bool :=
  forallb (fun '(k, v) => bool_decide (dim r k = v)) (fixed spec) &&
  negb (negb (bool_decide (panel spec = [])) && bool_decide (dim r (panel spec) = [])) &&
  bool_decide (dim r (column spec) ∈ columns spec) &&
  match libs spec with Some ls => bool_decide (lib r ∈ ls) | None => true end.

(** Records, panel values and servers, and what was seen of them. *)
Record selection := mkSel { sel : list record; panels : list (list Z); servers : list (list Z); sel_seen : gset (list Z) }.

Definition see (s : gset (list Z)) (mark : list Z) (l : list (list Z)) (v : list Z) : gset (list Z) * list (list Z) :=
  if bool_decide (mark ∈ s) then (s, l) else ({[mark]} ∪ s, l ++ [v]).

Definition select (spec : chartSpec) (st : selection) (r : record) : selection :=
  if selected spec r then
    let '(sn, ps) := see (sel_seen st) (str "p" ++ dim r (panel spec)) (panels st) (dim r (panel spec)) in
    let '(sn, ls) := see sn (str "l" ++ lib r) (servers st) (lib r) in
    mkSel (sel st ++ [r]) ps ls sn
  else st.

Definition select_all (spec : chartSpec) (rs : list record) : selection := foldl (select spec) (mkSel [] [] [] ∅) rs.

(** The first record of a panel, a column and a server. *)
Fixpoint lookup (spec : chartSpec) (rs : list record) (pan col l : list Z) : option result :=
  match rs with
  | [] => None
  | r :: rs =>
      if (bool_decide (panel spec = []) || bool_decide (dim r (panel spec) = pan)) && bool_decide (dim r (column spec) = col)
         && bool_decide (lib r = l)
      then Some (measured r) else lookup spec rs pan col l
  end.

(** The best of the servers. *)
Definition best (look : list Z -> option result) (ls : list (list Z)) : float64 :=
  foldl (fun maxv l => match look l with Some r => if flt maxv (score r) then score r else maxv | None => maxv end) zero ls.

(** ** Drawing *)

(** A text in which ' stands for a double quote. *)
Definition q (s : string) : list Z := (fun b => if b =? 39 then 34 else b) <$> str s.
Arguments q s%_string.

Definition nl : list Z := [10].

(** [0..n-1] with the values there. *)
Definition indexed {A} (l : list A) : list (Z * A) := zip (Z.of_nat <$> seq 0 (length l)) l.

Fixpoint legend (x : Z) (ls : list (list Z)) : list Z :=
  match ls with
  | [] => []
  | l :: ls =>
      q "  <rect x='" ++ Itoa x ++ q "' y='94' width='14' height='14' rx='3' fill='" ++ colors l ++
      q "'/><text class='series' x='" ++ Itoa (x + 22) ++ q "' y='106'>" ++ escape l ++ q "</text>" ++ nl ++
      legend (x + 22 + 9 * len l + 40) ls
  end.

(** What both kinds of chart start with, up to the legend. *)
Definition heading (spec : chartSpec) (subtitle : list Z) (height : Z) (ls : list (list Z)) (caption : list Z) : list Z :=
  q "<svg xmlns='http://www.w3.org/2000/svg' width='1500' height='" ++ Itoa height ++ q "' viewBox='0 0 1500 " ++ Itoa height ++
  q "' role='img' aria-labelledby='title desc'>" ++ nl ++
  q "  <title id='title'>" ++ escape (title spec) ++ q "</title>" ++ nl ++
  q "  <desc id='desc'>" ++ escape subtitle ++ q " Higher is better.</desc>" ++ nl ++
  q "  <style>" ++ svgStyle ++ q "</style>" ++ nl ++
  q "  <rect width='1500' height='" ++ Itoa height ++ q "' rx='14' fill='#10151d'/>" ++ nl ++
  q "  <text class='title' x='40' y='48'>" ++ escape (title spec) ++ q "</text>" ++ nl ++
  q "  <text class='subtitle' x='40' y='76'>" ++ escape subtitle ++ q " · higher is better</text>" ++ nl ++
  legend 40 ls ++ q "  <text class='subtitle' x='40' y='134'>" ++ caption ++ q "</text>" ++ nl.

(** *** Panels of horizontal bars *)

Definition labelW : Z := 150.
Definition valueW : Z := 190.
Definition colWidth (ncol : Z) : Z := Z.quot 1410 ncol.
Definition barMax (ncol : Z) : Z := colWidth ncol - labelW - valueW - 30.
Definition panelH (nlibs : Z) : Z := 68 + nlibs * 25 + 15.
Definition chart_height (npanels nlibs : Z) : Z := 165 + npanels * (panelH nlibs + 16) + 35.
Definition bar_x (ncol ci : Z) : Z := 45 + ci * colWidth ncol + labelW + 12.
Definition bar_y (li : Z) : Z := 68 + li * 25.

Definition bar_w (ncol : Z) (sc maxv : float64) : float64 := fdiv (fmul (of_int (barMax ncol)) sc) maxv.

Definition draw_bar (spec : chartSpec) (look : list Z -> option result) (maxv : float64) (ci : Z) (il : Z * list Z) : list Z :=
  let '(li, l) := il in
  match look l with
  | Some r =>
      if is_zero maxv then []
      else
        let y := bar_y li in
        let w := bar_w (len (columns spec)) (score r) maxv in
        let bx := bar_x (len (columns spec)) ci in
        q "    <text class='series' x='" ++ Itoa (bx - 12) ++ q "' y='" ++ Itoa (y + 13) ++ q "' text-anchor='end'>" ++ escape l ++
        q "</text>" ++ nl ++
        q "    <rect x='" ++ Itoa bx ++ q "' y='" ++ Itoa y ++ q "' width='" ++ format_fixed 1 w ++
        q "' height='17' rx='4' fill='" ++ colors l ++ q "'/>" ++ nl ++
        q "    <text class='value' x='" ++ format_fixed 1 (fadd (fadd (of_int bx) w) (of_int 8)) ++ q "' y='" ++ Itoa (y + 13) ++
        q "'>" ++ escape (throughput r) ++ q " · " ++ allocLabel (allocs r) ++ q "</text>" ++ nl
  | None => []
  end.

Definition draw_column (spec : chartSpec) (rs : list record) (ls : list (list Z)) (pan : list Z) (ic : Z * list Z) : list Z :=
  let '(ci, col) := ic in
  let look := lookup spec rs pan col in
  q "    <text class='contract' x='" ++ Itoa (45 + ci * colWidth (len (columns spec))) ++ q "' y='53'>" ++
  escape (dimLabel (column spec) col) ++ q "</text>" ++ nl ++
  concat (draw_bar spec look (best look ls) ci <$> indexed ls).

Definition draw_panel (spec : chartSpec) (rs : list record) (ls : list (list Z)) (ip : Z * list Z) : list Z :=
  let '(pi, pan) := ip in
  let ph := panelH (len ls) in
  q "  <g transform='translate(0," ++ Itoa (165 + pi * (ph + 16)) ++ q ")'>" ++ nl ++
  q "    <rect class='panel' x='25' y='0' width='1450' height='" ++ Itoa ph ++ q "' rx='10'/>" ++ nl ++
  q "    <text class='group' x='45' y='27'>" ++ escape (dimLabel (panel spec) pan) ++ q "</text>" ++ nl ++
  concat (draw_column spec rs ls pan <$> indexed (columns spec)) ++
  q "  </g>" ++ nl.

(** *** Groups of vertical bars *)

Definition plotH : Z := 300.
Definition groupW (ncol : Z) : Z := Z.quot 1410 ncol.
Definition barW (ncol nlibs : Z) : Z := Z.min 72 (Z.quot (groupW ncol - 40) nlibs - 12).
Definition gap (ncol nlibs : Z) : Z := Z.quot (groupW ncol - 40 - barW ncol nlibs * nlibs) (nlibs + 1).
Definition group_x (ncol ci : Z) : Z := 45 + ci * groupW ncol.
Definition vbar_x (ncol nlibs ci li : Z) : Z :=
  group_x ncol ci + 20 + gap ncol nlibs + li * (barW ncol nlibs + gap ncol nlibs).

(** 10 + labelH + plotH *)
Definition base : Z := 10 + 60 + plotH.

Definition draw_vbar (spec : chartSpec) (nlibs : Z) (look : list Z -> option result) (maxv : float64) (ci : Z)
    (il : Z * list Z) : list Z :=
  let '(li, l) := il in
  match look l with
  | Some r =>
      if is_zero maxv then []
      else
        let h := fdiv (fmul (of_int plotH) (score r)) maxv in
        let bw := barW (len (columns spec)) nlibs in
        let bx := vbar_x (len (columns spec)) nlibs ci li in
        let bY := fsub (of_int base) h in
        let cx := bx + Z.quot bw 2 in
        q "    <rect x='" ++ Itoa bx ++ q "' y='" ++ format_fixed 1 bY ++ q "' width='" ++ Itoa bw ++ q "' height='" ++
        format_fixed 1 h ++ q "' rx='4' fill='" ++ colors l ++ q "'/>" ++ nl ++
        q "    <text class='value' x='" ++ Itoa cx ++ q "' y='" ++ format_fixed 1 (fsub bY (of_int 24)) ++
        q "' text-anchor='middle'>" ++ escape (throughput r) ++ q "</text>" ++ nl ++
        q "    <text class='series' x='" ++ Itoa cx ++ q "' y='" ++ format_fixed 1 (fsub bY (of_int 8)) ++
        q "' text-anchor='middle'>" ++ allocLabel (allocs r) ++ q "</text>" ++ nl
  | None => []
  end.

Definition draw_group (spec : chartSpec) (rs : list record) (ls : list (list Z)) (ic : Z * list Z) : list Z :=
  let '(ci, col) := ic in
  let look := lookup spec rs [] col in
  let ncol := len (columns spec) in
  q "    <text class='group' x='" ++ Itoa (group_x ncol ci + Z.quot (groupW ncol) 2) ++ q "' y='" ++ Itoa (base + 30) ++
  q "' text-anchor='middle'>" ++ escape (dimLabel (column spec) col) ++ q "</text>" ++ nl ++
  concat (draw_vbar spec (len ls) look (best look ls) ci <$> indexed ls).

Definition renderGrouped (spec : chartSpec) (subtitle : list Z) (ls : list (list Z)) (rs : list record) : list Z :=
  let ph := 60 + plotH + 40 + 20 in
  heading spec subtitle (165 + ph + 35) ls
    (q "Each payload size is scaled to its fastest server; labels show throughput and allocations per message.") ++
  q "  <g transform='translate(0,165)'>" ++ nl ++
  q "    <rect class='panel' x='25' y='0' width='1450' height='" ++ Itoa ph ++ q "' rx='10'/>" ++ nl ++
  q "    <line x1='45' y1='" ++ Itoa base ++ q "' x2='1455' y2='" ++ Itoa base ++ q "' stroke='#2a3442' stroke-width='1'/>" ++ nl ++
  concat (draw_group spec rs ls <$> indexed (columns spec)) ++
  q "  </g>" ++ nl ++ q "</svg>" ++ nl.

(** Nothing when no record is selected. *)
Definition renderChart (spec : chartSpec) (subtitle : list Z) (rs : list record) : list Z :=
  let st := select_all spec rs in
  if bool_decide (sel st = []) then []
  else
    let ps := stable_sort valueLess (panels st) in
    let ls := stable_sort by_rank (servers st) in
    if grouped spec then renderGrouped spec subtitle ls (sel st)
    else
      heading spec subtitle (chart_height (len ps) (len ls)) ls
        (q "Each column uses its own linear scale; labels show throughput and allocations per message.") ++
      concat (draw_panel spec (sel st) ls <$> indexed ps) ++
      q "</svg>" ++ nl.

(** ** Files *)

(** [strings.Contains] *)
Fixpoint contains (s sub : list Z) : bool :=
  match strip_prefix sub s with
  | Some _ => true
  | None => match s with [] => false | _ :: s => contains s sub end
  end.

Definition buildSuffix (goexperiment : list Z) : list Z := if contains goexperiment (str "simd") then str "-simd" else [].

(** What is written, by name; [write] is [os.WriteFile], false when it
    fails. *)
Fixpoint write_specs (write : list Z -> list Z -> bool) (suffix subtitle : list Z) (rs : list record) (specs : list chartSpec)
    : option (list (list Z * list Z)) :=
  match specs with
  | [] => Some []
  | spec :: specs =>
      let svg := renderChart spec subtitle rs in
      if bool_decide (svg = []) then write_specs write suffix subtitle rs specs
      else
        let name := file spec ++ suffix ++ str ".svg" in
        if write name svg then fs ← write_specs write suffix subtitle rs specs; Some ((name, svg) :: fs) else None
  end.

Definition writeCharts (write : list Z -> list Z -> bool) (goexperiment family subtitle : list Z) (rs : list record)
    : option (list (list Z * list Z)) :=
  write_specs write (buildSuffix goexperiment) subtitle rs (charts family).
End Ch.

Import Ch.

(** ** Who is drawn *)

Record drawn (spec : chartSpec) (st : selection) : Prop := {
  drawn_once : NoDup (servers st);
  drawn_seen : forall l, str "l" ++ l ∈ sel_seen st <-> l ∈ servers st;
  drawn_listed : forall ls, libs spec = Some ls -> servers st ⊆ ls;
  drawn_any : sel st <> [] -> servers st <> []
}.

Lemma see_eq s mark l v : see s mark l v = ({[mark]} ∪ s, if bool_decide (mark ∈ s) then l else l ++ [v]).
Proof.
  unfold see. case_bool_decide; [| done]. f_equal. by rewrite subseteq_union_1_L by (by apply singleton_subseteq_l).
Qed.

Lemma select_drawn spec st r : drawn spec st -> drawn spec (select spec st r).
Proof.
  intros [Hn Hs Hl Ha]. unfold select. destruct (selected spec r) eqn:Es; [| done]. rewrite !see_eq.
  assert (bool_decide (str "l" ++ Rs.lib r ∈ ({[str "p" ++ dim r (panel spec)]} : gset (list Z)) ∪ sel_seen st) =
    bool_decide (Rs.lib r ∈ servers st)) as ->.
  { apply bool_decide_ext. rewrite <- Hs, elem_of_union, elem_of_singleton. split; [intros [E | ?]; [discriminate E | done] | auto]. }
  assert (forall l, l ∈ (if bool_decide (Rs.lib r ∈ servers st) then servers st else servers st ++ [Rs.lib r]) <-> l = Rs.lib r \/ l ∈ servers st) as Hin.
  { intros l. case_bool_decide; [split; [auto | by intros [-> | ?]] |]. rewrite elem_of_app, list_elem_of_singleton. tauto. }
  split; cbn [servers sel_seen sel].
  - case_bool_decide; [done |]. apply NoDup_app. split_and!; [done | by intros l Hl' ->%list_elem_of_singleton | apply NoDup_singleton].
  - intros l. rewrite Hin, !elem_of_union, !elem_of_singleton, Hs. split.
    + intros [E | [E | ?]]; [left; by apply (app_inv_head (str "l")) | discriminate E | auto].
    + intros [-> | ?]; auto.
  - intros ls El l [-> | Hl']%Hin; [| by apply (Hl ls)]. unfold selected in Es. rewrite El in Es.
    apply andb_prop in Es as [_ Es]. by apply bool_decide_eq_true in Es.
  - intros _ En. assert (Rs.lib r ∈ []) as H%elem_of_nil; [| done]. rewrite <- En. apply Hin. by left.
Qed.

Lemma select_all_drawn spec rs : drawn spec (select_all spec rs).
Proof.
  unfold select_all. assert (drawn spec (mkSel [] [] [] ∅)) as H.
  { split; cbn; [constructor | | | done]; [intros l; split; [by intros ?%elem_of_empty | by intros ?%elem_of_nil] | intros ls _ l ?%elem_of_nil; done]. }
  revert H. generalize (mkSel [] [] [] ∅). induction rs as [| r rs IH]; intros st H; [done |]. cbn [foldl]. by apply IH, select_drawn.
Qed.

(** ** Where it is drawn *)

Definition shape (spec : chartSpec) : bool :=
  if grouped spec then (len (columns spec) =? 4) && match libs spec with Some ls => len ls <=? 4 | None => false end
  else (2 <=? len (columns spec)) && (len (columns spec) <=? 3).

Lemma charts_shape family : forallb shape (charts family) = true.
Proof. unfold charts. repeat case_bool_decide; done. Qed.

Lemma group_layout n ci li :
  0 < n <= 4 -> 0 <= ci < 4 -> 0 <= li < n ->
  group_x 4 ci + 20 < vbar_x 4 n ci li /\ vbar_x 4 n ci li + barW 4 n < vbar_x 4 n ci (li + 1) <= group_x 4 (ci + 1) - 20.
Proof.
  intros Hn Hci Hli. assert (n = 1 \/ n = 2 \/ n = 3 \/ n = 4) as H by lia. unfold vbar_x, group_x.
  destruct H as [-> | [-> | [-> | ->]]]; vm_compute barW; vm_compute gap; vm_compute groupW; lia.
Qed.

(** Whatever is selected, every bar of every chart has a width, stays in its
    group or column beside its labels, and the next bar starts behind it; the
    groups and columns lie side by side inside the panel, which ends at 1475. *)
Theorem chart_layout family spec rs ci :
  spec ∈ charts family -> sel (select_all spec rs) <> [] ->
  let ncol := len (columns spec) in
  let n := len (servers (select_all spec rs)) in
  0 <= ci < ncol ->
  if grouped spec then
    0 < barW ncol n /\ group_x ncol (ci + 1) <= 1455 /\
    forall li, 0 <= li < n ->
    group_x ncol ci + 20 < vbar_x ncol n ci li /\ vbar_x ncol n ci li + barW ncol n < vbar_x ncol n ci (li + 1) <= group_x ncol (ci + 1) - 20
  else
    0 < barMax ncol /\ bar_x ncol ci + barMax ncol + valueW < 45 + (ci + 1) * colWidth ncol <= 1455.
Proof.
  intros Hspec Hsel ncol n Hci. destruct (select_all_drawn spec rs) as [Hn _ Hl Ha].
  assert (0 < n) as Hpos by (unfold n; specialize (Ha Hsel); destruct (servers _) as [| l ls]; [done | rewrite len_cons; pose proof (len_nonneg ls); lia]).
  assert (forall ls, libs spec = Some ls -> n <= len ls) as Hmax.
  { intros ls El. unfold n, len. apply inj_le, submseteq_length, NoDup_submseteq; [done |]. intros l. by apply (Hl ls El). }
  clearbody n. clear Hn Hl Ha Hsel. subst ncol. pose proof (charts_shape family) as Hs. rewrite forallb_forall in Hs.
  specialize (Hs spec ltac:(by apply list_elem_of_In)). unfold shape in Hs. destruct (grouped spec).
  - apply andb_prop in Hs as [Hc Hls]. apply Z.eqb_eq in Hc. rewrite Hc in *. destruct (libs spec) as [ls |]; [| done].
    specialize (Hmax _ eq_refl). apply Z.leb_le in Hls. split_and!.
    + assert (n = 1 \/ n = 2 \/ n = 3 \/ n = 4) as [-> | [-> | [-> | ->]]] by lia; done.
    + unfold group_x. change (groupW 4) with 352. lia.
    + intros li Hli. apply group_layout; lia.
  - assert (len (columns spec) = 2 \/ len (columns spec) = 3) as [E | E] by lia; rewrite E in *; unfold bar_x, labelW, valueW;
      [change (colWidth 2) with 705; change (barMax 2) with 335 | change (colWidth 3) with 470; change (barMax 3) with 100]; lia.
Qed.
