(* ===== verification/Report.v ===== *)
(** * The results tool

    bench/cmd/results: from benchmark output on the standard input to a
    Markdown file and charts.  What it asks of the machine it runs on is an
    argument. *)

From Stdlib Require Import SpecFloat.
From stdpp Require Import prelude strings gmap.
From S2P Require Import Prelude Strings Regexp Decimal Results Charts Families.

Module Rp.
Import Rs.

(** ** The machine *)

(** Flags and environment; the day; go.mod here and in the parent, if they can
    be read; /proc/cpuinfo and GOARCH; what the Go runtime, uname and git say;
    the raw output at HEAD; [os.WriteFile]. *)
Record env := mkEnv {
  benchtime : list Z; svg : bool; goexperiment : list Z; today : list Z; gomods : list (option (list Z));
  cpuinfo : option (list Z); goarch : list Z; goversion : list Z; uname : list Z; head : list Z; maxprocs : Z;
  committed : option (list Z); writes : list Z -> list Z -> bool
}.

(** [strings.Fields]: [cur] is the field being read. *)
Fixpoint fields_from (fuel : nat) (cur s : list Z) : list (list Z) :=
  let close fs := if bool_decide (cur = []) then fs else cur :: fs in
  match fuel with
  | O => []
  | S fuel =>
      match s with
      | [] => close []
      | b :: s' =>
          match strip_one spaces s with
          | Some r => close (fields_from fuel [] r)
          | None => fields_from fuel (cur ++ [b]) s'
          end
      end
  end.

Definition Fields (s : list Z) : list (list Z) := fields_from (S (length s)) [] s.

(** [strings.ReplaceAll] of something by nothing. *)
Fixpoint remove_all (fuel : nat) (old s : list Z) : list Z :=
  match fuel, s with
  | S fuel, b :: s' =>
      match strip_prefix old s with Some r => remove_all fuel old r | None => b :: remove_all fuel old s' end
  | _, _ => s
  end.

(** What follows a number of cores, where one stands. *)
Definition coreCount (s : list Z) : option (list Z) :=
  match s with
  | b :: s =>
      if is_space b then
        match matches true [Rep false true true is_digit; Lit (str "-Core"); Rep true true false (fun _ => true)] s with
        | Some [r] => Some r
        | _ => None
        end
      else None
  | [] => None
  end.

Fixpoint remove_cores (fuel : nat) (s : list Z) : list Z :=
  match fuel, s with
  | S fuel, b :: s' => match coreCount s with Some r => remove_cores fuel r | None => b :: remove_cores fuel s' end
  | _, _ => s
  end.

Definition shortCPU (name : list Z) : list Z :=
  let name := remove_cores (length name) name in
  let name := foldl (fun name junk => remove_all (length name) junk name) name
                [str "(R)"; str "(TM)"; str "CPU"; str "Processor"; str "Core "] in
  join (str " ") (Fields name).

Fixpoint model_name (ls : list (list Z)) : option (list Z) :=
  match ls with
  | [] => None
  | l :: ls =>
      match strip_prefix (str "model name") l with
      | Some _ => Some (TrimSpace (Strings.cut 58 l).1.2)
      | None => model_name ls
      end
  end.

Definition cpu (e : env) : list Z :=
  match cpuinfo e with Some data => default (goarch e) (model_name (split 10 data)) | None => goarch e end.

Definition or_else (v d : list Z) : list Z := if bool_decide (v = []) then d else v.

Definition fill (e : env) (p : provenance) : provenance :=
  mkProvenance (or_else (pcpu p) (cpu e)) (or_else (Rs.goVersion p) (goversion e)) (or_else (kernel p) (uname e))
    (or_else (commit p) (head e)) (if procs p =? 0 then maxprocs e else procs p).

Fixpoint mod_line (dep : list Z) (ls : list (list Z)) : option (list Z) :=
  match ls with
  | [] => None
  | l :: ls => if Ch.contains l dep then Some (List.last (Fields l) []) else mod_line dep ls
  end.

Fixpoint modVersion (dep : list Z) (files : list (option (list Z))) : list Z :=
  match files with
  | [] => str "unknown"
  | Some data :: files =>
      match mod_line dep (split 10 data) with Some v => v | None => modVersion dep files end
  | None :: files => modVersion dep files
  end.

(** ** The file *)

Definition is_simd (e : env) : bool := Ch.contains (goexperiment e) (str "simd").

Definition build_text (e : env) : list Z :=
  if is_simd e then str "`GOEXPERIMENT=simd`: SIMD masking and, on amd64, SIMD UTF-8 validation"
  else str "default build: SWAR masking and the shift-based UTF-8 validator".

Definition short_text (e : env) : list Z := if is_simd e then str "GOEXPERIMENT=simd" else str "default build".

Definition subtitle_of (e : env) (p : provenance) : list Z :=
  Rs.goVersion p ++ str " · " ++ short_text e ++ str " · " ++ shortCPU (pcpu p) ++ str " · GOMAXPROCS=" ++ Itoa (procs p) ++
  str " · " ++ benchtime e ++ str " benchtime".

(** [strings.TrimSuffix] *)
Definition TrimSuffix (s suffix : list Z) : list Z :=
  match strip_prefix (reverse suffix) (reverse s) with Some r => reverse r | None => s end.

Definition embed (name : list Z) : list Z :=
  str "![" ++ TrimSuffix name (str ".svg") ++ str "](" ++ name ++ str ")" ++ [10; 10].

Definition intro (e : env) (p : provenance) (fam : list Z) : list Z :=
  let title := or_else (Fam.title (Fam.families fam)) (fam ++ str " benchmark results") in
  str "# " ++ title ++ [10; 10] ++ str "Run at ews commit `" ++ commit p ++ str "` with `go test -run '^$' -bench " ++ fam ++
  str " -benchtime " ++ benchtime e ++
  str "`; tables and charts generated from the saved output by `go run ../cmd/results` on " ++ today e ++ str "." ++ [10; 10].

Definition setup_text (e : env) (p : provenance) (fam : list Z) : list Z :=
  str "## Setup" ++ [10; 10] ++ str "- CPU: " ++ pcpu p ++ [10] ++ str "- Kernel: " ++ kernel p ++ [10] ++ str "- Go: " ++
  Rs.goVersion p ++ str ", " ++ build_text e ++ [10] ++ str "- GOMAXPROCS: " ++ Itoa (procs p) ++ [10] ++
  str "- gws: " ++ modVersion (str "lxzan/gws") (gomods e) ++ [10] ++
  str "- coder/websocket: " ++ modVersion (str "coder/websocket") (gomods e) ++ [10] ++
  str "- gorilla/websocket: " ++ modVersion (str "gorilla/websocket") (gomods e) ++ [10; 10] ++
  Fam.setup (Fam.families fam) ++ [10].

Definition reading_text (fam : list Z) : list Z :=
  let r := Fam.reading (Fam.families fam) in
  if bool_decide (r = []) then [] else str "## Reading the numbers" ++ [10; 10] ++ r ++ [10].

(** ** The program *)

Definition files : Type := list (list Z * list Z).

(** Success with the standard output and the charts written and what was said
    of the committed run; status 1 after a message; a panic. *)
Inductive outcome :=
  | Done (out : list Z) (charts : files) (said : comparison)
  | Exit
  | Panic.

Definition own (rs : list record) (fam : list Z) : list record := filter (fun r => family r = fam) rs.

Fixpoint sections (e : env) (st : report) (p : provenance) (fams : list (list Z)) (out : list Z) (fs : files) : option (list Z * files) + unit :=
  match fams with
  | [] => inl (Some (out, fs))
  | fam :: fams =>
      match (if svg e then Ch.writeCharts (writes e) (goexperiment e) fam (subtitle_of e p) (own (records st) fam) else Some []) with
      | None => inl None
      | Some new =>
          match tables st fam with
          | None => inr ()
          | Some ts =>
              sections e st p fams
                (out ++ intro e p fam ++ concat ((fun f => embed f.1) <$> new) ++ setup_text e p fam ++ ts ++ reading_text fam)
                (fs ++ new)
          end
      end
  end.

Definition main (e : env) (input : list Z) : outcome :=
  let '(texts, ok) := scan input in
  let st := read_all texts in
  if negb ok || bool_decide (rows st = ∅) then Exit
  else
    let said := checkBaseline (committed e) (records st) in
    match sections e st (fill e (pv st)) (famOrder st) [] [] with
    | inl (Some (out, fs)) => Done out fs said
    | inl None => Exit
    | inr _ => Panic
    end.
End Rp.
