(* ===== verification/Reporting.v ===== *)
(** * What the report says

    The report of bench/cmd/results against the lines it was made from: what
    a line [go test] prints is read as, which cells the tables have, and what
    is said of the committed run. *)

From Stdlib Require Import SpecFloat.
From stdpp Require Import prelude strings gmap sorting.
From S2P Require Import Prelude Strings Regexp Decimal Results Charts Families Report.

Import Rs.

(** ** A line, taken apart *)

Lemma not_space_spec b : not_space b = true -> is_space b = false.
Proof. unfold not_space. by destruct (is_space b). Qed.

Lemma is_space_not_digit b : is_space b = true -> is_digit b = false.
Proof. unfold is_space, is_digit. lia. Qed.

(** Digits and spaces do not start where none follow. *)
Lemma no_number an its w t :
  forallb not_space w = true ->
  matches an (Rep true true true is_digit :: Rep false true true is_space :: its) (w ++ 45 :: t) = None.
Proof.
  intros Hw. set (s := w ++ 45 :: t).
  assert (forall u r, s = u ++ r -> forallb is_digit u = true -> matches an (Rep false true true is_space :: its) r = None) as Hk.
  { unfold s. clear s. revert Hw. induction w as [| x w IH]; intros Hw u r.
    - destruct u as [| y u]; cbn [app]; [by intros <- | intros [= <- _]; discriminate].
    - cbn [forallb] in Hw. apply andb_prop in Hw as [Hx Hw]. destruct u as [| y u]; cbn [app].
      + intros <- _. cbn [matches]. by rewrite (not_space_spec _ Hx).
      + intros [= <- E] Hu. cbn [forallb] in Hu. apply andb_prop in Hu as [_ Hu]. by apply (IH Hw u r). }
  destruct s as [| x s'] eqn:Es; [done |].
  change (matches an (Rep true true true is_digit :: Rep false true true is_space :: its) (x :: s'))
    with (if is_digit x then most is_digit (fun acc s => caps ← matches an (Rep false true true is_space :: its) s; Some (acc :: caps))
            [x] s' else None).
  destruct (is_digit x) eqn:Ex; [| done]. apply most_none. intros u r -> Hu.
  rewrite (Hk (x :: u) r eq_refl); [done |]. cbn [forallb]. by rewrite Ex.
Qed.

Lemma lazy_name an its w s caps :
  forallb not_space w = true -> w <> [] ->
  matches an (Rep true true true is_digit :: Rep false true true is_space :: its) s = Some caps ->
  matches an (Rep true false true not_space :: Lit (str "-") :: Rep true true true is_digit :: Rep false true true is_space :: its)
    (w ++ str "-" ++ s) = Some (w :: caps).
Proof.
  intros Hw Hn Hm. destruct w as [| x w]; [done |]. cbn [forallb] in Hw. apply andb_prop in Hw as [Hx Hw].
  set (tail := Rep true true true is_digit :: Rep false true true is_space :: its) in *.
  change ((x :: w) ++ str "-" ++ s) with (x :: (w ++ str "-" ++ s)).
  change (matches an (Rep true false true not_space :: Lit (str "-") :: tail) (x :: (w ++ str "-" ++ s)))
    with (if not_space x then fewest not_space (fun acc s => caps ← matches an (Lit (str "-") :: tail) s; Some (acc :: caps))
            [x] (w ++ str "-" ++ s) else None).
  rewrite Hx. apply fewest_all; [done | | by rewrite matches_Lit, Hm].
  intros w1 w2 -> Hn2. rewrite forallb_app in Hw. apply andb_prop in Hw as [_ Hw].
  assert (matches an (Lit (str "-") :: tail) (w2 ++ str "-" ++ s) = None) as ->; [| done].
  destruct w2 as [| y w2]; [done |]. cbn [forallb] in Hw. apply andb_prop in Hw as [_ Hw].
  change ((y :: w2) ++ str "-" ++ s) with (y :: (w2 ++ 45 :: s)). pose proof (no_number an its w2 s Hw) as H.
  change (matches an (Lit (str "-") :: tail) (y :: (w2 ++ 45 :: s)))
    with (s ← (if 45 =? y then Some (w2 ++ 45 :: s) else None); matches an tail s).
  destruct (45 =? y); [exact H | done].
Qed.

(** A benchmark line of [go test]. *)
Definition bench_line (fam name procs gap n gap' ns rest : list Z) : list Z :=
  str "Benchmark" ++ fam ++ str "/" ++ name ++ str "-" ++ procs ++ gap ++ n ++ gap' ++ ns ++ str " ns/op" ++ rest.

Definition all (p : Z -> bool) (w : list Z) : Prop := w <> [] /\ forallb p w = true.

Lemma starts_all p q w s : all p w -> (forall b, p b = true -> q b = false) -> starts_in q (w ++ s) = false.
Proof.
  intros [Hn Hw] H. destruct w as [| x w]; [done |]. cbn in *. apply andb_prop in Hw as [Hx _]. by apply H.
Qed.

Lemma line_parses fam name procs gap n gap' ns rest :
  all is_word fam -> all not_space name -> all is_digit procs -> all is_space gap -> all is_digit n -> all is_space gap' ->
  all is_decimal ns -> forallb is_any rest = true ->
  matches true line (bench_line fam name procs gap n gap' ns rest) = Some [fam; name; procs; ns; rest].
Proof.
  intros [Hf1 Hf2] [Hn1 Hn2] Hp Hg Hn Hg' Hns Hr. unfold line, bench_line.
  rewrite matches_Lit. apply (matches_run true true); [done | done | done |]. rewrite matches_Lit.
  apply lazy_name; [done | done |]. destruct Hp as [Hp1 Hp2].
  apply (matches_run true true); [done | done | by apply (starts_all is_space), is_space_not_digit |]. destruct Hg as [Hg1 Hg2].
  apply (matches_run true false); [done | done | apply (starts_all is_digit); [done |] |].
  { intros b Hb. destruct (is_space b) eqn:E; [| done]. apply is_space_not_digit in E. congruence. }
  destruct Hn as [Hm1 Hm2].
  apply (matches_run true false); [done | done | by apply (starts_all is_space), is_space_not_digit |]. destruct Hg' as [Hh1 Hh2].
  apply (matches_run true false); [done | done | apply (starts_all is_decimal); [done |] |].
  { intros b. unfold is_decimal, is_digit, is_space. lia. }
  destruct Hns as [Hs1 Hs2]. apply (matches_run true true); [done | done | done |]. rewrite matches_Lit. by apply matches_rest.
Qed.

(** The parts of a line, each of its class. *)
Lemma line_parts text caps :
  matches true line text = Some caps ->
  exists fam name procs ns rest, caps = [fam; name; procs; ns; rest] /\ forallb is_word fam = true /\
    forallb not_space name = true /\ forallb is_digit procs = true /\ forallb is_decimal ns = true.
Proof.
  intros E. destruct (matches_sound _ _ _ _ E) as (rest & Hp & _). unfold line in Hp.
  repeat match goal with H : parse (_ :: _) _ _ _ |- _ => inversion H; clear H; subst end.
  match goal with H : parse [] _ _ _ |- _ => inversion H; clear H; subst end. by eexists _, _, _, _, _.
Qed.

(** ** Metrics *)

(** One more number on a line: a tab, blanks, the number and its unit. *)
Record field := mkField { pad : list Z; value : list Z; unit : list Z }.

Definition field_text (f : field) : list Z := 9 :: pad f ++ value f ++ 32 :: unit f.
Definition field_ok (f : field) : Prop :=
  forallb (Z.eqb 32) (pad f) = true /\ all is_decimal (value f) /\ forallb not_space (unit f) = true.

(** The first number whose unit begins so. *)
Fixpoint value_of (u : list Z) (fs : list field) : float64 :=
  match fs with
  | [] => zero
  | f :: fs => match strip_prefix u (unit f) with Some _ => ParseFloat (value f) | None => value_of u fs end
  end.

Lemma strip_prefix_unit u w s :
  forallb not_space u = true -> match s with [] => True | x :: _ => x = 9 end ->
  (strip_prefix u (w ++ s) = None <-> strip_prefix u w = None).
Proof.
  intros Hu Hs. revert w Hu. induction u as [| x u IH]; intros w Hu; [by destruct (w ++ s), w |].
  cbn [forallb] in Hu. apply andb_prop in Hu as [Hx Hu]. destruct w as [| y w]; cbn [app strip_prefix].
  - destruct s as [| y s]; [done |]. subst y. destruct (Z.eqb_spec x 9) as [-> |]; [discriminate | done].
  - destruct (x =? y); [| done]. by apply IH.
Qed.

Section metric.
Context (u : list Z) (Hu : forallb not_space u = true).

Local Abbreviation P := [Rep true true true is_decimal; Lit (str " " ++ u)].

Lemma no_match s : (forall v r, s = v ++ 32 :: u ++ r -> all is_decimal v -> False) -> matches false P s = None.
Proof using Type.
  intros H. destruct (matches false P s) as [caps |] eqn:E; [| done]. exfalso.
  destruct (matches_sound _ _ _ _ E) as (rest & Hp & _).
  inversion Hp as [| | ? ? ? ? ? w s' ? ? Hw Hn Hl]; subst. inversion Hl as [| ? ? s0 ? ? _ |]; subst.
  apply (H w s0); [done | split; [by apply Hn | done]].
Qed.

Lemma search_next x s : matches false P (x :: s) = None -> search P (x :: s) = search P s.
Proof using Type. intros H. cbn [search]. by rewrite H. Qed.

Lemma search_skip x s : is_decimal x = false -> search P (x :: s) = search P s.
Proof using Type. intros H. apply search_next. cbn [matches]. by rewrite H. Qed.

Lemma search_blanks w s : forallb (Z.eqb 32) w = true -> search P (w ++ s) = search P s.
Proof using Type.
  induction w as [| x w IH]; [done |]. cbn [forallb app]. intros [Hx Hw]%andb_true_iff. apply Z.eqb_eq in Hx as <-.
  rewrite search_skip by done. by apply IH.
Qed.

Lemma search_unit w s :
  forallb not_space w = true -> match s with [] => True | x :: _ => x = 9 end -> search P (w ++ s) = search P s.
Proof using Type.
  induction w as [| x w IH]; [done |]. intros Hw Hs. rewrite <- app_comm_cons. rewrite search_next.
  { cbn [forallb] in Hw. apply andb_prop in Hw as [_ Hw]. by apply IH. }
  rewrite app_comm_cons. apply no_match. intros v r E [_ Hv]. revert E Hv. revert v Hw. generalize (x :: w). clear IH x w.
  intros w. induction w as [| x w IH]; intros v Hw E Hv.
  - destruct s as [| y s]; [by destruct v |]. subst y. destruct v as [| y v]; [discriminate |].
    injection E as <- _. discriminate.
  - cbn [forallb] in Hw. apply andb_prop in Hw as [Hx Hw]. destruct v as [| y v]; injection E as -> E; [discriminate |].
    cbn [forallb] in Hv. apply andb_prop in Hv as [_ Hv]. by apply (IH v).
Qed.

Lemma search_value v t :
  all is_decimal v -> search P (v ++ 32 :: t) = match strip_prefix u t with Some _ => Some [v] | None => search P t end.
Proof using Type.
  intros [Hn Hv]. destruct (strip_prefix u t) as [t' |] eqn:Et.
  - apply strip_prefix_Some in Et as ->. destruct v as [| x v]; [done |].
    assert (matches false P ((x :: v) ++ 32 :: u ++ t') = Some [x :: v]) as Hm.
    { apply (matches_run false true); [done | done | done |]. change (32 :: u ++ t') with ((str " " ++ u) ++ t').
      by rewrite matches_Lit. }
    cbn [app] in Hm |- *. cbn [search]. by rewrite Hm.
  - clear Hn. induction v as [| x v IH]; [by apply search_skip |]. rewrite <- app_comm_cons, search_next.
    { cbn [forallb] in Hv. apply andb_prop in Hv as [_ Hv]. by apply IH. }
    rewrite app_comm_cons. apply no_match. intros w r E [_ Hw]. revert w E Hw. generalize dependent (x :: v). clear IH x v.
    intros v. induction v as [| x v IH]; intros Hv w E Hw.
    + destruct w as [| y w]; [injection E as ->; by rewrite strip_prefix_app in Et | injection E as <- _; discriminate].
    + cbn [forallb] in Hv. apply andb_prop in Hv as [Hx Hv]. destruct w as [| y w]; injection E as -> E; [discriminate |].
      cbn [forallb] in Hw. apply andb_prop in Hw as [_ Hw]. by apply (IH Hv w).
Qed.

Lemma metric_fields fs : Forall field_ok fs -> metric (concat (field_text <$> fs)) u = value_of u fs.
Proof using Hu.
  unfold metric. induction 1 as [| f fs (Hp & Hv & Hf) Hfs IH]; [done |].
  change (concat (field_text <$> f :: fs)) with ((9 :: pad f ++ value f ++ 32 :: unit f) ++ concat (field_text <$> fs)).
  set (rest := concat (field_text <$> fs)) in *.
  assert (match rest with [] => True | x :: _ => x = 9 end) as Hr by (unfold rest; by destruct fs).
  rewrite <- app_comm_cons, <- app_assoc, <- app_assoc, <- app_comm_cons, search_skip, search_blanks, search_value by done.
  cbn [value_of]. pose proof (strip_prefix_unit u (unit f) rest Hu Hr) as Hs.
  destruct (strip_prefix u (unit f)) as [t |] eqn:E.
  - destruct (strip_prefix u (unit f ++ rest)) as [t' |]; [done |]. by discriminate (proj1 Hs eq_refl).
  - rewrite (proj2 Hs eq_refl), search_unit by done. apply IH.
Qed.
End metric.

(** ** What a line is read as *)

Definition line_entry (text : list Z) : option entry :=
  match matches true line text with
  | Some [fam; name; _; ns; rest] => entry_of fam name ns rest
  | _ => None
  end.

Definition entries (texts : list (list Z)) : list entry := omap line_entry texts.

Definition with_pv (st : report) (p : provenance) : report := {| st with pv := p |}.

Lemma add_with_pv st p e : add (with_pv st p) e = with_pv (add st e) p.
Proof.
  unfold add. cbn. repeat case_match; simplify_eq; done.
Qed.

Lemma read_line_entry st text :
  exists p, read_line st text = with_pv (match line_entry text with Some e => add st e | None => st end) p.
Proof.
  assert (forall p, {| st with pv := p |} = with_pv st p) as Hw by done.
  unfold read_line, line_entry. destruct (matches true line text) as [[| a [| b [| c [| d [| e [| ? ?]]]]]] |]; rewrite ?Hw; try by eexists.
  destruct (entry_of a b d e); cbv zeta; rewrite ?Hw, ?add_with_pv; by eexists.
Qed.

Lemma read_all_entries texts : exists p, read_all texts = with_pv (foldl add empty_report (entries texts)) p.
Proof.
  unfold read_all, entries. assert (forall st p, exists p', foldl read_line (with_pv st p) texts = with_pv (foldl add st (omap line_entry texts)) p') as H.
  { induction texts as [| text texts IH]; intros st p; [by exists p |]. cbn [foldl].
    destruct (read_line_entry (with_pv st p) text) as [p' ->]. change (omap line_entry (text :: texts)) with
      (match line_entry text with Some e => e :: omap line_entry texts | None => omap line_entry texts end).
    destruct (line_entry text) as [e |]; [rewrite add_with_pv; change (with_pv (with_pv (add st e) p) p') with (with_pv (add st e) p'); cbn [foldl]; apply IH | apply (IH st p')]. }
  destruct (H empty_report (pv empty_report)) as [p' E]. by exists p'.
Qed.

(** *** A printed cell *)

Definition dim_text (d : list Z * list Z) : list Z := d.1 ++ str "=" ++ d.2.

(** A benchmark's line: its family, dimensions and library, and what the run
    measured. *)
Record cell := mkCell {
  c_fam : list Z; c_dims : list (list Z * list Z); c_lib : list Z; c_procs : list Z; c_gap : list Z; c_runs : list Z; c_gap' : list Z;
  c_ns : list Z; c_fields : list field
}.

Definition cell_name (c : cell) : list Z := join (str "/") ((dim_text <$> c_dims c) ++ [c_lib c]).

Definition cell_text (c : cell) : list Z :=
  bench_line (c_fam c) (cell_name c) (c_procs c) (c_gap c) (c_runs c) (c_gap' c) (c_ns c) (concat (field_text <$> c_fields c)).

(** What may stand in a name: no blank, no slash, no equals sign. *)
Definition plain (l : list Z) : Prop := forallb not_space l = true /\ (47 ∉ l) /\ (61 ∉ l).

Record cell_ok (c : cell) : Prop := {
  ok_fam : all is_word (c_fam c);
  ok_dims : Forall (fun d => plain d.1 /\ plain d.2) (c_dims c);
  ok_once : NoDup (c_dims c).*1;
  ok_lib : plain (c_lib c) /\ c_lib c <> [];
  ok_procs : all is_digit (c_procs c);
  ok_gap : all is_space (c_gap c);
  ok_runs : all is_digit (c_runs c);
  ok_gap' : all is_space (c_gap' c);
  ok_ns : all is_decimal (c_ns c);
  ok_fields : Forall field_ok (c_fields c)
}.

Definition is_compress (d : list Z * list Z) : bool := bool_decide (d.1 = str "compress").

Definition cell_measured (c : cell) : result :=
  let num u := value_of (str u) (c_fields c) in
  mkResult (ParseFloat (c_ns c)) (num "MB/s") (num "msgs/s") (num "cpu-ns/msg") (to_int (num "B/op")) (to_int (num "allocs/op")).

(** The entry a cell stands for: its compress value, its other dimensions as
    a label, all of them by name. *)
Definition cell_entry (c : cell) : entry :=
  mkEntry (dim_text <$> List.filter (fun d => negb (is_compress d)) (c_dims c))
    (default [] ((list_to_map (c_dims c) : gmap (list Z) (list Z)) !! (str "compress")))
    (mkRecord (c_fam c) (list_to_map (c_dims c)) (c_dims c).*1 (c_lib c) (cell_measured c)).

Lemma dim_text_cut d : 61 ∉ d.1 -> Strings.cut 61 (dim_text d) = (d.1, d.2, true).
Proof. intros H. unfold dim_text. by apply (cut_found 61 d.1). Qed.

Lemma dim_text_plain d : plain d.1 -> plain d.2 -> forallb not_space (dim_text d) = true /\ 47 ∉ dim_text d.
Proof.
  intros (A1 & A2 & _) (B1 & B2 & _). unfold dim_text. rewrite !forallb_app, A1, B1. split; [done |].
  rewrite !not_elem_of_app. split_and!; [done | | done]. intros [E | E%elem_of_nil]%elem_of_cons; done.
Qed.

Lemma join_app_last sep ws w : ws <> [] -> join sep (ws ++ [w]) = join sep ws ++ sep ++ w.
Proof.
  intros Hn. induction ws as [| v ws IH]; [done |]. destruct ws as [| v' ws]; [done |].
  cbn [app join] in *. rewrite IH by done. by rewrite <- !app_assoc.
Qed.

Lemma forallb_join p sep ws :
  forallb p sep = true -> Forall (fun w => forallb p w = true) ws -> forallb p (join sep ws) = true.
Proof.
  intros Hs. induction 1 as [| w ws Hw Hws IH]; [done |]. destruct ws as [| v ws]; [done |].
  cbn [join] in *. by rewrite !forallb_app, Hw, Hs, IH.
Qed.

Section cell.
Context (c : cell) (Hc : cell_ok c).

Lemma cell_parts_plain : Forall (fun w => forallb not_space w = true /\ 47 ∉ w) ((dim_text <$> c_dims c) ++ [c_lib c]).
Proof using Hc.
  destruct Hc as [_ Hd _ [(L1 & L2 & _) _] _ _ _ _ _ _]. apply Forall_app. split; [| by repeat constructor].
  apply Forall_fmap. apply (Forall_impl _ _ _ Hd). intros d [H1 H2]. by apply dim_text_plain.
Qed.

Lemma cell_name_parts : split 47 (cell_name c) = (dim_text <$> c_dims c) ++ [c_lib c].
Proof using Hc.
  apply split_of_join; [by destruct (dim_text <$> c_dims c) |]. apply (Forall_impl _ _ _ cell_parts_plain). by intros w [_ H].
Qed.

Lemma cell_name_all : all not_space (cell_name c).
Proof using Hc.
  split.
  - unfold cell_name. pose proof (proj2 (ok_lib _ Hc)) as Hn. destruct (dim_text <$> c_dims c) as [| d ds] eqn:E; [done |].
    rewrite join_app_last by done. intros [_ [_ H]%app_eq_nil]%app_eq_nil. done.
  - apply forallb_join; [done |]. apply (Forall_impl _ _ _ cell_parts_plain). by intros w [H _].
Qed.

Lemma cell_rest_any : forallb is_any (concat (field_text <$> c_fields c)) = true.
Proof using Hc.
  assert (forall p w, (forall b, p b = true -> is_any b = true) -> forallb p w = true -> forallb is_any w = true) as Hsub.
  { intros p w Hp. induction w as [| x w IH]; [done |]. cbn. intros [Hx Hw]%andb_true_iff. by rewrite (Hp _ Hx), IH. }
  induction (ok_fields _ Hc) as [| f fs (Hp & [_ Hv] & Hu) _ IH]; [done |].
  change (concat (field_text <$> f :: fs)) with ((9 :: pad f ++ value f ++ 32 :: unit f) ++ concat (field_text <$> fs)).
  rewrite forallb_app, IH. cbn [forallb]. rewrite !forallb_app. cbn [forallb].
  rewrite (Hsub (Z.eqb 32) _ ltac:(intros b; unfold is_any; lia) Hp), (Hsub is_decimal _ ltac:(intros b; unfold is_any, is_decimal, is_digit; lia) Hv).
  by rewrite (Hsub not_space _ ltac:(intros b; unfold is_any, not_space, is_space; lia) Hu).
Qed.

Lemma cell_text_parses :
  matches true line (cell_text c) = Some [c_fam c; cell_name c; c_procs c; c_ns c; concat (field_text <$> c_fields c)].
Proof using Hc.
  unfold cell_text. destruct Hc. apply line_parses; try done; [apply cell_name_all | apply cell_rest_any].
Qed.

Lemma cell_dims ds : Forall (fun d => plain d.1 /\ plain d.2) ds ->
  Forall (fun d => dim_key (dim_text d) = d.1 /\ dim_value (dim_text d) = d.2) ds.
Proof using Type.
  intros H. apply (Forall_impl _ _ _ H). intros d [(_ & _ & H1) _]. unfold dim_key, dim_value. by rewrite dim_text_cut.
Qed.

Lemma split_dims_text ds :
  Forall (fun d => dim_key (dim_text d) = d.1 /\ dim_value (dim_text d) = d.2) ds -> NoDup ds.*1 ->
  split_dims (dim_text <$> ds) =
    (default [] ((list_to_map ds : gmap (list Z) (list Z)) !! (str "compress")),
     dim_text <$> List.filter (fun d => negb (is_compress d)) ds).
Proof using Type.
  intros Hk. unfold split_dims. set (step := fun '(comp, l) s => _).
  assert (forall comp acc, NoDup ds.*1 -> foldl step (comp, acc) (dim_text <$> ds) =
    (default comp ((list_to_map ds : gmap (list Z) (list Z)) !! (str "compress")),
     acc ++ (dim_text <$> List.filter (fun d => negb (is_compress d)) ds))) as H; [| apply (H [] [])].
  induction Hk as [| d ds [Hk Hv] _ IH]; intros comp acc Hn; [by rewrite app_nil_r |].
  apply NoDup_cons in Hn as [Hd Hn]. cbn [fmap list_fmap foldl list_to_map List.filter]. unfold step at 2. rewrite Hk, Hv.
  unfold is_compress at 1. destruct d as [k v]. cbn [fst snd] in *.
  change (list_to_map ((k, v) :: ds)) with (<[k := v]> (list_to_map ds : gmap (list Z) (list Z))).
  destruct (bool_decide_reflect (k = str "compress")) as [-> | Hne]; cbn [negb]; rewrite IH by done.
  - rewrite lookup_insert_eq. by rewrite (not_elem_of_list_to_map_1 _ _ Hd).
  - rewrite lookup_insert_ne by done. by rewrite <- app_assoc.
Qed.

Lemma dims_map (ds : list (list Z * list Z)) (m : gmap (list Z) (list Z)) :
  Forall (fun d => dim_key (dim_text d) = d.1 /\ dim_value (dim_text d) = d.2) ds -> NoDup ds.*1 ->
  foldl (fun m s => <[dim_key s := dim_value s]> m) m (dim_text <$> ds) = list_to_map ds ∪ m.
Proof using Type.
  intros Hk. revert m. induction Hk as [| d ds [Hk Hv] _ IH]; intros m Hn; [symmetry; apply (left_id_L ∅ (∪)) |].
  apply NoDup_cons in Hn as [Hd Hn]. cbn [fmap list_fmap foldl]. rewrite Hk, Hv, IH by done. destruct d as [k v]. cbn [fst snd] in *.
  change (list_to_map ((k, v) :: ds)) with (<[k := v]> (list_to_map ds : gmap (list Z) (list Z))).
  rewrite <- insert_union_l, insert_union_r; [done |]. by apply not_elem_of_list_to_map_1.
Qed.

Lemma cell_measure : measure (c_ns c) (concat (field_text <$> c_fields c)) = cell_measured c.
Proof using Hc. unfold measure, cell_measured. by rewrite !metric_fields by (done || apply (ok_fields _ Hc)). Qed.

Lemma cell_entry_of : entry_of (c_fam c) (cell_name c) (c_ns c) (concat (field_text <$> c_fields c)) = Some (cell_entry c).
Proof using Hc.
  unfold entry_of. rewrite cell_name_parts, last_last, removelast_last, cell_measure.
  replace (existsb (Z.eqb 61) (c_lib c)) with false.
  - pose proof (cell_dims _ (ok_dims _ Hc)) as Hk. rewrite (split_dims_text _ Hk (ok_once _ Hc)).
    rewrite (dims_map _ ∅ Hk (ok_once _ Hc)), (right_id_L ∅ (∪)).
    assert (dim_key <$> (dim_text <$> c_dims c) = (c_dims c).*1) as ->; [| done].
    clear -Hk. induction Hk as [| d ds [H _] _ IH]; [done |]. cbn in *. by rewrite H, IH.
  - symmetry. destruct (existsb (Z.eqb 61) (c_lib c)) eqn:E; [| done]. apply existsb_exists in E as (b & Hb & <-%Z.eqb_eq).
    destruct (ok_lib _ Hc) as [(_ & _ & Hl) _]. by apply list_elem_of_In in Hb.
Qed.

Lemma cell_line_entry : line_entry (cell_text c) = Some (cell_entry c).
Proof using Hc. unfold line_entry. by rewrite cell_text_parses, cell_entry_of. Qed.

Lemma cell_read st :
  let p := pv st in read_line st (cell_text c) = add (with_pv st {| p with procs := atoi_digits (c_procs c) |}) (cell_entry c).
Proof using Hc. unfold read_line. by rewrite cell_text_parses, cell_entry_of. Qed.

Lemma cell_cellName : c_dims c <> [] -> cellName (e_record (cell_entry c)) = cell_name c.
Proof using Hc.
  intros Hn. unfold cellName, cell_name. cbn [cell_entry e_record dimKeys dims lib].
  rewrite join_app_last by (by destruct (c_dims c)). do 2 f_equal. rewrite <- list_fmap_compose.
  apply list_fmap_ext. intros i d Hd. unfold compose, dim_text. do 2 f_equal.
  rewrite (elem_of_list_to_map_1 _ d.1 d.2 (ok_once _ Hc)); [done |]. destruct d. by eapply list_elem_of_lookup_2.
Qed.
End cell.

(** ** What the lines leave behind *)

(** Values in the order they were first seen. *)
Definition firsts (l : list (list Z)) : list (list Z) :=
  foldl (fun acc v => if bool_decide (v ∈ acc) then acc else acc ++ [v]) [] l.

Lemma firsts_snoc l v : firsts (l ++ [v]) = if bool_decide (v ∈ firsts l) then firsts l else firsts l ++ [v].
Proof. unfold firsts. by rewrite foldl_app. Qed.

Lemma elem_of_firsts l v : v ∈ firsts l <-> v ∈ l.
Proof.
  revert v. induction l as [| w l IH] using rev_ind; intros v; [done |]. rewrite firsts_snoc, elem_of_app, list_elem_of_singleton.
  destruct (bool_decide_reflect (w ∈ firsts l)) as [Hw | Hw].
  - rewrite IH in Hw |- *. split; [by left | by intros [? | ->]].
  - rewrite elem_of_app, list_elem_of_singleton, IH. done.
Qed.

Lemma firsts_NoDup l : NoDup (firsts l).
Proof.
  induction l as [| w l IH] using rev_ind; [by constructor |]. rewrite firsts_snoc.
  destruct (bool_decide_reflect (w ∈ firsts l)); [done |]. apply NoDup_app. split_and!; [done | | apply NoDup_singleton].
  intros v Hv ->%list_elem_of_singleton. done.
Qed.

(** *** Entries *)

Definition e_family (e : entry) : list Z := family (e_record e).
Definition e_lib (e : entry) : list Z := lib (e_record e).

Definition entry_ok (e : entry) : Prop := (47 ∉ e_family e) /\ (47 ∉ e_comp e) /\ (47 ∉ e_lib e).

(** Of a family and a compression mode. *)
Definition is_of (fam comp : list Z) (e : entry) : bool := bool_decide (e_family e = fam /\ e_comp e = comp).

Lemma dim_value_byte b s : b ∉ s -> b ∉ dim_value s.
Proof.
  unfold dim_value. induction s as [| x s IH]; intros Hb; [done |]. apply not_elem_of_cons in Hb as [Hx Hb]. cbn [Strings.cut].
  destruct (x =? 61); [done |]. specialize (IH Hb). by destruct (Strings.cut 61 s) as [[? ?] ?].
Qed.

Lemma split_dims_byte b segs : Forall (fun s => b ∉ s) segs -> b ∉ (split_dims segs).1.
Proof.
  unfold split_dims. assert (forall p, b ∉ p.1 -> Forall (fun s => b ∉ s) segs ->
    b ∉ (foldl (fun '(comp, ds) s => if bool_decide (dim_key s = str "compress") then (dim_value s, ds) else (comp, ds ++ [s])) p segs).1) as H.
  { induction segs as [| s segs IH]; intros [comp ds] Hp Hs; [done |]. apply Forall_cons in Hs as [Hs Hss]. cbn [foldl].
    case_bool_decide; apply IH; try done. by apply dim_value_byte. }
  apply (H ([], [])). apply not_elem_of_nil.
Qed.

Lemma word_no_slash w : forallb is_word w = true -> 47 ∉ w.
Proof. intros Hw He. eapply forallb_forall in Hw; [| apply list_elem_of_In, He]. done. Qed.

Lemma line_entry_ok text e : line_entry text = Some e -> entry_ok e.
Proof.
  unfold line_entry. destruct (matches true line text) as [caps |] eqn:E; [| done].
  destruct (line_parts _ _ E) as (fam & name & procs & ns & rest & -> & Hf & _). unfold entry_of.
  destruct (existsb _ _); [done |]. pose proof (split_parts 47 name) as Hs. set (segs := split 47 name) in *.
  assert (Forall (fun w => 47 ∉ w) (removelast segs)) as Hi.
  { clear -Hs. induction Hs as [| w ws Hw Hws IH]; [done |]. destruct ws as [| v ws]; [done |]. by constructor. }
  pose proof (split_dims_byte 47 _ Hi) as Hc. destruct (split_dims (removelast segs)) as [comp ds]. intros [= <-].
  unfold entry_ok, e_family, e_lib. cbn in *. split_and!; [by apply word_no_slash | done |].
  clear -Hs. induction Hs as [| w ws Hw Hws IH]; [apply not_elem_of_nil |]. by destruct ws.
Qed.

Lemma entries_ok texts : Forall entry_ok (entries texts).
Proof.
  unfold entries. induction texts as [| text texts IH]; [done |]. cbn. destruct (line_entry text) eqn:E; [| done].
  constructor; [by apply (line_entry_ok text) | done].
Qed.

Lemma fc_of_inj fam comp fam' comp' x y :
  47 ∉ fam -> 47 ∉ comp -> 47 ∉ fam' -> 47 ∉ comp' ->
  fc_of fam comp ++ 47 :: x = fc_of fam' comp' ++ 47 :: y -> fam = fam' /\ comp = comp' /\ x = y.
Proof.
  intros Hf Hc Hf' Hc' E. unfold fc_of in E. change (str "/") with [47] in E. rewrite <- !app_assoc in E. cbn [app] in E.
  apply app_sep_inj in E as [-> E]; [| done | done]. by apply app_sep_inj in E as [-> ->].
Qed.

(** *** What was seen *)

Definition mark_of (tag : list Z) (f : entry -> list Z) (e : entry) : list Z :=
  tag ++ fc_of (e_family e) (e_comp e) ++ str "/" ++ f e.

Definition libMark : entry -> list Z := mark_of (str "l/") e_lib.
Definition labelMark : entry -> list Z := mark_of (str "r/") e_label.

Definition marked (es : list entry) (mark : list Z) : Prop :=
  exists e, e ∈ es /\ (mark = e_family e \/ mark = libMark e \/ mark = labelMark e).

(** The part of some entries a mark speaks of. *)
Definition slot (f : entry -> list Z) (fam comp : list Z) (es : list entry) : list (list Z) :=
  f <$> List.filter (is_of fam comp) es.

Lemma elem_of_slot f fam comp es v :
  v ∈ slot f fam comp es <-> exists e, e ∈ es /\ e_family e = fam /\ e_comp e = comp /\ f e = v.
Proof.
  unfold slot. rewrite list_elem_of_fmap. setoid_rewrite list_elem_of_In. setoid_rewrite filter_In.
  setoid_rewrite <- list_elem_of_In. unfold is_of. setoid_rewrite bool_decide_eq_true. split.
  - intros (e & -> & Hi & ? & ?). by exists e.
  - intros (e & Hi & ? & ? & <-). by exists e.
Qed.

Section marks.
Context (es : list entry) (e : entry) (Hes : Forall entry_ok es) (He : entry_ok e).

Lemma mark_slot tag f :
  (exists e', e' ∈ es /\ mark_of tag f e = mark_of tag f e') <-> f e ∈ slot f (e_family e) (e_comp e) es.
Proof using All.
  rewrite elem_of_slot. split.
  - intros (e' & He' & E). pose proof (proj1 (Forall_forall _ _) Hes _ He') as (? & ? & _). destruct He as (? & ? & _).
    apply app_inv_head in E. apply fc_of_inj in E as (? & ? & ?); try done. by exists e'.
  - intros (e' & He' & E1 & E2 & E3). exists e'. split; [done |]. unfold mark_of. by rewrite E1, E2, E3.
Qed.

(** A family is no mark. *)
Lemma mark_no_family tag f e' : entry_ok e' -> 47 ∈ tag -> mark_of tag f e <> e_family e'.
Proof using Type. intros (Hf & _) Ht E. apply Hf. rewrite <- E. unfold mark_of. apply elem_of_app. by left. Qed.

Lemma family_marked : marked es (e_family e) <-> e_family e ∈ e_family <$> es.
Proof using All.
  rewrite list_elem_of_fmap. split.
  - intros (e' & He' & [E | [E | E]]); [by exists e' | |]; exfalso; destruct He as (Hf & _); apply Hf; rewrite E; right; left.
  - intros (e' & E & He'). exists e'. auto.
Qed.

Lemma libMark_marked : marked es (libMark e) <-> e_lib e ∈ slot e_lib (e_family e) (e_comp e) es.
Proof using All.
  rewrite <- (mark_slot (str "l/")). split.
  - intros (e' & He' & [E | [E | E]]); [| by exists e' | discriminate]. exfalso.
    apply (mark_no_family (str "l/") e_lib e'); [by eapply Forall_forall in Hes | right; left | done].
  - intros (e' & He' & E). exists e'. auto.
Qed.

Lemma labelMark_marked : marked es (labelMark e) <-> e_label e ∈ slot e_label (e_family e) (e_comp e) es.
Proof using All.
  rewrite <- (mark_slot (str "r/")). split.
  - intros (e' & He' & [E | [E | E]]); [| discriminate | by exists e']. exfalso.
    apply (mark_no_family (str "r/") e_label e'); [by eapply Forall_forall in Hes | right; left | done].
  - intros (e' & He' & E). exists e'. auto.
Qed.
End marks.

(** *** The report of some entries *)

Definition last_of (es : list entry) (k : key) : option result :=
  (fun e => measured (e_record e)) <$> last (List.filter (fun e => bool_decide (e_key e = k)) es).

Lemma last_of_some es e : e ∈ es -> exists r, last_of es (e_key e) = Some r.
Proof.
  intros He. unfold last_of. assert (e ∈ List.filter (fun e' => bool_decide (e_key e' = e_key e)) es) as Hin
    by (apply list_elem_of_In, filter_In; split; [by apply list_elem_of_In | by apply bool_decide_eq_true]).
  destruct (last _) as [e' |] eqn:E; [by eexists |]. apply last_None in E. rewrite E in Hin. by apply elem_of_nil in Hin.
Qed.

(** The dimensions a family's tables have: those of its first line with any. *)
Definition first_dims (es : list entry) (fam : list Z) : list (list Z) :=
  match List.filter (fun e => bool_decide (e_family e = fam /\ e_dims e <> [])) es with
  | e :: _ => dim_key <$> e_dims e
  | [] => []
  end.

Lemma first_dims_snoc es e fam :
  first_dims (es ++ [e]) fam =
  if bool_decide (first_dims es fam = []) && bool_decide (e_family e = fam) then dim_key <$> e_dims e else first_dims es fam.
Proof.
  unfold first_dims. rewrite List.filter_app. cbn [List.filter].
  set (p := fun e => bool_decide (e_family e = fam /\ e_dims e <> [])).
  assert (match List.filter p es with e :: _ => dim_key <$> e_dims e | [] => [] end = [] -> List.filter p es = []) as Hnil.
  { destruct (List.filter p es) as [| e' l] eqn:E; [done |]. intros Hd%fmap_nil_inv.
    assert (In e' (List.filter p es)) as Hin by (rewrite E; by left). apply filter_In in Hin as [_ Hp].
    unfold p in Hp. apply bool_decide_eq_true in Hp as [_ ?]. done. }
  destruct (List.filter p es) as [| e' l] eqn:E; cbn [app].
  - rewrite (bool_decide_eq_true_2 ([] = [])) by done. cbn [andb]. unfold p.
    destruct (bool_decide_reflect (e_family e = fam)) as [Hf | Hf].
    + destruct (e_dims e) as [| d ds] eqn:Ed; [by rewrite bool_decide_eq_false_2 by (by intros [_ ?])|].
      rewrite bool_decide_eq_true_2 by done. by rewrite Ed.
    + by rewrite bool_decide_eq_false_2 by (by intros [? _]).
  - rewrite bool_decide_eq_false_2; [done |]. intros H. by discriminate (Hnil H).
Qed.

Record reports (es : list entry) (st : report) : Prop := {
  of_rows : forall k, rows st !! k = last_of es k;
  of_records : records st = e_record <$> es;
  of_families : famOrder st = firsts (e_family <$> es);
  of_libs : forall fam comp, 47 ∉ fam -> 47 ∉ comp -> slice_at (libOrder st) (fc_of fam comp) = firsts (slot e_lib fam comp es);
  of_labels : forall fam comp, 47 ∉ fam -> 47 ∉ comp -> slice_at (rowLabels st) (fc_of fam comp) = firsts (slot e_label fam comp es);
  of_dims : forall fam, slice_at (dimOrder st) fam = first_dims es fam;
  of_present : forall fc, is_Some (rowLabels st !! fc) <-> slice_at (rowLabels st) fc <> [];
  of_seen : forall mark, mark ∈ seen st <-> marked es mark
}.

Lemma once_eq (s : gset (list Z)) mark m k v :
  once s mark m k v = ({[mark]} ∪ s, if bool_decide (mark ∈ s) then m else <[k := slice_at m k ++ [v]]> m).
Proof. unfold once. case_bool_decide as Hm; [| done]. f_equal. by rewrite subseteq_union_1_L by (by apply singleton_subseteq_l). Qed.

Lemma filter_snoc {A} (p : A -> bool) l x : List.filter p (l ++ [x]) = List.filter p l ++ if p x then [x] else [].
Proof. rewrite List.filter_app. done. Qed.

Lemma slot_snoc f fam comp es e : slot f fam comp (es ++ [e]) = slot f fam comp es ++ if is_of fam comp e then [f e] else [].
Proof. unfold slot. rewrite filter_snoc, fmap_app. by destruct (is_of fam comp e). Qed.

(** A value appended once under the key of an entry. *)
Lemma slot_once (f : entry -> list Z) es e m (b : bool) fam comp :
  entry_ok e -> 47 ∉ fam -> 47 ∉ comp ->
  slice_at m (fc_of fam comp) = firsts (slot f fam comp es) ->
  (b = true <-> f e ∈ slot f (e_family e) (e_comp e) es) ->
  slice_at (if b then m else <[fc_of (e_family e) (e_comp e) := slice_at m (fc_of (e_family e) (e_comp e)) ++ [f e]]> m) (fc_of fam comp)
  = firsts (slot f fam comp (es ++ [e])).
Proof.
  intros (Hf & Hc & _) Hf' Hc' Hm Hb. rewrite slot_snoc. destruct (is_of fam comp e) eqn:E.
  - apply bool_decide_eq_true in E as [<- <-]. rewrite firsts_snoc. destruct b.
    + rewrite bool_decide_eq_true_2 by (by apply elem_of_firsts, Hb). done.
    + rewrite bool_decide_eq_false_2 by (by rewrite elem_of_firsts, <- Hb). unfold slice_at at 1. rewrite lookup_insert_eq. cbn.
      by rewrite Hm.
  - rewrite app_nil_r. destruct b; [done |]. unfold slice_at at 1. rewrite lookup_insert_ne; [done |]. intros Efc.
    unfold is_of in E. apply bool_decide_eq_false in E. apply E.
    apply (f_equal (.++ 47 :: [])) in Efc. apply fc_of_inj in Efc as (? & ? & _); done.
Qed.

Lemma reports_add es e st : Forall entry_ok es -> entry_ok e -> reports es st -> reports (es ++ [e]) (add st e).
Proof.
  intros Hes He [Hrows Hrec Hfam Hlib Hlab Hdim Hpre Hseen].
  pose proof (family_marked es e Hes He) as Mf. pose proof (libMark_marked es e Hes He) as Ml. pose proof (labelMark_marked es e Hes He) as Mr.
  assert (forall tag f, 47 ∈ tag -> mark_of tag f e <> e_family e) as Hne by (intros; by apply mark_no_family).
  unfold add. cbv zeta. fold (e_family e) (e_lib e).
  replace (if bool_decide (e_family e ∈ seen st) then (seen st, famOrder st) else ({[e_family e]} ∪ seen st, famOrder st ++ [e_family e]))
    with ({[e_family e]} ∪ seen st, firsts (e_family <$> es ++ [e])).
  2:{ rewrite fmap_app. cbn [fmap list_fmap]. rewrite firsts_snoc, Hfam. rewrite <- Hseen, <- elem_of_firsts in Mf.
      rewrite <- (bool_decide_ext _ _ Mf). case_bool_decide; [| done]. f_equal. by rewrite (subseteq_union_1_L {[e_family e]} (seen st)) by (by apply singleton_subseteq_l). }
  rewrite !once_eq. fold (libMark e) (labelMark e).
  change (str "l/" ++ fc_of (e_family e) (e_comp e) ++ str "/" ++ e_lib e) with (libMark e).
  change (str "r/" ++ fc_of (e_family e) (e_comp e) ++ str "/" ++ e_label e) with (labelMark e).
  split; cbn [rows records famOrder dimOrder libOrder rowLabels seen].
  - intros k. unfold last_of. rewrite filter_snoc. destruct (bool_decide_reflect (e_key e = k)) as [<- | Hk].
    + by rewrite lookup_insert_eq, last_snoc.
    + by rewrite lookup_insert_ne, app_nil_r.
  - by rewrite Hrec, fmap_app.
  - done.
  - intros fam comp Hf Hc. apply slot_once; try done; [by apply Hlib |]. rewrite bool_decide_eq_true, <- Ml, <- Hseen, elem_of_union, elem_of_singleton.
    split; [intros [E | ?]; [by destruct (Hne (str "l/") e_lib ltac:(right; left) E) | done] | auto].
  - intros fam comp Hf Hc. apply slot_once; try done; [by apply Hlab |].
    rewrite bool_decide_eq_true, <- Mr, <- Hseen, !elem_of_union, !elem_of_singleton.
    split; [intros [E | [E | ?]]; [discriminate E | by destruct (Hne (str "r/") e_label ltac:(right; left) E) | done] | auto].
  - intros fam. rewrite first_dims_snoc, <- !Hdim. destruct (bool_decide_reflect (e_family e = fam)) as [<- | Hne'].
    + rewrite andb_true_r. case_bool_decide as E; cbn [andb]; [| done]. destruct (bool_decide_reflect (e_dims e = [])) as [Ed | Ed]; cbn [negb].
      * by rewrite E, Ed.
      * unfold slice_at. by rewrite lookup_insert_eq.
    + rewrite andb_false_r. destruct (_ && _); [| done]. unfold slice_at. by rewrite lookup_insert_ne.
  - intros fc. case_bool_decide; [apply Hpre |]. unfold slice_at. destruct (decide (fc = fc_of (e_family e) (e_comp e))) as [-> | Hfc].
    + rewrite lookup_insert_eq. cbn. split; [intros _ Hnil; by apply app_eq_nil in Hnil as [_ ?] | done].
    + rewrite lookup_insert_ne by done. apply Hpre.
  - intros mark. rewrite !elem_of_union, !elem_of_singleton, Hseen. unfold marked. setoid_rewrite elem_of_app. setoid_rewrite list_elem_of_singleton.
    split; [intros [-> | [-> | [-> | (e' & ? & ?)]]]; [exists e; auto .. | exists e'; auto] |].
    intros (e' & [? | ->] & Hm); [right; right; right; by exists e' | destruct Hm as [? | [? | ?]]; auto].
Qed.

Lemma reports_all texts : reports (entries texts) (read_all texts).
Proof.
  destruct (read_all_entries texts) as [p ->]. assert (forall st, reports (entries texts) st -> reports (entries texts) (with_pv st p)) as Hpv.
  { intros st []. by constructor. }
  apply Hpv. clear Hpv. pose proof (entries_ok texts) as Hok. revert Hok. generalize (entries texts). intros es.
  induction es as [| e es IH] using rev_ind; intros Hok.
  - constructor; try done.
    + intros fc. by split; [intros [? ?] |].
    + intros mark. by split; [intros ?%elem_of_empty | intros (e & ?%elem_of_nil & _)].
  - apply Forall_app in Hok as [Hok He]. apply Forall_cons in He as [He _]. rewrite foldl_app. cbn [foldl].
    apply reports_add; [done | done | by apply IH].
Qed.

(** *** Sorting *)

Lemma insert_back_Permutation {A} (less : A -> A -> bool) (x : A) rev : insert_back less x rev ≡ₚ x :: rev.
Proof.
  induction rev as [| y rev IH]; cbn [insert_back]; [done |]. destruct (less x y); [| done]. rewrite IH. constructor.
Qed.

Lemma stable_sort_Permutation {A} (less : A -> A -> bool) l : stable_sort less l ≡ₚ l.
Proof.
  unfold stable_sort. rewrite reverse_Permutation. assert (forall rev, foldl (fun rev x => insert_back less x rev) rev l ≡ₚ l ++ rev) as H.
  { induction l as [| x l IH]; intros rev; [done |]. cbn [foldl]. rewrite IH, insert_back_Permutation. symmetry. apply Permutation_middle. }
  by rewrite H, app_nil_r.
Qed.

Lemma filter_reverse {A} (p : A -> bool) l : List.filter p (reverse l) = reverse (List.filter p l).
Proof. unfold reverse. rewrite <- !rev_alt. apply filter_rev. Qed.

Section rank.
Context {A} (f : A -> Z).

Local Abbreviation less := (fun a b => f a <? f b).
Local Abbreviation ranked r := (List.filter (fun a => f a =? r)).

Lemma insert_back_sorted (x : A) rev :
  StronglySorted (fun a b => f b <= f a) rev -> StronglySorted (fun a b => f b <= f a) (insert_back less x rev).
Proof using Type.
  induction 1 as [| y rev Hs IH Hy]; cbn [insert_back]; [by repeat constructor |].
  destruct (Z.ltb_spec (f x) (f y)); constructor; try done.
  - rewrite insert_back_Permutation. constructor; [lia | done].
  - by constructor.
  - constructor; [lia |]. apply (Forall_impl _ _ _ Hy). cbn. lia.
Qed.

Lemma insert_back_rank (x : A) rev r : ranked r (insert_back less x rev) = ranked r (x :: rev).
Proof using Type.
  induction rev as [| y rev IH]; cbn [insert_back]; [done |]. destruct (Z.ltb_spec (f x) (f y)); [| done].
  cbn [List.filter] in *. rewrite IH. destruct (Z.eqb_spec (f x) r), (Z.eqb_spec (f y) r); try done. lia.
Qed.

(** In the order of the ranks, and for each rank in the order given. *)
Lemma stable_sort_sorted (l : list A) : StronglySorted (fun a b => f a <= f b) (stable_sort less l).
Proof using Type.
  unfold stable_sort. assert (forall rev, StronglySorted (fun a b => f b <= f a) rev ->
    StronglySorted (fun a b => f b <= f a) (foldl (fun rev x => insert_back less x rev) rev l)) as H.
  { induction l as [| x l IH]; intros rev Hrev; [done |]. cbn [foldl]. by apply IH, insert_back_sorted. }
  specialize (H [] ltac:(constructor)). induction H as [| x rev Hs IH Hx]; [constructor |]. rewrite reverse_cons.
  apply StronglySorted_app. split_and!; [| done | by repeat constructor].
  intros a b Ha ->%list_elem_of_singleton. apply (proj1 (Forall_forall _ _) Hx). by apply elem_of_reverse.
Qed.

Lemma stable_sort_stable (l : list A) r : ranked r (stable_sort less l) = ranked r l.
Proof using Type.
  unfold stable_sort. assert (forall rev, ranked r (foldl (fun rev x => insert_back less x rev) rev l) = ranked r (reverse l ++ rev)) as H.
  { induction l as [| x l IH]; intros rev; [done |]. cbn [foldl]. rewrite IH, reverse_cons, <- app_assoc, !(List.filter_app _ (reverse l)), insert_back_rank. done. }
  by rewrite filter_reverse, H, app_nil_r, filter_reverse, reverse_involutive.
Qed.
End rank.

(** *** The tables *)

(** What the cells of a table show of a measurement: messages a second if they
    were counted, else bytes, else the time; the processor's time for a
    message; the allocations, with their size from a kibibyte on. *)
Definition scaled (digits : Z) (x : float64) (by_ : Z) (suffix : string) : list Z :=
  format_fixed digits (fdiv x (of_int by_)) ++ str suffix.

Definition rate_text (r : result) : list Z :=
  if flt zero (msgs r) then
    if fle (of_int 1000000) (msgs r) then scaled 2 (msgs r) 1000000 "M msgs/s" else scaled 0 (msgs r) 1000 "k msgs/s"
  else if flt zero (mbs r) then
    if fle (of_int 1000) (mbs r) then scaled 1 (mbs r) 1000 " GB/s" else format_fixed 0 (mbs r) ++ str " MB/s"
  else scaled 0 (ns r) 1000 " µs".

Definition cpu_text (r : result) : list Z :=
  let x := Rs.cpu r in
  if fle x zero then str "n/a" else if fle (of_int 1000) x then scaled 1 x 1000 " µs" else format_fixed 0 x ++ str " ns".

Definition allocs_text (r : result) : list Z :=
  if bytes r <? 1024 then Itoa (allocs r) else Itoa (allocs r) ++ str " (" ++ Itoa (bytes r / 1024) ++ str " KB)".

Definition shown (r : option result) : list Z * list Z * list Z :=
  match r with
  | Some r => (rate_text r, cpu_text r, allocs_text r)
  | None => (str "n/a", str "n/a", str "n/a")
  end.

(** And of a dimension: its value, sizes in binary units. *)
Definition size_text (n : Z) : list Z :=
  if n <? 1024 then Itoa n ++ str " B"
  else if n <? 1048576 then Itoa (n / 1024) ++ str " KiB" else Itoa (n / 1048576) ++ str " MiB".

Definition dim_shown (d : list Z) : list Z :=
  let '(k, v, _) := Strings.cut 61 d in
  if decide (k = str "size") then match Atoi v with Some n => size_text n | None => v end else v.

Lemma fle_pos n x : n = 1000 \/ n = 1000000 -> fle (of_int n) x = true -> flt zero x = true.
Proof.
  assert (forall m e, fle (S754_finite false m e) x = true -> flt zero x = true) as H by (intros m e; by destruct x as [[] | [] | | []]).
  intros [-> | ->] Hx; (eapply H; etransitivity; [| exact Hx]; symmetry; f_equal; vm_compute; reflexivity).
Qed.

Lemma throughput_text r : throughput r = rate_text r.
Proof.
  unfold throughput, rate_text, scaled. destruct (flt zero (msgs r)) eqn:Em.
  - by destruct (fle (of_int 1000000) (msgs r)).
  - destruct (fle (of_int 1000000) (msgs r)) eqn:E; [by rewrite (fle_pos 1000000 _ (or_intror eq_refl) E) in Em |].
    destruct (flt zero (mbs r)) eqn:Eb; [done |].
    destruct (fle (of_int 1000) (mbs r)) eqn:E'; [by rewrite (fle_pos 1000 _ (or_introl eq_refl) E') in Eb | done].
Qed.

Lemma alloc_text r : alloc_cell r = allocs_text r.
Proof.
  unfold alloc_cell, allocs_text. rewrite Z.leb_antisym. destruct (Z.ltb_spec (bytes r) 1024); cbn [negb]; [by rewrite app_nil_r |].
  by rewrite Z.quot_div_nonneg by lia.
Qed.

Lemma row_cell_shown d : row_cell d = dim_shown d.
Proof.
  unfold row_cell, dim_shown, dim_key, dim_value. destruct (Strings.cut 61 d) as [[k v] b]. cbn [fst snd].
  destruct (decide (k = str "size")) as [E | E]; [rewrite (bool_decide_eq_true_2 _ E) | rewrite (bool_decide_eq_false_2 _ E)];
    (destruct (Atoi v) as [n |]; [| reflexivity]); [| reflexivity].
  unfold size_text. change (2 ^ 20) with 1048576. destruct (Z.ltb_spec n 1024) as [H1 | H1]; [reflexivity |].
  destruct (Z.ltb_spec n 1048576) as [H2 | H2]; rewrite Z.quot_div_nonneg by (clear - H1; lia); reflexivity.
Qed.

Lemma cells_shown es st fam comp label lib : reports es st -> cells st fam comp label lib = shown (last_of es (fam, label, comp, lib)).
Proof.
  intros H. unfold cells. rewrite (of_rows _ _ H). destruct (last_of _ _) as [r |]; [| done]. cbn [shown].
  by rewrite throughput_text, alloc_text.
Qed.

Lemma present_iff es st fam comp :
  reports es st -> 47 ∉ fam -> 47 ∉ comp ->
  is_Some (rowLabels st !! fc_of fam comp) <-> exists e, e ∈ es /\ e_family e = fam /\ e_comp e = comp.
Proof.
  intros H Hf Hc. rewrite (of_present _ _ H), (of_labels _ _ H) by done. split.
  - intros Hn. destruct (firsts (slot e_label fam comp es)) as [| v vs] eqn:E; [done |].
    assert (v ∈ slot e_label fam comp es) as (e & He & ? & ? & _)%elem_of_slot by (apply elem_of_firsts; rewrite E; left). by exists e.
  - intros (e & He & Hfam & Hcomp) En. assert (e_label e ∈ firsts (slot e_label fam comp es)) as Hin; [| rewrite En in Hin; by apply elem_of_nil in Hin].
    apply elem_of_firsts, elem_of_slot. by exists e.
Qed.

Lemma modes_no_slash comp : comp ∈ [str "false"; str "true"; str "nocontext"] -> 47 ∉ comp.
Proof. rewrite !elem_of_cons. intros [-> | [-> | [-> | []%elem_of_nil]]]; by apply word_no_slash. Qed.

Lemma rows_some es st : reports es st -> es <> [] -> rows st <> ∅.
Proof.
  intros R He E0. destruct es as [| e es]; [done |]. destruct (last_of_some (e :: es) e ltac:(left)) as [r Er].
  pose proof (of_rows _ _ R (e_key e)) as H. by rewrite Er, E0, lookup_empty in H.
Qed.

(** The modes a family has a table for: of the three, those with a line, if
    one is without compression; else the mode of lines that name none. *)
Lemma comps_of_spec es st fam comp :
  reports es st -> 47 ∉ fam ->
  comp ∈ comps_of st fam <->
    if bool_decide (is_Some (rowLabels st !! fc_of fam (str "false")))
    then comp ∈ [str "false"; str "true"; str "nocontext"] /\ exists e, e ∈ es /\ e_family e = fam /\ e_comp e = comp
    else comp = [].
Proof.
  intros H Hf. unfold comps_of. case_bool_decide; [| by rewrite list_elem_of_singleton].
  rewrite list_elem_of_filter. split.
  - intros [Hp Hc]. split; [done |]. by apply (present_iff es st fam comp H Hf (modes_no_slash _ Hc)).
  - intros [Hc He]. split; [| done]. by apply (present_iff es st fam comp H Hf (modes_no_slash _ Hc)).
Qed.

Lemma comps_no_slash es st fam comp : reports es st -> 47 ∉ fam -> comp ∈ comps_of st fam -> 47 ∉ comp.
Proof.
  intros H Hf. rewrite (comps_of_spec _ _ _ _ H Hf). case_bool_decide.
  - intros [Hc _]. by apply modes_no_slash.
  - intros ->. apply not_elem_of_nil.
Qed.

Lemma sorted_of_slot {less : list Z -> list Z -> bool} (f : entry -> list Z) l fam comp es :
  l = firsts (slot f fam comp es) ->
  NoDup (stable_sort less l) /\ forall v, v ∈ stable_sort less l <-> exists e, e ∈ es /\ e_family e = fam /\ e_comp e = comp /\ f e = v.
Proof.
  intros ->. split; [rewrite stable_sort_Permutation; apply firsts_NoDup |].
  intros v. by rewrite stable_sort_Permutation, elem_of_firsts, elem_of_slot.
Qed.

(** *** A table, as Markdown *)

Definition md_row (cs : list (list Z)) : list Z := str "| " ++ join (str " | ") cs ++ str " |" ++ [10].
Definition md_rule (n : nat) : list Z := str "|" ++ concat (replicate n (str "---|")) ++ [10].

(** A blank cell where there would be none. *)
Definition or_blank (cs : list (list Z)) : list (list Z) := match cs with [] => [[]] | _ => cs end.

Definition capital (d : list Z) : list Z := match d with [] => [] | b :: d => upper_byte b ++ d end.

Definition md_title (comp : list Z) : list Z :=
  if decide (comp = str "false") then str "Uncompressed"
  else if decide (comp = str "true") then str "Compressed with context takeover"
  else if decide (comp = str "nocontext") then str "Compressed without context takeover" else str "Results".

(** A column for each dimension and each library, in the order of [libs], one
    for the processor time if it was measured, one for the allocations; in
    each row the last line of that name, library by library. *)
Definition md_head (dims libs : list (list Z)) (cpu : bool) : list Z :=
  md_row (or_blank (capital <$> dims) ++ or_blank libs ++
          (if cpu then [str "CPU/msg " ++ join (str " / ") libs] else []) ++ [str "allocs/op " ++ join (str " / ") libs]).

Definition md_line (es : list entry) (fam comp : list Z) (libs : list (list Z)) (cpu : bool) (label : list Z) : list Z :=
  let cell l := shown (last_of es (fam, label, comp, l)) in
  md_row ((dim_shown <$> split 47 label) ++ ((fun l => (cell l).1.1) <$> libs) ++
          (if cpu then [join (str " / ") ((fun l => (cell l).1.2) <$> libs)] else []) ++
          [join (str " / ") ((fun l => (cell l).2) <$> libs)]).

Definition md_table (es : list entry) (fam comp : list Z) (libs labels : list (list Z)) (cpu : bool) : list Z :=
  let dims := first_dims es fam in
  str "## " ++ md_title comp ++ [10; 10] ++ md_head dims libs cpu ++
  md_rule (length dims + length libs + (if cpu then 2 else 1)) ++
  concat (md_line es fam comp libs cpu <$> labels) ++ [10].

(** The table of a family and a mode: its columns are the libraries, its rows
    the combinations of dimensions, that some line has, each once, the
    libraries in the order of the known ones and those of equal rank as they
    came. *)
Definition table_of (es : list entry) (fam comp t : list Z) : Prop :=
  exists libs labels cpu,
    t = md_table es fam comp libs labels cpu /\
    NoDup libs /\ NoDup labels /\ StronglySorted (fun a b => libRank a <= libRank b) libs /\
    (forall r, List.filter (fun l => libRank l =? r) libs = List.filter (fun l => libRank l =? r) (firsts (slot e_lib fam comp es))) /\
    (forall l, l ∈ libs <-> exists e, e ∈ es /\ e_family e = fam /\ e_comp e = comp /\ e_lib e = l) /\
    (forall l, l ∈ labels <-> exists e, e ∈ es /\ e_family e = fam /\ e_comp e = comp /\ e_label e = l) /\
    (cpu = true <-> exists e r, e ∈ es /\ e_family e = fam /\ e_comp e = comp /\
       last_of es (e_key e) = Some r /\ flt zero (Rs.cpu r) = true).

(** The modes of a family: of the three known ones those with a line, if some
    line is uncompressed; else the lines that name no mode, if any. *)
Definition modes (es : list entry) (fam : list Z) : list (list Z) :=
  if existsb (is_of fam (str "false")) es
  then filter (fun comp => existsb (is_of fam comp) es = true) [str "false"; str "true"; str "nocontext"]
  else [[]].

(** The report: a section for each family, in the order they first came, with
    the tables of its modes in it. *)
Definition report_of (es : list entry) (out : list Z) : Prop :=
  exists sections, out = concat sections /\
    Forall2 (fun fam section => exists pre tables post, section = pre ++ concat tables ++ post /\
      Forall2 (table_of es fam) (modes es fam) tables) (firsts (e_family <$> es)) sections.

Lemma join_app sep a b : a <> [] -> b <> [] -> join sep (a ++ b) = join sep a ++ sep ++ join sep b.
Proof.
  intros Ha Hb. induction a as [| x a IH]; [done |]. destruct a as [| y a].
  - cbn [app]. by destruct b.
  - cbn [app join] in *. rewrite IH by done. by rewrite <- !app_assoc.
Qed.

Lemma join_or_blank sep cs : join sep (or_blank cs) = join sep cs.
Proof. by destruct cs. Qed.

Lemma or_blank_nil cs : or_blank cs <> [].
Proof. by destruct cs. Qed.

Lemma md_head_ok title heads dims libs cpu :
  heads = capital <$> dims ->
  table_head title heads libs cpu =
  str "## " ++ title ++ [10; 10] ++ md_head dims libs cpu ++ md_rule (length dims + length libs + (if cpu then 2 else 1)).
Proof.
  intros ->. unfold table_head, md_head, md_row, md_rule. rewrite length_fmap.
  rewrite !join_app by first [apply or_blank_nil | by destruct cpu; destruct libs | done].
  rewrite !join_or_blank, !replicate_add, !concat_app. destruct cpu; cbn [app join]; rewrite <- !app_assoc; reflexivity.
Qed.

Lemma split_nonempty sep l : split sep l <> [].
Proof. induction l as [| b l IH]; [done |]. cbn [split]. by destruct (b =? sep), (split sep l). Qed.

Lemma md_line_ok es st fam comp libs cpu label :
  reports es st -> libs <> [] -> table_row st fam comp libs cpu label = md_line es fam comp libs cpu label.
Proof.
  intros R Hl. unfold table_row, md_line, md_row, rowCells. cbv zeta.
  assert (forall A (f : list Z * list Z * list Z -> A), f <$> ((fun lib => cells st fam comp label lib) <$> libs)
    = (fun l => f (shown (last_of es (fam, label, comp, l)))) <$> libs) as Hc.
  { intros A f. rewrite <- list_fmap_compose. apply list_fmap_ext. intros i l _. unfold compose. by rewrite (cells_shown _ _ _ _ _ _ R). }
  rewrite !Hc. clear Hc. rewrite (list_fmap_ext row_cell dim_shown) by (intros i d _; apply row_cell_shown).
  rewrite !join_app by first [by destruct cpu | by destruct libs | done | intros E%fmap_nil_inv; by destruct (split_nonempty 47 label)].
  destruct cpu; cbn [app join]; rewrite <- !app_assoc; reflexivity.
Qed.

Lemma title_ok comp : title_of comp = md_title comp.
Proof. unfold title_of, md_title. by repeat case_bool_decide; repeat case_decide. Qed.

Lemma has_cpu_ok es st fam comp libs labels :
  reports es st ->
  (forall l, l ∈ libs <-> exists e, e ∈ es /\ e_family e = fam /\ e_comp e = comp /\ e_lib e = l) ->
  (forall l, l ∈ labels <-> exists e, e ∈ es /\ e_family e = fam /\ e_comp e = comp /\ e_label e = l) ->
  has_cpu st fam comp labels libs = true <-> exists e r, e ∈ es /\ e_family e = fam /\ e_comp e = comp /\
    last_of es (e_key e) = Some r /\ flt zero (Rs.cpu r) = true.
Proof.
  intros R Hlibs Hlabels. unfold has_cpu. rewrite existsb_exists. setoid_rewrite existsb_exists. setoid_rewrite (of_rows _ _ R). split.
  - intros (label & _ & lib & _ & H). destruct (last_of es (fam, label, comp, lib)) as [r |] eqn:E; [| done].
    pose proof E as E'. unfold last_of in E'. apply fmap_Some in E' as (e & He & Er). apply last_Some_elem_of in He.
    apply list_elem_of_In, filter_In in He as [He Hk]. apply bool_decide_eq_true in Hk.
    exists e, r. injection Hk as H1 H2 H3 H4. rewrite <- E. unfold e_key. rewrite H1, H2, H3, H4.
    split; [by apply list_elem_of_In | done].
  - intros (e & r & He & Hf & Hc & El & Hr). exists (e_label e). split; [apply list_elem_of_In, Hlabels; by exists e |].
    exists (e_lib e). split; [apply list_elem_of_In, Hlibs; by exists e |].
    change (fam, e_label e, comp, e_lib e) with (fam, e_label e, comp, e_lib e). rewrite <- Hf, <- Hc.
    change (e_family e, e_label e, e_comp e, e_lib e) with (e_key e). by rewrite El.
Qed.

Lemma filter_ext_in {A} (P Q : A -> Prop) `{!forall x, Decision (P x), !forall x, Decision (Q x)} (l : list A) :
  Forall (fun x => P x <-> Q x) l -> filter P l = filter Q l.
Proof. induction 1 as [| x l Hx _ IH]; [done |]. rewrite !filter_cons, IH. by repeat case_decide; tauto. Qed.

Lemma modes_ok es st fam : reports es st -> 47 ∉ fam -> comps_of st fam = modes es fam.
Proof.
  intros R Hf.
  assert (forall c, 47 ∉ c -> is_Some (rowLabels st !! fc_of fam c) <-> existsb (is_of fam c) es = true) as Hx.
  { intros c Hc. rewrite (present_iff es st fam c R Hf Hc), existsb_exists. unfold is_of. setoid_rewrite bool_decide_eq_true.
    by setoid_rewrite list_elem_of_In. }
  assert (47 ∉ str "false") as H0 by (by apply word_no_slash). unfold comps_of, modes.
  rewrite (bool_decide_ext _ _ (Hx _ H0)). case_bool_decide as E; destruct (existsb (is_of fam (str "false")) es); try done.
  apply filter_ext_in. apply Forall_forall. intros c Hc. by apply Hx, modes_no_slash.
Qed.

(** ** The program *)

(** A line as it can stand in the input: no line break, short enough, and no
    carriage return at its end. *)
Definition line_ok (l : list Z) : Prop := (10 ∉ l) /\ len l < 65536 /\ List.last l 0 <> 13.

Definition unlines (ls : list (list Z)) : list Z := concat ((.++ [10]) <$> ls).

Lemma scan_unlines ls : Forall line_ok ls -> scan (unlines ls) = (ls, true).
Proof.
  intros H. unfold scan. assert (split 10 (unlines ls) = ls ++ [[]]) as ->.
  { induction H as [| l ls (Hn & _ & _) _ IH]; [done |]. cbn [app].
    change (unlines (l :: ls)) with ((l ++ [10]) ++ unlines ls). rewrite <- app_assoc. cbn [app]. by rewrite split_found, IH. }
  induction H as [| l ls (_ & Hl & Hc) _ IH]; [done |]. cbn [app].
  assert (scan_lines (l :: (ls ++ [[]])) = let '(r, ok) := scan_lines (ls ++ [[]]) in (drop_cr l :: r, ok)) as ->.
  { destruct (Z.leb_spec 65536 (len l)); [lia |]. cbn [scan_lines]. destruct (Z.leb_spec 65536 (len l)); [lia |].
    destruct l; [| done]. by destruct (ls ++ [[]]) eqn:E; [apply app_eq_nil in E as [_ ?] |]. }
  rewrite IH. unfold drop_cr. do 2 f_equal. destruct (List.last l 0); try done. by repeat case_match.
Qed.

Section main.
Context (e : Rp.env) (texts : list (list Z)).

Local Abbreviation st := (read_all texts).
Local Abbreviation es := (entries texts).

Lemma family_of_entry fam : fam ∈ famOrder st <-> exists en, en ∈ es /\ e_family en = fam.
Proof using Type.
  rewrite (of_families _ _ (reports_all texts)), elem_of_firsts, list_elem_of_fmap.
  split; intros (en & ? & ?); by exists en.
Qed.

Lemma family_no_slash fam : fam ∈ famOrder st -> 47 ∉ fam.
Proof using Type.
  rewrite family_of_entry. intros (en & Hen & <-). by apply (proj1 (Forall_forall _ _) (entries_ok texts)) in Hen as [? _].
Qed.

(** Every dimension has a name. *)
Definition named (en : entry) : Prop := [] ∉ dim_key <$> e_dims en.

Lemma heads_named fam : Forall named es -> mapM head_of (slice_at (dimOrder st) fam) = Some (capital <$> first_dims es fam).
Proof using Type.
  intros Hn. rewrite (of_dims _ _ (reports_all texts)). assert ([] ∉ first_dims es fam) as H.
  { unfold first_dims. destruct (List.filter _ es) as [| en l] eqn:E; [apply not_elem_of_nil |].
    assert (In en (en :: l)) as Hen by (by left). rewrite <- E in Hen. apply filter_In in Hen as [Hen _].
    apply list_elem_of_In in Hen. by apply (proj1 (Forall_forall _ _) Hn) in Hen. }
  clear Hn. induction (first_dims es fam) as [| k ks IH]; [done |]. apply not_elem_of_cons in H as [Hk Hks].
  destruct k as [| b k]; [done |]. cbn [mapM mbind option_bind head_of fmap list_fmap]. by rewrite (IH Hks).
Qed.

Lemma table_made fam comp :
  Forall named es -> 47 ∉ fam -> 47 ∉ comp -> exists t, table st fam comp = Some t /\ table_of es fam comp t.
Proof using Type.
  intros Hn Hf Hc. pose proof (reports_all texts) as R. unfold table. rewrite (heads_named fam Hn). cbn [mbind option_bind].
  destruct (sorted_of_slot (less := by_rank) e_lib _ _ _ _ (of_libs _ _ R fam comp Hf Hc)) as [Nl Ml].
  destruct (sorted_of_slot (less := dimLess) e_label _ _ _ _ (of_labels _ _ R fam comp Hf Hc)) as [Nr Mr].
  fold (sorted_libs st (fc_of fam comp)) in Nl, Ml. fold (sorted_labels st (fc_of fam comp)) in Nr, Mr.
  pose proof (has_cpu_ok es st fam comp _ _ R Ml Mr) as Hcpu.
  assert (StronglySorted (fun a b => libRank a <= libRank b) (sorted_libs st (fc_of fam comp))) as Hs by (apply (stable_sort_sorted libRank)).
  assert (forall r, List.filter (fun l => libRank l =? r) (sorted_libs st (fc_of fam comp))
    = List.filter (fun l => libRank l =? r) (firsts (slot e_lib fam comp es))) as Hst.
  { intros r. rewrite <- (of_libs _ _ R fam comp Hf Hc). apply (stable_sort_stable libRank). }
  set (libs := sorted_libs st (fc_of fam comp)) in *. set (labels := sorted_labels st (fc_of fam comp)) in *.
  set (cpu := has_cpu st fam comp labels libs) in *. eexists. split; [reflexivity |]. exists libs, labels, cpu. split; [| done].
  rewrite (md_head_ok _ _ _ _ _ eq_refl), title_ok. unfold md_table. cbv zeta. rewrite <- !app_assoc. do 5 f_equal.
  f_equal. f_equal. apply list_fmap_ext. intros i label Hl. apply list_elem_of_lookup_2, Mr in Hl as (e' & He & ? & ? & _).
  apply md_line_ok; [done |]. intros Enil. assert (e_lib e' ∈ libs) as Hin by (apply Ml; by exists e').
  rewrite Enil in Hin. by apply elem_of_nil in Hin.
Qed.

Lemma tables_made fam :
  Forall named es -> 47 ∉ fam -> exists ts, tables st fam = Some (concat ts) /\ Forall2 (table_of es fam) (modes es fam) ts.
Proof using Type.
  intros Hn Hf. pose proof (reports_all texts) as R. unfold tables. rewrite <- (modes_ok es st fam R Hf).
  assert (Forall (fun comp => 47 ∉ comp) (comps_of st fam)) as Hc
    by (apply Forall_forall; intros comp; by apply (comps_no_slash es st fam comp R Hf)).
  enough (exists ts, mapM (table st fam) (comps_of st fam) = Some ts /\ Forall2 (table_of es fam) (comps_of st fam) ts) as (ts & -> & H)
    by (by exists ts).
  induction Hc as [| comp comps Hc _ (ts & E & IH)]; [by exists [] |]. destruct (table_made fam comp Hn Hf Hc) as (t & Et & Ht).
  exists (t :: ts). cbn [mapM mbind option_bind]. rewrite Et. cbn [mbind option_bind]. rewrite E. split; [done | by constructor].
Qed.

Lemma writeCharts_done ge fam subtitle rs :
  (forall name svg, Rp.writes e name svg = true) -> exists fs, Ch.writeCharts (Rp.writes e) ge fam subtitle rs = Some fs.
Proof using Type.
  intros Hw. unfold Ch.writeCharts. generalize (Ch.charts fam). intros specs. induction specs as [| spec specs [fs IH]]; [by exists [] |].
  cbn [Ch.write_specs]. case_bool_decide; [by exists fs |]. rewrite Hw, IH. by eexists.
Qed.

Lemma sections_done p fams out fs :
  Forall named es -> Forall (fun fam => 47 ∉ fam) fams -> (forall name svg, Rp.writes e name svg = true) ->
  exists ss fs', Rp.sections e st p fams out fs = inl (Some (out ++ concat ss, fs')) /\
    Forall2 (fun fam section => exists pre tables post, section = pre ++ concat tables ++ post /\
      Forall2 (table_of es fam) (modes es fam) tables) fams ss.
Proof using Type.
  intros Hn Hf Hw. revert out fs. induction Hf as [| fam fams Hf _ IH]; intros out fs; cbn [Rp.sections].
  { exists [], fs. by rewrite app_nil_r. }
  set (made := if Rp.svg e then _ else _). assert (exists new, made = Some new) as [new ->].
  { unfold made. destruct (Rp.svg e); [by apply writeCharts_done | by exists []]. }
  destruct (tables_made fam Hn Hf) as (ts & -> & Ht).
  set (intro := Rp.intro e p fam). set (embeds := concat _). set (setup := Rp.setup_text e p fam). set (reading := Rp.reading_text fam).
  destruct (IH (out ++ intro ++ embeds ++ setup ++ concat ts ++ reading) (fs ++ new)) as (ss & fs' & E & H).
  exists ((intro ++ embeds ++ setup ++ concat ts ++ reading) :: ss), fs'. split; [rewrite E; cbn [concat]; by rewrite <- !app_assoc |].
  constructor; [| done]. exists (intro ++ embeds ++ setup), ts, reading. split; [by rewrite <- !app_assoc | done].
Qed.
End main.

(** ** The committed run

    The ns/op number is all digits and dots: no unit is in it. *)

Lemma metric_decimal v unit : forallb is_decimal v = true -> metric v unit = zero.
Proof.
  intros Hv. unfold metric. destruct (search _ v) as [caps |] eqn:E; [| done].
  destruct (search_sound _ _ _ E) as (pre & s' & rest & -> & Hp). exfalso.
  inversion Hp as [| | ? ? ? ? ? w s ? ? _ _ Hl]; subst. inversion Hl as [| ? ? s0 ? ? _ |]; subst.
  rewrite !forallb_app in Hv. apply andb_prop in Hv as [_ Hv]. apply andb_prop in Hv as [_ Hv]. done.
Qed.

Lemma old_scores_zero texts k x : old_scores texts !! k = Some x -> is_zero x = true.
Proof.
  unfold old_scores. assert (forall old, (forall k x, old !! k = Some x -> is_zero x = true) ->
    forall k x, foldl old_score old texts !! k = Some x -> is_zero x = true) as H; [| by apply H].
  clear k x. induction texts as [| text texts IH]; intros old Hold; [exact Hold |]. cbn [foldl]. apply IH. clear IH. intros k x.
  unfold old_score. destruct (matches true line text) as [caps |] eqn:E; [| apply Hold].
  destruct (line_parts _ _ E) as (fam & name & procs & ns & rest & -> & _ & _ & _ & Hns). cbv zeta.
  rewrite !metric_decimal by done. intros [[_ <-] | [_ Hk]]%lookup_insert_Some; [done | by apply (Hold k)].
Qed.

Lemma silent committed rs : checkBaseline committed rs = Silent.
Proof.
  unfold checkBaseline. destruct committed as [text |]; [| done]. cbv zeta. case_bool_decide; [done |].
  assert (foldl (compare_record (old_scores (scan text).1)) ([], []) rs = ([], [])) as ->; [| done].
  induction rs as [| r rs IH]; [done |]. cbn [foldl]. unfold compare_record at 2.
  destruct (old_scores (scan text).1 !! _) as [prev |] eqn:E; [| exact IH]. by rewrite (old_scores_zero _ _ _ E).
Qed.

(** ** Properties *)

(** C37. A line printed as [go test] prints a benchmark's is read back as the
    cell it stands for: the family, the value of compress, the other
    dimensions in their order, the library between the last slash and the
    number of processors whatever dashes it has, and each number by its unit;
    and the name the comparison with the committed run looks up is the one
    that was printed. *)
Theorem bench_line_read c st :
  cell_ok c ->
  (let p := pv st in
   read_line st (cell_text c) = add (with_pv st {| p with procs := atoi_digits (c_procs c) |}) (cell_entry c)) /\
  (c_dims c <> [] -> cellName (e_record (cell_entry c)) = cell_name c).
Proof. intros Hc. split; [by apply cell_read | by apply cell_cellName]. Qed.

(** C36. Input of short lines with at least one benchmark line, each dimension
    with a name, gives a report when the charts can be written.  It has a
    section for each family of the input, in the order they came, and in it a
    table for each mode: the three known ones that have lines when some line of
    the family is uncompressed, else only the lines that name no mode.  A table
    has a column for each library and a row for each combination of dimensions
    some line of that family and mode has, each once and no other, the known
    libraries first, in their order, the others as they came; under a library a row shows the last line
    of that name, or that there is none, and so do the cells of the processor
    time, there if some line measured it, and of the allocations. *)
Theorem main_reports e texts :
  Forall line_ok texts -> entries texts <> [] -> Forall named (entries texts) -> (forall name svg, Rp.writes e name svg = true) ->
  exists out files, Rp.main e (unlines texts) = Rp.Done out files Silent /\ report_of (entries texts) out.
Proof.
  intros Hl He Hn Hw. pose proof (reports_all texts) as R. unfold Rp.main. rewrite scan_unlines by done.
  rewrite (bool_decide_eq_false_2 _ (rows_some _ _ R He)). cbn [negb orb]. rewrite silent.
  assert (Forall (fun fam => 47 ∉ fam) (famOrder (read_all texts))) as Hf
    by (apply Forall_forall; intros fam; apply family_no_slash).
  destruct (sections_done e texts (Rp.fill e (pv (read_all texts))) (famOrder (read_all texts)) [] [] Hn Hf Hw)
    as (ss & fs & -> & Hss). exists (concat ss), fs. split; [done |]. exists ss. split; [done |].
  by rewrite <- (of_families _ _ R).
Qed.

(** C38. The comparison with the committed run says nothing, whatever was
    committed and whatever was measured: it looks for the throughput of a
    committed line in its ns/op number, where there is none, so every
    committed score is zero and every cell is passed over. *)
Theorem checkBaseline_silent committed rs : checkBaseline committed rs = Silent.
Proof. apply silent. Qed.

(** ** Witnesses, on lines of the committed run *)

Definition demo : list (list Z) := [
  str "# commit: 5387555";
  str "cpu: AMD Ryzen 9 9950X3D 16-Core Processor";
  str "BenchmarkBroadcast/compress=false/size=256/conns=128/gorilla-8         	    6243	    191950 ns/op	 170.71 MB/s	      3246 cpu-ns/msg	    666841 msgs/s	   11761 B/op	      15 allocs/op";
  str "BenchmarkBroadcast/compress=false/size=256/conns=128/ews-8             	   15370	     77833 ns/op	 421.00 MB/s	      2475 cpu-ns/msg	   1644547 msgs/s	     386 B/op	       2 allocs/op";
  str "BenchmarkBroadcast/compress=false/size=4096/conns=2048/ews-8           	    1095	   1097231 ns/op	7645.25 MB/s	      2742 cpu-ns/msg	   1866517 msgs/s	    4960 B/op	       2 allocs/op";
  str "PASS"].

#[local] Instance named_dec en : Decision (named en).
Proof. unfold named. apply _. Defined.

#[local] Instance line_ok_dec l : Decision (line_ok l).
Proof. unfold line_ok. apply _. Defined.

Lemma demo_lines : Forall line_ok demo.
Proof. apply (bool_decide_unpack _). vm_compute. exact Logic.I. Qed.

Lemma demo_entries : entries demo <> [] /\ Forall named (entries demo).
Proof. split; [discriminate |]. apply (bool_decide_unpack _). vm_compute. exact Logic.I. Qed.

(** The table of the demo: ews left of gorilla although its line came later,
    and cells without a line. *)
Example demo_table : table (read_all demo) (str "Broadcast") (str "false") = Some (str "## Uncompressed

| Size | Conns | ews | gorilla | CPU/msg ews / gorilla | allocs/op ews / gorilla |
|---|---|---|---|---|---|
| 256 B | 128 | 1.64M msgs/s | 667k msgs/s | 2.5 µs / 3.2 µs | 2 / 15 (11 KB) |
| 4 KiB | 2048 | 1.87M msgs/s | n/a | 2.7 µs / n/a | 2 (4 KB) / n/a |

").
Proof. vm_compute. reflexivity. Qed.

(** The second of the demo's benchmark lines. *)
Definition demo_cell : cell :=
  mkCell (str "Broadcast") [(str "compress", str "false"); (str "size", str "256"); (str "conns", str "128")] (str "ews") (str "8")
    (str "             	   ") (str "15370") (str "	     ") (str "77833")
    [mkField (str " ") (str "421.00") (str "MB/s"); mkField (str "      ") (str "2475") (str "cpu-ns/msg");
     mkField (str "   ") (str "1644547") (str "msgs/s"); mkField (str "     ") (str "386") (str "B/op");
     mkField (str "       ") (str "2") (str "allocs/op")].

Example demo_cell_text : demo !! 3%nat = Some (cell_text demo_cell).
Proof. vm_compute. reflexivity. Qed.

Lemma demo_cell_ok : cell_ok demo_cell.
Proof.
  constructor; unfold plain, field_ok, all; apply (bool_decide_unpack _); vm_compute; exact Logic.I.
Qed.

Definition demo_env : Rp.env :=
  Rp.mkEnv (str "1s") true [] (str "2026-09-26") [] None (str "amd64") (str "go1.27") [] [] 8 None (fun _ _ => true).

Lemma bench_line_read_witness :
  (let p := pv empty_report in
   read_line empty_report (cell_text demo_cell) =
     add (with_pv empty_report {| p with procs := atoi_digits (c_procs demo_cell) |}) (cell_entry demo_cell)) /\
  (c_dims demo_cell <> [] -> cellName (e_record (cell_entry demo_cell)) = cell_name demo_cell).
Proof. apply (bench_line_read demo_cell empty_report demo_cell_ok). Defined.

(** The table the report has to have for the demo, and the one it prints for a
    family without dimensions: a blank column the rule does not count. *)
Example demo_md : md_table (entries demo) (str "Broadcast") (str "false") [str "ews"; str "gorilla"]
    [str "size=256/conns=128"; str "size=4096/conns=2048"] true = default [] (table (read_all demo) (str "Broadcast") (str "false")).
Proof. vm_compute. reflexivity. Qed.

Example no_dimensions : table (read_all [str "BenchmarkMask/ews-8   	 1000	 12.5 ns/op	 800.00 MB/s	 0 B/op	 0 allocs/op"])
    (str "Mask") [] = Some (str "## Results

|  | ews | allocs/op ews |
|---|---|
|  | 800 MB/s | 0 |

").
Proof. vm_compute. reflexivity. Qed.

Lemma main_reports_witness :
  exists out files, Rp.main demo_env (unlines demo) = Rp.Done out files Silent /\ report_of (entries demo) out.
Proof. exact (main_reports demo_env demo demo_lines (proj1 demo_entries) (proj2 demo_entries) (fun _ _ => eq_refl)). Defined.
